(* ===== verification/_CoqProject ===== *)
-Q . S2P
Prelude.v
Text.v
Profile.v
Fleet.v
Capacity.v
Ownership.v
Lifecycle.v
Json.v
Crypto.v
AuditChain.v
Snapshot.v
DnsFilter.v
Ingress.v
Network.v
NetPolicy.v
FleetClient.v
Bytes.v
GuestFiles.v
Image.v
Wire.v
GuestAgent.v
Prog.v
Firecracker.v
Pool.v
AttestParse.v
Attestation.v
Seal.v
KeyRelease.v
Protocol.v
PublicEvidence.v
Manager.v
Command.v
Resources.v
Actions.v
Handlers.v
Scenario.v
Supervisor.v
ApiAuth.v
ApiCore.v
ApiGrpc.v
ApiRest.v
Api.v
Deployment.v
MessageCodec.v
StackDemo.v
Startup.v
