(* ===== verification/Prelude.v ===== *)
(** * NeuronEdge Enclave: a verification development

    NeuronEdge Enclave runs workloads in Firecracker micro-VMs, or in one
    confidential sandbox, on one host.  Clients talk to an API daemon
    ([src/crates/ne-api]) over gRPC or REST.  The daemon sends one request per
    line over a Unix socket to a privileged supervisor ([ne-supervisor]), which
    creates, snapshots, forks and destroys workspaces, accounts for their
    capacity, keeps a warm pool of booted machines, wires their network, proves
    their identity with attestation evidence, and signs everything it does into
    an audit log.  Inside a machine the guest agent ([ne-guest-agent]) runs
    commands and serves files.  Around these sit an ingress proxy
    ([ne-ingress]), a DNS filter per workspace ([ne-dns-filter]), sealed
    snapshots ([ne-seal]) whose key an attestation gate releases, the evidence
    formats and verifiers ([ne-attestation]), a client that reports capacity to a
    fleet service, and the wire types shared by all of them ([ne-protocol]).

    ** The files

    Foundations:
    - [Prelude] (this file): results, the state-and-error monad [M], checked
      machine integers, the tactics [unfold_m], [case_all], [reflect_Z].
    - [Text], [Bytes]: Rust strings and byte buffers, [trim], [split],
      [parse::<uN>], [Display] of integers, UTF-8, slices and fixed-width integers.
    - [Json], [Crypto]: the interfaces of the third-party serialiser and
      cryptography as classes of operations with their laws, and toy instances
      that satisfy them.
    - [Prog]: programs of atomic actions on a shared state, run alone or
      interleaved, and a program logic for invariants of all interleavings.

    Protocol and data:
    - [Profile], [Fleet], [Protocol], [PublicEvidence]: [profile.rs], [fleet.rs],
      [supervisor.rs] and [attestation.rs] of [ne-protocol].
    - [AuditChain], [Snapshot]: the signed event chain and the signed manifests,
      on both sides ([ne-protocol] and [ne-supervisor]).
    - [Wire]: the line protocol of both channels, server and client
      ([ipc.rs], [util.rs], [supervisor_client.rs], the guest calls of
      [firecracker.rs]).

    The supervisor ([ne-supervisor/src]):
    - [Capacity], [Ownership]: [capacity.rs], the ledger and its guards.
    - [Lifecycle]: the task tracker, the leases and the nonce ring of [workspace.rs].
    - [Pool]: [pool.rs].
    - [Network], [NetPolicy]: [network.rs].
    - [Image]: [image.rs].
    - [Firecracker]: [firecracker.rs], the driver of one jailed machine.
    - [Manager], [Command]: [workspace.rs] and [command.rs], every handler and
      the dispatcher, as programs over the shared state [World].
    - [Resources], [Actions], [Handlers], [Supervisor]: the invariant of that
      state under any interleaving of handlers, background tasks and the
      environment; [Scenario] has concrete instances.
    - [Startup]: [serve.rs], [attestation_factory.rs] and [signing.rs], from the
      configuration to a supervisor that serves.

    The guest:
    - [GuestFiles], [GuestAgent]: [files.rs], [linux_main.rs] and [identity.rs]
      of [ne-guest-agent] over a file system with links.

    Attestation and sealing:
    - [AttestParse], [Attestation]: [ne-attestation], parsers, certificate chain,
      providers and verifier.
    - [Seal], [KeyRelease]: [ne-seal] and [ne-supervisor/src/seal.rs].

    The edge:
    - [DnsFilter], [Ingress]: [ne-dns-filter] and [ne-ingress].
    - [FleetClient]: [ne-api/src/fleet_client.rs].
    - [ApiAuth], [ApiCore], [ApiGrpc], [ApiRest], [Api]: [ne-api/src] ([auth.rs],
      [core.rs], [server.rs] with [runtime.proto], [rest.rs], [lib.rs]) and
      [ne/src/apikey.rs]; [Api] has the theorems about both front doors.

    The whole:
    - [Deployment]: the API daemon connected to the supervisor's socket, behind
      which dispatcher, manager and guests run; theorems that follow one request
      through every layer.  [MessageCodec] is a concrete codec of the socket's
      messages and [StackDemo] evaluates the theorems on concrete requests.

    ** How code becomes definitions

    Names follow the source; the variant [V] of an enum [T] is [T_V], and a
    field or method whose name is taken is prefixed by its type.  Code that
    mutates a locked state and can return early is a function in [M S E A]; a
    mutation made before an error is kept.  A [Mutex] that poisons is a flag of
    the state.  Concurrency is explicit: an asynchronous handler is a [Prog], one
    action per critical section or awaited effect, drops of guards included, and
    the theorems about the supervisor quantify over all interleavings; where a
    lookup happens under two separate locks, or several system calls look at one
    path, the definition takes the state at each moment.  A [uN] is a [Z] with
    its range, and every checked, saturating or wrapping operation is written
    out.  What an outside call returned (a file operation, a spawned command, a
    reply, a clock, a random draw) is an argument of the definition, and the
    theorems hold for every value of it.

    ** What the theorems show

    - Supervisor: in every interleaving each jailed process has one owner, the
      number of processes is bounded by the ceiling, registry and ledger agree
      (a snapshotting mark is left behind only when the ledger failed closed), at
      most one confidential sandbox is held (others that may run were given up
      without their exit having been seen), the warm pool keeps its bounds, and
      an idle supervisor leaks nothing.  A supervisor that starts is closed and
      starts in the initial state of these invariants.
    - Capacity, lifecycle, pool: every live guard owns exactly one ledger entry,
      a snapshot of the ledger is exactly the inventory and is refused exactly on
      a poisoned or faulted ledger and beyond the limits of the wire, no wake-up
      is lost at shutdown although the waiter creates its notification, reads
      the counter and awaits in separate steps, leases are exclusive, the replay
      window is exact.
    - Driver and images: a launch or restore yields a running machine, with the
      requested images, or leaves no trace, except for the tree whose removal
      failed or of a process that could not be confirmed dead; termination is
      reported only after the exit was seen; a resolved image has the requested
      digest whatever happens to the file system meanwhile.
    - Whole stack: a file put over the API is the file got back; a fork has the
      identity its client is told; a challenge is answered with evidence that
      verifies, once; the audit trail a client lists holds every recorded report
      of the manager, the relays and the ingress edge since the log was opened,
      after the events it held then, and verifies as long as no write was torn;
      the advertised capabilities are those the dispatcher enforces; both front
      doors agree; only requests the protocol can represent are sent; an exposed
      daemon answers nobody without a key, unless development mode and the
      override for public binds ask for it.
    - Attestation and sealing: the verifier accepts exactly trusted evidence for
      the request; sealing and unsealing round trip, and plaintext needs an open
      gate; a file that opens under a key gives what was sealed under it, chunk
      by chunk, or holds a forged record; conversions of evidence invert.
    - Audit and snapshots: verification is equivalent to the chain predicate;
      emission and recovery keep every log verifiable; the pinned verifier of
      manifests accepts exactly what the pinned key signed over the files present.
    - Guest: a write is atomic and stays in the jail, and can leave at most its
      own temporary file when it fails; calls over the channel are the local
      calls, an identity reset is complete.
    - Line protocol: whatever bytes arrive and whichever writes fail, a connection
      ends and has answered the lines it got in lockstep.
    - DNS, ingress, network: the parsers accept exactly their grammars; a query
      or request leaves only when the policy allows it; slots are exclusive and
      teardown undoes setup.
    - Fleet: requests go out in order, each until answered, with bounded pauses.
    - Some theorems state defects: [large_files_are_unwritable],
      [interrupted_first_start], [failed_start_leaves_refill_running],
      [pause_is_listed_but_unsupported], [failed_setups_exhaust_pool],
      [late_write_error_breaks_chain], [second_question_is_not_checked],
      [largest_cap_rejects_every_call], [swapped_files_unseal],
      [refused_write_leaves_the_jail].

    ** Fuel and bounds

    [walk] follows 40 symbolic links, the limit of the kernel.  [parse_labels],
    [words], [read_headers] and [split_loop] take the length of their input as
    fuel, and every turn that continues consumes at least one byte; for
    [parse_labels] and [split_loop] the theorems [parse_query_round_trip] and
    [der_split_exact] show that it is enough.  [show_uint] prints up to 20
    digits, which covers [u64]; [first_free] scans the 253 slots of the pool.  The
    loops that read from a stream are defined by well-founded recursion on what
    is left.  A loop that waits (readiness polls, the exit of a child, wake-ups of
    the refill loop) runs over a list of what each turn meets, of any length.

    ** Not modelled

    The privacy router ([ne-privacy-router], an HTTP proxy around a detector from
    another crate), the command line and the installer ([ne/src] but for
    [apikey.rs]), the image builder ([ne-image]), the WebAssembly wrapper
    ([ne-enclave-wasm]), the SSH and SFTP channels of the confidential sandbox
    ([openshell.rs]), the benchmarks and the client SDKs.  Pure IO: sockets, TLS,
    process control.  Unicode lower-casing, URL parsing, header-name parsing,
    JSON and protobuf encoding, hashing, ciphers and signatures belong to other
    crates and are parameters.  The relays of the network filters and the audit
    sink of the ingress edge are not modelled; what they report reaches the audit
    log as steps of the environment. *)

From Stdlib Require Export ZArith Lia.
From stdpp Require Export base numbers gmap strings list.

#[export] Set Warnings "-clear-no-such-hyp".

(** ** Results and the state-and-error monad *)

(** Rust's [Result<A, E>]. *)
Inductive result (E A : Type) : Type :=
| Ok (a : A)
| Err (e : E).
Arguments Ok {E A} a.
Arguments Err {E A} e.

Definition is_ok {E A} (r : result E A) : bool :=
  match r with Ok _ => true | Err _ => false end.

(** [Option::ok_or]. *)
Definition ok_or {E A} (o : option A) (e : E) : result E A :=
  match o with Some a => Ok a | None => Err e end.

(** [Result::map_err]. *)
Definition map_err {E F A} (f : E -> F) (r : result E A) : result F A :=
  match r with Ok a => Ok a | Err e => Err (f e) end.

#[global] Instance result_ret {E} : MRet (result E) := fun A a => Ok a.
#[global] Instance result_bind {E} : MBind (result E) :=
  fun A B f r => match r with Ok a => f a | Err e => Err e end.

#[global] Instance result_eq_dec {E A} `{EqDecision E, EqDecision A} :
  EqDecision (result E A).
Proof. solve_decision. Defined.

(** Code that mutates a state [S] behind a lock and can return early with an
    error.  A mutation made before the error is kept, as in the source. *)
Definition M (S E A : Type) : Type := S -> result E A * S.

#[global] Instance M_ret {S E} : MRet (M S E) := fun A a s => (Ok a, s).
#[global] Instance M_bind {S E} : MBind (M S E) :=
  fun A B f m s =>
    match m s with
    | (Ok a, s') => f a s'
    | (Err e, s') => (Err e, s')
    end.

Definition get {S E} : M S E S := fun s => (Ok s, s).
Definition put {S E} (s : S) : M S E unit := fun _ => (Ok tt, s).
Definition modify {S E} (f : S -> S) : M S E unit := fun s => (Ok tt, f s).
Definition throw {S E A} (e : E) : M S E A := fun s => (Err e, s).
Definition lift {S E A} (r : result E A) : M S E A := fun s => (r, s).

Declare Scope rust_scope.
Delimit Scope rust_scope with rust.
(** [m ;;; k]: run [m] for its effect, then [k]. *)
Notation "m ;;; k" := (mbind (fun _ : unit => k) m)
  (at level 100, k at level 200, right associativity) : rust_scope.
(** [guard? b else e]: the early return [if b { return Err(e) }]. *)
Notation "'fail_if' b 'with' e" := (if b then throw e else mret tt)
  (at level 10, b at level 200, e at level 9) : rust_scope.
Open Scope rust_scope.

(** ** Machine integers

    A [uN] is a [Z] together with its range; the checked operations are the
    ones the source calls. *)
Open Scope Z_scope.

Definition U8_MAX : Z := 255.
Definition U16_MAX : Z := 65535.
Definition U32_MAX : Z := 4294967295.
Definition U64_MAX : Z := 18446744073709551615.
(** The program targets 64-bit Linux hosts. *)
Definition USIZE_MAX : Z := U64_MAX.

Definition in_range (max z : Z) : Prop := 0 <= z <= max.
#[global] Instance in_range_dec max z : Decision (in_range max z).
Proof. unfold in_range. apply _. Defined.

Definition checked_add (max a b : Z) : option Z :=
  if a + b <=? max then Some (a + b) else None.
Definition checked_sub (a b : Z) : option Z :=
  if b <=? a then Some (a - b) else None.
Definition checked_mul (max a b : Z) : option Z :=
  if a * b <=? max then Some (a * b) else None.
Definition saturating_add (max a b : Z) : Z := Z.min max (a + b).
Definition saturating_sub (a b : Z) : Z := Z.max 0 (a - b).
(** [uN::try_from] of a non-negative value. *)
Definition try_into (max z : Z) : option Z :=
  if z <=? max then Some z else None.

#[global] Arguments checked_add : simpl never.
#[global] Arguments checked_sub : simpl never.
#[global] Arguments checked_mul : simpl never.
#[global] Arguments try_into : simpl never.

Lemma checked_add_Some max a b c :
  checked_add max a b = Some c <-> c = a + b /\ a + b <= max.
Proof. unfold checked_add. destruct (Z.leb_spec (a + b) max); naive_solver lia. Qed.
Lemma checked_add_None max a b : checked_add max a b = None <-> max < a + b.
Proof. unfold checked_add. destruct (Z.leb_spec (a + b) max); naive_solver lia. Qed.
Lemma checked_sub_Some a b c : checked_sub a b = Some c <-> c = a - b /\ b <= a.
Proof. unfold checked_sub. destruct (Z.leb_spec b a); naive_solver lia. Qed.
Lemma checked_sub_None a b : checked_sub a b = None <-> a < b.
Proof. unfold checked_sub. destruct (Z.leb_spec b a); naive_solver lia. Qed.
Lemma checked_mul_Some max a b c :
  checked_mul max a b = Some c <-> c = a * b /\ a * b <= max.
Proof. unfold checked_mul. destruct (Z.leb_spec (a * b) max); naive_solver lia. Qed.
Lemma try_into_Some max a c : try_into max a = Some c <-> c = a /\ a <= max.
Proof. unfold try_into. destruct (Z.leb_spec a max); naive_solver lia. Qed.

(** ** Inverting result chains *)

(** Split a chain of validation steps into the facts each one checks. *)
(** A value together with the equation that names it, for [with]-clauses. *)
Definition inspect {T} (a : T) : {b | a = b} := exist _ a eq_refl.
Lemma bind_ok {E A B} (m : result E A) (f : A -> result E B) b :
  (m ≫= f) = Ok b <-> exists a, m = Ok a /\ f a = Ok b.
Proof. unfold mbind, result_bind. destruct m; naive_solver. Qed.
Lemma check_ok {E} (b : bool) (e : E) :
  (if b then Err e else Ok tt) = Ok tt <-> b = false.
Proof. destruct b; naive_solver. Qed.
Lemma bind_unit_ok {E B} (m : result E unit) (f : unit -> result E B) b :
  (m ≫= f) = Ok b <-> m = Ok tt /\ f tt = Ok b.
Proof. rewrite bind_ok. split; [intros ([] & ? & ?)|intros []]; eauto. Qed.

Lemma ok_or_ok {E A} (o : option A) (e : E) a : ok_or o e = Ok a <-> o = Some a.
Proof. destruct o; naive_solver. Qed.
Lemma map_err_ok {E F A} (f : E -> F) (r : result E A) a : map_err f r = Ok a <-> r = Ok a.
Proof. destruct r; naive_solver. Qed.

(** ** Automation *)

(** The development's hint database: well-formedness preservation lemmas. *)
Create HintDb enclave.
Create Rewrite HintDb enclave_eq.

(** Unfold the monad and split on the tests of the code, innermost first. *)
Ltac unfold_m :=
  unfold mbind, mret, M_bind, M_ret, result_bind, result_ret,
    get, put, modify, throw, lift in *; cbn in *.
Ltac case_step :=
  match goal with
  | H : context [match ?x with _ => _ end] |- _ =>
      lazymatch x with context [match _ with _ => _ end] => fail | _ => destruct x eqn:?E end
  | |- context [match ?x with _ => _ end] =>
      lazymatch x with context [match _ with _ => _ end] => fail | _ => destruct x eqn:?E end
  end.
Ltac case_all := repeat (case_step; simplify_eq/=).
Ltac reflect_Z :=
  repeat match goal with
  | H : (_ <=? _) = true |- _ => apply Z.leb_le in H
  | H : (_ <=? _) = false |- _ => apply Z.leb_gt in H
  | H : (_ <? _) = true |- _ => apply Z.ltb_lt in H
  | H : (_ <? _) = false |- _ => apply Z.ltb_ge in H
  | H : (_ =? _) = true |- _ => apply Z.eqb_eq in H
  | H : (_ =? _) = false |- _ => apply Z.eqb_neq in H
  | H : checked_add _ _ _ = Some _ |- _ => apply checked_add_Some in H as [-> H]
  | H : checked_add _ _ _ = None |- _ => apply checked_add_None in H
  | H : checked_sub _ _ = Some _ |- _ => apply checked_sub_Some in H as [-> H]
  | H : checked_sub _ _ = None |- _ => apply checked_sub_None in H
  | H : try_into _ _ = Some _ |- _ => apply try_into_Some in H as [-> H]
  end.
