(* ===== verification/Text.v ===== *)
(** * Rust strings and byte buffers

    A Rust [str]/[String] is a Stdlib [string]: a sequence of bytes that is
    valid UTF-8.  [len], [split], [strip_prefix] and the like are byte
    operations in Rust too; the two operations that look at Unicode scalar
    values are [trim] (its table of white space is written out as UTF-8
    sequences) and [to_lowercase] (a parameter of the components that call it,
    fixed on ASCII).  A [&[u8]]/[Vec<u8>] is a list of [Z], each in 0..=255. *)

From S2P Require Import Prelude.
From Stdlib Require Export Ascii.

#[global] Arguments String.append !_ _ : simpl nomatch.

(** ** Characters *)

Definition byte_of (c : ascii) : Z := Z.of_N (N_of_ascii c).
Definition char_of (b : Z) : ascii := ascii_of_N (Z.to_N b).

Definition in_class (lo hi : Z) (c : ascii) : bool :=
  (lo <=? byte_of c) && (byte_of c <=? hi).
Definition is_ascii_digit : ascii -> bool := in_class 48 57.
Definition is_ascii_lowercase : ascii -> bool := in_class 97 122.
Definition is_ascii_uppercase : ascii -> bool := in_class 65 90.
Definition is_ascii_alphanumeric (c : ascii) : bool :=
  is_ascii_digit c || is_ascii_lowercase c || is_ascii_uppercase c.
Definition is_ascii_graphic : ascii -> bool := in_class 33 126.
Definition is_ascii : ascii -> bool := in_class 0 127.
Definition to_ascii_lower (c : ascii) : ascii :=
  if is_ascii_uppercase c then char_of (byte_of c + 32) else c.

(** ** Strings *)

Definition len (s : string) : Z := Z.of_nat (String.length s).

Fixpoint all_chars (p : ascii -> bool) (s : string) : bool :=
  match s with
  | EmptyString => true
  | String c r => p c && all_chars p r
  end.
Fixpoint any_char (p : ascii -> bool) (s : string) : bool :=
  match s with
  | EmptyString => false
  | String c r => p c || any_char p r
  end.
(** [str::contains(char)]. *)
Definition contains_char (c : ascii) (s : string) : bool := any_char (Ascii.eqb c) s.
Fixpoint map_chars (f : ascii -> ascii) (s : string) : string :=
  match s with
  | EmptyString => EmptyString
  | String c r => String (f c) (map_chars f r)
  end.
(** [str::to_ascii_lowercase]. *)
Definition to_ascii_lowercase : string -> string := map_chars to_ascii_lower.
Definition is_empty (s : string) : bool := match s with EmptyString => true | _ => false end.

(** [str::strip_prefix]. *)
Fixpoint strip_prefix (p s : string) : option string :=
  match p, s with
  | EmptyString, _ => Some s
  | String a p', String b s' => if Ascii.eqb a b then strip_prefix p' s' else None
  | String _ _, EmptyString => None
  end.
(** [str::strip_suffix]. *)
Fixpoint strip_suffix (suf s : string) : option string :=
  if String.eqb s suf then Some EmptyString else
  match s with
  | EmptyString => None
  | String a r => match strip_suffix suf r with Some p => Some (String a p) | None => None end
  end.
Definition ends_with (suf s : string) : bool :=
  match strip_suffix suf s with Some _ => true | None => false end.
Definition starts_with (p s : string) : bool :=
  match strip_prefix p s with Some _ => true | None => false end.

(** [str::split(char)]: always at least one piece. *)
Fixpoint split_on (c : ascii) (s : string) : list string :=
  match s with
  | EmptyString => [EmptyString]
  | String a r =>
      if Ascii.eqb a c then EmptyString :: split_on c r
      else match split_on c r with
           | [] => [String a EmptyString]
           | h :: t => String a h :: t
           end
  end.
(** [str::split_once(char)]: cut at the first occurrence. *)
Fixpoint split_once (c : ascii) (s : string) : option (string * string) :=
  match s with
  | EmptyString => None
  | String a r =>
      if Ascii.eqb a c then Some (EmptyString, r)
      else match split_once c r with
           | Some (x, y) => Some (String a x, y)
           | None => None
           end
  end.
(** [[&str]::join]. *)
Fixpoint join (sep : string) (l : list string) : string :=
  match l with
  | [] => EmptyString
  | [x] => x
  | x :: r => x +:+ sep +:+ join sep r
  end.
(** [str::trim_end_matches(char)]. *)
Fixpoint trim_end_matches (c : ascii) (s : string) : string :=
  match s with
  | EmptyString => EmptyString
  | String a r =>
      match trim_end_matches c r with
      | EmptyString => if Ascii.eqb a c then EmptyString else String a EmptyString
      | r' => String a r'
      end
  end.

(** [str::trim].  Unicode [White_Space] as UTF-8: U+0009..U+000D, U+0020,
    U+0085, U+00A0, U+1680, U+2000..U+200A, U+2028, U+2029, U+202F, U+205F,
    U+3000. *)
Definition is_ws1 (a : Z) : bool := ((9 <=? a) && (a <=? 13)) || (a =? 32).
Definition is_ws2 (a b : Z) : bool := (a =? 194) && ((b =? 133) || (b =? 160)).
Definition is_ws3 (a b c : Z) : bool :=
  ((a =? 225) && (b =? 154) && (c =? 128)) ||
  ((a =? 226) && (b =? 128) &&
     (((128 <=? c) && (c <=? 138)) || (c =? 168) || (c =? 169) || (c =? 175))) ||
  ((a =? 226) && (b =? 129) && (c =? 159)) ||
  ((a =? 227) && (b =? 128) && (c =? 128)).

(** Drop the white space at the front of a list of bytes. *)
Fixpoint skip_ws (l : list Z) : list Z :=
  match l with
  | [] => []
  | a :: r =>
      if is_ws1 a then skip_ws r
      else match r with
           | [] => l
           | b :: r' =>
               if is_ws2 a b then skip_ws r'
               else match r' with
                    | [] => l
                    | c :: r'' => if is_ws3 a b c then skip_ws r'' else l
                    end
           end
  end.
(** The same on a reversed list, for the white space at the end. *)
Fixpoint skip_ws_rev (l : list Z) : list Z :=
  match l with
  | [] => []
  | a :: r =>
      if is_ws1 a then skip_ws_rev r
      else match r with
           | [] => l
           | b :: r' =>
               if is_ws2 b a then skip_ws_rev r'
               else match r' with
                    | [] => l
                    | c :: r'' => if is_ws3 c b a then skip_ws_rev r'' else l
                    end
           end
  end.
Fixpoint bytes_of (s : string) : list Z :=
  match s with EmptyString => [] | String c r => byte_of c :: bytes_of r end.
Fixpoint string_of (l : list Z) : string :=
  match l with [] => EmptyString | b :: r => String (char_of b) (string_of r) end.
Definition trim (s : string) : string :=
  string_of (rev (skip_ws_rev (rev (skip_ws (bytes_of s))))).

(** ** [uN::from_str]: an optional [+], then one or more digits, in range. *)
Fixpoint parse_digits (max acc : Z) (s : string) : option Z :=
  match s with
  | EmptyString => Some acc
  | String c r =>
      if is_ascii_digit c then
        let acc' := acc * 10 + (byte_of c - 48) in
        if acc' <=? max then parse_digits max acc' r else None
      else None
  end.
Definition parse_uint (max : Z) (s : string) : option Z :=
  match s with
  | EmptyString => None
  | String c r =>
      if Ascii.eqb c "+" then
        match r with EmptyString => None | _ => parse_digits max 0 r end
      else parse_digits max 0 s
  end.

(** ** [Display] of an unsigned integer (at most 20 digits up to [u64]). *)
Definition show_digit (d : Z) : string := String (char_of (48 + d)) EmptyString.
Fixpoint show_digits (fuel : nat) (n : Z) : string :=
  match fuel with
  | O => EmptyString
  | S f => (if n <? 10 then EmptyString else show_digits f (n / 10)) +:+ show_digit (n mod 10)
  end.
Definition show_uint (n : Z) : string := show_digits 20 n.
#[global] Arguments show_uint : simpl never.

(** ** UTF-8 validation ([std::str::from_utf8]) *)
Definition is_cont (b : Z) : bool := (128 <=? b) && (b <=? 191).
Fixpoint utf8_valid (l : list Z) : bool :=
  match l with
  | [] => true
  | a :: r =>
      if a <=? 127 then utf8_valid r
      else match r with
      | [] => false
      | b :: r1 =>
          if (194 <=? a) && (a <=? 223) then is_cont b && utf8_valid r1
          else match r1 with
          | [] => false
          | c :: r2 =>
              if (224 <=? a) && (a <=? 239) then
                (if a =? 224 then (160 <=? b) && (b <=? 191)
                 else if a =? 237 then (128 <=? b) && (b <=? 159)
                 else is_cont b) && is_cont c && utf8_valid r2
              else match r2 with
              | [] => false
              | d :: r3 =>
                  if (240 <=? a) && (a <=? 244) then
                    (if a =? 240 then (144 <=? b) && (b <=? 191)
                     else if a =? 244 then (128 <=? b) && (b <=? 143)
                     else is_cont b) && is_cont c && is_cont d && utf8_valid r3
                  else false
              end
          end
      end
  end.
Definition from_utf8 (l : list Z) : option string :=
  if utf8_valid l then Some (string_of l) else None.

(** [String::from_utf8_lossy]: each maximal invalid sequence becomes U+FFFD. *)
Definition in_bytes (lo hi b : Z) : bool := (lo <=? b) && (b <=? hi).
(** The second byte a leading byte of a three- or four-byte sequence allows. *)
Definition second3 (a b : Z) : bool :=
  if a =? 224 then in_bytes 160 191 b else if a =? 237 then in_bytes 128 159 b else is_cont b.
Definition second4 (a b : Z) : bool :=
  if a =? 240 then in_bytes 144 191 b else if a =? 244 then in_bytes 128 143 b else is_cont b.
Definition REPLACEMENT : list Z := [239; 191; 189].
Fixpoint utf8_lossy (l : list Z) : list Z :=
  match l with
  | [] => []
  | a :: r =>
      if a <=? 127 then a :: utf8_lossy r
      else if in_bytes 194 223 a then
        match r with
        | b :: r1 => if is_cont b then a :: b :: utf8_lossy r1 else REPLACEMENT ++ utf8_lossy r
        | [] => REPLACEMENT
        end
      else if in_bytes 224 239 a then
        match r with
        | b :: r1 =>
            if second3 a b then
              match r1 with
              | c :: r2 => if is_cont c then a :: b :: c :: utf8_lossy r2 else REPLACEMENT ++ utf8_lossy r1
              | [] => REPLACEMENT
              end
            else REPLACEMENT ++ utf8_lossy r
        | [] => REPLACEMENT
        end
      else if in_bytes 240 244 a then
        match r with
        | b :: r1 =>
            if second4 a b then
              match r1 with
              | c :: r2 =>
                  if is_cont c then
                    match r2 with
                    | d :: r3 =>
                        if is_cont d then a :: b :: c :: d :: utf8_lossy r3 else REPLACEMENT ++ utf8_lossy r2
                    | [] => REPLACEMENT
                    end
                  else REPLACEMENT ++ utf8_lossy r1
              | [] => REPLACEMENT
              end
            else REPLACEMENT ++ utf8_lossy r
        | [] => REPLACEMENT
        end
      else REPLACEMENT ++ utf8_lossy r
  end.

(** ** Lemmas *)

Lemma byte_of_range c : 0 <= byte_of c <= 255.
Proof.
  unfold byte_of. split; [lia|].
  pose proof (N_ascii_bounded c). lia.
Qed.
Lemma char_of_byte_of c : char_of (byte_of c) = c.
Proof. unfold char_of, byte_of. rewrite N2Z.id. apply ascii_N_embedding. Qed.
Lemma byte_of_char_of b : 0 <= b <= 255 -> byte_of (char_of b) = b.
Proof. intros H. unfold byte_of, char_of. rewrite N_ascii_embedding; lia. Qed.

Lemma bytes_of_app s t : bytes_of (s +:+ t) = bytes_of s ++ bytes_of t.
Proof. induction s; simpl; by f_equal. Qed.
Lemma string_of_app l k : string_of (l ++ k) = string_of l +:+ string_of k.
Proof. induction l; simpl; by f_equal. Qed.
Lemma string_of_bytes_of s : string_of (bytes_of s) = s.
Proof. induction s; simpl; [done|]. by rewrite char_of_byte_of, IHs. Qed.
Lemma bytes_of_string_of l :
  Forall (fun b => 0 <= b <= 255) l -> bytes_of (string_of l) = l.
Proof. induction 1; simpl; [done|]. by rewrite byte_of_char_of, IHForall. Qed.
Lemma length_bytes_of s : length (bytes_of s) = String.length s.
Proof. induction s; simpl; auto. Qed.

Lemma string_app_nil_r s : s +:+ EmptyString = s.
Proof. induction s; simpl; [done|]. by rewrite IHs. Qed.
Lemma len_app s t : len (s +:+ t) = len s + len t.
Proof. unfold len. induction s; simpl; lia. Qed.

Lemma len_nonneg s : 0 <= len s.
Proof. unfold len. lia. Qed.
Lemma len_zero s : len s = 0 -> s = EmptyString.
Proof. destruct s; [done|]. unfold len. simpl. lia. Qed.
Lemma all_chars_app p s t : all_chars p (s +:+ t) = all_chars p s && all_chars p t.
Proof. induction s; simpl; [done|]. by rewrite IHs, andb_assoc. Qed.
Lemma any_char_app p s t : any_char p (s +:+ t) = any_char p s || any_char p t.
Proof. induction s; simpl; [done|]. by rewrite IHs, orb_assoc. Qed.
Lemma map_chars_app f s t : map_chars f (s +:+ t) = map_chars f s +:+ map_chars f t.
Proof. induction s; simpl; [done|]. by rewrite IHs. Qed.
Lemma len_map_chars f s : len (map_chars f s) = len s.
Proof. unfold len. induction s; simpl; [done|]. lia. Qed.
Lemma all_chars_impl (p q : ascii -> bool) s :
  (forall c, p c = true -> q c = true) -> all_chars p s = true -> all_chars q s = true.
Proof.
  intros Himpl. induction s as [|c s IH]; simpl; [done|].
  rewrite !andb_true_iff. naive_solver.
Qed.
(** A property of one character class excludes a character outside it. *)
Lemma all_chars_not_contains (p : ascii -> bool) c s :
  p c = false -> all_chars p s = true -> contains_char c s = false.
Proof.
  intros Hc. unfold contains_char. induction s as [|a s IH]; simpl; [done|].
  rewrite andb_true_iff. intros [Ha Hs]. rewrite IH by done.
  destruct (Ascii.eqb_spec c a); [congruence|done].
Qed.

Lemma to_ascii_lower_idemp c : to_ascii_lower (to_ascii_lower c) = to_ascii_lower c.
Proof.
  unfold to_ascii_lower. destruct (is_ascii_uppercase c) eqn:E; [|by rewrite E].
  unfold is_ascii_uppercase, in_class in *. apply andb_true_iff in E as [E1 E2].
  apply Z.leb_le in E1, E2. rewrite byte_of_char_of by lia.
  destruct (Z.leb_spec 65 (byte_of c + 32)), (Z.leb_spec (byte_of c + 32) 90); simpl; auto; lia.
Qed.
Lemma to_ascii_lowercase_idemp s :
  to_ascii_lowercase (to_ascii_lowercase s) = to_ascii_lowercase s.
Proof.
  unfold to_ascii_lowercase. induction s as [|c s IH]; simpl; [done|].
  by rewrite to_ascii_lower_idemp, IH.
Qed.

Lemma strip_prefix_Some p s r : strip_prefix p s = Some r <-> s = p +:+ r.
Proof.
  revert s. induction p as [|a p IH]; intros s; simpl; [naive_solver|].
  destruct s as [|b s]; [naive_solver|].
  destruct (Ascii.eqb_spec a b) as [->|Hne]; [rewrite IH|]; naive_solver.
Qed.
Lemma starts_with_spec p s : starts_with p s = true <-> exists r, s = p +:+ r.
Proof.
  unfold starts_with. destruct (strip_prefix p s) eqn:E.
  - apply strip_prefix_Some in E. naive_solver.
  - split; [done|]. intros [r Hr]. apply strip_prefix_Some in Hr. congruence.
Qed.

Lemma strip_suffix_unfold suf s :
  strip_suffix suf s =
  if String.eqb s suf then Some EmptyString else
  match s with
  | EmptyString => None
  | String a r => match strip_suffix suf r with Some p => Some (String a p) | None => None end
  end.
Proof. by destruct s. Qed.
Lemma strip_suffix_Some suf s p : strip_suffix suf s = Some p <-> s = p +:+ suf.
Proof.
  revert p. induction s as [|a s IH]; intros p; rewrite strip_suffix_unfold.
  - destruct (String.eqb_spec EmptyString suf) as [<-|Hne].
    + split; [naive_solver|]. by destruct p.
    + split; [done|]. destruct p; simpl; [|done]. naive_solver.
  - destruct (String.eqb_spec (String a s) suf) as [<-|Hne].
    + split; [naive_solver|]. intros Heq.
      destruct p as [|b p]; [done|]. exfalso.
      assert (Hl : len (String a s) = len (String b p +:+ String a s)) by (f_equal; done).
      rewrite len_app in Hl. unfold len in Hl. simpl in Hl. lia.
    + destruct (strip_suffix suf s) as [q|] eqn:E.
      * pose proof (proj1 (IH q) eq_refl) as Hs. split; [naive_solver|].
        destruct p as [|b p]; simpl; [naive_solver|].
        intros [= <- Hpq]. pose proof (proj2 (IH p) Hpq). naive_solver.
      * split; [done|]. destruct p as [|b p]; simpl; [naive_solver|].
        intros [= <- Hp]. apply IH in Hp. done.
Qed.
Lemma ends_with_spec suf s : ends_with suf s = true <-> exists p, s = p +:+ suf.
Proof.
  unfold ends_with. destruct (strip_suffix suf s) eqn:E.
  - apply strip_suffix_Some in E. naive_solver.
  - split; [done|]. intros [r Hr]. apply strip_suffix_Some in Hr. congruence.
Qed.

Lemma split_once_Some c s x y :
  split_once c s = Some (x, y) <-> s = x +:+ String c y /\ contains_char c x = false.
Proof.
  revert x. induction s as [|a s IH]; intros x; simpl.
  - split; [done|]. intros [H _]. by destruct x.
  - destruct (Ascii.eqb_spec a c) as [->|Hne].
    + split; [naive_solver|]. intros [Heq Hc]. destruct x as [|b x]; [naive_solver|].
      simpl in Heq. injection Heq as <- _. unfold contains_char in Hc. simpl in Hc.
      by rewrite Ascii.eqb_refl in Hc.
    + destruct (split_once c s) as [[x' y']|] eqn:E.
      * split.
        -- intros [= <- <-]. destruct (proj1 (IH x') eq_refl) as [-> Hx].
           split; [done|]. unfold contains_char in *. simpl. rewrite Hx.
           destruct (Ascii.eqb_spec c a); naive_solver.
        -- intros [Heq Hc]. destruct x as [|b x]; simpl in Heq; [naive_solver|].
           injection Heq as <- Heq. unfold contains_char in Hc. simpl in Hc.
           apply orb_false_iff in Hc as [_ Hc].
           pose proof (proj2 (IH x) (conj Heq Hc)). naive_solver.
      * split; [done|]. intros [Heq Hc]. destruct x as [|b x]; simpl in Heq; [naive_solver|].
        injection Heq as <- Heq. unfold contains_char in Hc. simpl in Hc.
        apply orb_false_iff in Hc as [_ Hc].
        pose proof (proj2 (IH x) (conj Heq Hc)). naive_solver.
Qed.

Lemma split_on_nonempty c s : split_on c s <> [].
Proof. destruct s as [|a s]; simpl; [done|]. case_match; [done|]. by case_match. Qed.
(** Splitting and joining with the same separator is the identity. *)
Lemma join_split_on c s : join (String c EmptyString) (split_on c s) = s.
Proof.
  induction s as [|a s IH]; simpl; [done|].
  pose proof (split_on_nonempty c s) as Hne.
  destruct (Ascii.eqb_spec a c) as [->|Hac];
    destruct (split_on c s) as [|h t] eqn:E; try done.
  - simpl in *. by rewrite IH.
  - simpl in *. destruct t; simpl in *; by rewrite <- IH.
Qed.
Lemma split_on_pieces c s : Forall (fun x => contains_char c x = false) (split_on c s).
Proof.
  induction s as [|a s IH]; simpl; [by repeat constructor|].
  destruct (Ascii.eqb_spec a c) as [->|Hac]; [by constructor|].
  assert (Ascii.eqb c a = false) as Hca by (apply Ascii.eqb_neq; congruence).
  destruct (split_on c s) as [|h t]; inversion IH; subst;
    constructor; unfold contains_char in *; simpl; rewrite ?Hca; auto.
Qed.
(** ... and a string without the separator is its own only piece. *)
Lemma split_on_single c s : contains_char c s = false -> split_on c s = [s].
Proof.
  unfold contains_char. induction s as [|a s IH]; simpl; [done|].
  rewrite orb_false_iff. intros [Ha Hs]. rewrite IH by done.
  destruct (Ascii.eqb_spec a c) as [->|]; [|done]. by rewrite Ascii.eqb_refl in Ha.
Qed.
Lemma split_on_app c s t :
  contains_char c s = false -> split_on c (s +:+ String c t) = s :: split_on c t.
Proof.
  unfold contains_char. induction s as [|a s IH]; simpl.
  - intros _. by rewrite Ascii.eqb_refl.
  - rewrite orb_false_iff. intros [Ha Hs]. rewrite IH by done.
    destruct (Ascii.eqb_spec a c) as [->|]; [|done]. by rewrite Ascii.eqb_refl in Ha.
Qed.
Lemma split_on_join c l :
  l <> [] -> Forall (fun x => contains_char c x = false) l ->
  split_on c (join (String c EmptyString) l) = l.
Proof.
  intros Hne Hl. induction Hl as [|x l Hx Hl IH]; [done|].
  destruct l as [|y l]; [by apply split_on_single|].
  change (join (String c EmptyString) (x :: y :: l))
    with (x +:+ String c (join (String c EmptyString) (y :: l))).
  rewrite split_on_app by done. by rewrite IH.
Qed.

Lemma parse_digits_range max acc s n :
  0 <= acc <= max -> parse_digits max acc s = Some n -> 0 <= n <= max.
Proof.
  revert acc. induction s as [|c s IH]; simpl; intros acc Hacc; [naive_solver|].
  destruct (is_ascii_digit c) eqn:E; [|done].
  unfold is_ascii_digit, in_class in E. apply andb_true_iff in E as [E1 E2].
  apply Z.leb_le in E1, E2. case_match eqn:Hle; [|done]. apply Z.leb_le in Hle.
  apply IH. lia.
Qed.
Lemma parse_uint_range max s n :
  0 <= max -> parse_uint max s = Some n -> 0 <= n <= max.
Proof.
  intros Hmax. unfold parse_uint. destruct s as [|c s]; [done|].
  destruct (Ascii.eqb c "+"); [destruct s; [done|]|]; apply parse_digits_range; lia.
Qed.

(** Text whose first and last bytes are printable ASCII is not trimmed. *)
Lemma skip_ws_head a l : 33 <= a <= 126 -> skip_ws (a :: l) = a :: l.
Proof.
  intros Ha. simpl. unfold is_ws1, is_ws2, is_ws3.
  destruct (Z.leb_spec 9 a), (Z.leb_spec a 13), (Z.eqb_spec a 32); simpl; try lia;
  destruct l as [|b l]; try done;
  destruct (Z.eqb_spec a 194); simpl; try lia; destruct l as [|c l]; try done;
  destruct (Z.eqb_spec a 225), (Z.eqb_spec a 226), (Z.eqb_spec a 227); simpl; try lia; done.
Qed.
Lemma skip_ws_rev_head a l : 33 <= a <= 126 -> skip_ws_rev (a :: l) = a :: l.
Proof.
  intros Ha. simpl. unfold is_ws1, is_ws2, is_ws3.
  destruct (Z.leb_spec 9 a), (Z.leb_spec a 13), (Z.eqb_spec a 32); simpl; try lia;
  destruct l as [|b l]; try done;
  destruct (Z.eqb_spec a 133), (Z.eqb_spec a 160); rewrite ?andb_false_r; simpl; try lia;
  destruct l as [|c l]; try done;
  destruct (Z.eqb_spec a 128), (Z.leb_spec 128 a), (Z.eqb_spec a 168), (Z.eqb_spec a 169),
    (Z.eqb_spec a 175), (Z.eqb_spec a 159); rewrite ?andb_false_r; simpl; try lia; done.
Qed.
Lemma trim_graphic s : s <> EmptyString -> all_chars is_ascii_graphic s = true -> trim s = s.
Proof.
  intros Hne Hall. unfold trim.
  assert (Hb : Forall (fun b => 33 <= b <= 126) (bytes_of s)).
  { clear Hne. induction s as [|c s IH]; simpl in *; [constructor|].
    apply andb_true_iff in Hall as [Hc Hs]. unfold is_ascii_graphic, in_class in Hc.
    apply andb_true_iff in Hc as [H1 H2]. apply Z.leb_le in H1, H2. constructor; auto; lia. }
  destruct (bytes_of s) as [|a l] eqn:E; [by destruct s|].
  inversion Hb as [|? ? Ha Hl]; subst. rewrite skip_ws_head by done.
  assert (exists z k, rev (a :: l) = z :: k /\ 33 <= z <= 126) as (z & k & Hrev & Hz).
  { destruct (rev (a :: l)) as [|z k] eqn:Er.
    - apply (f_equal length) in Er. rewrite length_rev in Er. simpl in Er. lia.
    - exists z, k. split; [done|]. rewrite Forall_forall in Hb. apply Hb.
      apply list_elem_of_In, in_rev. rewrite Er. by left. }
  rewrite Hrev, skip_ws_rev_head by done. rewrite <- Hrev, rev_involutive, <- E.
  apply string_of_bytes_of.
Qed.

Lemma string_app_assoc (a b c : string) : (a +:+ b) +:+ c = a +:+ (b +:+ c).
Proof. induction a as [|x a IH]; cbn; [done|]. by rewrite IH. Qed.
Lemma split_on_sep c r p : split_on c (r +:+ String c p) = split_on c r ++ split_on c p.
Proof.
  induction r as [|a r IH]; cbn; [by rewrite Ascii.eqb_refl|]. rewrite IH.
  destruct (Ascii.eqb a c); [done|].
  destruct (split_on c r) eqn:E; [by apply split_on_nonempty in E|]. done.
Qed.
Lemma join_cons sep x l : l <> [] -> join sep (x :: l) = x +:+ sep +:+ join sep l.
Proof. by destruct l. Qed.
Lemma join_app sep a b :
  a <> [] -> b <> [] -> join sep (a ++ b) = join sep a +:+ sep +:+ join sep b.
Proof.
  intros Ha Hb. induction a as [|x a IH]; [done|]. destruct a as [|y a].
  - apply join_cons. done.
  - rewrite (join_cons sep x (y :: a)) by done.
    change ((x :: y :: a) ++ b) with (x :: ((y :: a) ++ b)).
    rewrite join_cons by done. rewrite IH by done. by rewrite !string_app_assoc.
Qed.

Lemma show_digit_class d : 0 <= d < 10 -> byte_of (char_of (48 + d)) = 48 + d.
Proof. intros H. apply byte_of_char_of. lia. Qed.
Lemma parse_digits_snoc max acc s d n :
  0 <= d < 10 -> parse_digits max acc s = Some n -> n * 10 + d <= max ->
  parse_digits max acc (s +:+ show_digit d) = Some (n * 10 + d).
Proof.
  intros Hd. revert acc. induction s as [|c s IH]; intros acc; cbn [String.append parse_digits].
  - intros [= ->] Hmax. unfold show_digit. cbn [parse_digits].
    unfold is_ascii_digit, in_class. rewrite show_digit_class by lia.
    destruct (Z.leb_spec 48 (48 + d)), (Z.leb_spec (48 + d) 57); simpl; try lia.
    destruct (Z.leb_spec (n * 10 + (48 + d - 48)) max); [f_equal; lia|lia].
  - destruct (is_ascii_digit c); [|done]. destruct (_ <=? max); [|done]. apply IH.
Qed.
Lemma show_digits_S f n :
  show_digits (S f) n =
  (if n <? 10 then EmptyString else show_digits f (n / 10)) +:+ show_digit (n mod 10).
Proof. done. Qed.
Lemma parse_show_digits max f n :
  0 <= n < 10 ^ Z.of_nat (S f) -> n <= max ->
  parse_digits max 0 (show_digits (S f) n) = Some n.
Proof.
  revert n. induction f as [|f IH]; intros n Hn Hmax; rewrite show_digits_S;
    pose proof (Z.div_mod n 10 ltac:(lia)) as Hdm;
    pose proof (Z.mod_pos_bound n 10 ltac:(lia)) as Hmod;
    destruct (Z.ltb_spec n 10) as [Hlt|Hge].
  - rewrite (Z.mod_small n 10) by lia. apply (parse_digits_snoc max 0 "" n 0); [lia|done|lia].
  - simpl in Hn. lia.
  - rewrite (Z.mod_small n 10) by lia. apply (parse_digits_snoc max 0 "" n 0); [lia|done|lia].
  - rewrite (parse_digits_snoc max 0 _ (n mod 10) (n / 10)).
    + f_equal. lia.
    + lia.
    + apply IH; [|lia]. split; [apply Z.div_pos; lia|].
      apply Z.div_lt_upper_bound; [lia|].
      replace (10 * 10 ^ Z.of_nat (S f)) with (10 ^ Z.of_nat (S (S f))); [lia|].
      rewrite (Nat2Z.inj_succ (S f)), Z.pow_succ_r by lia. done.
    + lia.
Qed.
Lemma show_digits_all f n : 0 <= n -> all_chars is_ascii_digit (show_digits f n) = true.
Proof.
  revert n. induction f as [|f IH]; intros n Hn; cbn [show_digits]; [done|].
  pose proof (Z.mod_pos_bound n 10 ltac:(lia)) as Hmod. rewrite all_chars_app.
  apply andb_true_iff. split.
  - destruct (n <? 10); [done|]. apply IH. apply Z.div_pos; lia.
  - unfold show_digit. cbn [all_chars]. unfold is_ascii_digit, in_class.
    rewrite show_digit_class by lia. apply andb_true_iff. split; [|done].
    apply andb_true_iff. split; apply Z.leb_le; lia.
Qed.
Lemma show_uint_nonempty n : show_uint n <> EmptyString.
Proof.
  unfold show_uint. rewrite show_digits_S.
  destruct (if n <? 10 then _ else _) as [|c s]; cbn [String.append]; done.
Qed.
(** Printing an unsigned integer and parsing it back. *)
Lemma parse_show_uint max n :
  0 <= n <= max -> n <= U64_MAX -> parse_uint max (show_uint n) = Some n.
Proof.
  intros Hn Hu. pose proof (show_digits_all 20 n ltac:(lia)) as Hall.
  pose proof (parse_show_digits max 19 n) as Hp.
  change (show_digits (S 19) n) with (show_uint n) in Hp.
  change (show_digits 20 n) with (show_uint n) in Hall.
  specialize (Hp ltac:(unfold U64_MAX in Hu; split; [lia|];
    apply (Z.le_lt_trans _ 18446744073709551615); [lia|vm_compute; reflexivity]) ltac:(lia)).
  pose proof (show_uint_nonempty n) as Hne. unfold parse_uint.
  destruct (show_uint n) as [|c s]; [done|].
  cbn [all_chars] in Hall. apply andb_true_iff in Hall as [Hc _].
  destruct (Ascii.eqb_spec c "+") as [->|]; [vm_compute in Hc; discriminate|done].
Qed.

Lemma utf8_valid_app_ascii l a :
  0 <= a <= 127 -> utf8_valid l = true -> utf8_valid (l ++ [a]) = true.
Proof.
  intros Ha. induction l as [l IH] using (induction_ltof1 _ (@length Z)). unfold ltof in IH.
  destruct l as [|x r]; cbn.
  { intros _. by rewrite (proj2 (Z.leb_le a 127)) by lia. }
  destruct (x <=? 127); [apply IH; cbn; lia|].
  destruct r as [|b r1]; cbn; [done|].
  destruct (_ && _); [intros [-> H]%andb_true_iff; cbn; apply IH; [cbn; lia|done]|].
  destruct r1 as [|c r2]; cbn; [done|].
  destruct (_ && _); [intros [-> H]%andb_true_iff; cbn; apply IH; [cbn; lia|done]|].
  destruct r2 as [|d r3]; cbn; [done|].
  destruct (_ && _); [|done]. intros [-> H]%andb_true_iff. cbn. apply IH; [cbn; lia|done].
Qed.
Lemma utf8_valid_ascii s : all_chars is_ascii s = true -> utf8_valid (bytes_of s) = true.
Proof.
  induction s as [|c s IH]; cbn; [done|]. intros [Hc Hs]%andb_true_iff.
  unfold is_ascii, in_class in Hc. apply andb_true_iff in Hc as [_ Hc]. rewrite Hc. auto.
Qed.

(** Numerals in base two, least digit first: the text of the toy encodings. *)
Fixpoint bits (p : positive) : string :=
  match p with
  | xH => ""
  | xO p => String "0" (bits p)
  | xI p => String "1" (bits p)
  end.
Fixpoint unbits (s : string) : positive :=
  match s with
  | EmptyString => xH
  | String c s => if Ascii.eqb c "1" then xI (unbits s) else xO (unbits s)
  end.
Lemma unbits_bits p : unbits (bits p) = p.
Proof. induction p; cbn; by f_equal. Qed.
Lemma bits_plain p : contains_char "010" (bits p) = false /\ all_chars is_ascii (bits p) = true.
Proof. induction p as [p [IH1 IH2]|p [IH1 IH2]|]; cbn; unfold contains_char in *; by rewrite ?IH1, ?IH2. Qed.

(** Lossy decoding yields valid text and leaves valid text alone. *)
Lemma utf8_valid_replacement x : utf8_valid (REPLACEMENT ++ x) = utf8_valid x.
Proof. done. Qed.
Lemma utf8_lossy_valid l : utf8_valid (utf8_lossy l) = true.
Proof.
  induction l as [l IH] using (induction_ltof1 _ (@length Z)). unfold ltof in IH.
  assert (IH' : forall k, (length k < length l)%nat -> utf8_valid (REPLACEMENT ++ utf8_lossy k) = true).
  { intros k Hk. rewrite utf8_valid_replacement. by apply IH. }
  destruct l as [|a r]; cbn [utf8_lossy]; [done|]. cbn [length] in *.
  destruct (a <=? 127) eqn:Ha; [cbn [utf8_valid]; rewrite Ha; apply IH; lia|].
  destruct (in_bytes 194 223 a) eqn:H2.
  { destruct r as [|b r1]; [done|]. cbn [length] in *. destruct (is_cont b) eqn:Hb; [|apply IH'; cbn; lia].
    cbn [utf8_valid]. unfold in_bytes in H2. rewrite Ha, H2, Hb. apply IH. lia. }
  destruct (in_bytes 224 239 a) eqn:H3.
  { destruct r as [|b r1]; [done|]. cbn [length] in *. destruct (second3 a b) eqn:Hb; [|apply IH'; cbn; lia].
    destruct r1 as [|c r2]; [done|]. cbn [length] in *. destruct (is_cont c) eqn:Hc; [|apply IH'; cbn; lia].
    cbn [utf8_valid]. unfold in_bytes in H2, H3. unfold second3, in_bytes in Hb.
    rewrite Ha, H2, H3, Hb, Hc. apply IH. lia. }
  destruct (in_bytes 240 244 a) eqn:H4; [|apply IH'; cbn; lia].
  destruct r as [|b r1]; [done|]. cbn [length] in *. destruct (second4 a b) eqn:Hb; [|apply IH'; cbn; lia].
  destruct r1 as [|c r2]; [done|]. cbn [length] in *. destruct (is_cont c) eqn:Hc; [|apply IH'; cbn; lia].
  destruct r2 as [|d r3]; [done|]. cbn [length] in *. destruct (is_cont d) eqn:Hd; [|apply IH'; cbn; lia].
  cbn [utf8_valid]. unfold in_bytes in H2, H3, H4. unfold second4, in_bytes in Hb.
  rewrite Ha, H2, H3, H4, Hb, Hc, Hd. apply IH. lia.
Qed.
Lemma utf8_lossy_id l : utf8_valid l = true -> utf8_lossy l = l.
Proof.
  induction l as [l IH] using (induction_ltof1 _ (@length Z)). unfold ltof in IH.
  destruct l as [|a r]; cbn [utf8_lossy utf8_valid]; [done|]. cbn [length] in *.
  destruct (a <=? 127); [intros H; f_equal; apply IH; [lia|done]|].
  destruct r as [|b r1]; [done|]. cbn [length] in *. unfold in_bytes.
  destruct ((194 <=? a) && (a <=? 223)).
  { intros [-> H]%andb_true_iff. do 2 f_equal. apply IH; [lia|done]. }
  destruct r1 as [|c r2]; [done|]. cbn [length] in *. destruct ((224 <=? a) && (a <=? 239)).
  { intros [[Hb ->]%andb_true_iff H]%andb_true_iff. unfold second3, in_bytes. rewrite Hb.
    do 3 f_equal. apply IH; [lia|done]. }
  destruct r2 as [|d r3]; [done|]. cbn [length] in *. destruct ((240 <=? a) && (a <=? 244)); [|done].
  intros [[[Hb ->]%andb_true_iff ->]%andb_true_iff H]%andb_true_iff. unfold second4, in_bytes. rewrite Hb.
  do 4 f_equal. apply IH; [lia|done].
Qed.
