(* ===== verification/Profile.v ===== *)
(** * Execution profiles ([crates/ne-protocol/src/profile.rs])

    The two customer-visible profiles, the backends they select and the
    operations they advertise.  [supports] is the one predicate; both
    [capabilities] here and [Capacity.supported_operations] filter the same
    thirteen operations with it. *)

From S2P Require Import Prelude Text.

Inductive ExecutionProfile :=
| ExecutionProfile_Standard
| ExecutionProfile_ConfidentialAzure.

Inductive ExecutionBackend :=
| ExecutionBackend_Firecracker
| ExecutionBackend_OpenShell.

Inductive AttestationBackend :=
| AttestationBackend_Software
| AttestationBackend_SevSnpDirect
| AttestationBackend_SevSnpAzure.

Inductive WorkspaceOperation :=
| WorkspaceOperation_Create
| WorkspaceOperation_Destroy
| WorkspaceOperation_Execute
| WorkspaceOperation_WriteFile
| WorkspaceOperation_ReadFile
| WorkspaceOperation_Pause
| WorkspaceOperation_Resume
| WorkspaceOperation_Snapshot
| WorkspaceOperation_Restore
| WorkspaceOperation_Fork
| WorkspaceOperation_WarmPool
| WorkspaceOperation_Ingress
| WorkspaceOperation_Attest.

#[global] Instance ExecutionProfile_eq_dec : EqDecision ExecutionProfile.
Proof. solve_decision. Defined.
#[global] Instance ExecutionBackend_eq_dec : EqDecision ExecutionBackend.
Proof. solve_decision. Defined.
#[global] Instance AttestationBackend_eq_dec : EqDecision AttestationBackend.
Proof. solve_decision. Defined.
#[global] Instance WorkspaceOperation_eq_dec : EqDecision WorkspaceOperation.
Proof. solve_decision. Defined.

(** [impl Display for ExecutionProfile]. *)
Definition profile_to_string (p : ExecutionProfile) : string :=
  match p with
  | ExecutionProfile_Standard => "standard"
  | ExecutionProfile_ConfidentialAzure => "confidential-azure"
  end.

(** [impl FromStr for ExecutionProfile]; the error carries the rejected text. *)
Definition profile_from_str (value : string) : result string ExecutionProfile :=
  if String.eqb value "standard" then Ok ExecutionProfile_Standard
  else if String.eqb value "confidential-azure" then Ok ExecutionProfile_ConfidentialAzure
  else Err value.

Definition execution_backend (p : ExecutionProfile) : ExecutionBackend :=
  match p with
  | ExecutionProfile_Standard => ExecutionBackend_Firecracker
  | ExecutionProfile_ConfidentialAzure => ExecutionBackend_OpenShell
  end.

Definition attestation_backend (p : ExecutionProfile) : AttestationBackend :=
  match p with
  | ExecutionProfile_Standard => AttestationBackend_Software
  | ExecutionProfile_ConfidentialAzure => AttestationBackend_SevSnpAzure
  end.

Definition hard_workspace_capacity (p : ExecutionProfile) : option Z :=
  match p with
  | ExecutionProfile_Standard => None
  | ExecutionProfile_ConfidentialAzure => Some 1
  end.

Definition supports (p : ExecutionProfile) (op : WorkspaceOperation) : bool :=
  match p with
  | ExecutionProfile_Standard => true
  | ExecutionProfile_ConfidentialAzure =>
      match op with
      | WorkspaceOperation_Create
      | WorkspaceOperation_Destroy
      | WorkspaceOperation_Execute
      | WorkspaceOperation_WriteFile
      | WorkspaceOperation_ReadFile
      | WorkspaceOperation_Attest => true
      | _ => false
      end
  end.

(** The operation table both filters start from. *)
Definition all_operations : list WorkspaceOperation :=
  [ WorkspaceOperation_Create; WorkspaceOperation_Destroy; WorkspaceOperation_Execute;
    WorkspaceOperation_WriteFile; WorkspaceOperation_ReadFile; WorkspaceOperation_Pause;
    WorkspaceOperation_Resume; WorkspaceOperation_Snapshot; WorkspaceOperation_Restore;
    WorkspaceOperation_Fork; WorkspaceOperation_WarmPool; WorkspaceOperation_Ingress;
    WorkspaceOperation_Attest ].

Record RuntimeCapabilitiesInfo := {
  runtime_version : string;
  info_execution_profile : ExecutionProfile;
  info_execution_backend : ExecutionBackend;
  info_attestation_backend : AttestationBackend;
  info_supported_operations : list WorkspaceOperation;
  info_hard_workspace_capacity : option Z;
  confidential_snapshot_supported : bool;
  evidence_schema_version : Z;
}.

Definition capabilities (p : ExecutionProfile) (version : string) (schema : Z)
    : RuntimeCapabilitiesInfo :=
  {| runtime_version := version;
     info_execution_profile := p;
     info_execution_backend := execution_backend p;
     info_attestation_backend := attestation_backend p;
     info_supported_operations := List.filter (supports p) all_operations;
     info_hard_workspace_capacity := hard_workspace_capacity p;
     confidential_snapshot_supported := false;
     evidence_schema_version := schema |}.

(** ** Properties *)

Lemma all_operations_complete op : In op all_operations.
Proof. destruct op; simpl; tauto. Qed.
Lemma all_operations_nodup : List.NoDup all_operations.
Proof. repeat constructor; simpl; intuition discriminate. Qed.
Lemma filtered_operations_nodup p : List.NoDup (List.filter (supports p) all_operations).
Proof. apply List.NoDup_filter, all_operations_nodup. Qed.
Lemma filtered_operations_spec p op :
  In op (List.filter (supports p) all_operations) <-> supports p op = true.
Proof. rewrite List.filter_In. intuition auto using all_operations_complete. Qed.
#[export] Hint Resolve filtered_operations_nodup : enclave.
