(* ===== verification/Fleet.v ===== *)
(** * Fleet wire types ([crates/ne-protocol/src/fleet.rs])

    The identifier grammars, the capacity inventory a runner publishes and the
    poll request/response pair, each with its [validate].  UUIDs come from the
    [uuid] crate: a [FleetUuid] is its 128-bit value, and the crate's parser
    and printer are parameters of [parse_canonical]. *)

From S2P Require Import Prelude Text Profile.

Definition FLEET_PROTOCOL_V1 : Z := 1.
Definition MAX_RUNNER_WORKSPACES : Z := 1000000.
Definition MAX_CPU_MILLICORES : Z := 1000000000.
Definition MAX_MEMORY_BYTES : Z := Z.shiftl 1 50.

Inductive FleetValidationError :=
| FleetValidationError_InvalidUuid
| FleetValidationError_InvalidToken
| FleetValidationError_InvalidContractId
| FleetValidationError_InvalidContractVersion
| FleetValidationError_InvalidResultCode
| FleetValidationError_CapacityOutOfRange
| FleetValidationError_InconsistentCapacity
| FleetValidationError_InvalidGeneration
| FleetValidationError_InvalidSequence
| FleetValidationError_TooManyEntries
| FleetValidationError_DuplicateAttemptOperation
| FleetValidationError_InvalidPayloadDigest
| FleetValidationError_InvalidPollDelay
| FleetValidationError_InvalidReplayResponse
| FleetValidationError_InvalidErrorGuidance.
#[global] Instance FleetValidationError_eq_dec : EqDecision FleetValidationError.
Proof. solve_decision. Defined.

(** ** Identifiers *)

Definition FleetUuid : Type := Z.

Section Uuid.
(** [uuid::Uuid::parse_str], [Uuid::get_version_num] and
    [Uuid::hyphenated().to_string()]. *)
Context (uuid_parse_str : string -> option Z).
Context (uuid_get_version_num : Z -> Z).
Context (uuid_hyphenated : Z -> string).

Definition FleetUuid_parse_canonical (value : string) : result FleetValidationError FleetUuid :=
  match uuid_parse_str value with
  | None => Err FleetValidationError_InvalidUuid
  | Some parsed =>
      if (parsed =? 0)
         || negb (uuid_get_version_num parsed =? 4)
         || negb (String.eqb (uuid_hyphenated parsed) value)
      then Err FleetValidationError_InvalidUuid
      else Ok parsed
  end.
End Uuid.

Definition head_char (s : string) : option ascii :=
  match s with EmptyString => None | String c _ => Some c end.
Definition len_in (lo hi : Z) (s : string) : bool := (lo <=? len s) && (len s <=? hi).
(** [(1..=n).contains(&len) && first(bytes[0]) && bytes.iter().all(rest)]. *)
Definition grammar (hi : Z) (first rest : ascii -> bool) (s : string) : bool :=
  len_in 1 hi s
  && match head_char s with Some c => first c | None => false end
  && all_chars rest s.

Definition is_fleet_token (value : string) : bool :=
  grammar 64 is_ascii_alphanumeric
    (fun b => is_ascii_alphanumeric b || Ascii.eqb b "." || Ascii.eqb b "_"
              || Ascii.eqb b ":" || Ascii.eqb b "-") value.
Definition is_contract_id (value : string) : bool :=
  grammar 64 is_ascii_lowercase
    (fun b => is_ascii_lowercase b || is_ascii_digit b || Ascii.eqb b "."
              || Ascii.eqb b "_" || Ascii.eqb b "-") value.
Definition is_contract_version (value : string) : bool :=
  len_in 1 32 value && all_chars is_ascii_graphic value.
Definition is_result_code (value : string) : bool :=
  grammar 64 is_ascii_uppercase
    (fun b => is_ascii_uppercase b || is_ascii_digit b || Ascii.eqb b "_") value.

Definition FleetToken_parse (value : string) : result FleetValidationError string :=
  if negb (is_fleet_token value) then Err FleetValidationError_InvalidToken else Ok value.
Definition FleetResultCode_parse (value : string) : result FleetValidationError string :=
  if negb (is_result_code value) then Err FleetValidationError_InvalidResultCode else Ok value.

(** [values.iter().any(|v| !seen.insert(v))] on a fresh [HashSet]. *)
Fixpoint any_reinserted {A} `{EqDecision A} (seen values : list A) : bool :=
  match values with
  | [] => false
  | v :: r => if decide (v ∈ seen) then true else any_reinserted (v :: seen) r
  end.
Definition has_duplicates {A} `{EqDecision A} (values : list A) : bool :=
  any_reinserted [] values.

(** ** Protocol range, contracts, sessions *)

Record FleetProtocolRange := { min_version : Z; max_version : Z }.

Definition FleetProtocolRange_new (min max : Z)
    : result FleetValidationError FleetProtocolRange :=
  if (min =? 0) || (max <? min) then Err FleetValidationError_CapacityOutOfRange
  else Ok {| min_version := min; max_version := max |}.
Definition FleetProtocolRange_validate (r : FleetProtocolRange)
    : result FleetValidationError unit :=
  _ ← FleetProtocolRange_new (min_version r) (max_version r); mret tt.

Record JobContract := { contract_id : string; contract_version : string }.
#[global] Instance JobContract_eq_dec : EqDecision JobContract.
Proof. solve_decision. Defined.

Definition JobContract_new (id version : string) : result FleetValidationError JobContract :=
  if negb (is_contract_id id) then Err FleetValidationError_InvalidContractId
  else if negb (is_contract_version version) then Err FleetValidationError_InvalidContractVersion
  else Ok {| contract_id := id; contract_version := version |}.
Definition JobContract_validate (c : JobContract) : result FleetValidationError unit :=
  _ ← JobContract_new (contract_id c) (contract_version c); mret tt.

Record FleetSession := { session_id : FleetUuid; generation : Z }.
#[global] Instance FleetSession_eq_dec : EqDecision FleetSession.
Proof. solve_decision. Defined.
Definition FleetSession_validate (s : FleetSession) : result FleetValidationError unit :=
  if generation s =? 0 then Err FleetValidationError_InvalidGeneration else Ok tt.

(** ** Capacity inventory *)

Record RunnerCapacity := {
  revision : Z;
  configured_workspace_ceiling : Z;
  registered_workspaces : Z;
  resident_workspaces : Z;
  runnable_workspaces : Z;
  allocated_cpu_millicores : Z;
  allocated_memory_bytes : Z;
  warm_pool_reserved_slots : Z;
  profiles : list ExecutionProfile;
  operations : list WorkspaceOperation;
}.

Definition RunnerCapacity_validate (c : RunnerCapacity) : result FleetValidationError unit :=
  if (MAX_RUNNER_WORKSPACES <? configured_workspace_ceiling c)
     || (MAX_RUNNER_WORKSPACES <? registered_workspaces c)
     || (MAX_RUNNER_WORKSPACES <? resident_workspaces c)
     || (MAX_RUNNER_WORKSPACES <? runnable_workspaces c)
     || (MAX_RUNNER_WORKSPACES <? warm_pool_reserved_slots c)
     || (MAX_CPU_MILLICORES <? allocated_cpu_millicores c)
     || (MAX_MEMORY_BYTES <? allocated_memory_bytes c)
  then Err FleetValidationError_CapacityOutOfRange
  else if (registered_workspaces c <? runnable_workspaces c)
     || (resident_workspaces c <? registered_workspaces c)
     || match checked_add U32_MAX (registered_workspaces c) (warm_pool_reserved_slots c) with
        | None => true
        | Some total => configured_workspace_ceiling c <? total
        end
     || has_duplicates (profiles c)
     || has_duplicates (operations c)
  then Err FleetValidationError_InconsistentCapacity
  else Ok tt.

(** ** Lease operations and reports *)

Record LeaseRenewal := { renewal_job_id : string; renewal_lease_id : FleetUuid;
                         renewal_attempt_generation : Z }.
Record LeaseRelease := { release_job_id : string; release_lease_id : FleetUuid;
                         release_attempt_generation : Z }.
Inductive TerminalOutcome :=
| TerminalOutcome_Succeeded
| TerminalOutcome_FailedRetryable
| TerminalOutcome_FailedTerminal.
Record TerminalReport := {
  report_job_id : string; report_lease_id : FleetUuid; report_attempt_generation : Z;
  outcome : TerminalOutcome; result_code : string;
  cpu_milliseconds : Z; output_bytes : Z }.
Record LeaseHeader := {
  header_job_id : string; header_lease_id : FleetUuid; header_attempt_generation : Z;
  lease_expires_at_unix_ms : Z; contract : JobContract; payload_digest : list Z }.

Definition LeaseHeader_validate (h : LeaseHeader) : result FleetValidationError unit :=
  if header_attempt_generation h =? 0 then Err FleetValidationError_InvalidGeneration
  else if negb (Z.of_nat (length (payload_digest h)) =? 32)
  then Err FleetValidationError_InvalidPayloadDigest
  else JobContract_validate (contract h).

Definition validate_attempt (generation : Z) : result FleetValidationError unit :=
  if generation =? 0 then Err FleetValidationError_InvalidGeneration else Ok tt.
(** The [HashSet] of attempts seen so far, threaded through the loops. *)
Definition insert_attempt_operation (attempts : list (FleetUuid * Z)) (lease_id : FleetUuid)
    (attempt_generation : Z) : result FleetValidationError (list (FleetUuid * Z)) :=
  if decide ((lease_id, attempt_generation) ∈ attempts)
  then Err FleetValidationError_DuplicateAttemptOperation
  else Ok ((lease_id, attempt_generation) :: attempts).
(** The body shared by the three loops of [FleetPollRequest::validate]. *)
Fixpoint validate_attempts (attempts : list (FleetUuid * Z)) (ops : list (FleetUuid * Z))
    : result FleetValidationError (list (FleetUuid * Z)) :=
  match ops with
  | [] => Ok attempts
  | (lease, g) :: r =>
      _ ← validate_attempt g;
      attempts' ← insert_attempt_operation attempts lease g;
      validate_attempts attempts' r
  end.
Fixpoint validate_each {A} (f : A -> result FleetValidationError unit) (l : list A)
    : result FleetValidationError unit :=
  match l with
  | [] => Ok tt
  | x :: r => _ ← f x; validate_each f r
  end.

(** ** Poll request *)

Record FleetPollRequest := {
  protocol : FleetProtocolRange;
  process_instance_id : FleetUuid;
  session : option FleetSession;
  request_id : FleetUuid;
  sequence : Z;
  capacity : RunnerCapacity;
  supported_contracts : list JobContract;
  renewals : list LeaseRenewal;
  releases : list LeaseRelease;
  terminal_reports : list TerminalReport;
}.

Definition renewal_ops (r : FleetPollRequest) : list (FleetUuid * Z) :=
  (fun x => (renewal_lease_id x, renewal_attempt_generation x)) <$> renewals r.
Definition release_ops (r : FleetPollRequest) : list (FleetUuid * Z) :=
  (fun x => (release_lease_id x, release_attempt_generation x)) <$> releases r.
Definition report_ops (r : FleetPollRequest) : list (FleetUuid * Z) :=
  (fun x => (report_lease_id x, report_attempt_generation x)) <$> terminal_reports r.
Definition list_len {A} (l : list A) : Z := Z.of_nat (length l).

Definition FleetPollRequest_validate (r : FleetPollRequest) : result FleetValidationError unit :=
  _ ← FleetProtocolRange_validate (protocol r);
  _ ← (if (sequence r =? 0)
          || (match session r with None => true | Some _ => false end && negb (sequence r =? 1))
       then Err FleetValidationError_InvalidSequence else Ok tt);
  _ ← match session r with Some s => FleetSession_validate s | None => Ok tt end;
  _ ← RunnerCapacity_validate (capacity r);
  _ ← (if (32 <? list_len (supported_contracts r))
          || (64 <? list_len (renewals r) + list_len (releases r) + list_len (terminal_reports r))
          || has_duplicates (supported_contracts r)
       then Err FleetValidationError_TooManyEntries else Ok tt);
  _ ← validate_each JobContract_validate (supported_contracts r);
  attempts ← validate_attempts [] (renewal_ops r);
  attempts ← validate_attempts attempts (release_ops r);
  _ ← validate_attempts attempts (report_ops r);
  Ok tt.

(** ** Poll response *)

Inductive FleetReplayStatus :=
| FleetReplayStatus_Fresh
| FleetReplayStatus_Replayed
| FleetReplayStatus_ReceiptObsolete
| FleetReplayStatus_SuspendedAcknowledgement.

Record FleetPollResponse := {
  protocol_version : Z;
  response_session : FleetSession;
  response_request_id : FleetUuid;
  accepted_sequence : Z;
  server_time_unix_ms : Z;
  poll_after_ms : Z;
  replay_status : FleetReplayStatus;
  leases : list LeaseHeader;
}.

Definition sanitized_replay (s : FleetReplayStatus) : bool :=
  match s with
  | FleetReplayStatus_ReceiptObsolete | FleetReplayStatus_SuspendedAcknowledgement => true
  | _ => false
  end.

Definition FleetPollResponse_validate (r : FleetPollResponse) : result FleetValidationError unit :=
  _ ← (if (protocol_version r =? 0) || (accepted_sequence r =? 0)
       then Err FleetValidationError_InvalidSequence else Ok tt);
  _ ← (if negb ((5000 <=? poll_after_ms r) && (poll_after_ms r <=? 60000))
       then Err FleetValidationError_InvalidPollDelay else Ok tt);
  _ ← FleetSession_validate (response_session r);
  _ ← (if 16 <? list_len (leases r) then Err FleetValidationError_TooManyEntries else Ok tt);
  _ ← (if sanitized_replay (replay_status r)
          && match leases r with [] => false | _ => true end
       then Err FleetValidationError_InvalidReplayResponse else Ok tt);
  validate_each LeaseHeader_validate (leases r).

(** ** Error responses *)

Inductive FleetErrorCode :=
| FleetErrorCode_MalformedRequest
| FleetErrorCode_ValidationFailed
| FleetErrorCode_PayloadTooLarge
| FleetErrorCode_Unauthenticated
| FleetErrorCode_LifecycleDenied
| FleetErrorCode_SequenceGap
| FleetErrorCode_RateLimited
| FleetErrorCode_ProtocolConflict
| FleetErrorCode_RequestConflict
| FleetErrorCode_SessionFenced
| FleetErrorCode_Internal
| FleetErrorCode_Unavailable.

Record FleetErrorResponse := {
  code : FleetErrorCode;
  expected_sequence : option Z;
  retry_after_ms : option Z;
  supported_protocol : option FleetProtocolRange;
}.

Definition is_none {A} (o : option A) : bool := match o with None => true | Some _ => false end.
Definition is_positive (o : option Z) : bool :=
  match o with Some n => 0 <? n | None => false end.

Definition FleetErrorResponse_validate (r : FleetErrorResponse) : result FleetValidationError unit :=
  _ ← match supported_protocol r with
      | Some p => FleetProtocolRange_validate p
      | None => Ok tt
      end;
  let valid :=
    match code r with
    | FleetErrorCode_SequenceGap =>
        is_positive (expected_sequence r) && is_positive (retry_after_ms r)
        && is_none (supported_protocol r)
    | FleetErrorCode_RateLimited | FleetErrorCode_Unavailable =>
        is_none (expected_sequence r) && is_positive (retry_after_ms r)
        && is_none (supported_protocol r)
    | FleetErrorCode_ProtocolConflict =>
        is_none (expected_sequence r) && is_none (retry_after_ms r)
        && negb (is_none (supported_protocol r))
    | _ =>
        is_none (expected_sequence r) && is_none (retry_after_ms r)
        && is_none (supported_protocol r)
    end in
  if negb valid then Err FleetValidationError_InvalidErrorGuidance else Ok tt.

(** ** Helper lemmas *)

Lemma any_reinserted_false {A} `{EqDecision A} (l : list A) : forall seen,
  any_reinserted seen l = false <-> NoDup l /\ (forall x, x ∈ l -> x ∉ seen).
Proof.
  induction l as [|v r IH]; intros seen; cbn.
  - split; [|done]. intros _. split; [constructor|]. intros x Hx. set_solver.
  - case_decide.
    + split; [done|]. intros [_ H']. exfalso. eapply H'; [left|done].
    + rewrite IH, NoDup_cons. set_solver.
Qed.
Lemma has_duplicates_false {A} `{EqDecision A} (l : list A) :
  has_duplicates l = false <-> NoDup l.
Proof.
  unfold has_duplicates. rewrite any_reinserted_false. split; [tauto|].
  intros H. split; [done|]. intros x _. apply not_elem_of_nil.
Qed.

Lemma validate_each_ok {A} (f : A -> result FleetValidationError unit) l :
  validate_each f l = Ok tt <-> forall x, x ∈ l -> f x = Ok tt.
Proof.
  induction l as [|x l IH]; cbn.
  - split; [|done]. intros _ x Hx. by apply not_elem_of_nil in Hx.
  - unfold_m. setoid_rewrite elem_of_cons. destruct (f x) as [[]|e] eqn:E.
    + rewrite IH. naive_solver.
    + split; [done|]. intros H. rewrite (H x) in E; [done|tauto].
Qed.

(** The attempt set threaded through the loops accepts exactly the operation
    lists without a zero generation and without a repeated attempt. *)
Lemma validate_attempts_ok ops : forall seen seen',
  validate_attempts seen ops = Ok seen' ->
  seen' = rev ops ++ seen /\ Forall (fun o => snd o <> 0) ops
  /\ NoDup ops /\ (forall o, o ∈ ops -> o ∉ seen).
Proof.
  induction ops as [|[lease g] r IH]; intros seen seen'; cbn.
  { intros [= <-]. split_and!; [done|constructor|constructor|]. intros o Ho. set_solver. }
  unfold validate_attempt, insert_attempt_operation. unfold_m.
  destruct (Z.eqb_spec g 0); [done|]. case_decide; [done|].
  intros (-> & Hg & Hnd & Hdis)%IH. rewrite <- app_assoc. cbn. split_and!; [done| | |].
  - by constructor.
  - apply NoDup_cons. split; [|done]. intros Hin. apply (Hdis _ Hin). left.
  - intros o [->|Ho]%elem_of_cons; [done|]. specialize (Hdis _ Ho). set_solver.
Qed.
Lemma validate_attempts_complete ops : forall seen,
  Forall (fun o => snd o <> 0) ops -> NoDup ops -> (forall o, o ∈ ops -> o ∉ seen) ->
  validate_attempts seen ops = Ok (rev ops ++ seen).
Proof.
  induction ops as [|[lease g] r IH]; intros seen Hg Hnd Hdis; cbn; [done|].
  apply Forall_cons in Hg as [Hg0 Hg]. apply NoDup_cons in Hnd as [Hnin Hnd].
  unfold validate_attempt, insert_attempt_operation. unfold_m. cbn in Hg0.
  destruct (Z.eqb_spec g 0); [done|]. case_decide as Hs.
  { exfalso. eapply Hdis; [left|done]. }
  rewrite IH, <- app_assoc; [done|done|done|]. set_solver.
Qed.

(** ** Declarative contracts *)

Record RunnerCapacity_valid (c : RunnerCapacity) : Prop := {
  rcv_limits :
    configured_workspace_ceiling c <= MAX_RUNNER_WORKSPACES
    /\ resident_workspaces c <= MAX_RUNNER_WORKSPACES
    /\ warm_pool_reserved_slots c <= MAX_RUNNER_WORKSPACES
    /\ allocated_cpu_millicores c <= MAX_CPU_MILLICORES
    /\ allocated_memory_bytes c <= MAX_MEMORY_BYTES;
  rcv_runnable : runnable_workspaces c <= registered_workspaces c;
  rcv_resident : registered_workspaces c <= resident_workspaces c;
  rcv_ceiling :
    registered_workspaces c + warm_pool_reserved_slots c <= configured_workspace_ceiling c;
  rcv_profiles : NoDup (profiles c);
  rcv_operations : NoDup (operations c);
}.

Lemma RunnerCapacity_validate_spec c :
  RunnerCapacity_validate c = Ok tt <-> RunnerCapacity_valid c.
Proof.
  unfold RunnerCapacity_validate. split.
  - case_match eqn:E1; [done|]. case_match eqn:E2; [done|]. intros _.
    repeat (apply orb_false_elim in E1 as [E1 ?]). repeat (apply orb_false_elim in E2 as [E2 ?]).
    rewrite !has_duplicates_false in *.
    destruct (checked_add _ _ _) eqn:Ea; [|done]. reflect_Z. constructor; try done; lia.
  - intros [(? & ? & ? & ? & ?) ? ? ? Hp%has_duplicates_false Ho%has_duplicates_false].
    unfold checked_add. rewrite Hp, Ho.
    repeat match goal with
    | |- context [?a <? ?b] => destruct (Z.ltb_spec a b); [exfalso; lia|]
    end.
    cbn. destruct (Z.leb_spec (registered_workspaces c + warm_pool_reserved_slots c) U32_MAX).
    + destruct (Z.ltb_spec (configured_workspace_ceiling c)
        (registered_workspaces c + warm_pool_reserved_slots c)); [lia|done].
    + unfold MAX_RUNNER_WORKSPACES, U32_MAX in *. lia.
Qed.

Record FleetPollRequest_valid (r : FleetPollRequest) : Prop := {
  prv_protocol : 0 <> min_version (protocol r) /\ min_version (protocol r) <= max_version (protocol r);
  prv_sequence : sequence r <> 0 /\ (session r = None -> sequence r = 1);
  prv_session : forall s, session r = Some s -> generation s <> 0;
  prv_capacity : RunnerCapacity_valid (capacity r);
  prv_bounds : list_len (supported_contracts r) <= 32
    /\ list_len (renewals r) + list_len (releases r) + list_len (terminal_reports r) <= 64;
  prv_contracts : NoDup (supported_contracts r)
    /\ forall c, c ∈ supported_contracts r ->
         is_contract_id (contract_id c) = true /\ is_contract_version (contract_version c) = true;
  prv_generations :
    Forall (fun o => snd o <> 0) (renewal_ops r ++ release_ops r ++ report_ops r);
  prv_attempts : NoDup (renewal_ops r ++ release_ops r ++ report_ops r);
}.

Lemma FleetProtocolRange_validate_spec p :
  FleetProtocolRange_validate p = Ok tt
  <-> 0 <> min_version p /\ min_version p <= max_version p.
Proof.
  unfold FleetProtocolRange_validate, FleetProtocolRange_new. unfold_m.
  destruct (Z.eqb_spec (min_version p) 0), (Z.ltb_spec (max_version p) (min_version p)); cbn;
    split; try done; lia.
Qed.
Lemma JobContract_validate_spec c :
  JobContract_validate c = Ok tt
  <-> is_contract_id (contract_id c) = true /\ is_contract_version (contract_version c) = true.
Proof.
  unfold JobContract_validate, JobContract_new. unfold_m.
  destruct (is_contract_id _), (is_contract_version _); cbn; naive_solver.
Qed.
Lemma FleetSession_validate_spec s : FleetSession_validate s = Ok tt <-> generation s <> 0.
Proof. unfold FleetSession_validate. destruct (Z.eqb_spec (generation s) 0); naive_solver. Qed.
Lemma LeaseHeader_validate_spec h :
  LeaseHeader_validate h = Ok tt
  <-> header_attempt_generation h <> 0 /\ length (payload_digest h) = 32%nat
      /\ is_contract_id (contract_id (contract h)) = true
      /\ is_contract_version (contract_version (contract h)) = true.
Proof.
  unfold LeaseHeader_validate. destruct (Z.eqb_spec (header_attempt_generation h) 0);
    [naive_solver|]. destruct (Z.eqb_spec (Z.of_nat (length (payload_digest h))) 32); cbn.
  - rewrite JobContract_validate_spec. split; [|tauto]. intros. split_and!; try tauto; lia.
  - split; [done|]. lia.
Qed.

Lemma NoDup_three {A} (a b c : list A) :
  NoDup (a ++ b ++ c) <->
  NoDup a /\ (NoDup b /\ (forall x, x ∈ b -> x ∉ a))
  /\ NoDup c /\ (forall x, x ∈ c -> x ∉ rev b ++ rev a).
Proof.
  rewrite !NoDup_app. setoid_rewrite elem_of_app. setoid_rewrite list_elem_of_In.
  setoid_rewrite <- in_rev. naive_solver.
Qed.

Lemma validate_all_attempts_ok (a b c : list (FleetUuid * Z)) :
  (exists s1, validate_attempts [] a = Ok s1 /\
   exists s2, validate_attempts s1 b = Ok s2 /\
   exists s3, validate_attempts s2 c = Ok s3 /\ Ok tt = Ok (E := FleetValidationError) tt)
  <-> Forall (fun o => snd o <> 0) (a ++ b ++ c) /\ NoDup (a ++ b ++ c).
Proof.
  rewrite !Forall_app, NoDup_three. split.
  - intros (s1 & (-> & ? & ? & ?)%validate_attempts_ok & s2 & (-> & ? & ? & Hb)%validate_attempts_ok
      & s3 & (-> & ? & ? & Hc)%validate_attempts_ok & _). rewrite app_nil_r in *.
    split_and!; try done; intros x Hx.
    + specialize (Hb x Hx). rewrite list_elem_of_In in *. by rewrite <- in_rev in Hb.
  - intros ((Ha & Hb & Hc) & Na & (Nb & Db) & Nc & Dc).
    eexists; split; [apply validate_attempts_complete; try done; set_solver|].
    eexists; split; [apply validate_attempts_complete; try done|].
    { intros x Hx. rewrite app_nil_r, list_elem_of_In, <- in_rev, <- list_elem_of_In. eauto. }
    eexists; split; [apply validate_attempts_complete; try done|done].
    by rewrite app_nil_r.
Qed.

(** A poll request is accepted exactly when its protocol range is non-empty, its sequence is
    positive (and 1 on a process's first poll), its session generation is non-zero, its capacity
    inventory is consistent, its contracts are at most 32 distinct well-formed ones, and its at
    most 64 lease operations carry positive generations and address pairwise distinct attempts
    across renewals, releases and terminal reports together. *)
Theorem poll_request_validate_iff r :
  FleetPollRequest_validate r = Ok tt <-> FleetPollRequest_valid r.
Proof.
  unfold FleetPollRequest_validate.
  rewrite !bind_unit_ok, FleetProtocolRange_validate_spec, !check_ok,
    RunnerCapacity_validate_spec, validate_each_ok.
  setoid_rewrite JobContract_validate_spec. repeat setoid_rewrite bind_ok.
  rewrite validate_all_attempts_ok, !orb_false_iff, !Z.ltb_ge, Z.eqb_neq, has_duplicates_false.
  assert ((match session r with None => true | _ => false end && negb (sequence r =? 1) = false)
          <-> (session r = None -> sequence r = 1)) as ->.
  { destruct (session r), (Z.eqb_spec (sequence r) 1); naive_solver. }
  assert (match session r with Some s => FleetSession_validate s | None => Ok tt end = Ok tt
          <-> (forall s, session r = Some s -> generation s <> 0)) as ->.
  { destruct (session r); [rewrite FleetSession_validate_spec|]; naive_solver. }
  split.
  - intros (? & ? & ? & ? & ((? & ?) & ?) & ? & ? & ?). by constructor.
  - intros []. naive_solver.
Qed.

(** A poll response is accepted exactly when it names a protocol version and a sequence, asks
    for a delay of 5 to 60 seconds, carries a non-zero generation and at most 16 well-formed lease
    headers, and carries no lease at all when the replay status is a sanitized one. *)
Theorem poll_response_validate_iff r :
  FleetPollResponse_validate r = Ok tt
  <-> protocol_version r <> 0 /\ accepted_sequence r <> 0
      /\ 5000 <= poll_after_ms r <= 60000 /\ generation (response_session r) <> 0
      /\ list_len (leases r) <= 16
      /\ (sanitized_replay (replay_status r) = true -> leases r = [])
      /\ forall h, h ∈ leases r ->
           header_attempt_generation h <> 0 /\ length (payload_digest h) = 32%nat
           /\ is_contract_id (contract_id (contract h)) = true
           /\ is_contract_version (contract_version (contract h)) = true.
Proof.
  unfold FleetPollResponse_validate.
  rewrite !bind_unit_ok, FleetSession_validate_spec, !check_ok, validate_each_ok.
  setoid_rewrite LeaseHeader_validate_spec.
  rewrite !orb_false_iff, !Z.ltb_ge, !Z.eqb_neq, negb_false_iff, andb_true_iff, !Z.leb_le.
  assert ((sanitized_replay (replay_status r)
           && match leases r with [] => false | _ => true end = false)
          <-> (sanitized_replay (replay_status r) = true -> leases r = [])) as ->.
  { destruct (sanitized_replay _), (leases r); naive_solver. }
  tauto.
Qed.
