(* ===== verification/Capacity.v ===== *)
(** * The capacity ledger ([crates/ne-supervisor/src/capacity.rs])

    One mutex-protected record accounts for every workspace and every warm-pool
    slot of a supervisor.  Entries are owned by RAII guards: a reservation
    inserts an entry, promotion hands it to another guard, dropping the guard
    releases it.  The second half models the guards themselves as a transition
    system, where the statement that entries and owners agree is an invariant. *)

From S2P Require Import Prelude Text Profile Fleet.

(** [ne_protocol::supervisor::WorkspaceState]. *)
Inductive WorkspaceState :=
| WorkspaceState_Running
| WorkspaceState_Paused
| WorkspaceState_Snapshotting.
#[global] Instance WorkspaceState_eq_dec : EqDecision WorkspaceState.
Proof. solve_decision. Defined.

Inductive CapacityError :=
| CapacityError_Poisoned
| CapacityError_Exhausted
| CapacityError_DuplicateWorkspace
| CapacityError_MissingEntry
| CapacityError_InvalidTransition
| CapacityError_ArithmeticOverflow
| CapacityError_Faulted
| CapacityError_Snapshot (e : FleetValidationError).
#[global] Instance CapacityError_eq_dec : EqDecision CapacityError.
Proof. solve_decision. Defined.

Definition capacity_dimensions (vcpu_count mem_size_mib : Z) : result CapacityError (Z * Z) :=
  cpu_millicores ← ok_or (checked_mul U64_MAX vcpu_count 1000) CapacityError_ArithmeticOverflow;
  memory_bytes ← ok_or (checked_mul U64_MAX mem_size_mib (1024 * 1024))
                   CapacityError_ArithmeticOverflow;
  Ok (cpu_millicores, memory_bytes).

Inductive CapacityEntryId :=
| CapacityEntryId_Workspace (id : string)
| CapacityEntryId_Pool (n : Z).
#[global] Instance CapacityEntryId_eq_dec : EqDecision CapacityEntryId.
Proof. solve_decision. Defined.
#[global] Instance CapacityEntryId_countable : Countable CapacityEntryId.
Proof.
  refine (inj_countable'
    (fun i => match i with CapacityEntryId_Workspace s => inl s | CapacityEntryId_Pool n => inr n end)
    (fun s => match s with inl s => CapacityEntryId_Workspace s | inr n => CapacityEntryId_Pool n end) _).
  by intros [].
Defined.

Inductive WorkspaceCapacityState :=
| WorkspaceCapacityState_Reserved
| WorkspaceCapacityState_Registered (s : WorkspaceState).
#[global] Instance WorkspaceCapacityState_eq_dec : EqDecision WorkspaceCapacityState.
Proof. solve_decision. Defined.

Inductive PoolCapacityState :=
| PoolCapacityState_Reserved
| PoolCapacityState_Ready.
#[global] Instance PoolCapacityState_eq_dec : EqDecision PoolCapacityState.
Proof. solve_decision. Defined.

Record AccountedWorkspace := {
  aw_state : WorkspaceCapacityState; aw_cpu_millicores : Z; aw_memory_bytes : Z }.
Record AccountedPoolMember := {
  ap_state : PoolCapacityState; ap_cpu_millicores : Z; ap_memory_bytes : Z }.

Record CapacityState := {
  cs_revision : Z;
  cs_faulted : bool;
  cs_ceiling : Z;
  cs_next_pool_id : Z;
  cs_workspaces : gmap CapacityEntryId AccountedWorkspace;
  cs_pool_entries : gmap CapacityEntryId AccountedPoolMember;
}.

Definition set_revision (r : Z) (s : CapacityState) : CapacityState :=
  {| cs_revision := r; cs_faulted := cs_faulted s; cs_ceiling := cs_ceiling s;
     cs_next_pool_id := cs_next_pool_id s; cs_workspaces := cs_workspaces s;
     cs_pool_entries := cs_pool_entries s |}.
Definition set_faulted (s : CapacityState) : CapacityState :=
  {| cs_revision := cs_revision s; cs_faulted := true; cs_ceiling := cs_ceiling s;
     cs_next_pool_id := cs_next_pool_id s; cs_workspaces := cs_workspaces s;
     cs_pool_entries := cs_pool_entries s |}.
Definition set_next_pool_id (n : Z) (s : CapacityState) : CapacityState :=
  {| cs_revision := cs_revision s; cs_faulted := cs_faulted s; cs_ceiling := cs_ceiling s;
     cs_next_pool_id := n; cs_workspaces := cs_workspaces s;
     cs_pool_entries := cs_pool_entries s |}.
Definition set_workspaces (w : gmap CapacityEntryId AccountedWorkspace) (s : CapacityState)
    : CapacityState :=
  {| cs_revision := cs_revision s; cs_faulted := cs_faulted s; cs_ceiling := cs_ceiling s;
     cs_next_pool_id := cs_next_pool_id s; cs_workspaces := w;
     cs_pool_entries := cs_pool_entries s |}.
Definition set_pool_entries (p : gmap CapacityEntryId AccountedPoolMember) (s : CapacityState)
    : CapacityState :=
  {| cs_revision := cs_revision s; cs_faulted := cs_faulted s; cs_ceiling := cs_ceiling s;
     cs_next_pool_id := cs_next_pool_id s; cs_workspaces := cs_workspaces s;
     cs_pool_entries := p |}.

(** [Arc<Mutex<CapacityState>>]: the protected state and the poison flag. *)
Record CapacityLedger := { poisoned : bool; locked : CapacityState }.

Record WorkspaceCapacityReservation := { wr_entry_id : option CapacityEntryId }.
Record RegisteredWorkspaceCapacityGuard := { rw_entry_id : option CapacityEntryId }.
Record PoolCapacityReservation := { pr_entry_id : option CapacityEntryId }.
Record ReadyPoolCapacityGuard := { rp_entry_id : option CapacityEntryId }.

Definition CapacityLedger_new (configured_workspace_ceiling : Z) : CapacityLedger :=
  {| poisoned := false;
     locked := {| cs_revision := 0; cs_faulted := false;
                  cs_ceiling := configured_workspace_ceiling; cs_next_pool_id := 0;
                  cs_workspaces := ∅; cs_pool_entries := ∅ |} |}.

(** Computations under the ledger lock, and taking the lock. *)
Definition L (A : Type) : Type := M CapacityState CapacityError A.
Definition LM (A : Type) : Type := M CapacityLedger CapacityError A.
Definition with_lock {A} (m : L A) : LM A := fun l =>
  if poisoned l then (Err CapacityError_Poisoned, l)
  else let '(r, s) := m (locked l) in (r, {| poisoned := poisoned l; locked := s |}).

Definition ensure_healthy : L unit :=
  fun s => if cs_faulted s then (Err CapacityError_Faulted, s) else (Ok tt, s).

(** [BTreeMap::len], a [usize]. *)
Definition map_len {A} (m : gmap CapacityEntryId A) : Z := Z.of_nat (size m).
Definition entry_count (s : CapacityState) : result CapacityError Z :=
  ok_or (checked_add USIZE_MAX (map_len (cs_workspaces s)) (map_len (cs_pool_entries s)))
    CapacityError_ArithmeticOverflow.
Definition ensure_capacity : L unit := fun s =>
  (used ← entry_count s;
   ceiling ← ok_or (try_into USIZE_MAX (cs_ceiling s)) CapacityError_ArithmeticOverflow;
   if ceiling <=? used then Err CapacityError_Exhausted else Ok tt, s).

Definition preflight_next_revision : L Z := fun s =>
  if cs_faulted s then (Err CapacityError_Faulted, s)
  else match checked_add U64_MAX (cs_revision s) 1 with
       | Some r => (Ok r, s)
       | None => (Err CapacityError_Faulted, set_faulted s)
       end.
Definition preflight_revision_range (count : Z) : L unit := fun s =>
  if cs_faulted s then (Err CapacityError_Faulted, s)
  else match checked_add U64_MAX (cs_revision s) count with
       | Some _ => (Ok tt, s)
       | None => (Err CapacityError_Faulted, set_faulted s)
       end.
Definition commit_revision (next_revision : Z) : L unit := modify (set_revision next_revision).

(** ** Admission *)

Definition reserve_workspace (id : string) (cpu_millicores memory_bytes : Z)
    : LM WorkspaceCapacityReservation :=
  let entry_id := CapacityEntryId_Workspace id in
  with_lock (
    ensure_healthy ;;;
    ensure_capacity ;;;
    next_revision ← preflight_next_revision;
    s ← get;
    fail_if (bool_decide (is_Some (cs_workspaces s !! entry_id)))
      with CapacityError_DuplicateWorkspace ;;;
    modify (fun s => set_workspaces
      (<[entry_id := {| aw_state := WorkspaceCapacityState_Reserved;
                        aw_cpu_millicores := cpu_millicores;
                        aw_memory_bytes := memory_bytes |}]> (cs_workspaces s)) s) ;;;
    commit_revision next_revision ;;;
    mret {| wr_entry_id := Some entry_id |}).

(** The loop body of [reserve_pool_batch]. *)
Definition reserve_pool_one (cpu_millicores memory_bytes : Z) : L PoolCapacityReservation :=
  s ← get;
  let pool_id := cs_next_pool_id s in
  next ← lift (ok_or (checked_add U64_MAX pool_id 1) CapacityError_ArithmeticOverflow);
  modify (set_next_pool_id next) ;;;
  let entry_id := CapacityEntryId_Pool pool_id in
  next_revision ← preflight_next_revision;
  modify (fun s => set_pool_entries
    (<[entry_id := {| ap_state := PoolCapacityState_Reserved;
                      ap_cpu_millicores := cpu_millicores;
                      ap_memory_bytes := memory_bytes |}]> (cs_pool_entries s)) s) ;;;
  commit_revision next_revision ;;;
  mret {| pr_entry_id := Some entry_id |}.
Fixpoint reserve_pool_loop (count : nat) (cpu_millicores memory_bytes : Z)
    : L (list PoolCapacityReservation) :=
  match count with
  | O => mret []
  | S n =>
      r ← reserve_pool_one cpu_millicores memory_bytes;
      rs ← reserve_pool_loop n cpu_millicores memory_bytes;
      mret (r :: rs)
  end.

Definition reserve_pool_batch (requested cpu_millicores memory_bytes : Z)
    : LM (list PoolCapacityReservation) :=
  with_lock (
    ensure_healthy ;;;
    s ← get;
    used ← lift (entry_count s);
    ceiling ← lift (ok_or (try_into USIZE_MAX (cs_ceiling s)) CapacityError_ArithmeticOverflow);
    room ← lift (ok_or (checked_sub ceiling used) CapacityError_ArithmeticOverflow);
    let count := Z.min requested room in
    if count =? 0 then mret []
    else
      count_u64 ← lift (ok_or (try_into U64_MAX count) CapacityError_ArithmeticOverflow);
      _ ← lift (ok_or (checked_add U64_MAX (cs_next_pool_id s) count_u64)
                  CapacityError_ArithmeticOverflow);
      preflight_revision_range count_u64 ;;;
      reserve_pool_loop (Z.to_nat count) cpu_millicores memory_bytes).

(** ** Guard transitions

    A method on [&mut self] returns the guard's new value with its result; on
    an error the source leaves the guard unchanged. *)

Definition register_in_place (self : WorkspaceCapacityReservation) (state : WorkspaceState)
    : LM (WorkspaceCapacityReservation * RegisteredWorkspaceCapacityGuard) :=
  match wr_entry_id self with
  | None => throw CapacityError_MissingEntry
  | Some entry_id =>
      with_lock (
        ensure_healthy ;;;
        s ← get;
        existing ← lift (ok_or (cs_workspaces s !! entry_id) CapacityError_MissingEntry);
        fail_if (negb (bool_decide (aw_state existing = WorkspaceCapacityState_Reserved)))
          with CapacityError_InvalidTransition ;;;
        next_revision ← preflight_next_revision;
        modify (fun s => set_workspaces
          (alter (fun w => {| aw_state := WorkspaceCapacityState_Registered state;
                              aw_cpu_millicores := aw_cpu_millicores w;
                              aw_memory_bytes := aw_memory_bytes w |})
             entry_id (cs_workspaces s)) s) ;;;
        commit_revision next_revision ;;;
        mret ({| wr_entry_id := None |}, {| rw_entry_id := Some entry_id |}))
  end.

Definition set_state (self : RegisteredWorkspaceCapacityGuard) (state : WorkspaceState)
    : LM unit :=
  match rw_entry_id self with
  | None => throw CapacityError_MissingEntry
  | Some entry_id =>
      with_lock (
        ensure_healthy ;;;
        s ← get;
        existing ← lift (ok_or (cs_workspaces s !! entry_id) CapacityError_MissingEntry);
        match aw_state existing with
        | WorkspaceCapacityState_Reserved => throw CapacityError_InvalidTransition
        | WorkspaceCapacityState_Registered current =>
            if bool_decide (current = state) then mret tt
            else
              next_revision ← preflight_next_revision;
              modify (fun s => set_workspaces
                (alter (fun w => {| aw_state := WorkspaceCapacityState_Registered state;
                                    aw_cpu_millicores := aw_cpu_millicores w;
                                    aw_memory_bytes := aw_memory_bytes w |})
                   entry_id (cs_workspaces s)) s) ;;;
              commit_revision next_revision
        end)
  end.

Definition ready_in_place (self : PoolCapacityReservation)
    : LM (PoolCapacityReservation * ReadyPoolCapacityGuard) :=
  match pr_entry_id self with
  | None => throw CapacityError_MissingEntry
  | Some entry_id =>
      with_lock (
        ensure_healthy ;;;
        s ← get;
        existing ← lift (ok_or (cs_pool_entries s !! entry_id) CapacityError_MissingEntry);
        fail_if (negb (bool_decide (ap_state existing = PoolCapacityState_Reserved)))
          with CapacityError_InvalidTransition ;;;
        next_revision ← preflight_next_revision;
        modify (fun s => set_pool_entries
          (alter (fun p => {| ap_state := PoolCapacityState_Ready;
                              ap_cpu_millicores := ap_cpu_millicores p;
                              ap_memory_bytes := ap_memory_bytes p |})
             entry_id (cs_pool_entries s)) s) ;;;
        commit_revision next_revision ;;;
        mret ({| pr_entry_id := None |}, {| rp_entry_id := Some entry_id |}))
  end.

Definition adopt_in_place (self : ReadyPoolCapacityGuard) (workspace_id : string)
    (state : WorkspaceState) : LM (ReadyPoolCapacityGuard * RegisteredWorkspaceCapacityGuard) :=
  match rp_entry_id self with
  | None => throw CapacityError_MissingEntry
  | Some entry_id =>
      let workspace_entry_id := CapacityEntryId_Workspace workspace_id in
      with_lock (
        ensure_healthy ;;;
        s ← get;
        fail_if (bool_decide (is_Some (cs_workspaces s !! workspace_entry_id)))
          with CapacityError_DuplicateWorkspace ;;;
        pool_entry ← lift (ok_or (cs_pool_entries s !! entry_id) CapacityError_MissingEntry);
        fail_if (negb (bool_decide (ap_state pool_entry = PoolCapacityState_Ready)))
          with CapacityError_InvalidTransition ;;;
        next_revision ← preflight_next_revision;
        modify (fun s => set_workspaces
          (<[workspace_entry_id := {| aw_state := WorkspaceCapacityState_Registered state;
                                      aw_cpu_millicores := ap_cpu_millicores pool_entry;
                                      aw_memory_bytes := ap_memory_bytes pool_entry |}]>
             (cs_workspaces s)) (set_pool_entries (delete entry_id (cs_pool_entries s)) s)) ;;;
        commit_revision next_revision ;;;
        mret ({| rp_entry_id := None |}, {| rw_entry_id := Some workspace_entry_id |}))
  end.

Definition fault_ledger (l : CapacityLedger) : CapacityLedger :=
  if poisoned l then l else {| poisoned := false; locked := set_faulted (locked l) |}.

(** [Drop] of the four guard types; returns the guard's [entry_id] too. *)
Definition release_entry (owned_entry_id : option CapacityEntryId) (l : CapacityLedger)
    : option CapacityEntryId * CapacityLedger :=
  match owned_entry_id with
  | None => (None, l)
  | Some entry_id =>
      if poisoned l then (owned_entry_id, l)
      else
        match preflight_next_revision (locked l) with
        | (Err _, s) => (owned_entry_id, {| poisoned := false; locked := s |})
        | (Ok next_revision, s) =>
            let '(removed, s') :=
              match entry_id with
              | CapacityEntryId_Workspace _ =>
                  (bool_decide (is_Some (cs_workspaces s !! entry_id)),
                   set_workspaces (delete entry_id (cs_workspaces s)) s)
              | CapacityEntryId_Pool _ =>
                  (bool_decide (is_Some (cs_pool_entries s !! entry_id)),
                   set_pool_entries (delete entry_id (cs_pool_entries s)) s)
              end in
            if removed
            then (None, {| poisoned := false; locked := set_revision next_revision s' |})
            else (owned_entry_id, {| poisoned := false; locked := s' |})
        end
  end.

(** ** Snapshot *)

Record Tally := {
  t_registered : Z; t_runnable : Z; t_resident : Z; t_slots : Z; t_cpu : Z; t_mem : Z }.
Definition tally0 : Tally :=
  {| t_registered := 0; t_runnable := 0; t_resident := 0; t_slots := 0; t_cpu := 0; t_mem := 0 |}.
Definition add_or_overflow (max a b : Z) : result CapacityError Z :=
  ok_or (checked_add max a b) CapacityError_ArithmeticOverflow.

Definition tally_workspace (t : Tally) (w : AccountedWorkspace) : result CapacityError Tally :=
  match aw_state w with
  | WorkspaceCapacityState_Reserved => Ok t
  | WorkspaceCapacityState_Registered workspace_state =>
      registered ← add_or_overflow U32_MAX (t_registered t) 1;
      resident ← add_or_overflow U32_MAX (t_resident t) 1;
      runnable ← (if bool_decide (workspace_state = WorkspaceState_Running)
                  then add_or_overflow U32_MAX (t_runnable t) 1 else Ok (t_runnable t));
      cpu ← add_or_overflow U64_MAX (t_cpu t) (aw_cpu_millicores w);
      mem ← add_or_overflow U64_MAX (t_mem t) (aw_memory_bytes w);
      Ok {| t_registered := registered; t_runnable := runnable; t_resident := resident;
            t_slots := t_slots t; t_cpu := cpu; t_mem := mem |}
  end.
Definition tally_pool (t : Tally) (p : AccountedPoolMember) : result CapacityError Tally :=
  slots ← add_or_overflow U32_MAX (t_slots t) 1;
  resident ← (if bool_decide (ap_state p = PoolCapacityState_Ready)
              then add_or_overflow U32_MAX (t_resident t) 1 else Ok (t_resident t));
  cpu ← add_or_overflow U64_MAX (t_cpu t) (ap_cpu_millicores p);
  mem ← add_or_overflow U64_MAX (t_mem t) (ap_memory_bytes p);
  Ok {| t_registered := t_registered t; t_runnable := t_runnable t; t_resident := resident;
        t_slots := slots; t_cpu := cpu; t_mem := mem |}.
Fixpoint tally_all {A} (step : Tally -> A -> result CapacityError Tally) (t : Tally) (l : list A)
    : result CapacityError Tally :=
  match l with
  | [] => Ok t
  | x :: r => t' ← step t x; tally_all step t' r
  end.

Definition supported_operations (profile : ExecutionProfile) : list WorkspaceOperation :=
  List.filter (supports profile) all_operations.

(** [BTreeMap::values]; [tally_all_perm] shows that its order is immaterial. *)
Definition map_values {A} (m : gmap CapacityEntryId A) : list A := (map_to_list m).*2.

Definition snapshot_locked (profile : ExecutionProfile) (s : CapacityState)
    : result CapacityError RunnerCapacity :=
  t ← tally_all tally_workspace tally0 (map_values (cs_workspaces s));
  t ← tally_all tally_pool t (map_values (cs_pool_entries s));
  let capacity :=
    {| revision := cs_revision s;
       configured_workspace_ceiling := cs_ceiling s;
       registered_workspaces := t_registered t;
       resident_workspaces := t_resident t;
       runnable_workspaces := t_runnable t;
       allocated_cpu_millicores := t_cpu t;
       allocated_memory_bytes := t_mem t;
       warm_pool_reserved_slots := t_slots t;
       profiles := [profile];
       operations := supported_operations profile |} in
  _ ← map_err CapacityError_Snapshot (RunnerCapacity_validate capacity);
  Ok capacity.

Definition snapshot (profile : ExecutionProfile) : LM RunnerCapacity :=
  with_lock (
    ensure_healthy ;;;
    s ← get;
    lift (snapshot_locked profile s)).

(** ** Well-formedness *)

Record wf (s : CapacityState) : Prop := {
  wf_revision : in_range U64_MAX (cs_revision s);
  wf_ceiling : in_range U32_MAX (cs_ceiling s);
  wf_pool_id : in_range U64_MAX (cs_next_pool_id s);
  wf_bound : map_len (cs_workspaces s) + map_len (cs_pool_entries s) <= cs_ceiling s;
  wf_workspaces : forall i w, cs_workspaces s !! i = Some w ->
    (exists id, i = CapacityEntryId_Workspace id)
    /\ in_range U64_MAX (aw_cpu_millicores w) /\ in_range U64_MAX (aw_memory_bytes w);
  wf_pool_entries : forall i p, cs_pool_entries s !! i = Some p ->
    (exists n, i = CapacityEntryId_Pool n /\ 0 <= n < cs_next_pool_id s)
    /\ in_range U64_MAX (ap_cpu_millicores p) /\ in_range U64_MAX (ap_memory_bytes p);
}.

(** The number of accounted entries, reserved ones included. *)
Definition used (s : CapacityState) : Z :=
  map_len (cs_workspaces s) + map_len (cs_pool_entries s).

Definition healthy (l : CapacityLedger) : Prop :=
  poisoned l = false /\ cs_faulted (locked l) = false.
#[global] Instance healthy_dec l : Decision (healthy l).
Proof. unfold healthy. apply _. Defined.

(** The state of an entry, wherever it is stored. *)
Definition EntryState : Type := WorkspaceCapacityState + PoolCapacityState.
Definition entry_of (s : CapacityState) (i : CapacityEntryId) : option EntryState :=
  match i with
  | CapacityEntryId_Workspace _ => inl ∘ aw_state <$> cs_workspaces s !! i
  | CapacityEntryId_Pool _ => inr ∘ ap_state <$> cs_pool_entries s !! i
  end.
Definition upd (f : CapacityEntryId -> option EntryState) (i : CapacityEntryId)
    (o : option EntryState) : CapacityEntryId -> option EntryState :=
  fun j => if decide (j = i) then o else f j.

(** The ledger did not change, or only the terminal fault was raised. *)
Definition quiet (l l' : CapacityLedger) : Prop :=
  l' = l \/ (healthy l /\ l' = {| poisoned := false; locked := set_faulted (locked l) |}).
(** A committed mutation: [k] revisions were published on a healthy ledger. *)
Record committed (k : Z) (l l' : CapacityLedger) : Prop := {
  committed_healthy : healthy l;
  committed_healthy' : healthy l';
  committed_revision : cs_revision (locked l') = cs_revision (locked l) + k;
  committed_ceiling : cs_ceiling (locked l') = cs_ceiling (locked l);
  committed_wf : wf (locked l');
}.

Lemma map_len_nonneg {A} (m : gmap CapacityEntryId A) : 0 <= map_len m.
Proof. unfold map_len. lia. Qed.
Lemma entry_count_ok s : wf s -> entry_count s = Ok (used s).
Proof.
  intros H. unfold entry_count, checked_add, used.
  pose proof (wf_bound _ H). destruct (wf_ceiling _ H).
  unfold USIZE_MAX, U64_MAX, U32_MAX in *. case_match; [done|]. reflect_Z. lia.
Qed.
Lemma ceiling_usize s : wf s -> try_into USIZE_MAX (cs_ceiling s) = Some (cs_ceiling s).
Proof.
  intros H. apply try_into_Some. destruct (wf_ceiling _ H).
  unfold USIZE_MAX, U64_MAX, U32_MAX in *. lia.
Qed.
Lemma next_revision_eq s : wf s ->
  checked_add U64_MAX (cs_revision s) 1
  = if cs_revision s =? U64_MAX then None else Some (cs_revision s + 1).
Proof.
  intros H. destruct (wf_revision _ H). unfold checked_add.
  destruct (Z.leb_spec (cs_revision s + 1) U64_MAX), (Z.eqb_spec (cs_revision s) U64_MAX);
    try done; lia.
Qed.


Lemma map_len_insert {A} (m : gmap CapacityEntryId A) i x :
  m !! i = None -> map_len (<[i := x]> m) = map_len m + 1.
Proof. intros H. unfold map_len. rewrite map_size_insert_None by done. lia. Qed.
Lemma map_len_delete {A} (m : gmap CapacityEntryId A) i x :
  m !! i = Some x -> map_len (delete i m) = map_len m - 1.
Proof.
  intros H. unfold map_len. rewrite map_size_delete_Some by eauto.
  assert (size m ≠ 0%nat) by (apply map_size_ne_0_lookup; eauto). lia.
Qed.
Lemma map_len_alter {A} (m : gmap CapacityEntryId A) f i : map_len (alter f i m) = map_len m.
Proof.
  unfold map_len. f_equal. rewrite <- !size_dom. f_equal. apply dom_alter_L.
Qed.
#[export] Hint Rewrite @map_len_alter : enclave_eq.

(** ** Each state change keeps the ledger well formed *)

Section Preservation.
Context (s : CapacityState) (Hwf : wf s).
Context (Hrev : cs_revision s <> U64_MAX).

Local Lemma revision_succ : in_range U64_MAX (cs_revision s + 1).
Proof. destruct (wf_revision _ Hwf). unfold in_range. lia. Qed.

Lemma wf_set_faulted : wf (set_faulted s).
Proof. by destruct Hwf. Qed.
Lemma wf_insert_workspace id w :
  used s < cs_ceiling s -> cs_workspaces s !! CapacityEntryId_Workspace id = None ->
  in_range U64_MAX (aw_cpu_millicores w) -> in_range U64_MAX (aw_memory_bytes w) ->
  wf (set_revision (cs_revision s + 1)
        (set_workspaces (<[CapacityEntryId_Workspace id := w]> (cs_workspaces s)) s)).
Proof.
  intros Hu Hn Hc Hm. pose proof revision_succ. destruct Hwf. constructor; cbn; auto.
  - unfold used in Hu. rewrite map_len_insert by done. lia.
  - intros i w' [[<- <-]|[??]]%lookup_insert_Some; eauto.
Qed.
Lemma wf_alter_workspace i st :
  wf (set_revision (cs_revision s + 1)
        (set_workspaces (alter (fun w => {| aw_state := st; aw_cpu_millicores := aw_cpu_millicores w;
                                            aw_memory_bytes := aw_memory_bytes w |}) i
                           (cs_workspaces s)) s)).
Proof.
  pose proof revision_succ. destruct Hwf. constructor; cbn; auto.
  - by rewrite map_len_alter.
  - intros j w' [[-> (w & ? & ->)]|[??]]%lookup_alter_Some; cbn; eauto.
Qed.
Lemma wf_alter_pool i st :
  wf (set_revision (cs_revision s + 1)
        (set_pool_entries (alter (fun w => {| ap_state := st; ap_cpu_millicores := ap_cpu_millicores w;
                                              ap_memory_bytes := ap_memory_bytes w |}) i
                             (cs_pool_entries s)) s)).
Proof.
  pose proof revision_succ. destruct Hwf. constructor; cbn; auto.
  - by rewrite map_len_alter.
  - intros j w' [[-> (w & ? & ->)]|[??]]%lookup_alter_Some; cbn; eauto.
Qed.
Lemma pool_id_fresh : cs_pool_entries s !! CapacityEntryId_Pool (cs_next_pool_id s) = None.
Proof.
  destruct (_ !! _) eqn:E; [|done].
  apply (wf_pool_entries _ Hwf) in E as ((n & ? & ?) & _). simplify_eq. lia.
Qed.
Lemma wf_insert_pool p :
  used s < cs_ceiling s -> cs_next_pool_id s < U64_MAX ->
  in_range U64_MAX (ap_cpu_millicores p) -> in_range U64_MAX (ap_memory_bytes p) ->
  wf (set_revision (cs_revision s + 1)
        (set_pool_entries
           (<[CapacityEntryId_Pool (cs_next_pool_id s) := p]> (cs_pool_entries s))
           (set_next_pool_id (cs_next_pool_id s + 1) s))).
Proof.
  intros Hu Hn Hc Hm. pose proof revision_succ. pose proof pool_id_fresh.
  destruct Hwf as [? ? [] ? ? Hp]. constructor; cbn; auto.
  - unfold in_range. lia.
  - unfold used in Hu. rewrite map_len_insert by done. lia.
  - intros i p' [[<- <-]|[? Hi]]%lookup_insert_Some.
    + split; [|done]. eexists; split; [done|]. lia.
    + apply Hp in Hi as ((n & -> & ?) & ?). split; [|done]. exists n. split; [done|lia].
Qed.
Lemma wf_delete_workspace i :
  wf (set_revision (cs_revision s + 1) (set_workspaces (delete i (cs_workspaces s)) s)).
Proof.
  pose proof revision_succ. destruct Hwf. constructor; cbn; auto.
  - destruct (cs_workspaces s !! i) eqn:E.
    + erewrite map_len_delete by done. lia.
    + by rewrite delete_id.
  - intros j w [??]%lookup_delete_Some; eauto.
Qed.
Lemma wf_delete_pool i :
  wf (set_revision (cs_revision s + 1) (set_pool_entries (delete i (cs_pool_entries s)) s)).
Proof.
  pose proof revision_succ. destruct Hwf. constructor; cbn; auto.
  - destruct (cs_pool_entries s !! i) eqn:E.
    + erewrite map_len_delete by done. lia.
    + by rewrite delete_id.
  - intros j w [??]%lookup_delete_Some; eauto.
Qed.
Lemma wf_adopt id i p st :
  cs_workspaces s !! CapacityEntryId_Workspace id = None ->
  cs_pool_entries s !! i = Some p ->
  wf (set_revision (cs_revision s + 1)
        (set_workspaces
           (<[CapacityEntryId_Workspace id :=
                {| aw_state := st; aw_cpu_millicores := ap_cpu_millicores p;
                   aw_memory_bytes := ap_memory_bytes p |}]> (cs_workspaces s))
           (set_pool_entries (delete i (cs_pool_entries s)) s))).
Proof.
  intros Hn Hp. pose proof revision_succ. destruct Hwf as [? ? ? ? ? Hpe]. constructor; cbn; auto.
  - rewrite map_len_insert by done. erewrite map_len_delete by done. lia.
  - intros j w [[<- <-]|[??]]%lookup_insert_Some; [|eauto].
    apply Hpe in Hp as (_ & ? & ?). cbn. eauto.
  - intros j w [??]%lookup_delete_Some; eauto.
Qed.
End Preservation.
#[export] Hint Resolve wf_set_faulted wf_insert_workspace wf_alter_workspace wf_alter_pool
  wf_insert_pool wf_delete_workspace wf_delete_pool wf_adopt : enclave.

(** ** Outcomes of the operations *)

Lemma entry_of_workspace s id :
  entry_of s (CapacityEntryId_Workspace id)
  = inl ∘ aw_state <$> cs_workspaces s !! CapacityEntryId_Workspace id.
Proof. done. Qed.
Lemma entry_of_workspace_lookup s i w :
  wf s -> cs_workspaces s !! i = Some w -> entry_of s i = Some (inl (aw_state w)).
Proof. intros H Hi. destruct (wf_workspaces _ H _ _ Hi) as [[id ->] _]. cbn. by rewrite Hi. Qed.
Lemma entry_of_pool_lookup s i p :
  wf s -> cs_pool_entries s !! i = Some p -> entry_of s i = Some (inr (ap_state p)).
Proof. intros H Hi. destruct (wf_pool_entries _ H _ _ Hi) as [(n & -> & _) _]. cbn. by rewrite Hi. Qed.

Ltac solve_upd :=
  intros j; unfold upd, entry_of in *; repeat case_decide; subst; cbn in *;
  repeat case_match; cbn in *; simplify_map_eq; try done.

Section Outcomes.
Context (l : CapacityLedger) (Hwf : wf (locked l)).

(** Enter the critical section: the poisoned and faulted cases are quiet. *)
Ltac enter :=
  let p := fresh "p" in let s := fresh "s" in
  destruct l as [p s]; cbn in Hwf; unfold with_lock, ensure_healthy; unfold_m;
  destruct p; cbn in *;
  [intros [= <- <-]; by left | destruct (cs_faulted s) eqn:Hf; cbn;
     [intros [= <- <-]; by left |]].
Ltac preflight Hr :=
  unfold preflight_next_revision; rewrite ?next_revision_eq by done;
  match goal with Hf : cs_faulted _ = false |- _ => rewrite Hf end;
  match goal with |- context [?r =? U64_MAX] => destruct (Z.eqb_spec r U64_MAX) as [|Hr] end;
  cbn; [intros [= <- <-]; right; done|].

Lemma reserve_workspace_cases id c m r l' :
  in_range U64_MAX c -> in_range U64_MAX m ->
  reserve_workspace id c m l = (r, l') ->
  let i := CapacityEntryId_Workspace id in
  match r with
  | Err _ => quiet l l'
  | Ok g => g = {| wr_entry_id := Some i |} /\ committed 1 l l'
            /\ used (locked l) < cs_ceiling (locked l)
            /\ entry_of (locked l) i = None
            /\ forall j, entry_of (locked l') j
                 = upd (entry_of (locked l)) i (Some (inl WorkspaceCapacityState_Reserved)) j
  end.
Proof.
  intros Hc Hm. unfold reserve_workspace. enter.
  unfold ensure_capacity. rewrite (entry_count_ok s), (ceiling_usize s) by done. cbn.
  destruct (Z.leb_spec (cs_ceiling s) (used s)); cbn; [intros [= <- <-]; by left|].
  preflight Hr.
  case_bool_decide as Hd; cbn; [intros [= <- <-]; by left|].
  apply eq_None_not_Some in Hd.
  intros [= <- <-]. split_and!; [done| |done|cbn; by rewrite Hd|].
  - constructor; cbn; auto; [done| |]; [by split|]. auto with enclave.
  - solve_upd.
Qed.

Lemma register_in_place_cases g st r l' :
  register_in_place g st l = (r, l') ->
  match r with
  | Err _ => quiet l l'
  | Ok (g', k) =>
      exists i, wr_entry_id g = Some i /\ g' = {| wr_entry_id := None |}
        /\ k = {| rw_entry_id := Some i |} /\ committed 1 l l'
        /\ entry_of (locked l) i = Some (inl WorkspaceCapacityState_Reserved)
        /\ forall j, entry_of (locked l') j
             = upd (entry_of (locked l)) i (Some (inl (WorkspaceCapacityState_Registered st))) j
  end.
Proof.
  unfold register_in_place. destruct (wr_entry_id g) as [i|]; [|intros [= <- <-]; by left].
  enter. destruct (cs_workspaces s !! i) as [w|] eqn:Hi; cbn; [|intros [= <- <-]; by left].
  case_bool_decide as Hs; cbn; [|intros [= <- <-]; by left].
  preflight Hr. intros [= <- <-]. exists i.
  pose proof (entry_of_workspace_lookup _ _ _ Hwf Hi) as He. rewrite Hs in He.
  split_and!; try done.
  - constructor; cbn; auto; [done| |]; [by split|]. auto with enclave.
  - destruct (wf_workspaces _ Hwf _ _ Hi) as [[id ->] _]. solve_upd.
Qed.

Lemma set_state_cases g st r l' :
  set_state g st l = (r, l') ->
  match r with
  | Err _ => quiet l l'
  | Ok _ =>
      exists i old, rw_entry_id g = Some i /\ healthy l
        /\ entry_of (locked l) i = Some (inl (WorkspaceCapacityState_Registered old))
        /\ (old = st /\ l' = l
            \/ old <> st /\ committed 1 l l'
               /\ forall j, entry_of (locked l') j
                    = upd (entry_of (locked l)) i
                        (Some (inl (WorkspaceCapacityState_Registered st))) j)
  end.
Proof.
  unfold set_state. destruct (rw_entry_id g) as [i|]; [|intros [= <- <-]; by left].
  enter. destruct (cs_workspaces s !! i) as [w|] eqn:Hi; cbn; [|intros [= <- <-]; by left].
  destruct (aw_state w) as [|old] eqn:Hs; cbn; [intros [= <- <-]; by left|].
  pose proof (entry_of_workspace_lookup _ _ _ Hwf Hi) as He. rewrite Hs in He.
  case_bool_decide; cbn.
  { intros [= <- <-]. exists i, old. split_and!; try done. by left. }
  preflight Hr. intros [= <- <-]. exists i, old. split_and!; try done. right.
  split_and!; [done| |].
  - constructor; cbn; auto; [done| |]; [by split|]. auto with enclave.
  - destruct (wf_workspaces _ Hwf _ _ Hi) as [[id ->] _]. solve_upd.
Qed.

Lemma ready_in_place_cases g r l' :
  ready_in_place g l = (r, l') ->
  match r with
  | Err _ => quiet l l'
  | Ok (g', k) =>
      exists i, pr_entry_id g = Some i /\ g' = {| pr_entry_id := None |}
        /\ k = {| rp_entry_id := Some i |} /\ committed 1 l l'
        /\ entry_of (locked l) i = Some (inr PoolCapacityState_Reserved)
        /\ forall j, entry_of (locked l') j
             = upd (entry_of (locked l)) i (Some (inr PoolCapacityState_Ready)) j
  end.
Proof.
  unfold ready_in_place. destruct (pr_entry_id g) as [i|]; [|intros [= <- <-]; by left].
  enter. destruct (cs_pool_entries s !! i) as [w|] eqn:Hi; cbn; [|intros [= <- <-]; by left].
  case_bool_decide as Hs; cbn; [|intros [= <- <-]; by left].
  preflight Hr. intros [= <- <-]. exists i.
  pose proof (entry_of_pool_lookup _ _ _ Hwf Hi) as He. rewrite Hs in He.
  split_and!; try done.
  - constructor; cbn; auto; [done| |]; [by split|]. auto with enclave.
  - destruct (wf_pool_entries _ Hwf _ _ Hi) as [(n & -> & _) _]. solve_upd.
Qed.

Lemma adopt_in_place_cases g id st r l' :
  adopt_in_place g id st l = (r, l') ->
  let k := CapacityEntryId_Workspace id in
  match r with
  | Err _ => quiet l l'
  | Ok (g', gk) =>
      exists i, rp_entry_id g = Some i /\ g' = {| rp_entry_id := None |}
        /\ gk = {| rw_entry_id := Some k |} /\ committed 1 l l'
        /\ used (locked l') = used (locked l)
        /\ entry_of (locked l) i = Some (inr PoolCapacityState_Ready)
        /\ entry_of (locked l) k = None
        /\ forall j, entry_of (locked l') j
             = upd (upd (entry_of (locked l)) i None) k
                 (Some (inl (WorkspaceCapacityState_Registered st))) j
  end.
Proof.
  unfold adopt_in_place. destruct (rp_entry_id g) as [i|]; [|intros [= <- <-]; by left].
  enter. case_bool_decide as Hd; cbn; [intros [= <- <-]; by left|].
  apply eq_None_not_Some in Hd.
  destruct (cs_pool_entries s !! i) as [w|] eqn:Hi; cbn; [|intros [= <- <-]; by left].
  case_bool_decide as Hs; cbn; [|intros [= <- <-]; by left].
  preflight Hr. intros [= <- <-]. exists i.
  pose proof (entry_of_pool_lookup _ _ _ Hwf Hi) as He. rewrite Hs in He.
  split_and!; try done.
  - constructor; cbn; auto; [done| |]; [by split|]. auto with enclave.
  - unfold used; cbn. rewrite map_len_insert by done. erewrite map_len_delete by done. lia.
  - cbn. by rewrite Hd.
  - destruct (wf_pool_entries _ Hwf _ _ Hi) as [(n & -> & _) _]. solve_upd.
Qed.

(** A guard's drop removes exactly its entry, or changes nothing but the fault. *)
Lemma release_entry_cases o o' l' :
  release_entry o l = (o', l') ->
  (quiet l l' /\ (healthy l' -> forall i, o = Some i -> entry_of (locked l) i = None))
  \/ exists i, o = Some i /\ o' = None /\ committed 1 l l'
       /\ is_Some (entry_of (locked l) i)
       /\ used (locked l') = used (locked l) - 1
       /\ forall j, entry_of (locked l') j = upd (entry_of (locked l)) i None j.
Proof.
  unfold release_entry. destruct o as [i|]; [|intros [= <- <-]; left; split; [by left|done]].
  destruct l as [p s]; cbn in Hwf |- *.
  destruct p; [intros [= <- <-]; left; split; [by left|by intros []]|].
  unfold preflight_next_revision. rewrite next_revision_eq by done.
  destruct (cs_faulted s) eqn:Hf; [intros [= <- <-]; left; split; [by left|]|].
  { intros [_ H]; cbn in H; congruence. }
  destruct (Z.eqb_spec (cs_revision s) U64_MAX) as [|Hr].
  { intros [= <- <-]; left; split; [by right|by intros []]. }
  destruct i as [id|n]; cbn; case_bool_decide as Hd.
  - intros [= <- <-]. right. eexists. destruct Hd as [w Hw]. split_and!; try done.
    + constructor; cbn; auto; [done| |]; [by split|]. auto with enclave.
    + cbn. rewrite Hw. by eexists.
    + unfold used; cbn. erewrite map_len_delete by done. lia.
    + solve_upd.
  - intros [= <- <-]. apply eq_None_not_Some in Hd. left. split.
    + left. rewrite delete_id by done. by destruct s.
    + intros _ i [= <-]. cbn. by rewrite Hd.
  - intros [= <- <-]. right. eexists. destruct Hd as [w Hw]. split_and!; try done.
    + constructor; cbn; auto; [done| |]; [by split|]. auto with enclave.
    + cbn. rewrite Hw. by eexists.
    + unfold used; cbn. erewrite map_len_delete by done. lia.
    + solve_upd.
  - intros [= <- <-]. apply eq_None_not_Some in Hd. left. split.
    + left. rewrite delete_id by done. by destruct s.
    + intros _ i [= <-]. cbn. by rewrite Hd.
Qed.
End Outcomes.

(** ** Batch reservation *)

(** The ids a batch of [n] reservations receives. *)
Definition pool_ids (start n : Z) : list CapacityEntryId :=
  CapacityEntryId_Pool <$> seqZ start n.
Definition pool_guards (start n : Z) : list PoolCapacityReservation :=
  (fun i => {| pr_entry_id := Some i |}) <$> pool_ids start n.

Lemma elem_of_pool_ids start n i :
  i ∈ pool_ids start n <-> exists k, i = CapacityEntryId_Pool k /\ start <= k < start + n.
Proof. unfold pool_ids. rewrite list_elem_of_fmap. setoid_rewrite elem_of_seqZ. naive_solver. Qed.

Lemma pool_in_pool_ids start n k :
  CapacityEntryId_Pool k ∈ pool_ids start n <-> start <= k < start + n.
Proof. rewrite elem_of_pool_ids. naive_solver. Qed.
Lemma workspace_in_pool_ids start n id : CapacityEntryId_Workspace id ∉ pool_ids start n.
Proof. rewrite elem_of_pool_ids. naive_solver. Qed.

Definition after_batch (s : CapacityState) (n : Z) (s' : CapacityState) : Prop :=
  wf s' /\ cs_faulted s' = false /\ cs_revision s' = cs_revision s + n
  /\ cs_next_pool_id s' = cs_next_pool_id s + n /\ cs_ceiling s' = cs_ceiling s
  /\ cs_workspaces s' = cs_workspaces s /\ used s' = used s + n /\ (n = 0 -> s' = s)
  /\ forall j, entry_of s' j
       = if decide (j ∈ pool_ids (cs_next_pool_id s) n)
         then Some (inr PoolCapacityState_Reserved) else entry_of s j.

Lemma reserve_pool_one_ok c m s :
  wf s -> cs_faulted s = false -> in_range U64_MAX c -> in_range U64_MAX m ->
  used s < cs_ceiling s -> cs_next_pool_id s < U64_MAX -> cs_revision s < U64_MAX ->
  exists s', reserve_pool_one c m s
             = (Ok {| pr_entry_id := Some (CapacityEntryId_Pool (cs_next_pool_id s)) |}, s')
          /\ after_batch s 1 s'.
Proof.
  intros Hwf Hf Hc Hm Hu Hn Hr. unfold reserve_pool_one. unfold_m.
  replace (checked_add U64_MAX (cs_next_pool_id s) 1) with (Some (cs_next_pool_id s + 1))
    by (symmetry; apply checked_add_Some; lia).
  unfold preflight_next_revision. cbn. rewrite Hf, (next_revision_eq s Hwf).
  destruct (Z.eqb_spec (cs_revision s) U64_MAX); [lia|]. cbn.
  eexists; split; [done|]. pose proof (pool_id_fresh s Hwf) as Hfresh.
  unfold after_batch. cbn. split_and!; try done.
  - apply wf_insert_pool; auto.
  - unfold used. cbn. rewrite map_len_insert by done. lia.
  - intros j. unfold pool_ids. change (seqZ (cs_next_pool_id s) 1) with [0 + cs_next_pool_id s]. cbn.
    case_decide as Hj; [apply list_elem_of_singleton in Hj as ->; cbn; by rewrite lookup_insert_eq|].
    rewrite list_elem_of_singleton in Hj. destruct j; cbn; [done|].
    by rewrite lookup_insert_ne.
Qed.

Lemma after_batch_trans s s1 s2 n :
  0 <= n -> after_batch s 1 s1 -> after_batch s1 n s2 -> after_batch s (1 + n) s2.
Proof.
  intros Hn (_ & _ & Hr1 & Hp1 & Hc1 & Hw1 & Hu1 & _ & He1)
    (Hwf & Hf & Hr & Hp & Hc & Hw & Hu & _ & He).
  unfold after_batch. split_and!; try done; try lia; try congruence.
  intros [id|k]; rewrite He, He1, Hp1; repeat case_decide; try done;
    repeat match goal with
    | H : CapacityEntryId_Workspace _ ∈ _ |- _ => by apply workspace_in_pool_ids in H
    | H : context [CapacityEntryId_Pool _ ∈ _] |- _ => rewrite pool_in_pool_ids in H
    end; lia.
Qed.

Lemma reserve_pool_loop_ok c m n : forall s,
  wf s -> cs_faulted s = false -> in_range U64_MAX c -> in_range U64_MAX m ->
  used s + Z.of_nat n <= cs_ceiling s -> cs_next_pool_id s + Z.of_nat n <= U64_MAX ->
  cs_revision s + Z.of_nat n <= U64_MAX ->
  exists s', reserve_pool_loop n c m s
             = (Ok (pool_guards (cs_next_pool_id s) (Z.of_nat n)), s')
          /\ after_batch s (Z.of_nat n) s'.
Proof.
  induction n as [|n IH]; intros s Hwf Hf Hc Hm Hu Hn Hr.
  { exists s. split; [done|]. unfold after_batch. rewrite !Z.add_0_r. split_and!; done. }
  destruct (reserve_pool_one_ok c m s) as (s1 & E1 & H1); auto; try lia.
  pose proof H1 as (Hwf1 & Hf1 & Hr1 & Hp1 & Hc1 & _ & Hu1 & _ & _).
  destruct (IH s1) as (s2 & E2 & H2); auto; try lia.
  exists s2. cbn [reserve_pool_loop]. unfold mbind, M_bind, mret, M_ret. rewrite E1, E2. split.
  - unfold pool_guards, pool_ids. rewrite Nat2Z.inj_succ, (seqZ_cons (cs_next_pool_id s)) by lia. cbn.
    rewrite Hp1, Z.pred_succ. by rewrite <- Z.add_1_r.
  - replace (Z.of_nat (S n)) with (1 + Z.of_nat n) by lia.
    eapply after_batch_trans; eauto; lia.
Qed.

(** The batch is all or nothing: an error changes nothing but the fault flag. *)
Lemma reserve_pool_batch_cases l n c m r l' :
  wf (locked l) -> 0 <= n -> in_range U64_MAX c -> in_range U64_MAX m ->
  reserve_pool_batch n c m l = (r, l') ->
  match r with
  | Err _ => quiet l l'
  | Ok gs =>
      let k := Z.min n (cs_ceiling (locked l) - used (locked l)) in
      gs = pool_guards (cs_next_pool_id (locked l)) k
      /\ poisoned l' = false /\ healthy l
      /\ after_batch (locked l) k (locked l')
  end.
Proof.
  intros Hwf Hn Hc Hm. unfold reserve_pool_batch. destruct l as [p s]; cbn in Hwf.
  unfold with_lock, ensure_healthy. cbn.
  destruct p; cbn; [intros [= <- <-]; by left|]. unfold_m.
  destruct (cs_faulted s) eqn:Hf; cbn; [intros [= <- <-]; by left|].
  rewrite (entry_count_ok s), (ceiling_usize s) by done. cbn.
  pose proof (wf_bound _ Hwf) as Hb. fold (used s) in Hb.
  unfold checked_sub. destruct (Z.leb_spec (used s) (cs_ceiling s)); [cbn|lia].
  set (k := Z.min n (cs_ceiling s - used s)).
  destruct (Z.eqb_spec k 0) as [Hk|Hk]; cbn.
  { intros [= <- <-]. rewrite Hk. split_and!; try done.
    unfold after_batch. cbn. rewrite !Z.add_0_r. split_and!; done. }
  pose proof (map_len_nonneg (cs_workspaces s)). pose proof (map_len_nonneg (cs_pool_entries s)).
  replace (try_into U64_MAX k) with (Some k).
  2: { symmetry. apply try_into_Some. destruct (wf_ceiling _ Hwf).
       unfold used, U32_MAX, U64_MAX in *. lia. }
  cbn.
  destruct (checked_add U64_MAX (cs_next_pool_id s) k) eqn:Ep; cbn; [|intros [= <- <-]; by left].
  unfold preflight_revision_range. rewrite Hf.
  destruct (checked_add U64_MAX (cs_revision s) k) eqn:Er; cbn; [|intros [= <- <-]; by right].
  apply checked_add_Some in Ep as [_ Ep], Er as [_ Er].
  destruct (reserve_pool_loop_ok c m (Z.to_nat k) s) as (s' & -> & Hs'); auto;
    rewrite ?Z2Nat.id by lia; try lia.
  rewrite Z2Nat.id in * by lia. intros [= <- <-]. split_and!; done.
Qed.

(** ** What a snapshot counts *)

Definition sumZ {A} (f : A -> Z) (l : list A) : Z := foldr (fun x acc => f x + acc) 0 l.
Definition b2z (b : bool) : Z := if b then 1 else 0.
Definition is_registered (w : AccountedWorkspace) : bool :=
  match aw_state w with WorkspaceCapacityState_Registered _ => true | _ => false end.
Definition is_runnable (w : AccountedWorkspace) : bool :=
  bool_decide (aw_state w = WorkspaceCapacityState_Registered WorkspaceState_Running).
Definition is_ready (p : AccountedPoolMember) : bool :=
  bool_decide (ap_state p = PoolCapacityState_Ready).
(** The contribution of one entry to the inventory. *)
Definition workspace_share (w : AccountedWorkspace) : Tally :=
  if is_registered w
  then {| t_registered := 1; t_runnable := b2z (is_runnable w); t_resident := 1; t_slots := 0;
          t_cpu := aw_cpu_millicores w; t_mem := aw_memory_bytes w |}
  else tally0.
Definition pool_share (p : AccountedPoolMember) : Tally :=
  {| t_registered := 0; t_runnable := 0; t_resident := b2z (is_ready p); t_slots := 1;
     t_cpu := ap_cpu_millicores p; t_mem := ap_memory_bytes p |}.
Definition tally_add (a b : Tally) : Tally :=
  {| t_registered := t_registered a + t_registered b; t_runnable := t_runnable a + t_runnable b;
     t_resident := t_resident a + t_resident b; t_slots := t_slots a + t_slots b;
     t_cpu := t_cpu a + t_cpu b; t_mem := t_mem a + t_mem b |}.
Definition tally_sum {A} (share : A -> Tally) (l : list A) : Tally :=
  foldr (fun x acc => tally_add (share x) acc) tally0 l.
(** Every counter fits its machine type. *)
Definition fits (t : Tally) : bool :=
  (t_registered t <=? U32_MAX) && (t_runnable t <=? U32_MAX) && (t_resident t <=? U32_MAX)
  && (t_slots t <=? U32_MAX) && (t_cpu t <=? U64_MAX) && (t_mem t <=? U64_MAX).
Definition nonneg (t : Tally) : Prop :=
  0 <= t_registered t /\ 0 <= t_runnable t /\ 0 <= t_resident t /\ 0 <= t_slots t
  /\ 0 <= t_cpu t /\ 0 <= t_mem t.
Definition guarded_add (t share : Tally) : result CapacityError Tally :=
  if fits (tally_add t share) then Ok (tally_add t share) else Err CapacityError_ArithmeticOverflow.

Lemma fits_true t :
  fits t = true <-> t_registered t <= U32_MAX /\ t_runnable t <= U32_MAX
    /\ t_resident t <= U32_MAX /\ t_slots t <= U32_MAX /\ t_cpu t <= U64_MAX /\ t_mem t <= U64_MAX.
Proof. unfold fits. rewrite !andb_true_iff, !Z.leb_le. tauto. Qed.
Lemma fits_false_mono t u : nonneg u -> fits t = false -> fits (tally_add t u) = false.
Proof.
  intros Hu. rewrite <- !not_true_iff_false, !fits_true. unfold nonneg in Hu. cbn. intros H Hs. apply H. lia.
Qed.
Lemma tally_add_assoc a b c : tally_add a (tally_add b c) = tally_add (tally_add a b) c.
Proof. unfold tally_add. cbn. by rewrite !Z.add_assoc. Qed.
Lemma tally_add_comm a b : tally_add a b = tally_add b a.
Proof. unfold tally_add. f_equal; apply Z.add_comm. Qed.
Lemma tally_add_0_r t : tally_add t tally0 = t.
Proof. destruct t. unfold tally_add. cbn. by rewrite !Z.add_0_r. Qed.
Lemma nonneg_add a b : nonneg a -> nonneg b -> nonneg (tally_add a b).
Proof. unfold nonneg. cbn. lia. Qed.
Lemma tally_sum_nonneg {A} (share : A -> Tally) l :
  Forall (fun x => nonneg (share x)) l -> nonneg (tally_sum share l).
Proof. induction 1; [done|]. by apply nonneg_add. Qed.
Lemma tally_sum_perm {A} (share : A -> Tally) l l' :
  l ≡ₚ l' -> tally_sum share l = tally_sum share l'.
Proof.
  unfold tally_sum. induction 1 as [| ? ? ? ? IH |x y ?|? ? ? ? IH1 ? IH2]; cbn;
    [done|by rewrite IH| |congruence].
  by rewrite !tally_add_assoc, (tally_add_comm (share y)).
Qed.

Ltac add_steps :=
  repeat match goal with
  | |- context [checked_add ?m ?a ?b] => destruct (checked_add m a b) eqn:?; cbn
  end; reflect_Z.

Lemma tally_workspace_step t w :
  nonneg (workspace_share w) -> fits t = true ->
  tally_workspace t w = guarded_add t (workspace_share w).
Proof.
  intros Hn Ht. unfold tally_workspace, guarded_add, workspace_share, nonneg, is_registered,
    is_runnable, add_or_overflow in *.
  destruct (aw_state w) as [|st]; cbn in *; unfold mbind, result_bind.
  { by rewrite tally_add_0_r, Ht. }
  assert (bool_decide (WorkspaceCapacityState_Registered st
            = WorkspaceCapacityState_Registered WorkspaceState_Running)
          = bool_decide (st = WorkspaceState_Running)) as Hst
    by (apply bool_decide_ext; naive_solver).
  rewrite !Hst in *. apply fits_true in Ht. destruct (fits (tally_add _ _)) eqn:Hf.
  - apply fits_true in Hf. cbn in Hf. destruct (bool_decide (st = _)); cbn in *;
      add_steps; try lia; unfold tally_add; cbn; rewrite ?Z.add_0_r; done.
  - rewrite <- not_true_iff_false, fits_true in Hf. cbn in Hf.
    destruct (bool_decide (st = _)); cbn in *; add_steps; try done; lia.
Qed.
Lemma tally_pool_step t p :
  nonneg (pool_share p) -> fits t = true -> tally_pool t p = guarded_add t (pool_share p).
Proof.
  intros Hn Ht. unfold tally_pool, guarded_add, pool_share, nonneg, is_ready,
    add_or_overflow in *. cbn in *; unfold mbind, result_bind.
  apply fits_true in Ht. destruct (fits (tally_add _ _)) eqn:Hf.
  - apply fits_true in Hf. cbn in Hf. destruct (bool_decide (ap_state p = _)); cbn in *;
      add_steps; try lia; unfold tally_add; cbn; rewrite ?Z.add_0_r; done.
  - rewrite <- not_true_iff_false, fits_true in Hf. cbn in Hf.
    destruct (bool_decide (ap_state p = _)); cbn in *; add_steps; try done; lia.
Qed.

(** The accumulation loop succeeds exactly when the totals fit, whatever the
    order of the entries. *)
Lemma tally_all_sum {A} step (share : A -> Tally) l : forall t,
  (forall t x, nonneg (share x) -> fits t = true -> step t x = guarded_add t (share x)) ->
  Forall (fun x => nonneg (share x)) l -> fits t = true ->
  tally_all step t l = guarded_add t (tally_sum share l).
Proof.
  induction l as [|x l IH]; intros t Hstep Hn Ht; cbn.
  { unfold guarded_add. by rewrite tally_add_0_r, Ht. }
  apply Forall_cons in Hn as [Hx Hl]. unfold mbind, result_bind.
  rewrite Hstep by done.
  change (foldr _ _ l) with (tally_sum share l).
  unfold guarded_add. rewrite tally_add_assoc.
  destruct (fits (tally_add t (share x))) eqn:Hf.
  - by apply IH.
  - pose proof (tally_sum_nonneg share l Hl). by rewrite fits_false_mono.
Qed.

(** The inventory of a ledger state, entry by entry. *)
Definition inventory (s : CapacityState) : Tally :=
  tally_add (tally_sum workspace_share (map_values (cs_workspaces s)))
            (tally_sum pool_share (map_values (cs_pool_entries s))).
Definition inventory_report (profile : ExecutionProfile) (s : CapacityState) : RunnerCapacity :=
  let t := inventory s in
  {| revision := cs_revision s; configured_workspace_ceiling := cs_ceiling s;
     registered_workspaces := t_registered t; resident_workspaces := t_resident t;
     runnable_workspaces := t_runnable t; allocated_cpu_millicores := t_cpu t;
     allocated_memory_bytes := t_mem t; warm_pool_reserved_slots := t_slots t;
     profiles := [profile]; operations := supported_operations profile |}.
(** The limits of the wire contract. *)
Definition within_wire_limits (s : CapacityState) : bool :=
  (cs_ceiling s <=? MAX_RUNNER_WORKSPACES)
  && (t_cpu (inventory s) <=? MAX_CPU_MILLICORES)
  && (t_mem (inventory s) <=? MAX_MEMORY_BYTES).

Lemma map_values_Forall {A} (m : gmap CapacityEntryId A) (P : A -> Prop) :
  (forall i x, m !! i = Some x -> P x) -> Forall P (map_values m).
Proof.
  intros H. unfold map_values. rewrite Forall_fmap. apply Forall_forall. intros [i x] Hx.
  apply elem_of_map_to_list in Hx. cbn. eauto.
Qed.
Lemma length_map_values {A} (m : gmap CapacityEntryId A) : list_len (map_values m) = map_len m.
Proof. unfold list_len, map_values, map_len. by rewrite length_fmap, length_map_to_list. Qed.

Lemma tally_sum_cons {A} (share : A -> Tally) x l :
  tally_sum share (x :: l) = tally_add (share x) (tally_sum share l).
Proof. done. Qed.

Section Inventory.
Context (s : CapacityState) (Hwf : wf s).

Lemma workspace_shares_nonneg :
  Forall (fun w => nonneg (workspace_share w)) (map_values (cs_workspaces s)).
Proof.
  apply map_values_Forall. intros i w (_ & [? _] & [? _])%(wf_workspaces _ Hwf).
  unfold nonneg, workspace_share, b2z. repeat case_match; cbn; lia.
Qed.
Lemma pool_shares_nonneg :
  Forall (fun w => nonneg (pool_share w)) (map_values (cs_pool_entries s)).
Proof.
  apply map_values_Forall. intros i w (_ & [? _] & [? _])%(wf_pool_entries _ Hwf).
  unfold nonneg, pool_share, b2z. case_match; cbn; lia.
Qed.

(** The counts are ordered as the wire contract requires. *)
Lemma workspace_counts l :
  let t := tally_sum workspace_share l in
  0 <= t_runnable t <= t_registered t /\ t_resident t = t_registered t
  /\ t_slots t = 0 /\ t_registered t <= list_len l.
Proof.
  unfold list_len. induction l as [|w l IH]; [cbn; lia|]. rewrite tally_sum_cons, length_cons.
  cbn zeta in *. generalize dependent (tally_sum workspace_share l). intros t IH.
  unfold workspace_share, b2z. repeat case_match; cbn -[Z.of_nat]; lia.
Qed.
Lemma pool_counts l :
  let t := tally_sum pool_share l in
  t_runnable t = 0 /\ t_registered t = 0 /\ t_slots t = list_len l
  /\ 0 <= t_resident t <= list_len l.
Proof.
  unfold list_len. induction l as [|w l IH]; [cbn; lia|]. rewrite tally_sum_cons, length_cons.
  cbn zeta in *. generalize dependent (tally_sum pool_share l). intros t IH.
  unfold pool_share, b2z. repeat case_match; cbn -[Z.of_nat]; lia.
Qed.
Lemma inventory_counts :
  let t := inventory s in
  0 <= t_runnable t <= t_registered t /\ t_registered t <= t_resident t
  /\ 0 <= t_slots t /\ t_registered t + t_slots t <= cs_ceiling s /\ t_resident t <= cs_ceiling s.
Proof.
  pose proof (wf_bound _ Hwf) as Hb. rewrite <- !length_map_values in Hb.
  pose proof (workspace_counts (map_values (cs_workspaces s))) as Hw.
  pose proof (pool_counts (map_values (cs_pool_entries s))) as Hp.
  unfold inventory. cbn -[tally_sum] in *. lia.
Qed.
Lemma inventory_fits :
  fits (inventory s) = (t_cpu (inventory s) <=? U64_MAX) && (t_mem (inventory s) <=? U64_MAX).
Proof.
  pose proof inventory_counts as H. cbn zeta in H. destruct (wf_ceiling _ Hwf).
  unfold fits. rewrite (proj2 (Z.leb_le (t_registered _) _)), (proj2 (Z.leb_le (t_runnable _) _)),
    (proj2 (Z.leb_le (t_resident _) _)), (proj2 (Z.leb_le (t_slots _) _)) by lia. done.
Qed.

Lemma report_valid profile :
  RunnerCapacity_validate (inventory_report profile s)
  = if within_wire_limits s then Ok tt else Err FleetValidationError_CapacityOutOfRange.
Proof.
  pose proof inventory_counts as H. cbn zeta in H.
  destruct (within_wire_limits s) eqn:E; unfold within_wire_limits in E.
  - rewrite !andb_true_iff, !Z.leb_le in E. apply RunnerCapacity_validate_spec.
    unfold inventory_report. constructor; cbn -[inventory]; try lia.
    + apply NoDup_singleton.
    + apply NoDup_ListNoDup, filtered_operations_nodup.
  - unfold RunnerCapacity_validate. cbn -[inventory]. case_match eqn:E1; [done|].
    repeat (apply orb_false_elim in E1 as [E1 ?]). reflect_Z.
    rewrite !(proj2 (Z.leb_le _ _)) in E by lia. done.
Qed.
End Inventory.

Lemma unfit_beyond_wire_limits s :
  wf s -> fits (inventory s) = false -> within_wire_limits s = false.
Proof.
  intros Hwf E. rewrite inventory_fits in E by done. unfold within_wire_limits.
  apply andb_false_iff in E. unfold MAX_CPU_MILLICORES, MAX_MEMORY_BYTES.
  change (Z.shiftl 1 50) with 1125899906842624.
  destruct E; reflect_Z; unfold U64_MAX in *; rewrite !andb_false_iff, !Z.leb_gt; lia.
Qed.

Lemma snapshot_inventory l profile :
  wf (locked l) -> healthy l ->
  snapshot profile l =
    (if within_wire_limits (locked l) then Ok (inventory_report profile (locked l))
     else Err (if fits (inventory (locked l))
               then CapacityError_Snapshot FleetValidationError_CapacityOutOfRange
               else CapacityError_ArithmeticOverflow), l).
Proof.
  destruct l as [p s]. intros Hwf [Hp Hf]; cbn in *. subst p.
  unfold snapshot, with_lock, ensure_healthy. unfold_m. rewrite Hf. cbn. f_equal.
  unfold snapshot_locked, mbind, result_bind.
  rewrite (tally_all_sum _ workspace_share) by
    (try done; auto using tally_workspace_step, workspace_shares_nonneg).
  pose proof (workspace_shares_nonneg s Hwf) as Hn. pose proof (pool_shares_nonneg s Hwf) as Hn'.
  unfold guarded_add. rewrite (tally_add_comm tally0), tally_add_0_r.
  destruct (fits (tally_sum _ _)) eqn:E1.
  - rewrite (tally_all_sum _ pool_share) by (try done; auto using tally_pool_step).
    unfold guarded_add. fold (inventory s).
    destruct (fits (inventory s)) eqn:E2.
    + change {| revision := cs_revision s |} with (inventory_report profile s).
      rewrite report_valid by done. by destruct (within_wire_limits s).
    + by rewrite unfit_beyond_wire_limits.
  - assert (fits (inventory s) = false) as E2.
    { apply fits_false_mono; [|done]. by apply tally_sum_nonneg. }
    by rewrite unfit_beyond_wire_limits, E2.
Qed.

(** What a snapshot answers: a poisoned or faulted ledger answers with its fault. *)
Definition snapshot_answer (profile : ExecutionProfile) (l : CapacityLedger)
    : result CapacityError RunnerCapacity :=
  if poisoned l then Err CapacityError_Poisoned
  else if cs_faulted (locked l) then Err CapacityError_Faulted
  else if within_wire_limits (locked l) then Ok (inventory_report profile (locked l))
  else if fits (inventory (locked l))
       then Err (CapacityError_Snapshot FleetValidationError_CapacityOutOfRange)
       else Err CapacityError_ArithmeticOverflow.

(** C33: A snapshot of a well-formed ledger is refused exactly when the ledger is poisoned or
    faulted, when the 64-bit sums overflow, or when the ceiling or the allocated CPU and memory are
    beyond the wire limits, each with its own error. Otherwise it reports the inventory of the
    entries: the counts it publishes are never inconsistent. The ledger is not changed either
    way. *)
Theorem snapshot_reports_inventory l profile :
  wf (locked l) -> snapshot profile l = (snapshot_answer profile l, l).
Proof.
  intros Hwf. unfold snapshot_answer. destruct (decide (healthy l)) as [[Hp Hf]|Hn].
  - rewrite snapshot_inventory by done. rewrite Hp, Hf. by repeat case_match.
  - destruct l as [[] s]; [done|]. unfold snapshot, with_lock, ensure_healthy. unfold_m. cbn in *.
    destruct (cs_faulted s) eqn:Hf; [done|]. by destruct Hn.
Qed.

Lemma tally_all_perm {A} step (share : A -> Tally) t l l' :
  (forall t x, nonneg (share x) -> fits t = true -> step t x = guarded_add t (share x)) ->
  Forall (fun x => nonneg (share x)) l -> fits t = true -> l ≡ₚ l' ->
  tally_all step t l = tally_all step t l'.
Proof.
  intros Hs Hl Ht Hp. rewrite !(tally_all_sum _ share) by (try done; by rewrite <- Hp).
  by rewrite (tally_sum_perm _ _ _ Hp).
Qed.

(** ** Exact admission conditions *)

Lemma wf_new ceiling : in_range U32_MAX ceiling -> wf (locked (CapacityLedger_new ceiling)).
Proof.
  intros Hc. constructor; cbn; try done; try (by unfold in_range, U64_MAX).
  - unfold map_len. rewrite !map_size_empty. cbn. unfold in_range in Hc. lia.
Qed.

(** A workspace reservation on a well-formed ledger has exactly these outcomes, in this order:
    refused when the lock is poisoned or the ledger faulted, refused as exhausted when every slot
    (registered, reserved or pooled) is taken, terminally faulted when the revision counter is
    exhausted, refused as a duplicate when the id is already accounted for, and otherwise admitted
    with one new reserved entry, one new revision and a guard that owns that entry. *)
Theorem reserve_workspace_outcomes id c m l :
  wf (locked l) ->
  reserve_workspace id c m l =
    let s := locked l in
    let i := CapacityEntryId_Workspace id in
    if poisoned l then (Err CapacityError_Poisoned, l)
    else if cs_faulted s then (Err CapacityError_Faulted, l)
    else if cs_ceiling s <=? used s then (Err CapacityError_Exhausted, l)
    else if cs_revision s =? U64_MAX
    then (Err CapacityError_Faulted, {| poisoned := false; locked := set_faulted s |})
    else if bool_decide (is_Some (entry_of s i)) then (Err CapacityError_DuplicateWorkspace, l)
    else (Ok {| wr_entry_id := Some i |},
          {| poisoned := false;
             locked := {| cs_revision := cs_revision s + 1; cs_faulted := false;
                          cs_ceiling := cs_ceiling s; cs_next_pool_id := cs_next_pool_id s;
                          cs_workspaces :=
                            <[i := {| aw_state := WorkspaceCapacityState_Reserved;
                                      aw_cpu_millicores := c; aw_memory_bytes := m |}]>
                              (cs_workspaces s);
                          cs_pool_entries := cs_pool_entries s |} |}).
Proof.
  destruct l as [p s]. intros Hwf; cbn in Hwf. unfold reserve_workspace, with_lock, ensure_healthy.
  cbn -[entry_of]. unfold_m. destruct p; [done|]. destruct (cs_faulted s) eqn:Hf; [done|].
  unfold ensure_capacity. rewrite (entry_count_ok s), (ceiling_usize s) by done. cbn.
  destruct (cs_ceiling s <=? used s); [done|]. cbn.
  unfold preflight_next_revision. rewrite Hf, next_revision_eq by done.
  destruct (cs_revision s =? U64_MAX); [done|]. cbn.
  unfold entry_of. destruct (cs_workspaces s !! CapacityEntryId_Workspace id) eqn:Hi; cbn.
  - done.
  - unfold set_revision, set_workspaces. cbn. by rewrite Hf.
Qed.
Lemma reserve_workspace_outcomes_witness :
  let l := CapacityLedger_new 1 in
  wf (locked l) /\
  exists l1, reserve_workspace "ws-a" 2000 1048576 l
             = (Ok {| wr_entry_id := Some (CapacityEntryId_Workspace "ws-a") |}, l1).
Proof.
  assert (wf (locked (CapacityLedger_new 1))) as H by (apply wf_new; by unfold in_range, U32_MAX).
  split; [exact H|]. rewrite (reserve_workspace_outcomes _ _ _ _ H). eexists. vm_compute. reflexivity.
Defined.

(** A ledger with one reservation, in service and faulted. *)
Lemma snapshot_reports_inventory_witness :
  let l := snd (reserve_workspace "ws-a" 2000 1048576 (CapacityLedger_new 4)) in
  let broken := {| poisoned := false; locked := set_faulted (locked l) |} in
  wf (locked l) /\
  (exists c, snapshot ExecutionProfile_Standard l = (Ok c, l)
             /\ registered_workspaces c = 0 /\ revision c = 1)
  /\ snapshot ExecutionProfile_Standard broken = (Err CapacityError_Faulted, broken).
Proof.
  pose proof (wf_new 4 ltac:(by unfold in_range, U32_MAX)) as H0.
  pose proof (reserve_workspace_cases _ H0 "ws-a" 2000 1048576 _ _
    ltac:(by unfold in_range, U64_MAX) ltac:(by unfold in_range, U64_MAX) eq_refl) as (_ & [? Hh _ _ Hw] & _).
  cbv zeta. split; [exact Hw|]. split.
  - exists (inventory_report ExecutionProfile_Standard
      (locked (snd (reserve_workspace "ws-a" 2000 1048576 (CapacityLedger_new 4))))).
    split; [|split; vm_compute; reflexivity].
    exact (snapshot_reports_inventory _ ExecutionProfile_Standard Hw).
  - refine (snapshot_reports_inventory {| poisoned := false; locked := set_faulted _ |}
      ExecutionProfile_Standard _). by apply wf_set_faulted.
Defined.

(** A pool batch is atomic and exact: on success it returns min(requested, free slots)
    reservations with consecutive fresh ids, each owning one new reserved entry, and publishes one
    revision per entry; on any error it has inserted nothing. *)
Theorem reserve_pool_batch_atomic l n c m r l' :
  wf (locked l) -> 0 <= n -> in_range U64_MAX c -> in_range U64_MAX m ->
  reserve_pool_batch n c m l = (r, l') ->
  match r with
  | Err _ => quiet l l'
  | Ok gs =>
      let s := locked l in let s' := locked l' in
      let k := Z.min n (cs_ceiling s - used s) in
      gs = pool_guards (cs_next_pool_id s) k
      /\ used s' = used s + k /\ cs_revision s' = cs_revision s + k
      /\ cs_next_pool_id s' = cs_next_pool_id s + k
      /\ cs_workspaces s' = cs_workspaces s
      /\ (forall i, i ∈ pool_ids (cs_next_pool_id s) k -> entry_of s i = None)
      /\ forall i, entry_of s' i
           = if decide (i ∈ pool_ids (cs_next_pool_id s) k)
             then Some (inr PoolCapacityState_Reserved) else entry_of s i
  end.
Proof.
  intros Hwf Hn Hc Hm E. apply reserve_pool_batch_cases in E; [|done..].
  destruct r as [gs|]; [|done].
  destruct E as (Hg & _ & _ & _ & _ & Hr & Hp & _ & Hw & Hu & _ & He). cbn zeta.
  split_and!; try done. intros i (k & -> & Hk)%elem_of_pool_ids. cbn.
  destruct (cs_pool_entries _ !! _) eqn:Ei; [|done].
  apply (wf_pool_entries _ Hwf) in Ei as ((k' & [= <-] & ?) & _). lia.
Qed.
Lemma reserve_pool_batch_atomic_witness :
  let l := CapacityLedger_new 2 in
  wf (locked l) /\
  exists gs l', reserve_pool_batch 5 1000 1048576 l = (Ok gs, l')
    /\ gs = pool_guards 0 2 /\ used (locked l') = 2.
Proof.
  pose proof (wf_new 2 ltac:(by unfold in_range, U32_MAX)) as H.
  split; [exact H|].
  destruct (reserve_pool_batch 5 1000 1048576 (CapacityLedger_new 2)) as [[gs|e] l'] eqn:E;
    [|vm_compute in E; discriminate].
  destruct (reserve_pool_batch_atomic _ 5 1000 1048576 _ _ H ltac:(lia) ltac:(by unfold in_range, U64_MAX)
    ltac:(by unfold in_range, U64_MAX) E) as (Hg & Hu & _).
  exists gs, l'. split; [exact eq_refl|]. split; [exact Hg|exact Hu].
Defined.
