(* ===== verification/Ownership.v ===== *)
(** * Guard ownership of ledger entries ([crates/ne-supervisor/src/capacity.rs])

    The RAII discipline of the capacity guards as a transition system.  A
    system is the shared ledger, the guards alive in any task, and the entries
    whose guard was forgotten ([std::mem::forget], used when a child process
    could not be confirmed dead).  Each ledger operation runs under the lock,
    so a step is one operation by the task that holds the guard; the steps of
    different tasks interleave freely. *)

From S2P Require Import Prelude Text Profile Fleet Capacity.

Inductive Guard :=
| Guard_WorkspaceReservation (g : WorkspaceCapacityReservation)
| Guard_Registered (g : RegisteredWorkspaceCapacityGuard)
| Guard_PoolReservation (g : PoolCapacityReservation)
| Guard_Ready (g : ReadyPoolCapacityGuard).

Definition guard_entry (g : Guard) : option CapacityEntryId :=
  match g with
  | Guard_WorkspaceReservation g => wr_entry_id g
  | Guard_Registered g => rw_entry_id g
  | Guard_PoolReservation g => pr_entry_id g
  | Guard_Ready g => rp_entry_id g
  end.
(** The ledger state each guard type stands for. *)
Definition expects (g : Guard) (e : EntryState) : Prop :=
  match g with
  | Guard_WorkspaceReservation _ => e = inl WorkspaceCapacityState_Reserved
  | Guard_Registered _ => exists st, e = inl (WorkspaceCapacityState_Registered st)
  | Guard_PoolReservation _ => e = inr PoolCapacityState_Reserved
  | Guard_Ready _ => e = inr PoolCapacityState_Ready
  end.

Record System := {
  ledger : CapacityLedger;
  live : list Guard;
  forgotten : list CapacityEntryId;
}.
Definition owned (gs : list Guard) : list CapacityEntryId := omap guard_entry gs.
Arguments owned : simpl never.

Definition initial (ceiling : Z) : System :=
  {| ledger := CapacityLedger_new ceiling; live := []; forgotten := [] |}.

(** Guards returned by an operation join the live ones. *)
Definition ok_guards {A} (r : result CapacityError A) (f : A -> list Guard) : list Guard :=
  match r with Ok a => f a | Err _ => [] end.

Inductive sys_step : System -> System -> Prop :=
| step_reserve_workspace l gs fs id c m r l' :
    in_range U64_MAX c -> in_range U64_MAX m ->
    reserve_workspace id c m l = (r, l') ->
    sys_step {| ledger := l; live := gs; forgotten := fs |}
      {| ledger := l';
         live := ok_guards r (fun g => [Guard_WorkspaceReservation g]) ++ gs; forgotten := fs |}
| step_reserve_pool_batch l gs fs n c m r l' :
    0 <= n -> in_range U64_MAX c -> in_range U64_MAX m ->
    reserve_pool_batch n c m l = (r, l') ->
    sys_step {| ledger := l; live := gs; forgotten := fs |}
      {| ledger := l';
         live := ok_guards r (fmap Guard_PoolReservation) ++ gs; forgotten := fs |}
| step_register l g gs fs st r l' :
    register_in_place g st l = (r, l') ->
    sys_step {| ledger := l; live := Guard_WorkspaceReservation g :: gs; forgotten := fs |}
      {| ledger := l';
         live := match r with
                 | Ok (g', k) => [Guard_WorkspaceReservation g'; Guard_Registered k]
                 | Err _ => [Guard_WorkspaceReservation g]
                 end ++ gs;
         forgotten := fs |}
| step_set_state l g gs fs st r l' :
    set_state g st l = (r, l') ->
    sys_step {| ledger := l; live := Guard_Registered g :: gs; forgotten := fs |}
      {| ledger := l'; live := Guard_Registered g :: gs; forgotten := fs |}
| step_ready l g gs fs r l' :
    ready_in_place g l = (r, l') ->
    sys_step {| ledger := l; live := Guard_PoolReservation g :: gs; forgotten := fs |}
      {| ledger := l';
         live := match r with
                 | Ok (g', k) => [Guard_PoolReservation g'; Guard_Ready k]
                 | Err _ => [Guard_PoolReservation g]
                 end ++ gs;
         forgotten := fs |}
| step_adopt l g gs fs id st r l' :
    adopt_in_place g id st l = (r, l') ->
    sys_step {| ledger := l; live := Guard_Ready g :: gs; forgotten := fs |}
      {| ledger := l';
         live := match r with
                 | Ok (g', k) => [Guard_Ready g'; Guard_Registered k]
                 | Err _ => [Guard_Ready g]
                 end ++ gs;
         forgotten := fs |}
| step_drop l g gs fs o l' :
    release_entry (guard_entry g) l = (o, l') ->
    sys_step {| ledger := l; live := g :: gs; forgotten := fs |}
      {| ledger := l'; live := gs; forgotten := fs |}
| step_forget l g gs fs :
    sys_step {| ledger := l; live := g :: gs; forgotten := fs |}
      {| ledger := l; live := gs; forgotten := option_list (guard_entry g) ++ fs |}
| step_fail_closed l gs fs :
    sys_step {| ledger := l; live := gs; forgotten := fs |}
      {| ledger := fault_ledger l; live := gs; forgotten := fs |}
| step_poison l gs fs :
    sys_step {| ledger := l; live := gs; forgotten := fs |}
      {| ledger := {| poisoned := true; locked := locked l |}; live := gs; forgotten := fs |}
| step_schedule l gs gs' fs :
    gs ≡ₚ gs' ->
    sys_step {| ledger := l; live := gs; forgotten := fs |}
      {| ledger := l; live := gs'; forgotten := fs |}.

(** ** The ownership invariant *)

Definition owns (s : CapacityState) (g : Guard) : Prop :=
  forall i, guard_entry g = Some i -> exists e, entry_of s i = Some e /\ expects g e.

Record inv (x : System) : Prop := {
  inv_wf : wf (locked (ledger x));
  inv_disjoint : NoDup (owned (live x) ++ forgotten x);
  inv_owns : Forall (owns (locked (ledger x))) (live x);
  inv_forgotten : forall i, i ∈ forgotten x -> is_Some (entry_of (locked (ledger x)) i);
  (** While the ledger is in service every entry has an owner. *)
  inv_accounted : healthy (ledger x) -> forall i,
    is_Some (entry_of (locked (ledger x)) i) -> i ∈ owned (live x) ++ forgotten x;
}.

Lemma owned_cons g gs : owned (g :: gs) = option_list (guard_entry g) ++ owned gs.
Proof. unfold owned. cbn. by destruct (guard_entry g). Qed.
Lemma owned_app gs gs' : owned (gs ++ gs') = owned gs ++ owned gs'.
Proof. unfold owned. apply omap_app. Qed.
Lemma elem_of_owned i gs : i ∈ owned gs <-> exists g, g ∈ gs /\ guard_entry g = Some i.
Proof. unfold owned. by rewrite list_elem_of_omap. Qed.

Lemma owns_ext s s' g :
  (forall i, guard_entry g = Some i -> entry_of s' i = entry_of s i) -> owns s g -> owns s' g.
Proof. intros He H i Hi. rewrite He by done. eauto. Qed.
Lemma owned_entry s gs i :
  Forall (owns s) gs -> i ∈ owned gs -> is_Some (entry_of s i).
Proof.
  rewrite Forall_forall, elem_of_owned. intros H (g & Hg & Hi).
  destruct (H g Hg i Hi) as (e & -> & _). eauto.
Qed.

Lemma entry_of_set_faulted s i : entry_of (set_faulted s) i = entry_of s i.
Proof. by destruct i. Qed.

(** Ledger changes that keep the entries keep the invariant. *)
Lemma inv_quiet l l' gs fs :
  quiet l l' -> inv {| ledger := l; live := gs; forgotten := fs |} ->
  inv {| ledger := l'; live := gs; forgotten := fs |}.
Proof.
  intros [->|[Hh ->]]; [done|]. intros [Hwf Hd Ho Hf Ha]. constructor; cbn in *.
  - by apply wf_set_faulted.
  - done.
  - eapply Forall_impl; [exact Ho|]. intros g. apply owns_ext. intros; apply entry_of_set_faulted.
  - intros i Hi. rewrite entry_of_set_faulted. auto.
  - by intros [].
Qed.

(** The central step: the guards [new] take over the entries [i ∈ add] and give
    up those in [del]; every other entry keeps its state and its owner. *)
Lemma inv_transfer l l' gs fs old new (add del : list CapacityEntryId) :
  inv {| ledger := l; live := old ++ gs; forgotten := fs |} ->
  wf (locked l') -> (healthy l' -> healthy l) ->
  owned old = del -> owned new = add -> NoDup add ->
  (forall i, i ∈ add -> i ∉ del -> entry_of (locked l) i = None) ->
  Forall (owns (locked l')) new ->
  (forall i, i ∉ add -> i ∉ del -> entry_of (locked l') i = entry_of (locked l) i) ->
  (forall i, i ∈ del -> i ∉ add -> entry_of (locked l') i = None) ->
  inv {| ledger := l'; live := new ++ gs; forgotten := fs |}.
Proof.
  intros [Hwf Hd Ho Hf Ha] Hwf' Hh Hold Hnew Hnd Hfresh Hn Hframe Hgone. cbn in *.
  rewrite owned_app, Hold, <- app_assoc in Hd. apply NoDup_app in Hd as (_ & Hdel & Hrest).
  apply Forall_app in Ho as [_ Ho].
  assert (forall i, i ∈ owned gs ++ fs -> (i ∉ add) /\ (i ∉ del)) as Hsep.
  { intros i Hi. assert (i ∉ del) as Hnd' by (intros Hx; by apply (Hdel i)).
    split; [|done]. intros Hadd. specialize (Hfresh i Hadd Hnd').
    assert (is_Some (entry_of (locked l) i)) as [e He]; [|congruence].
    apply elem_of_app in Hi as [Hi|Hi]; [by eapply owned_entry|auto]. }
  constructor; cbn.
  - done.
  - rewrite owned_app, Hnew, <- app_assoc, NoDup_app. split_and!; [done| |done].
    intros i Hi Hi'. by apply Hsep in Hi' as [].
  - rewrite Forall_app. split; [done|]. rewrite Forall_forall in Ho |- *.
    intros g Hg. apply (owns_ext (locked l)); [|auto].
    intros i Hi. apply Hframe; apply Hsep, elem_of_app; left; apply elem_of_owned; eauto.
  - intros i Hi. destruct (Hsep i) as [? ?]; [set_solver|]. rewrite Hframe by done. auto.
  - intros Hl i [e He]. rewrite owned_app, Hnew, <- app_assoc. apply elem_of_app.
    destruct (decide (i ∈ add)); [by left|right].
    destruct (decide (i ∈ del)); [rewrite Hgone in He by done; done|].
    rewrite Hframe in He by done. specialize (Ha (Hh Hl) i ltac:(eauto)).
    rewrite owned_app, Hold, <- app_assoc in Ha. set_solver.
Qed.

Lemma elem_of_option_list {A} (o : option A) x : x ∈ option_list o <-> o = Some x.
Proof. destruct o; cbn; set_solver. Qed.

Lemma owns_new l i e g :
  guard_entry g = Some i -> entry_of l i = Some e -> expects g e -> owns l g.
Proof. intros Hg He Hx j Hj. simplify_eq. eauto. Qed.
Lemma owns_none l g : guard_entry g = None -> owns l g.
Proof. intros H i Hi. congruence. Qed.

Lemma upd_same f i o : upd f i o i = o.
Proof. unfold upd. by case_decide. Qed.
Lemma upd_other f i o j : j <> i -> upd f i o j = f j.
Proof. unfold upd. by case_decide. Qed.

(** An entry changes state and its guard is exchanged for [k]. *)
Lemma inv_promote l l' gs fs g g' k i e :
  inv {| ledger := l; live := g :: gs; forgotten := fs |} -> committed 1 l l' ->
  guard_entry g = Some i -> guard_entry g' = None -> guard_entry k = Some i ->
  (forall j, entry_of (locked l') j = upd (entry_of (locked l)) i (Some e) j) -> expects k e ->
  inv {| ledger := l'; live := [g'; k] ++ gs; forgotten := fs |}.
Proof.
  intros Hinv Hc Hg Hg' Hk He Hx. destruct Hc as [Hh _ _ _ Hwf].
  eapply (inv_transfer l l' gs fs [g] [g'; k] [i] [i]); cbn; try done.
  - unfold owned. cbn. by rewrite Hg.
  - unfold owned. cbn. by rewrite Hg', Hk.
  - apply NoDup_singleton.
  - repeat constructor; [by apply owns_none|]. eapply owns_new; eauto. by rewrite He, upd_same.
  - intros j Hj _. rewrite He, upd_other; [done|]. set_solver.
Qed.

Lemma inv_step x y : sys_step x y -> inv x -> inv y.
Proof.
  intros Hs Hx. pose proof (inv_wf _ Hx) as Hwf. destruct Hs; cbn in Hwf.
  - apply reserve_workspace_cases in H1; [|done..]. destruct r as [g|]; [|by eapply inv_quiet].
    destruct H1 as (-> & [Hh _ _ _ Hw'] & _ & Hn & He).
    eapply (inv_transfer l l' gs fs [] _ [_] []); cbn; try done.
    + apply NoDup_singleton.
    + by intros i ->%list_elem_of_singleton _.
    + repeat constructor. eapply owns_new; [done| |done]. by rewrite He, upd_same.
    + intros i Hi _. rewrite He, upd_other; [done|]. set_solver.
    + intros i Hi. by apply not_elem_of_nil in Hi.
  - apply reserve_pool_batch_cases in H2; [|done..]. destruct r as [g|]; [|by eapply inv_quiet].
    destruct H2 as (-> & Hp & Hh & Hw' & Hf & Hr & Hn & _ & _ & _ & _ & He).
    set (k := Z.min _ _) in *.
    eapply (inv_transfer l l' gs fs [] _ (pool_ids (cs_next_pool_id (locked l)) k) []); cbn; try done.
    + unfold pool_guards. generalize (pool_ids (cs_next_pool_id (locked l)) k).
      intros ids. unfold owned. induction ids as [|i ids IH]; cbn; [done|]. by f_equal.
    + unfold pool_ids. apply NoDup_fmap_2; [congruence|]. apply NoDup_seqZ.
    + intros i (z & -> & Hz)%elem_of_pool_ids _. cbn. destruct (cs_pool_entries _ !! _) eqn:Ei; [|done].
      apply (wf_pool_entries _ Hwf) in Ei as ((z' & [= <-] & ?) & _). lia.
    + unfold pool_guards. rewrite !Forall_fmap. apply Forall_forall. intros i Hi.
      eapply owns_new; [done| |done]. rewrite He. by case_decide.
    + intros i Hi _. rewrite He. by case_decide.
    + intros i Hi. by apply not_elem_of_nil in Hi.
  - apply register_in_place_cases in H; [|done]. destruct r as [[g' k]|]; [|by eapply inv_quiet].
    destruct H as (i & Hg & -> & -> & Hc & _ & He). eapply inv_promote; eauto. by eexists.
  - apply set_state_cases in H; [|done]. destruct r as [[]|]; [|by eapply inv_quiet].
    destruct H as (i & old & Hg & Hh & He & [[-> ->]|(_ & [? _ _ _ Hw'] & He')]); [done|].
    eapply (inv_transfer l l' gs fs [_] [_] [i] [i]); cbn; try done;
      try (unfold owned; cbn; by rewrite Hg).
    + apply NoDup_singleton.
    + repeat constructor. eapply owns_new; [done| |by eexists]. by rewrite He', upd_same.
    + intros j Hj _. rewrite He', upd_other; [done|]. set_solver.
  - apply ready_in_place_cases in H; [|done]. destruct r as [[g' k]|]; [|by eapply inv_quiet].
    destruct H as (i & Hg & -> & -> & Hc & _ & He). eapply inv_promote; eauto. done.
  - apply adopt_in_place_cases in H; [|done]. destruct r as [[g' k]|]; [|by eapply inv_quiet].
    destruct H as (i & Hg & -> & -> & [? _ _ _ Hw'] & _ & Hi & Hn & He).
    assert (i <> CapacityEntryId_Workspace id) by congruence.
    eapply (inv_transfer l l' gs fs [_] _ [CapacityEntryId_Workspace id] [i]); cbn; try done.
    + unfold owned; cbn; by rewrite Hg.
    + apply NoDup_singleton.
    + by intros j ->%list_elem_of_singleton _.
    + repeat constructor; [by apply owns_none|]. eapply owns_new; [done| |by eexists].
      by rewrite He, upd_same.
    + intros j Hj Hj'. rewrite He, !upd_other; [done|set_solver..].
    + intros j ->%list_elem_of_singleton _. rewrite He, upd_other, upd_same; done.
  - apply release_entry_cases in H as [[Hq Hgone]|(i & Hg & _ & [? _ _ _ Hw'] & _ & _ & He)]; [| |done].
    + apply (inv_quiet _ _ _ _ Hq) in Hx. destruct Hx as [? Hd Ho ? Ha]; cbn in *.
      rewrite owned_cons, <- app_assoc in Hd. apply Forall_cons in Ho as [_ Ho].
      constructor; cbn; try done.
      * by apply NoDup_app in Hd as (_ & _ & Hd).
      * intros Hh i Hi. specialize (Ha Hh i Hi). rewrite owned_cons, <- app_assoc in Ha.
        apply elem_of_app in Ha as [Hg|]; [|done].
        apply elem_of_option_list in Hg. specialize (Hgone Hh i Hg).
        destruct Hq as [->|[_ ->]]; [|by destruct Hh]. rewrite Hgone in Hi. by destruct Hi.
    + eapply (inv_transfer l l' gs fs [g] [] [] [i]); cbn; try done.
      * unfold owned; cbn; by rewrite Hg.
      * constructor.
      * intros j Hj. by apply not_elem_of_nil in Hj.
      * intros j _ Hj. rewrite He, upd_other; [done|]. set_solver.
      * intros j ->%list_elem_of_singleton _. by rewrite He, upd_same.
  - destruct Hx as [? Hd Ho Hf Ha]; cbn in *. rewrite owned_cons, <- app_assoc in Hd.
    apply Forall_cons in Ho as [Hg Ho]. constructor; cbn; try done.
    + rewrite (app_assoc _ _ fs), (Permutation_app_comm (owned gs)), <- app_assoc. done.
    + intros i [Hi|Hi]%elem_of_app; [|auto]. apply elem_of_option_list in Hi.
      destruct (Hg i Hi) as (e & -> & _). eauto.
    + intros Hh i Hi. specialize (Ha Hh i Hi). rewrite owned_cons in Ha. set_solver.
  - unfold fault_ledger. destruct (poisoned l) eqn:Hp; [done|].
    destruct (cs_faulted (locked l)) eqn:Hf.
    + replace (set_faulted (locked l)) with (locked l); [|by destruct (locked l); cbn in *; subst].
      rewrite <- Hp. by destruct l.
    + eapply inv_quiet; [|done]. right. split; [by split|done].
  - destruct Hx. constructor; cbn in *; try done. by intros [].
  - destruct Hx as [? Hd Ho ? Ha]. constructor; cbn in *; try done.
    + unfold owned in *. by rewrite <- H.
    + by rewrite <- H.
    + intros Hh i Hi. unfold owned in *. rewrite <- H. auto.
Qed.

Lemma inv_initial ceiling : in_range U32_MAX ceiling -> inv (initial ceiling).
Proof.
  intros H. constructor; cbn.
  - by apply (wf_new ceiling).
  - constructor.
  - constructor.
  - intros i Hi. by apply not_elem_of_nil in Hi.
  - intros _ i [e He]. destruct i; cbn in He; by rewrite lookup_empty in He.
Qed.

(** ** What a step does to the ledger *)

Definition advances (l l' : CapacityLedger) : Prop :=
  healthy l /\ healthy l' /\ cs_revision (locked l) < cs_revision (locked l')
  /\ cs_ceiling (locked l') = cs_ceiling (locked l).

Lemma committed_advances l l' : committed 1 l l' -> advances l l'.
Proof. intros []. unfold advances. split_and!; try done. lia. Qed.

Lemma step_ledger x y :
  sys_step x y -> inv x ->
  quiet (ledger x) (ledger y)
  \/ ledger y = {| poisoned := true; locked := locked (ledger x) |}
  \/ advances (ledger x) (ledger y).
Proof.
  intros Hs Hx. pose proof (inv_wf _ Hx) as Hwf. destruct Hs; cbn in *; try (left; by left).
  - apply reserve_workspace_cases in H1; [|done..]. destruct r; [|by left].
    destruct H1 as (_ & Hc & _). eauto using committed_advances.
  - apply reserve_pool_batch_cases in H2; [|done..]. destruct r; [|by left].
    destruct H2 as (_ & Hp & Hh & _ & Hf & Hr & _ & Hc & _ & _ & H0' & _).
    destruct (decide (Z.min n (cs_ceiling (locked l) - used (locked l)) = 0)) as [Hk|Hk].
    + left; left. destruct Hh as [? _]. destruct l, l'; cbn in *. rewrite H0' by done. congruence.
    + right; right. unfold advances. split_and!; try done.
      pose proof (wf_bound _ Hwf). unfold used in *. lia.
  - apply register_in_place_cases in H; [|done]. destruct r as [[]|]; [|by left].
    destruct H as (i & _ & _ & _ & Hc & _). eauto using committed_advances.
  - apply set_state_cases in H; [|done]. destruct r as [[]|]; [|by left].
    destruct H as (i & old & _ & _ & _ & [[_ ->]|(_ & Hc & _)]); [by left; left|].
    eauto using committed_advances.
  - apply ready_in_place_cases in H; [|done]. destruct r as [[]|]; [|by left].
    destruct H as (i & _ & _ & _ & Hc & _). eauto using committed_advances.
  - apply adopt_in_place_cases in H; [|done]. destruct r as [[]|]; [|by left].
    destruct H as (i & _ & _ & _ & Hc & _). eauto using committed_advances.
  - apply release_entry_cases in H as [[Hq _]|(i & _ & _ & Hc & _)]; [by left| |done].
    eauto using committed_advances.
  - left. unfold fault_ledger. destruct (poisoned l) eqn:Hp; [by left|].
    destruct (cs_faulted (locked l)) eqn:Hf.
    + left. destruct l as [p s]. cbn in *. subst. f_equal. destruct s; cbn in *. by subst.
    + right. by split.
  - by right; left.
Qed.

Lemma step_facts x y :
  sys_step x y -> inv x ->
  cs_ceiling (locked (ledger y)) = cs_ceiling (locked (ledger x))
  /\ cs_revision (locked (ledger x)) <= cs_revision (locked (ledger y))
  /\ (~ healthy (ledger x) -> ~ healthy (ledger y))
  /\ (cs_revision (locked (ledger y)) = cs_revision (locked (ledger x))
      \/ ~ healthy (ledger x) ->
      cs_workspaces (locked (ledger y)) = cs_workspaces (locked (ledger x))
      /\ cs_pool_entries (locked (ledger y)) = cs_pool_entries (locked (ledger x))).
Proof.
  intros Hs Hx. destruct (step_ledger x y Hs Hx) as [[->|[Hh ->]]|[->|(Hh & Hh' & Hr & Hc)]].
  - split_and!; try done; lia.
  - cbn. split_and!; try done; lia.
  - cbn. split_and!; try done; try lia. by intros _ [].
  - split_and!; try done; try lia. intros [|]; [lia|done].
Qed.

Definition reachable (ceiling : Z) (x : System) : Prop := rtc sys_step (initial ceiling) x.

Lemma steps_inv x y : rtc sys_step x y -> inv x -> inv y.
Proof. induction 1; eauto using inv_step. Qed.
Lemma reachable_inv c x : in_range U32_MAX c -> reachable c x -> inv x.
Proof. intros Hc Hr. eapply steps_inv; [exact Hr|]. by apply inv_initial. Qed.
Lemma steps_ceiling x y :
  rtc sys_step x y -> inv x -> cs_ceiling (locked (ledger y)) = cs_ceiling (locked (ledger x)).
Proof.
  induction 1 as [|x y z Hxy _ IH]; [done|]. intros Hx.
  rewrite IH by eauto using inv_step. by destruct (step_facts x y Hxy Hx).
Qed.
Lemma steps_revision x y :
  rtc sys_step x y -> inv x -> cs_revision (locked (ledger x)) <= cs_revision (locked (ledger y)).
Proof.
  induction 1 as [|x y z Hxy _ IH]; [lia|]. intros Hx.
  specialize (IH (inv_step _ _ Hxy Hx)). destruct (step_facts x y Hxy Hx) as (_ & ? & _). lia.
Qed.
Lemma steps_unhealthy x y :
  rtc sys_step x y -> inv x -> ~ healthy (ledger x) ->
  ~ healthy (ledger y)
  /\ cs_workspaces (locked (ledger y)) = cs_workspaces (locked (ledger x))
  /\ cs_pool_entries (locked (ledger y)) = cs_pool_entries (locked (ledger x)).
Proof.
  induction 1 as [|x y z Hxy _ IH]; [done|]. intros Hx Hh.
  destruct (step_facts x y Hxy Hx) as (_ & _ & Hu & He).
  destruct (IH (inv_step _ _ Hxy Hx) (Hu Hh)) as (? & -> & ->). destruct He as [-> ->]; auto.
Qed.
Lemma steps_same_revision x y :
  rtc sys_step x y -> inv x ->
  cs_revision (locked (ledger y)) = cs_revision (locked (ledger x)) ->
  cs_workspaces (locked (ledger y)) = cs_workspaces (locked (ledger x))
  /\ cs_pool_entries (locked (ledger y)) = cs_pool_entries (locked (ledger x)).
Proof.
  induction 1 as [|x y z Hxy Hyz IH]; [done|]. intros Hx Hr.
  pose proof (inv_step _ _ Hxy Hx) as Hy. pose proof (steps_revision _ _ Hyz Hy).
  destruct (step_facts x y Hxy Hx) as (_ & ? & _ & He).
  destruct IH as [-> ->]; [done|lia|]. apply He. left. lia.
Qed.

(** The keys of both maps, without repetition. *)
Definition entry_ids (s : CapacityState) : list CapacityEntryId :=
  (map_to_list (cs_workspaces s)).*1 ++ (map_to_list (cs_pool_entries s)).*1.
Lemma elem_of_keys {A} (m : gmap CapacityEntryId A) i :
  i ∈ (map_to_list m).*1 <-> is_Some (m !! i).
Proof.
  rewrite list_elem_of_fmap. split.
  - intros ([j x] & -> & H%elem_of_map_to_list). eauto.
  - intros [x H%elem_of_map_to_list]. by exists (i, x).
Qed.
Lemma elem_of_entry_ids s i : wf s -> i ∈ entry_ids s <-> is_Some (entry_of s i).
Proof.
  intros Hwf. unfold entry_ids. rewrite elem_of_app, !elem_of_keys. split.
  - intros [[w H]|[p H]].
    + rewrite (entry_of_workspace_lookup _ _ _ Hwf H). eauto.
    + rewrite (entry_of_pool_lookup _ _ _ Hwf H). eauto.
  - destruct i; cbn; rewrite fmap_is_Some; eauto.
Qed.
Lemma NoDup_entry_ids s : wf s -> NoDup (entry_ids s).
Proof.
  intros Hwf. unfold entry_ids. apply NoDup_app. split_and!; [apply NoDup_fst_map_to_list| |apply NoDup_fst_map_to_list].
  intros i [w Hi]%elem_of_keys [p Hp]%elem_of_keys.
  destruct (wf_workspaces _ Hwf _ _ Hi) as [[id ->] _].
  destruct (wf_pool_entries _ Hwf _ _ Hp) as [(n & [=] & _) _].
Qed.
Lemma used_entry_ids s : used s = list_len (entry_ids s).
Proof.
  unfold used, map_len, list_len, entry_ids.
  rewrite length_app, !length_fmap, !length_map_to_list. lia.
Qed.

(** C10: In every reachable state of the supervisor's guards the ledger never accounts for more than
    its ceiling, no entry has two owners, and every live guard owns an entry in exactly the state
    its type stands for; while the ledger is in service, the accounted entries are exactly the
    owned and forgotten ones, so the number of used slots is the number of owners. *)
Theorem ledger_entries_are_owned ceiling x :
  in_range U32_MAX ceiling -> reachable ceiling x ->
  let s := locked (ledger x) in
  let owners := owned (live x) ++ forgotten x in
  used s <= ceiling
  /\ NoDup owners
  /\ (forall g i, g ∈ live x -> guard_entry g = Some i ->
        exists e, entry_of s i = Some e /\ expects g e)
  /\ (healthy (ledger x) ->
        used s = list_len owners /\ forall i, is_Some (entry_of s i) <-> i ∈ owners).
Proof.
  intros Hc Hr. pose proof (reachable_inv _ _ Hc Hr) as Hx. destruct (Hx) as [Hwf Hd Ho Hf Ha].
  pose proof (steps_ceiling _ _ Hr (inv_initial _ Hc)) as Hceil. cbn in Hceil.
  cbn zeta. split_and!; [|done| |].
  - rewrite <- Hceil. apply (wf_bound _ Hwf).
  - rewrite Forall_forall in Ho. intros g i Hg. by apply Ho.
  - intros Hh. assert (forall i, is_Some (entry_of (locked (ledger x)) i)
      <-> i ∈ owned (live x) ++ forgotten x) as He.
    { intros i. split; [auto|]. intros [Hi|Hi]%elem_of_app; [by eapply owned_entry|auto]. }
    split; [|done]. rewrite used_entry_ids. unfold list_len. f_equal. apply Permutation_length.
    apply NoDup_Permutation; [by apply NoDup_entry_ids|done|].
    intros i. by rewrite elem_of_entry_ids.
Qed.

(** A run used by the witnesses: one workspace is reserved and registered, and
    one pool slot is reserved, on a ledger of two slots. *)
Definition demo_guard : RegisteredWorkspaceCapacityGuard :=
  {| rw_entry_id := Some (CapacityEntryId_Workspace "ws-a") |}.
Definition demo_l1 : CapacityLedger := snd (reserve_workspace "ws-a" 2000 1048576 (CapacityLedger_new 2)).
Definition demo_l2 : CapacityLedger :=
  snd (register_in_place {| wr_entry_id := Some (CapacityEntryId_Workspace "ws-a") |}
         WorkspaceState_Running demo_l1).
Definition demo_l3 : CapacityLedger := snd (reserve_pool_batch 3 1000 1048576 demo_l2).
Definition demo : System :=
  {| ledger := demo_l3;
     live := [Guard_PoolReservation {| pr_entry_id := Some (CapacityEntryId_Pool 0) |};
              Guard_WorkspaceReservation {| wr_entry_id := None |};
              Guard_Registered demo_guard];
     forgotten := [] |}.
Lemma demo_reachable : reachable 2 demo.
Proof.
  unfold reachable, initial.
  eapply rtc_l; [eapply (step_reserve_workspace _ _ _ "ws-a" 2000 1048576);
    [by unfold in_range, U64_MAX|by unfold in_range, U64_MAX|vm_compute; reflexivity]|].
  cbn [ok_guards app].
  eapply rtc_l; [eapply (step_register _ _ _ _ WorkspaceState_Running); vm_compute; reflexivity|].
  cbn [ok_guards app].
  eapply rtc_l; [eapply (step_reserve_pool_batch _ _ _ 3 1000 1048576);
    [lia|by unfold in_range, U64_MAX|by unfold in_range, U64_MAX|vm_compute; reflexivity]|].
  cbn [ok_guards app]. apply rtc_refl.
Qed.
Lemma u32_two : in_range U32_MAX 2.
Proof. by unfold in_range, U32_MAX. Qed.

Lemma ledger_entries_are_owned_witness :
  used (locked (ledger demo)) <= 2
  /\ used (locked (ledger demo)) = list_len (owned (live demo) ++ forgotten demo).
Proof.
  destruct (ledger_entries_are_owned 2 demo u32_two demo_reachable) as (Hu & _ & _ & Hh).
  split; [exact Hu|]. apply Hh. split; vm_compute; reflexivity.
Defined.

(** ** Operations on entries known to be present *)

Section Present.
Context (s : CapacityState) (Hwf : wf s) (Hf : cs_faulted s = false).
Context (Hrev : cs_revision s < U64_MAX).
Let l : CapacityLedger := {| poisoned := false; locked := s |}.

Local Lemma revision_available : checked_add U64_MAX (cs_revision s) 1 = Some (cs_revision s + 1).
Proof. apply checked_add_Some. lia. Qed.
(** Run the critical section of an operation whose entry lookup is [Hw]. *)
Ltac run Hw :=
  unfold with_lock, ensure_healthy, preflight_next_revision; unfold_m;
  rewrite ?Hf; cbn; rewrite ?Hw; cbn;
  rewrite ?bool_decide_true by done; cbn; rewrite ?Hf, ?revision_available; cbn.

Lemma register_present i st :
  entry_of s i = Some (inl WorkspaceCapacityState_Reserved) ->
  exists l', register_in_place {| wr_entry_id := Some i |} st l
             = (Ok ({| wr_entry_id := None |}, {| rw_entry_id := Some i |}), l').
Proof.
  destruct i as [id|n]; cbn; [|by destruct (cs_pool_entries s !! _)].
  destruct (cs_workspaces s !! _) as [[]|] eqn:Hw; cbn; intros; simplify_eq.
  unfold register_in_place. cbn. run Hw. by eexists.
Qed.
Lemma set_state_present i old st :
  entry_of s i = Some (inl (WorkspaceCapacityState_Registered old)) ->
  exists l', set_state {| rw_entry_id := Some i |} st l = (Ok tt, l').
Proof.
  destruct i as [id|n]; cbn; [|by destruct (cs_pool_entries s !! _)].
  destruct (cs_workspaces s !! _) as [[]|] eqn:Hw; cbn; intros; simplify_eq.
  unfold set_state. cbn. run Hw. case_bool_decide; [by eexists|].
  rewrite ?Hf, revision_available. by eexists.
Qed.
Lemma ready_present i :
  entry_of s i = Some (inr PoolCapacityState_Reserved) ->
  exists l', ready_in_place {| pr_entry_id := Some i |} l
             = (Ok ({| pr_entry_id := None |}, {| rp_entry_id := Some i |}), l').
Proof.
  destruct i as [id|n]; cbn; [by destruct (cs_workspaces s !! _)|].
  destruct (cs_pool_entries s !! _) as [[]|] eqn:Hw; cbn; intros; simplify_eq.
  unfold ready_in_place. cbn. run Hw. by eexists.
Qed.
Lemma adopt_present i id st :
  entry_of s i = Some (inr PoolCapacityState_Ready) ->
  let k := CapacityEntryId_Workspace id in
  if decide (is_Some (entry_of s k))
  then adopt_in_place {| rp_entry_id := Some i |} id st l = (Err CapacityError_DuplicateWorkspace, l)
  else exists l', adopt_in_place {| rp_entry_id := Some i |} id st l
                  = (Ok ({| rp_entry_id := None |}, {| rw_entry_id := Some k |}), l').
Proof.
  destruct i as [id'|n]; cbn; [by destruct (cs_workspaces s !! _)|].
  destruct (cs_pool_entries s !! _) as [[]|] eqn:Hw; cbn; intros; simplify_eq.
  unfold adopt_in_place. cbn.
  destruct (cs_workspaces s !! CapacityEntryId_Workspace id) as [w|] eqn:Hd; cbn;
    unfold with_lock, ensure_healthy, preflight_next_revision; unfold_m; rewrite ?Hf; cbn;
    rewrite Hd; cbn; [done|]. run Hw. by eexists.
Qed.
Lemma release_present i e :
  entry_of s i = Some e ->
  exists l', release_entry (Some i) l = (None, l')
    /\ used (locked l') = used s - 1
    /\ forall j, entry_of (locked l') j = upd (entry_of s) i None j.
Proof.
  intros He. destruct (release_entry (Some i) l) as [o l'] eqn:E. pose proof E as E'.
  apply (release_entry_cases l Hwf) in E as [[Hq Hgone]|(j & [= <-] & -> & _ & _ & Hu & Hj)]; [|eauto].
  exfalso. unfold release_entry, preflight_next_revision in E'. cbn in E'.
  rewrite Hf, revision_available in E'.
  destruct i; cbn in *; (destruct (_ !! _) eqn:Hi in He; [|done]);
    rewrite bool_decide_true in E' by eauto; simplify_eq; destruct Hq as [Hq|[_ Hq]]; cbn in *;
    apply (f_equal (cs_revision ∘ locked)) in Hq; cbn in Hq; lia.
Qed.
End Present.

(** On a ledger in service whose revision counter is not exhausted, a live guard's operation
    never reports a missing entry or an invalid transition: registration, readiness and state
    changes succeed, adoption succeeds unless the workspace id is already accounted for, and a
    drop releases exactly the guard's entry. *)
Theorem live_guards_never_fail ceiling x :
  in_range U32_MAX ceiling -> reachable ceiling x -> healthy (ledger x) ->
  cs_revision (locked (ledger x)) < U64_MAX ->
  (forall g i st, Guard_WorkspaceReservation g ∈ live x -> wr_entry_id g = Some i ->
     exists l', register_in_place g st (ledger x)
                = (Ok ({| wr_entry_id := None |}, {| rw_entry_id := Some i |}), l'))
  /\ (forall g i st, Guard_Registered g ∈ live x -> rw_entry_id g = Some i ->
        exists l', set_state g st (ledger x) = (Ok tt, l'))
  /\ (forall g i, Guard_PoolReservation g ∈ live x -> pr_entry_id g = Some i ->
        exists l', ready_in_place g (ledger x)
                   = (Ok ({| pr_entry_id := None |}, {| rp_entry_id := Some i |}), l'))
  /\ (forall g i id st, Guard_Ready g ∈ live x -> rp_entry_id g = Some i ->
        let k := CapacityEntryId_Workspace id in
        if decide (is_Some (entry_of (locked (ledger x)) k))
        then adopt_in_place g id st (ledger x) = (Err CapacityError_DuplicateWorkspace, ledger x)
        else exists l', adopt_in_place g id st (ledger x)
                        = (Ok ({| rp_entry_id := None |}, {| rw_entry_id := Some k |}), l'))
  /\ (forall g i, g ∈ live x -> guard_entry g = Some i ->
        exists l', release_entry (Some i) (ledger x) = (None, l')
          /\ used (locked l') = used (locked (ledger x)) - 1
          /\ forall j, entry_of (locked l') j = upd (entry_of (locked (ledger x))) i None j).
Proof.
  intros Hc Hr Hh Hrev. destruct (reachable_inv _ _ Hc Hr) as [Hwf _ Ho _ _].
  rewrite Forall_forall in Ho. destruct x as [[p s] gs fs]; cbn in *.
  destruct Hh as [Hp Hf]; cbn in Hp, Hf. subst p. split_and!.
  - intros [o] i st Hg Hi. destruct (Ho _ Hg i Hi) as (e & He & ->). cbn in Hi. subst o.
    by apply register_present.
  - intros [o] i st Hg Hi. destruct (Ho _ Hg i Hi) as (e & He & [old ->]). cbn in Hi. subst o.
    by eapply set_state_present.
  - intros [o] i Hg Hi. destruct (Ho _ Hg i Hi) as (e & He & ->). cbn in Hi. subst o.
    by apply ready_present.
  - intros [o] i id st Hg Hi. destruct (Ho _ Hg i Hi) as (e & He & ->). cbn in Hi. subst o.
    by apply adopt_present.
  - intros g i Hg Hi. destruct (Ho _ Hg i Hi) as (e & He & _). by eapply release_present.
Qed.
Lemma live_guards_never_fail_witness :
  healthy (ledger demo) /\ cs_revision (locked (ledger demo)) < U64_MAX /\
  exists l', set_state demo_guard WorkspaceState_Paused (ledger demo) = (Ok tt, l').
Proof.
  assert (healthy (ledger demo)) as Hh by (split; vm_compute; reflexivity).
  assert (cs_revision (locked (ledger demo)) < U64_MAX) as Hr by (vm_compute; reflexivity).
  split; [exact Hh|]. split; [exact Hr|].
  destruct (live_guards_never_fail 2 demo u32_two demo_reachable Hh Hr) as (_ & H & _).
  apply (H demo_guard (CapacityEntryId_Workspace "ws-a") WorkspaceState_Paused);
    [|reflexivity]. unfold demo; cbn. right. right. left.
Defined.

(** The revision versions the inventory: along any run it never decreases, and two states with
    the same revision have the same entries, so two snapshots taken at the same revision report the
    same inventory. *)
Theorem revision_versions_inventory ceiling x y profile cx cy :
  in_range U32_MAX ceiling -> reachable ceiling x -> rtc sys_step x y ->
  cs_revision (locked (ledger x)) <= cs_revision (locked (ledger y))
  /\ (fst (snapshot profile (ledger x)) = Ok cx -> fst (snapshot profile (ledger y)) = Ok cy ->
      revision cx = revision cy -> cx = cy).
Proof.
  intros Hc Hr Hs. pose proof (reachable_inv _ _ Hc Hr) as Hx. pose proof (steps_inv _ _ Hs Hx) as Hy.
  split; [by apply steps_revision|].
  assert (forall z c, inv z -> fst (snapshot profile (ledger z)) = Ok c ->
            c = inventory_report profile (locked (ledger z))) as Hrep.
  { intros z c Hz Hok. destruct (decide (healthy (ledger z))) as [Hh|Hh].
    - rewrite (snapshot_inventory _ _ (inv_wf _ Hz) Hh) in Hok. cbn in Hok.
      by case_match; simplify_eq.
    - exfalso. revert Hok. unfold snapshot, with_lock, ensure_healthy. unfold_m.
      destruct (poisoned (ledger z)) eqn:Ep; cbn; [done|].
      destruct (cs_faulted (locked (ledger z))) eqn:Ef; cbn; [done|]. exfalso. apply Hh. by split. }
  intros ->%Hrep ->%Hrep He; [|done..]. cbn in He.
  pose proof (steps_ceiling _ _ Hs Hx) as Hceil.
  destruct (steps_same_revision _ _ Hs Hx (eq_sym He)) as [Hw Hp].
  unfold inventory_report, inventory. by rewrite Hw, Hp, Hceil, He.
Qed.
Lemma revision_versions_inventory_witness :
  cs_revision (locked (ledger demo)) <= cs_revision (locked (ledger demo)).
Proof.
  refine (proj1 (revision_versions_inventory 2 demo demo ExecutionProfile_Standard
    (inventory_report ExecutionProfile_Standard (locked (ledger demo)))
    (inventory_report ExecutionProfile_Standard (locked (ledger demo))) u32_two demo_reachable _)).
  apply rtc_refl.
Defined.

(** Failing closed is terminal: once the ledger is faulted or its lock poisoned, no later step of
    any task admits a workspace or a pool slot, publishes an inventory, or forgets an entry. *)
Theorem fail_closed_is_terminal ceiling x y :
  in_range U32_MAX ceiling -> reachable ceiling x -> ~ healthy (ledger x) -> rtc sys_step x y ->
  (forall id c m, exists e, reserve_workspace id c m (ledger y) = (Err e, ledger y))
  /\ (forall n c m, exists e, reserve_pool_batch n c m (ledger y) = (Err e, ledger y))
  /\ (forall p, exists e, snapshot p (ledger y) = (Err e, ledger y))
  /\ forall i, entry_of (locked (ledger y)) i = entry_of (locked (ledger x)) i.
Proof.
  intros Hc Hr Hx Hs.
  destruct (steps_unhealthy _ _ Hs (reachable_inv _ _ Hc Hr) Hx) as (Hy & Hw & Hp).
  assert (forall A (m : L A), exists e,
    with_lock (ensure_healthy ;;; m) (ledger y) = (Err e, ledger y)) as H.
  { intros A m. unfold with_lock, ensure_healthy. unfold_m.
    destruct (ledger y) as [p s]; cbn in *. destruct p; cbn; [by eexists|].
    destruct (cs_faulted s) eqn:Ef; cbn; [by eexists|]. exfalso. apply Hy. by split. }
  split_and!; try (intros; apply H).
  intros []; cbn; by rewrite ?Hw, ?Hp.
Qed.
Lemma fail_closed_is_terminal_witness :
  let x := {| ledger := fault_ledger (ledger demo); live := live demo; forgotten := [] |} in
  ~ healthy (ledger x) /\
  exists e, reserve_workspace "ws-b" 1000 1048576 (ledger x) = (Err e, ledger x).
Proof.
  cbv zeta. set (x := {| ledger := fault_ledger (ledger demo); live := live demo; forgotten := [] |}).
  assert (~ healthy (ledger x)) as Hx by (intros [_ H]; vm_compute in H; discriminate).
  split; [exact Hx|].
  assert (reachable 2 x) as Hr.
  { unfold reachable. eapply rtc_r; [exact demo_reachable|].
    exact (step_fail_closed (ledger demo) (live demo) []). }
  destruct (fail_closed_is_terminal 2 x x u32_two Hr Hx ltac:(apply rtc_refl)) as (H & _).
  apply H.
Defined.
