(* ===== verification/Lifecycle.v ===== *)
(** * Lifecycle bookkeeping of the workspace manager ([crates/ne-supervisor/src/workspace.rs])

    Three small stateful helpers behind the workspace operations: the tracker
    that lets shutdown wait for accepted work ([LifecycleTasks]), the per-id
    leases that serialise path-owning operations ([LifecycleClaims]) and the
    bounded replay window for attestation nonces ([NonceRing]). *)

From S2P Require Import Prelude Text.

(** ** Tracked tasks *)

Module Tasks.

Inductive LifecycleTaskError :=
| LifecycleTaskError_Closed
| LifecycleTaskError_Poisoned
| LifecycleTaskError_NoRuntime.

(** The mutex-protected counters, the mutex's poison flag, and the number of
    [notify_waiters] calls made so far on [changed]: a [Notified] future that
    was created at epoch [e] completes once the epoch is greater than [e]. *)
Record LifecycleTasks := {
  tasks_poisoned : bool;
  accepting : bool;
  active : Z;
  epoch : nat;
}.

Definition new : LifecycleTasks :=
  {| tasks_poisoned := false; accepting := true; active := 0; epoch := 0 |}.

Definition close (t : LifecycleTasks) : LifecycleTasks :=
  {| tasks_poisoned := tasks_poisoned t;
     accepting := if tasks_poisoned t then accepting t else false;
     active := active t; epoch := S (epoch t) |}.

Definition is_closed (t : LifecycleTasks) : bool :=
  if tasks_poisoned t then true else negb (accepting t).

(** [begin]; the permit it returns is the unit of [active] it added. *)
Definition begin (cleanup : bool) (t : LifecycleTasks)
    : result LifecycleTaskError unit * LifecycleTasks :=
  if tasks_poisoned t then (Err LifecycleTaskError_Poisoned, t)
  else if negb (accepting t) && (negb cleanup || (active t =? 0))
  then (Err LifecycleTaskError_Closed, t)
  else match checked_add USIZE_MAX (active t) 1 with
       | None => (Err LifecycleTaskError_Poisoned, t)
       | Some n => (Ok tt, {| tasks_poisoned := false; accepting := accepting t;
                              active := n; epoch := epoch t |})
       end.

(** [Drop for LifecycleTaskPermit]. *)
Definition permit_drop (t : LifecycleTasks) : LifecycleTasks :=
  if tasks_poisoned t then t
  else match checked_sub (active t) 1 with
       | None => t
       | Some n => {| tasks_poisoned := false; accepting := accepting t;
                      active := n; epoch := S (epoch t) |}
       end.

(** Where a call of [wait] is: about to create its [Notified], holding one it has not looked past
    yet, awaiting it, or back. Each [Notified] carries the epoch it was created at. *)
Inductive Waiter :=
| Wait_start
| Wait_created (created : nat)
| Wait_blocked (created : nat)
| Wait_returned.

(** [self.changed.notified()]: the first statement of the loop body. *)
Definition notified (t : LifecycleTasks) : nat := epoch t.
(** The read of the counter under the lock, and the test after it. *)
Definition look (created : nat) (t : LifecycleTasks) : Waiter :=
  if tasks_poisoned t then Wait_returned
  else if active t =? 0 then Wait_returned
  else Wait_blocked created.
(** [notified.await]: done once [notify_waiters] was called after the creation. *)
Definition notification_pending (created : nat) (t : LifecycleTasks) : bool :=
  (created <? epoch t)%nat.

(** The steps of one [wait]. Other tasks run between any two of them. *)
Inductive wait_step (t : LifecycleTasks) : Waiter -> Waiter -> Prop :=
| ws_notified : wait_step t Wait_start (Wait_created (notified t))
| ws_look e : wait_step t (Wait_created e) (look e t)
| ws_woken e : notification_pending e t = true -> wait_step t (Wait_blocked e) Wait_start.

(** Tasks holding permits, and the steps they and the supervisor take. *)
Record TaskSystem := { tracker : LifecycleTasks; permits : nat; waiter : Waiter }.
Inductive task_step : TaskSystem -> TaskSystem -> Prop :=
| ts_begin t t' n w cleanup :
    begin cleanup t = (Ok tt, t') ->
    task_step {| tracker := t; permits := n; waiter := w |}
      {| tracker := t'; permits := S n; waiter := w |}
| ts_drop t n w :
    task_step {| tracker := t; permits := S n; waiter := w |}
      {| tracker := permit_drop t; permits := n; waiter := w |}
| ts_close t n w :
    task_step {| tracker := t; permits := n; waiter := w |}
      {| tracker := close t; permits := n; waiter := w |}
| ts_wait t n w w' :
    wait_step t w w' ->
    task_step {| tracker := t; permits := n; waiter := w |}
      {| tracker := t; permits := n; waiter := w' |}.
Definition task_init : TaskSystem := {| tracker := new; permits := 0; waiter := Wait_start |}.

(** A waiter never blocks on a [Notified] that nothing is going to complete. *)
Definition waiter_inv (t : LifecycleTasks) (w : Waiter) : Prop :=
  match w with
  | Wait_start | Wait_returned => True
  | Wait_created e => (e <= epoch t)%nat
  | Wait_blocked e => (e <= epoch t)%nat /\ ((e < epoch t)%nat \/ 0 < active t)
  end.
Definition task_inv (x : TaskSystem) : Prop :=
  tasks_poisoned (tracker x) = false
  /\ active (tracker x) = Z.of_nat (permits x)
  /\ active (tracker x) <= USIZE_MAX
  /\ waiter_inv (tracker x) (waiter x).

(** Whatever raises the epoch, or keeps it and does not lower the count, keeps a waiter sound. *)
Lemma waiter_inv_mono t t' w :
  (epoch t < epoch t')%nat \/ (epoch t = epoch t' /\ active t <= active t') ->
  waiter_inv t w -> waiter_inv t' w.
Proof. destruct w; cbn; lia. Qed.
Lemma waiter_inv_wait t w w' :
  tasks_poisoned t = false -> 0 <= active t -> wait_step t w w' -> waiter_inv t w -> waiter_inv t w'.
Proof.
  intros Hp Ha [|e|e He] Hi; cbn in *; unfold notified; try done.
  unfold look. rewrite Hp. destruct (Z.eqb_spec (active t) 0); cbn; [done|lia].
Qed.

Lemma task_inv_step x y : task_step x y -> task_inv x -> task_inv y.
Proof.
  destruct 1 as [t t' n w cleanup Hb|t n w|t n w|t n w w' Hs];
    intros (Hp & Ha & Hu & Hw); cbn in *.
  - unfold begin in Hb. rewrite Hp in Hb.
    case_match; simplify_eq. case_match eqn:Ea; simplify_eq. reflect_Z.
    split_and!; cbn; try done; try lia.
    eapply waiter_inv_mono; [|exact Hw]. cbn. lia.
  - unfold permit_drop. rewrite Hp. unfold checked_sub. rewrite Ha.
    destruct (Z.leb_spec 1 (Z.of_nat (S n))); [|lia].
    split_and!; cbn; try done; try lia. eapply waiter_inv_mono; [|exact Hw]. cbn. lia.
  - unfold close. split_and!; cbn; try done. eapply waiter_inv_mono; [|exact Hw]. cbn. lia.
  - split_and!; try done. cbn. eapply waiter_inv_wait; eauto. lia.
Qed.
Lemma task_inv_run x : rtc task_step task_init x -> task_inv x.
Proof.
  intros H. assert (task_inv task_init) as H0.
  { split_and!; cbn; try done. }
  induction H; eauto using task_inv_step.
Qed.
(** With no permit alive the waiter's own steps bring it back, wherever it is. *)
Lemma drained_waiter_returns x :
  task_inv x -> permits x = 0%nat -> rtc (wait_step (tracker x)) (waiter x) Wait_returned.
Proof.
  destruct x as [t n w]. intros (Hp & Ha & _ & Hw) Hn; cbn in *. subst n.
  assert (forall e, rtc (wait_step t) (Wait_created e) Wait_returned) as Hc.
  { intros e. apply rtc_once. replace Wait_returned with (look e t); [constructor|].
    unfold look. by rewrite Hp, Ha. }
  assert (rtc (wait_step t) Wait_start Wait_returned) as Hs.
  { eapply rtc_l; [apply ws_notified|apply Hc]. }
  destruct w as [|e|e|]; cbn in Hw; [done|apply Hc| |apply rtc_refl].
  eapply rtc_l; [apply ws_woken|exact Hs]. apply Nat.ltb_lt. lia.
Qed.

(** C40: The tracker counts exactly the permits that are alive, and shutdown's wait loses no
    wake-up, however the other tasks run between its creating the notification, reading the counter
    and awaiting: a call that awaits with no notification pending has a live permit, whose drop
    notifies it; and once no permit is alive the call's own steps bring it back. *)
Theorem wait_has_no_lost_wakeup x :
  rtc task_step task_init x ->
  active (tracker x) = Z.of_nat (permits x)
  /\ (forall e, waiter x = Wait_blocked e -> notification_pending e (tracker x) = false ->
        (0 < permits x)%nat /\ notification_pending e (permit_drop (tracker x)) = true)
  /\ (permits x = 0%nat -> rtc (wait_step (tracker x)) (waiter x) Wait_returned).
Proof.
  intros Hi%task_inv_run. split_and!; [apply Hi| |by apply drained_waiter_returns].
  destruct Hi as (Hp & Ha & _ & Hw). intros e He Hep. rewrite He in Hw. cbn in Hw.
  apply Nat.ltb_ge in Hep. split; [lia|]. apply Nat.ltb_lt.
  unfold permit_drop. rewrite Hp. unfold checked_sub.
  destruct (Z.leb_spec 1 (active (tracker x))); cbn; lia.
Qed.
(** The permit of a running operation is dropped after the waiter has looked and before it awaits. *)
Lemma wait_has_no_lost_wakeup_witness :
  let t := snd (begin false new) in
  let x := {| tracker := t; permits := 1; waiter := Wait_blocked 0 |} in
  let y := {| tracker := permit_drop t; permits := 0; waiter := Wait_blocked 0 |} in
  active (tracker x) = 1 /\ notification_pending 0 (permit_drop (tracker x)) = true
  /\ rtc (wait_step (tracker y)) (waiter y) Wait_returned.
Proof.
  cbv zeta. set (x := {| tracker := snd (begin false new); permits := 1; waiter := Wait_blocked 0 |}).
  assert (rtc task_step task_init x) as Hr.
  { eapply rtc_l; [eapply (ts_begin _ _ _ _ false); vm_compute; reflexivity|].
    eapply rtc_l; [apply ts_wait, ws_notified|].
    eapply rtc_l; [apply ts_wait, (ws_look _ 0)|]. apply rtc_refl. }
  destruct (wait_has_no_lost_wakeup x Hr) as (Ha & Hw & _).
  split_and!; [exact Ha|apply (Hw 0%nat); reflexivity|].
  refine (proj2 (proj2 (wait_has_no_lost_wakeup
    {| tracker := permit_drop (tracker x); permits := 0; waiter := Wait_blocked 0 |} _)) eq_refl).
  eapply rtc_r; [exact Hr|apply ts_drop].
Defined.

(** Once the supervisor has stopped accepting work and the last permit is gone, the tracker is
    quiescent for good: no later operation or cleanup obtains a permit. *)
Theorem closed_and_drained_is_final x y :
  rtc task_step task_init x -> accepting (tracker x) = false -> permits x = 0%nat ->
  rtc task_step x y ->
  permits y = 0%nat /\ accepting (tracker y) = false
  /\ forall cleanup, begin cleanup (tracker y) = (Err LifecycleTaskError_Closed, tracker y).
Proof.
  intros Hx Hacc Hz Hs. apply task_inv_run in Hx.
  assert (permits y = 0%nat /\ accepting (tracker y) = false /\ task_inv y) as (Hpy & Hay & Hi).
  { revert Hacc Hz Hx. induction Hs as [|x z y Hxz _ IH]; [auto|]. intros Hacc Hz Hx.
    assert (task_inv z) as Hiz by eauto using task_inv_step. destruct Hx as (Hp & Ha & _).
    destruct Hxz; cbn in *; simplify_eq; auto.
    - unfold begin in H. rewrite Hp, Hacc, Ha in H. cbn in H. rewrite orb_true_r in H. done.
    - apply IH; auto. cbn. by rewrite Hp. }
  split_and!; try done. intros cleanup. destruct Hi as (Hp & Ha & _). unfold begin.
  rewrite Hp, Hay, Ha, Hpy. cbn. by rewrite orb_true_r.
Qed.
Lemma closed_and_drained_is_final_witness :
  let x := {| tracker := close new; permits := 0; waiter := Wait_start |} in
  begin true (tracker x) = (Err LifecycleTaskError_Closed, tracker x).
Proof.
  cbv zeta. set (x := {| tracker := close new; permits := 0; waiter := Wait_start |}).
  assert (rtc task_step task_init x) as Hr by (eapply rtc_l; [apply ts_close|apply rtc_refl]).
  exact (proj2 (proj2 (closed_and_drained_is_final x x Hr eq_refl eq_refl (rtc_refl _ _))) true).
Defined.
End Tasks.

(** ** Per-id leases *)

Module Claims.
(** The set behind [LifecycleClaims]; poisoning is ignored by the source. *)
Definition claim (id : string) (ids : gset string) : bool * gset string :=
  (bool_decide (id ∉ ids), {[ id ]} ∪ ids).
(** [Drop for LifecycleLease]. *)
Definition lease_drop (id : string) (ids : gset string) : gset string := ids ∖ {[ id ]}.

Record ClaimSystem := { ids : gset string; leases : list string }.
Inductive claim_step : ClaimSystem -> ClaimSystem -> Prop :=
| cs_claim s ls id b s' :
    claim id s = (b, s') ->
    claim_step {| ids := s; leases := ls |}
      {| ids := s'; leases := if b then id :: ls else ls |}
| cs_drop s ls1 id ls2 :
    claim_step {| ids := s; leases := ls1 ++ id :: ls2 |}
      {| ids := lease_drop id s; leases := ls1 ++ ls2 |}.

(** Two lifecycle operations never hold a lease on the same workspace id at the same time, a
    claim is refused exactly while such a lease is alive, and a released id can be claimed again. *)
Theorem leases_are_exclusive x :
  rtc claim_step {| ids := ∅; leases := [] |} x ->
  NoDup (leases x) /\ forall id, fst (claim id (ids x)) = true <-> id ∉ leases x.
Proof.
  intros H. assert (NoDup (leases x) /\ forall id, id ∈ ids x <-> id ∈ leases x) as [Hn He].
  { remember {| ids := ∅; leases := [] |} as x0 eqn:E0.
    assert (NoDup (leases x0) /\ forall id, id ∈ ids x0 <-> id ∈ leases x0) as H0.
    { subst. split; [constructor|set_solver]. }
    clear E0. induction H as [|x y z Hxy _ IH]; [done|]. apply IH. clear IH.
    destruct H0 as [Hn He], Hxy as [s ls id b s' Hc|s ls1 id ls2]; cbn in *.
    - unfold claim in Hc. simplify_eq. case_bool_decide; [|set_solver].
      split; [apply NoDup_cons; set_solver|set_solver].
    - unfold lease_drop. assert (id ∉ ls1 ++ ls2) as Hid.
      { rewrite <- Permutation_middle in Hn. by apply NoDup_cons in Hn as []. }
      split.
      + rewrite <- Permutation_middle in Hn. by apply NoDup_cons in Hn as [].
      + intros j. rewrite elem_of_difference, elem_of_singleton, He. set_solver. }
  split; [done|]. intros id. unfold claim. cbn. rewrite bool_decide_eq_true, He. done.
Qed.
Lemma leases_are_exclusive_witness :
  fst (claim "ws-a" (ids {| ids := {[ "ws-a" ]} ∪ ∅; leases := ["ws-a"] |})) <> true.
Proof.
  assert (rtc claim_step {| ids := ∅; leases := [] |}
            {| ids := {[ "ws-a" ]} ∪ ∅; leases := ["ws-a"] |}) as Hr.
  { eapply rtc_l; [|apply rtc_refl]. apply (cs_claim ∅ [] "ws-a" true). vm_compute. reflexivity. }
  intros H. apply (proj2 (leases_are_exclusive _ Hr)) in H. apply H. left.
Defined.
End Claims.

(** ** Attestation nonces *)

Module Nonces.
Record NonceRing := { seen : gset (list Z); order : list (list Z) }.
Definition CAP : nat := 256.
Arguments CAP : simpl never.
Definition empty_ring : NonceRing := {| seen := ∅; order := [] |}.

(** [true] means the hash was already present. *)
Definition record (hash : list Z) (r : NonceRing) : bool * NonceRing :=
  if decide (hash ∈ seen r) then (true, r)
  else
    let r1 :=
      if (CAP <=? length (order r))%nat
      then match order r with
           | [] => r
           | old :: rest => {| seen := seen r ∖ {[ old ]}; order := rest |}
           end
      else r in
    (false, {| seen := {[ hash ]} ∪ seen r1; order := order r1 ++ [hash] |}).
(** The ring after a sequence of evidence requests. *)
Definition record_all (hs : list (list Z)) (r : NonceRing) : NonceRing :=
  fold_left (fun r h => snd (record h r)) hs r.

Record ring_ok (r : NonceRing) : Prop := {
  ring_seen : forall h, h ∈ seen r <-> h ∈ order r;
  ring_nodup : NoDup (order r);
  ring_bound : (length (order r) <= CAP)%nat;
}.

Lemma ring_ok_empty : ring_ok empty_ring.
Proof. constructor; cbn; [set_solver|constructor|lia]. Qed.
Lemma ring_ok_record h r : ring_ok r -> ring_ok (snd (record h r)).
Proof.
  intros [Hs Hn Hb]. unfold record. case_decide as Hin; [done|]. cbn.
  destruct (Nat.leb_spec CAP (length (order r))) as [Hfull|Hfull].
  - destruct (order r) as [|old rest] eqn:E; [cbn in Hfull; unfold CAP in *; lia|].
    apply NoDup_cons in Hn as [Hold Hn]. cbn in *. constructor; cbn.
    + intros x. specialize (Hs x). set_solver.
    + apply NoDup_app. split_and!; [done| |apply NoDup_singleton].
      intros x Hx ->%list_elem_of_singleton. apply Hin, Hs. by right.
    + rewrite length_app. cbn. lia.
  - constructor; cbn.
    + intros x. specialize (Hs x). set_solver.
    + apply NoDup_app. split_and!; [done| |apply NoDup_singleton].
      intros x Hx ->%list_elem_of_singleton. by apply Hin, Hs.
    + rewrite length_app. cbn. lia.
Qed.
Lemma ring_ok_all hs : forall r, ring_ok r -> ring_ok (record_all hs r).
Proof. induction hs; cbn; auto using ring_ok_record. Qed.

(** A hash with fewer than [CAP - 1] younger ones survives the next record. *)
Lemma record_keeps h x r a b :
  ring_ok r -> order r = a ++ h :: b -> (length b < CAP - 1)%nat ->
  exists a' b', order (snd (record x r)) = a' ++ h :: b' /\ (length b' <= S (length b))%nat.
Proof.
  intros Hr Ho Hb. unfold record. case_decide; cbn; [exists a, b; split; [done|lia]|].
  destruct (Nat.leb_spec CAP (length (order r))) as [Hfull|Hfull]; cbn.
  - rewrite Ho in *. destruct a as [|old a]; cbn in *; [lia|].
    exists a, (b ++ [x]). rewrite <- app_assoc. split; [done|]. rewrite length_app. cbn. lia.
  - exists a, (b ++ [x]). rewrite Ho, <- app_assoc. split; [done|]. rewrite length_app. cbn. lia.
Qed.
Lemma record_all_keeps h hs : forall r a b,
  ring_ok r -> order r = a ++ h :: b -> (length b + length hs < CAP)%nat ->
  h ∈ order (record_all hs r).
Proof.
  induction hs as [|x hs IH]; cbn; intros r a b Hr Ho Hl.
  - rewrite Ho. set_solver.
  - destruct (record_keeps h x r a b Hr Ho) as (a' & b' & Ho' & Hb'); [lia|].
    apply (IH _ a' b'); auto using ring_ok_record. lia.
Qed.
Lemma record_order_subset x hs : forall r, x ∈ order (record_all hs r) -> x ∈ order r \/ x ∈ hs.
Proof.
  induction hs as [|h hs IH]; cbn; intros r Hx; [by left|].
  destruct (IH _ Hx) as [Ho|]; [|right; by right].
  unfold record in Ho. case_decide; cbn in Ho; [by left|].
  apply elem_of_app in Ho as [Ho| ->%list_elem_of_singleton]; [|right; left].
  left. case_match; [|done]. case_match eqn:E; [by rewrite E in Ho|]. cbn in Ho. by right.
Qed.

(** The replay window is exact in both directions: a nonce that was accepted is rejected by each
    of the next 255 requests at least, whatever nonces they carry; a nonce that was never presented
    is never rejected; and the window never holds more than 256 hashes. *)
Theorem nonce_replay_window before h after :
  let r := record_all before empty_ring in
  (fst (record h r) = false -> (length after <= 255)%nat ->
     fst (record h (record_all after (snd (record h r)))) = true)
  /\ (h ∉ before -> fst (record h r) = false)
  /\ (length (order r) <= 256)%nat.
Proof.
  cbn zeta. pose proof (ring_ok_all before _ ring_ok_empty) as Hr.
  set (r := record_all before empty_ring) in *. split_and!.
  - intros Hf Hl. assert (exists a, order (snd (record h r)) = a ++ [h]) as [a Ho].
    { revert Hf. unfold record. case_decide; [done|]. cbn. by eexists. }
    unfold record at 1. rewrite decide_True; [done|].
    apply (ring_seen _ (ring_ok_all after _ (ring_ok_record h r Hr))).
    eapply (record_all_keeps h after _ a []); auto using ring_ok_record. cbn. unfold CAP. lia.
  - intros Hn. unfold record. rewrite decide_False; [done|]. rewrite (ring_seen _ Hr).
    intros [Hx|Hx]%record_order_subset; [by apply not_elem_of_nil in Hx|done].
  - apply (ring_bound _ Hr).
Qed.
End Nonces.
