(* ===== verification/Json.v ===== *)
(** * JSON objects in canonical form

    Signed documents (audit events, snapshot manifests) are serialised as a
    JSON object without its signature field, with a domain tag added and the
    top-level keys sorted.  The text itself is produced by [serde_json]; the
    class [JsonVec] is its [to_vec] on such an object, [JsonVecLaws] what the
    code relies on. *)

From S2P Require Import Prelude Text.

(** The value of one member.  [Value] is an arbitrary [serde_json::Value]; the
    members of a nested object are given in key order. *)
Inductive Field (Value : Type) :=
| Field_null
| Field_string (s : string)
| Field_number (n : Z)
| Field_struct (members : list (string * (string + Z)))
| Field_value (v : Value).
Arguments Field_null {Value}.
Arguments Field_string {Value} s.
Arguments Field_number {Value} n.
Arguments Field_struct {Value} members.
Arguments Field_value {Value} v.
Definition Field_option {Value} (o : option string) : Field Value :=
  match o with None => Field_null | Some s => Field_string s end.

Class JsonVec (Value : Type) := to_vec : list (string * Field Value) -> option (list Z).
Class JsonVecLaws (Value : Type) (J : JsonVec Value) : Prop := {
  to_vec_total o : is_Some (to_vec o);
  to_vec_inj a b x : to_vec a = Some x -> to_vec b = Some x -> a = b;
  to_vec_nonempty o : to_vec o <> Some [];
}.

Section Canonical.
Context {Value : Type}.
(** [serde_json::Map::remove] and [BTreeMap::insert] on an association list. *)
Definition obj_remove (k : string) (o : list (string * Field Value)) : list (string * Field Value) :=
  List.filter (fun p => negb (String.eqb (fst p) k)) o.
Fixpoint btree_insert (k : string) (v : Field Value) (o : list (string * Field Value))
    : list (string * Field Value) :=
  match o with
  | [] => [(k, v)]
  | (k', v') :: r =>
      match String.compare k k' with
      | Eq => (k, v) :: r
      | Lt => (k, v) :: o
      | Gt => (k', v') :: btree_insert k v r
      end
  end.
(** Strip the signature, sort, add the tag. *)
Definition canonicalize (tag : string) (o : list (string * Field Value))
    : list (string * Field Value) :=
  let sorted := fold_left (fun m p => btree_insert (fst p) (snd p) m)
                  (obj_remove "signature_b64" o) [] in
  btree_insert "ctx" (Field_string tag) sorted.
End Canonical.

(** ** A toy serialiser

    An object is its code under stdpp's [Countable] encoding. *)
#[global] Instance Field_eq_dec : EqDecision (Field unit).
Proof. solve_decision. Defined.
#[global] Instance Field_countable : Countable (Field unit).
Proof.
  refine (inj_countable'
    (fun f => match f with
              | Field_null => inl (inl None)
              | Field_string s => inl (inl (Some s))
              | Field_number n => inl (inr n)
              | Field_struct l => inr (Some l)
              | Field_value _ => inr None
              end : (option string + Z) + option (list (string * (string + Z))))
    (fun x => match x with
              | inl (inl None) => Field_null
              | inl (inl (Some s)) => Field_string s
              | inl (inr n) => Field_number n
              | inr (Some l) => Field_struct l
              | inr None => Field_value tt
              end) _).
  by intros [| | | |[]].
Defined.
Definition toy_vec : JsonVec unit := fun o => Some [Z.pos (encode o)].
Lemma toy_vec_laws : JsonVecLaws unit toy_vec.
Proof.
  constructor.
  - intros o. by eexists.
  - intros a b x [= <-] [= H]. by apply (inj encode).
  - done.
Qed.
