(* ===== verification/Crypto.v ===== *)
(** * The cryptographic interface

    Signing, hashing and text encodings come from third-party crates
    ([ed25519-dalek], [sha2], [hex], [base64]).  Components that call them are
    written against the class [Crypto]; what the code relies on is the class
    [CryptoLaws]: a key's own signatures verify, encodings decode back, and
    encodings of different byte strings differ.  No law speaks about forgery
    or collisions; theorems that depend on collision resistance exhibit the
    colliding inputs instead.  [toy_crypto] instantiates both classes. *)

From S2P Require Import Prelude Text.

Definition is_byte (b : Z) : Prop := 0 <= b < 256.
Definition is_bytes (l : list Z) : Prop := Forall is_byte l.
#[global] Instance is_byte_dec b : Decision (is_byte b).
Proof. unfold is_byte. apply _. Defined.
#[global] Instance is_bytes_dec l : Decision (is_bytes l).
Proof. unfold is_bytes. apply _. Defined.

Class Crypto := {
  SigningKey : Type;
  VerifyingKey : Type;
  verifying_key : SigningKey -> VerifyingKey;
  vk_to_bytes : VerifyingKey -> list Z;
  (** [VerifyingKey::from_bytes] on a 32-byte array. *)
  vk_from_bytes : list Z -> option VerifyingKey;
  sign : SigningKey -> list Z -> list Z;
  verify_strict : VerifyingKey -> list Z -> list Z -> bool;
  sha256 : list Z -> list Z;
  hex_encode : list Z -> string;
  b64_encode : list Z -> string;
  b64_decode : string -> option (list Z);
}.

Class CryptoLaws (C : Crypto) : Prop := {
  vk_bytes_ok sk : is_bytes (vk_to_bytes (verifying_key sk))
                   /\ length (vk_to_bytes (verifying_key sk)) = 32%nat;
  vk_round_trip sk : vk_from_bytes (vk_to_bytes (verifying_key sk)) = Some (verifying_key sk);
  sign_bytes_ok sk m : is_bytes (sign sk m) /\ length (sign sk m) = 64%nat;
  sign_verifies sk m : verify_strict (verifying_key sk) m (sign sk m) = true;
  sha256_bytes m : is_bytes (sha256 m);
  hex_inj a b : is_bytes a -> is_bytes b -> hex_encode a = hex_encode b -> a = b;
  b64_round_trip l : is_bytes l -> b64_decode (b64_encode l) = Some l;
}.

(** Two different messages with the same SHA-256 digest. *)
Definition sha256_collision `{Crypto} : Prop := exists a b, a <> b /\ sha256 a = sha256 b.

Lemma hex_sha256_eq `{C : Crypto} {L : CryptoLaws C} a b :
  hex_encode (sha256 a) = hex_encode (sha256 b) -> a = b \/ sha256_collision.
Proof.
  intros H%hex_inj; [|apply sha256_bytes..].
  destruct (decide (a = b)); [by left|right]. by exists a, b.
Qed.

(** [<[u8; N]>::try_from(Vec<u8>).ok()]. *)
Definition to_array (n : nat) (l : list Z) : option (list Z) :=
  if (length l =? n)%nat then Some l else None.
(** Decode base64 text into an array of [n] bytes. *)
Definition b64_array `{Crypto} (n : nat) (s : string) : option (list Z) :=
  b ← b64_decode s; to_array n b.

Lemma to_array_Some n l : length l = n -> to_array n l = Some l.
Proof. intros <-. unfold to_array. by rewrite Nat.eqb_refl. Qed.
Lemma b64_array_encode `{C : Crypto} {L : CryptoLaws C} n l :
  is_bytes l -> length l = n -> b64_array n (b64_encode l) = Some l.
Proof.
  intros Hb Hl. unfold b64_array. rewrite b64_round_trip by done. cbn. by apply to_array_Some.
Qed.

(** ** A toy instance

    One-byte keys; a signature repeats the key plus the sum of the message; the
    digest is the message itself. *)
Definition byte_sum (l : list Z) : Z := foldr Z.add 0 l.
Definition toy_crypto : Crypto := {|
  SigningKey := Z;
  VerifyingKey := Z;
  verifying_key := fun k => k mod 256;
  vk_to_bytes := fun k => replicate 32 (k mod 256);
  vk_from_bytes := fun l => head l;
  sign := fun k m => replicate 64 ((k + byte_sum m) mod 256);
  verify_strict := fun k m s => bool_decide (s = replicate 64 ((k + byte_sum m) mod 256));
  sha256 := fun m => (fun b => b mod 256) <$> m;
  hex_encode := string_of;
  b64_encode := string_of;
  b64_decode := fun s => Some (bytes_of s);
|}.

Lemma is_byte_mod z : is_byte (z mod 256).
Proof. unfold is_byte. pose proof (Z.mod_pos_bound z 256). lia. Qed.
Lemma is_bytes_replicate n z : is_byte z -> is_bytes (replicate n z).
Proof. intros H. induction n; by constructor. Qed.
Lemma bytes_of_string_of_bytes l : is_bytes l -> bytes_of (string_of l) = l.
Proof. intros H. apply bytes_of_string_of. eapply Forall_impl; [exact H|]. unfold is_byte. lia. Qed.

Lemma toy_crypto_laws : CryptoLaws toy_crypto.
Proof.
  constructor.
  - intros sk. split; [|done]. apply (is_bytes_replicate 32), is_byte_mod.
  - intros sk. cbn. by rewrite Z.mod_mod.
  - intros sk m. split; [|done]. apply (is_bytes_replicate 64), is_byte_mod.
  - intros sk m. apply bool_decide_eq_true.
    change (replicate 64 ((sk + byte_sum m) mod 256)
            = replicate 64 ((sk mod 256 + byte_sum m) mod 256)).
    by rewrite Zplus_mod_idemp_l.
  - intros m. cbn. induction m; constructor; [apply is_byte_mod|done].
  - intros a b Ha Hb H. cbn in H. apply (f_equal bytes_of) in H.
    by rewrite !bytes_of_string_of_bytes in H.
  - intros l Hl. cbn. by rewrite bytes_of_string_of_bytes.
Qed.
