(* ===== verification/AuditChain.v ===== *)
(** * The signed audit chain

    [crates/ne-protocol/src/audit.rs] (events, canonical form, verification)
    and [crates/ne-supervisor/src/audit.rs] (the append-only log: recovery,
    signing, appending, listing).  JSON text comes from [serde_json]: the class
    [AuditJson] holds its serialiser and parser, [AuditJsonLaws] what the code
    relies on.  Clock, ULID generation and file-system outcomes are inputs. *)

From S2P Require Import Prelude Text Json Crypto.

(** ** Events *)

Inductive EventType :=
| EventType_WorkspaceCreated | EventType_WorkspaceTerminated | EventType_CommandExecuted
| EventType_CommandFailed | EventType_NetworkSetup | EventType_NetworkTeardown
| EventType_DnsAllowed | EventType_DnsDenied | EventType_DnsMalformed
| EventType_PrivacyAudited | EventType_PrivacyRedacted | EventType_PrivacyBlocked
| EventType_PrivacyAllowed | EventType_FileWritten | EventType_FileRead
| EventType_FileOpFailed | EventType_WorkspacePaused | EventType_WorkspaceResumed
| EventType_SnapshotCreated | EventType_WorkspaceRestored | EventType_WorkspaceForked
| EventType_SnapshotFailed | EventType_PoolMemberProvisioned | EventType_PoolHit
| EventType_PoolMiss | EventType_PoolMemberEvicted | EventType_IngressRouteAllowed
| EventType_IngressRouteDenied | EventType_IngressPortExposed
| EventType_IngressPortUnexposed | EventType_AttestationEvidenceIssued
| EventType_AttestationFailed | EventType_AttestationReplayed.
#[global] Instance EventType_eq_dec : EqDecision EventType.
Proof. solve_decision. Defined.

Record AuditEvent (Value : Type) := {
  event_id : string;
  timestamp_ms : Z;
  event_type : EventType;
  workspace_id : option string;
  payload : Value;
  chain_index : Z;
  prev_hash_hex : string;
  signature_b64 : string;
  signer_pubkey_b64 : string;
}.
Arguments event_id {Value} _.
Arguments timestamp_ms {Value} _.
Arguments event_type {Value} _.
Arguments workspace_id {Value} _.
Arguments payload {Value} _.
Arguments chain_index {Value} _.
Arguments prev_hash_hex {Value} _.
Arguments signature_b64 {Value} _.
Arguments signer_pubkey_b64 {Value} _.
Arguments Build_AuditEvent {Value}.

(** The snake-case names serde gives the variants. *)
Definition event_type_name (t : EventType) : string :=
  match t with
  | EventType_WorkspaceCreated => "workspace_created"
  | EventType_WorkspaceTerminated => "workspace_terminated"
  | EventType_CommandExecuted => "command_executed"
  | EventType_CommandFailed => "command_failed"
  | EventType_NetworkSetup => "network_setup"
  | EventType_NetworkTeardown => "network_teardown"
  | EventType_DnsAllowed => "dns_allowed"
  | EventType_DnsDenied => "dns_denied"
  | EventType_DnsMalformed => "dns_malformed"
  | EventType_PrivacyAudited => "privacy_audited"
  | EventType_PrivacyRedacted => "privacy_redacted"
  | EventType_PrivacyBlocked => "privacy_blocked"
  | EventType_PrivacyAllowed => "privacy_allowed"
  | EventType_FileWritten => "file_written"
  | EventType_FileRead => "file_read"
  | EventType_FileOpFailed => "file_op_failed"
  | EventType_WorkspacePaused => "workspace_paused"
  | EventType_WorkspaceResumed => "workspace_resumed"
  | EventType_SnapshotCreated => "snapshot_created"
  | EventType_WorkspaceRestored => "workspace_restored"
  | EventType_WorkspaceForked => "workspace_forked"
  | EventType_SnapshotFailed => "snapshot_failed"
  | EventType_PoolMemberProvisioned => "pool_member_provisioned"
  | EventType_PoolHit => "pool_hit"
  | EventType_PoolMiss => "pool_miss"
  | EventType_PoolMemberEvicted => "pool_member_evicted"
  | EventType_IngressRouteAllowed => "ingress_route_allowed"
  | EventType_IngressRouteDenied => "ingress_route_denied"
  | EventType_IngressPortExposed => "ingress_port_exposed"
  | EventType_IngressPortUnexposed => "ingress_port_unexposed"
  | EventType_AttestationEvidenceIssued => "attestation_evidence_issued"
  | EventType_AttestationFailed => "attestation_failed"
  | EventType_AttestationReplayed => "attestation_replayed"
  end.

Inductive ChainErrorReason :=
| ChainErrorReason_BadSignature
| ChainErrorReason_BrokenLink
| ChainErrorReason_NonSequentialIndex
| ChainErrorReason_MalformedPubkey
| ChainErrorReason_MalformedSignature.
Record ChainError := { error_index : Z; error_reason : ChainErrorReason }.
Record ChainVerification := {
  ok : bool;
  count : Z;
  first_index : option Z;
  last_index : option Z;
  root_hex : option string;
  first_error : option ChainError;
}.

Inductive AuditError :=
| AuditError_Io
| AuditError_Serde
| AuditError_Key
| AuditError_Time.

Definition GENESIS_PREV_HASH : string :=
  "0000000000000000000000000000000000000000000000000000000000000000".
Definition AUDIT_DOMAIN_TAG : string := "ne-enclave-audit-v1".

(** A whole event to and from one line of JSON text. *)
Class AuditJson (Value : Type) := {
  print_event : AuditEvent Value -> option string;
  parse_event : string -> option (AuditEvent Value);
}.
Class AuditJsonLaws (Value : Type) (J : AuditJson Value) : Prop := {
  print_total e : is_Some (print_event e);
  print_parse e s : print_event e = Some s -> parse_event s = Some e;
  print_line e s : print_event e = Some s ->
    contains_char "010" s = false /\ utf8_valid (bytes_of s) = true /\ exists p, s = (p +:+ "}")%string;
}.

Section Chain.
Context {Value : Type} {C : Crypto} {V : JsonVec Value} {J : AuditJson Value}.

(** ** Canonical form *)

(** [serde_json::to_value(event)]: the fields of the struct. *)
Definition to_value (e : AuditEvent Value) : list (string * Field Value) :=
  [ ("event_id", Field_string (event_id e)); ("timestamp_ms", Field_number (timestamp_ms e));
    ("event_type", Field_string (event_type_name (event_type e))); ("workspace_id", Field_option (workspace_id e));
    ("payload", Field_value (payload e)); ("chain_index", Field_number (chain_index e));
    ("prev_hash_hex", Field_string (prev_hash_hex e));
    ("signature_b64", Field_string (signature_b64 e));
    ("signer_pubkey_b64", Field_string (signer_pubkey_b64 e)) ].
Definition canonical_object (e : AuditEvent Value) : list (string * Field Value) :=
  canonicalize AUDIT_DOMAIN_TAG (to_value e).
Definition canonical_bytes (e : AuditEvent Value) : option (list Z) := to_vec (canonical_object e).

(** ** Verification *)

(** The checks on one event, in the order of the loop body; [prev] is the event
    verified before it. *)
Definition check_event (prev : option (AuditEvent Value)) (e : AuditEvent Value) : option ChainErrorReason :=
  match canonical_bytes e with
  | None => Some ChainErrorReason_BadSignature
  | Some canon =>
      match b64_array 32 (signer_pubkey_b64 e) with
      | None => Some ChainErrorReason_MalformedPubkey
      | Some pk_bytes =>
          match vk_from_bytes pk_bytes with
          | None => Some ChainErrorReason_MalformedPubkey
          | Some vk =>
              match b64_array 64 (signature_b64 e) with
              | None => Some ChainErrorReason_MalformedSignature
              | Some sig_bytes =>
                  if negb (verify_strict vk canon sig_bytes)
                  then Some ChainErrorReason_BadSignature
                  else
                    match prev with
                    | None =>
                        if (chain_index e =? 0)
                           && negb (String.eqb (prev_hash_hex e) GENESIS_PREV_HASH)
                        then Some ChainErrorReason_BrokenLink else None
                    | Some p =>
                        match checked_add U64_MAX (chain_index p) 1 with
                        | Some expected =>
                            if negb (expected =? chain_index e)
                            then Some ChainErrorReason_NonSequentialIndex
                            else
                              match canonical_bytes p with
                              | None => Some ChainErrorReason_BrokenLink
                              | Some prev_canon =>
                                  if negb (String.eqb (prev_hash_hex e)
                                             (hex_encode (sha256 prev_canon)))
                                  then Some ChainErrorReason_BrokenLink else None
                              end
                        | None => Some ChainErrorReason_NonSequentialIndex
                        end
                    end
              end
          end
      end
  end.

(** The loop: the first failing event, or the root after the last one. *)
Fixpoint verify_loop (prev : option (AuditEvent Value)) (events : list (AuditEvent Value))
    : result ChainError (option string) :=
  match events with
  | [] => Ok None
  | e :: rest =>
      match check_event prev e with
      | Some reason => Err {| error_index := chain_index e; error_reason := reason |}
      | None =>
          match rest with
          | [] => Ok (canon ← canonical_bytes e; Some (hex_encode (sha256 canon)))
          | _ => verify_loop (Some e) rest
          end
      end
  end.
Definition verify_chain (events : list (AuditEvent Value)) : ChainVerification :=
  let '(good, root, err) :=
    match verify_loop None events with
    | Ok root => (true, root, None)
    | Err x => (false, None, Some x)
    end in
  {| ok := good; count := Z.of_nat (length events);
     first_index := chain_index <$> head events; last_index := chain_index <$> last events;
     root_hex := root; first_error := err |}.

(** ** The log file *)

(** A file is missing, readable, or cannot be opened. *)
Inductive File := File_missing | File_content (s : string) | File_error.

(** [BufReader::read_line] until end of file: each line with its terminator. *)
Definition newline : ascii := "010".
Definition read_lines (s : string) : list string :=
  match rev (split_on newline s) with
  | [] => []
  | l :: front =>
      ((fun p => p +:+ String newline EmptyString)%string <$> rev front)
      ++ (if is_empty l then [] else [l])
  end.
Definition trim_end (s : string) : string := string_of (rev (skip_ws_rev (rev (bytes_of s)))).
(** One turn of the reading loops; a line that is not UTF-8 is an I/O error. *)
Definition read_event (line : string) : result AuditError (option (AuditEvent Value)) :=
  if utf8_valid (bytes_of line) then Ok (parse_event (trim_end line)) else Err AuditError_Io.

Record ChainState := { next_index : Z; last_canonical : option (list Z) }.

(** [i + 1] on a [u64] in a release build. *)
Definition wrapping_succ (i : Z) : Z := (i + 1) mod 2 ^ 64.
Fixpoint recover_loop (lines : list string) (last_i : option Z) (last_c : option (list Z))
    : result AuditError ChainState :=
  match lines with
  | [] => Ok {| next_index := match last_i with None => 0 | Some i => wrapping_succ i end;
                last_canonical := last_c |}
  | line :: rest =>
      o ← read_event line;
      match o with
      | None => recover_loop rest last_i last_c
      | Some event =>
          canon ← ok_or (canonical_bytes event) AuditError_Serde;
          recover_loop rest (Some (chain_index event)) (Some canon)
      end
  end.
Definition recover_chain_head (f : File) : result AuditError ChainState :=
  match f with
  | File_missing => Ok {| next_index := 0; last_canonical := None |}
  | File_error => Err AuditError_Io
  | File_content s => recover_loop (read_lines s) None None
  end.

Record AuditLog := { signing_key : SigningKey; log_file : File; chain : ChainState }.
(** [AuditLog::open] once the signing key is loaded. *)
Definition open (sk : SigningKey) (f : File) : result AuditError AuditLog :=
  c ← recover_chain_head f; Ok {| signing_key := sk; log_file := f; chain := c |}.

(** How opening, writing and flushing the file went: an error may leave a prefix
    of the line in the file. *)
Inductive IoOutcome := Io_ok | Io_open_error | Io_write_error (written : nat).
Definition append (f : File) (s : string) : File :=
  match f with
  | File_missing => File_content s
  | File_content c => File_content (c +:+ s)%string
  | File_error => File_error
  end.

(** The event [emit] builds, before it is signed. *)
Definition unsigned_event (l : AuditLog) (now : Z) (id : string) (ty : EventType)
    (ws : option string) (p : Value) : AuditEvent Value :=
  {| event_id := id;
     timestamp_ms := default U64_MAX (try_into U64_MAX now);
     event_type := ty; workspace_id := ws; payload := p;
     chain_index := next_index (chain l);
     prev_hash_hex := match last_canonical (chain l) with
                      | None => GENESIS_PREV_HASH
                      | Some bytes => hex_encode (sha256 bytes)
                      end;
     signature_b64 := "";
     signer_pubkey_b64 := b64_encode (vk_to_bytes (verifying_key (signing_key l))) |}.
Definition with_signature (e : AuditEvent Value) (sig : string) : AuditEvent Value :=
  {| event_id := event_id e; timestamp_ms := timestamp_ms e; event_type := event_type e;
     workspace_id := workspace_id e; payload := payload e; chain_index := chain_index e;
     prev_hash_hex := prev_hash_hex e; signature_b64 := sig;
     signer_pubkey_b64 := signer_pubkey_b64 e |}.

Definition emit (now : option Z) (id : string) (io : IoOutcome) (ty : EventType)
    (ws : option string) (p : Value) (l : AuditLog) : result AuditError Z * AuditLog :=
  match now with
  | None => (Err AuditError_Time, l)
  | Some now =>
      let unsigned := unsigned_event l now id ty ws p in
      match canonical_bytes unsigned with
      | None => (Err AuditError_Serde, l)
      | Some to_sign =>
          let event := with_signature unsigned (b64_encode (sign (signing_key l) to_sign)) in
          match print_event event with
          | None => (Err AuditError_Serde, l)
          | Some text =>
              let line := (text +:+ String newline EmptyString)%string in
              match io with
              | Io_open_error => (Err AuditError_Io, l)
              | Io_write_error k =>
                  (Err AuditError_Io,
                   {| signing_key := signing_key l;
                      log_file := append (log_file l) (String.substring 0 k line);
                      chain := chain l |})
              | Io_ok =>
                  (Ok (next_index (chain l)),
                   {| signing_key := signing_key l;
                      log_file := append (log_file l) line;
                      chain := {| next_index := saturating_add U64_MAX (next_index (chain l)) 1;
                                  last_canonical := Some to_sign |} |})
              end
          end
      end
  end.

Record ListEventsRequest := {
  req_workspace_id : option string; since_chain_index : Z; limit : Z }.

Definition wanted (req : ListEventsRequest) (e : AuditEvent Value) : bool :=
  negb (chain_index e <? since_chain_index req)
  && match req_workspace_id req with
     | None => true
     | Some wid => bool_decide (workspace_id e = Some wid)
     end.
(** The reading loop of [list]; [out] is the result so far. *)
Fixpoint list_loop (req : ListEventsRequest) (lim : nat) (lines : list string) (out : list (AuditEvent Value))
    : result AuditError (list (AuditEvent Value)) :=
  match lines with
  | [] => Ok out
  | line :: rest =>
      o ← read_event line;
      match o with
      | None => list_loop req lim rest out
      | Some event =>
          if negb (wanted req event) then list_loop req lim rest out
          else
            let out' := out ++ [event] in
            if (lim <=? length out')%nat then Ok out' else list_loop req lim rest out'
      end
  end.
Definition list_events (req : ListEventsRequest) (f : File) : result AuditError (list (AuditEvent Value)) :=
  let lim := if limit req =? 0 then 100%nat else Z.to_nat (limit req) in
  match f with
  | File_missing => Ok []
  | File_error => Err AuditError_Io
  | File_content s => list_loop req lim (read_lines s) []
  end.
End Chain.

(** ** Text lemmas for the log file *)

Lemma read_lines_cons t s :
  contains_char newline t = false ->
  read_lines (t +:+ String newline s) = (t +:+ String newline "")%string :: read_lines s.
Proof.
  intros Ht. unfold read_lines. rewrite split_on_app by done. cbn.
  destruct (split_on newline s) as [|x r] eqn:E; [by apply split_on_nonempty in E|].
  cbn. destruct (rev r ++ [x]) as [|y z] eqn:Er; [by destruct (rev r)|].
  cbn. rewrite rev_app_distr. cbn. done.
Qed.
Lemma trim_end_line p : trim_end ((p +:+ "}") +:+ String newline "") = (p +:+ "}")%string.
Proof.
  unfold trim_end. rewrite !bytes_of_app, !rev_app_distr. cbn -[skip_ws_rev].
  replace (skip_ws_rev _) with (125 :: rev (bytes_of p)).
  - cbn. by rewrite rev_involutive, string_of_app, string_of_bytes_of.
  - symmetry. change (skip_ws_rev (125 :: rev (bytes_of p)) = 125 :: rev (bytes_of p)).
    apply skip_ws_rev_head. lia.
Qed.

Section Proofs.
Context {Value : Type} {C : Crypto} {CL : CryptoLaws C}.
Context {V : JsonVec Value} {VL : JsonVecLaws Value V}.
Context {J : AuditJson Value} {JL : AuditJsonLaws Value J}.

(** ** Canonical form *)

Lemma event_type_name_inj a b : event_type_name a = event_type_name b -> a = b.
Proof. intros H. destruct a, b; (reflexivity || (cbn in H; discriminate H)). Qed.
Lemma Field_option_inj (a b : option string) :
  Field_option (Value := Value) a = Field_option b -> a = b.
Proof. destruct a, b; cbn; congruence. Qed.

Lemma canonical_object_eq (e : AuditEvent Value) :
  canonical_object e =
    [ ("chain_index", Field_number (chain_index e)); ("ctx", Field_string AUDIT_DOMAIN_TAG);
      ("event_id", Field_string (event_id e)); ("event_type", Field_string (event_type_name (event_type e)));
      ("payload", Field_value (payload e)); ("prev_hash_hex", Field_string (prev_hash_hex e));
      ("signer_pubkey_b64", Field_string (signer_pubkey_b64 e));
      ("timestamp_ms", Field_number (timestamp_ms e));
      ("workspace_id", Field_option (workspace_id e)) ].
Proof. reflexivity. Qed.
Lemma canonical_bytes_with_signature (e : AuditEvent Value) s :
  canonical_bytes (with_signature e s) = canonical_bytes e.
Proof. unfold canonical_bytes. by rewrite !canonical_object_eq. Qed.
(** Everything but the signature is covered by the canonical bytes. *)
Lemma canonical_bytes_inj (a b : AuditEvent Value) x :
  canonical_bytes a = Some x -> canonical_bytes b = Some x ->
  with_signature a "" = with_signature b "".
Proof.
  intros Ha Hb. pose proof (to_vec_inj _ _ _ Ha Hb) as H. rewrite !canonical_object_eq in H.
  injection H as Hci Hid Hty Hp Hph Hpk Hts Hws.
  apply event_type_name_inj in Hty. apply Field_option_inj in Hws.
  unfold with_signature. congruence.
Qed.
Lemma canonical_bytes_total (e : AuditEvent Value) : is_Some (canonical_bytes e).
Proof. apply to_vec_total. Qed.

(** ** What an accepted event satisfies *)

Definition sig_ok (e : AuditEvent Value) : Prop :=
  exists canon pk vk sig, canonical_bytes e = Some canon
    /\ b64_array 32 (signer_pubkey_b64 e) = Some pk /\ vk_from_bytes pk = Some vk
    /\ b64_array 64 (signature_b64 e) = Some sig /\ verify_strict vk canon sig = true.
Definition link_ok (prev : option (AuditEvent Value)) (e : AuditEvent Value) : Prop :=
  match prev with
  | None => chain_index e = 0 -> prev_hash_hex e = GENESIS_PREV_HASH
  | Some p => chain_index e = chain_index p + 1 /\ chain_index e <= U64_MAX
              /\ exists canon, canonical_bytes p = Some canon
                   /\ prev_hash_hex e = hex_encode (sha256 canon)
  end.
Fixpoint chain_ok (prev : option (AuditEvent Value)) (es : list (AuditEvent Value)) : Prop :=
  match es with
  | [] => True
  | e :: r => sig_ok e /\ link_ok prev e /\ chain_ok (Some e) r
  end.

Ltac refute_sig :=
  split; [done|]; intros [(? & ? & ? & ? & ? & ? & ? & ? & ?) _]; simplify_eq.
Lemma check_event_None prev e : check_event prev e = None <-> sig_ok e /\ link_ok prev e.
Proof.
  unfold check_event, sig_ok, link_ok. destruct (canonical_bytes e) as [canon|]; [|refute_sig].
  destruct (b64_array 32 _) as [pk|]; [|refute_sig].
  destruct (vk_from_bytes pk) as [vk|] eqn:Ev; [|refute_sig].
  destruct (b64_array 64 _) as [sig|]; [|refute_sig].
  destruct (verify_strict vk canon sig) eqn:Es; cbn; [|refute_sig; congruence].
  match goal with |- _ <-> ?P /\ ?Q =>
    assert P as HP by (exists canon, pk, vk, sig; done);
    cut (forall X, (X <-> Q) -> (X <-> P /\ Q)); [intros Hcut; apply Hcut; clear Hcut|tauto]
  end.
  destruct prev as [p|].
  - unfold checked_add. destruct (Z.leb_spec (chain_index p + 1) U64_MAX).
    2: { split; [done|]. lia. }
    destruct (Z.eqb_spec (chain_index p + 1) (chain_index e)); cbn; [|split; [done|lia]].
    destruct (canonical_bytes p) as [pc|]; [|split; [done|]; by intros (_ & _ & ? & ? & _)].
    destruct (String.eqb_spec (prev_hash_hex e) (hex_encode (sha256 pc))); cbn.
    + split; [|done]. intros _. split_and!; [lia|lia|]. by exists pc.
    + split; [done|]. intros (_ & _ & ? & [= <-] & ?). done.
  - destruct (Z.eqb_spec (chain_index e) 0), (String.eqb_spec (prev_hash_hex e) GENESIS_PREV_HASH);
      cbn; naive_solver.
Qed.

(** The digest of the last event, the root a verifier pins. *)
Definition root_of (es : list (AuditEvent Value)) : option string :=
  e ← last es; canon ← canonical_bytes e; Some (hex_encode (sha256 canon)).

Lemma verify_loop_Ok es : forall prev root,
  verify_loop prev es = Ok root <-> chain_ok prev es /\ root = root_of es.
Proof.
  induction es as [|e r IH]; intros prev root; cbn; [naive_solver|].
  destruct (check_event prev e) as [x|] eqn:Ec.
  { split; [done|]. intros [(Hs & Hl & _) _]. by rewrite (proj2 (check_event_None prev e)) in Ec. }
  apply check_event_None in Ec as [Hs Hl]. destruct r as [|e' r].
  - cbn. naive_solver.
  - rewrite IH. unfold root_of. cbn [last]. naive_solver.
Qed.

(** On a rejected chain [verify_chain] reports the first bad event: the events before it verify
    on their own, the event itself fails the check that is named, and nothing after it matters. *)
Lemma verify_chain_first_error es x :
  first_error (verify_chain es) = Some x ->
  exists good bad rest, es = good ++ bad :: rest
    /\ chain_ok None good /\ check_event (last good) bad = Some (error_reason x)
    /\ error_index x = chain_index bad
    /\ forall rest', first_error (verify_chain (good ++ bad :: rest')) = Some x.
Proof.
  assert (forall es prev, verify_loop prev es = Err x ->
    exists good bad rest, es = good ++ bad :: rest
    /\ chain_ok prev good /\ check_event (match last good with Some g => Some g | None => prev end) bad
         = Some (error_reason x)
    /\ error_index x = chain_index bad
    /\ forall rest', verify_loop prev (good ++ bad :: rest') = Err x) as H.
  { clear es. induction es as [|e r IH]; intros prev; cbn; [done|].
    destruct (check_event prev e) as [reason|] eqn:Ec.
    - intros [= <-]. exists [], e, r. cbn. split_and!; try done. intros rest'. by rewrite Ec.
    - destruct r as [|e' r]; [done|]. intros (good & bad & rest & Heq & Hg & Hc & Hi & Hr)%IH.
      exists (e :: good), bad, rest. rewrite Heq. split_and!; try done.
      + apply check_event_None in Ec as []. cbn. done.
      + destruct good as [|a good]; [done|].
        change (last (e :: a :: good)) with (last (a :: good)).
        destruct (last (a :: good)) eqn:El; [done|by apply last_None in El].
      + intros rest'. cbn. rewrite Ec. specialize (Hr rest'). destruct good; cbn in *; done. }
  unfold verify_chain. destruct (verify_loop None es) as [|y] eqn:E; cbn; [done|]. intros [= ->].
  destruct (H _ _ E) as (good & bad & rest & -> & Hg & Hc & Hi & Hr).
  exists good, bad, rest. split_and!; try done.
  - by destruct (last good).
  - intros rest'. by rewrite Hr.
Qed.

End Proofs.

(** ** A toy serialiser

    Payloads are trivial; an event is written as the bits of its code under
    stdpp's [Countable] encoding, closed by a brace. *)
Module ToyJson.
Definition all_types : list EventType :=
  [EventType_WorkspaceCreated; EventType_WorkspaceTerminated; EventType_CommandExecuted;
   EventType_CommandFailed; EventType_NetworkSetup; EventType_NetworkTeardown;
   EventType_DnsAllowed; EventType_DnsDenied; EventType_DnsMalformed;
   EventType_PrivacyAudited; EventType_PrivacyRedacted; EventType_PrivacyBlocked;
   EventType_PrivacyAllowed; EventType_FileWritten; EventType_FileRead;
   EventType_FileOpFailed; EventType_WorkspacePaused; EventType_WorkspaceResumed;
   EventType_SnapshotCreated; EventType_WorkspaceRestored; EventType_WorkspaceForked;
   EventType_SnapshotFailed; EventType_PoolMemberProvisioned; EventType_PoolHit;
   EventType_PoolMiss; EventType_PoolMemberEvicted; EventType_IngressRouteAllowed;
   EventType_IngressRouteDenied; EventType_IngressPortExposed;
   EventType_IngressPortUnexposed; EventType_AttestationEvidenceIssued;
   EventType_AttestationFailed; EventType_AttestationReplayed].
Fixpoint index_of (t : EventType) (l : list EventType) : nat :=
  match l with
  | [] => 0
  | x :: r => if decide (t = x) then 0 else S (index_of t r)
  end.
#[global] Instance EventType_countable : Countable EventType.
Proof.
  refine (inj_countable (fun t => index_of t all_types) (fun n => all_types !! n) _).
  intros []; vm_compute; reflexivity.
Defined.
Definition tuple_of (e : AuditEvent unit) :=
  (event_id e, timestamp_ms e, event_type e, workspace_id e, chain_index e,
   prev_hash_hex e, signature_b64 e, signer_pubkey_b64 e).
Definition toy_print (e : AuditEvent unit) : string := (bits (encode (tuple_of e)) +:+ "}")%string.
Definition toy_parse (s : string) : option (AuditEvent unit) :=
  b ← strip_suffix "}" s;
  '(i, t, ty, w, ci, ph, sg, pk) ← decode (unbits b);
  Some {| event_id := i; timestamp_ms := t; event_type := ty; workspace_id := w; payload := tt;
          chain_index := ci; prev_hash_hex := ph; signature_b64 := sg; signer_pubkey_b64 := pk |}.
Definition toy_json : AuditJson unit := {|
  print_event := fun e => Some (toy_print e);
  parse_event := toy_parse;
|}.

Lemma toy_json_laws : AuditJsonLaws unit toy_json.
Proof.
  constructor.
  - intros e. by eexists.
  - intros e s [= <-]. change (toy_parse (toy_print e) = Some e). unfold toy_parse, toy_print.
    rewrite (proj2 (strip_suffix_Some _ _ _) eq_refl). cbn.
    rewrite unbits_bits, decode_encode. cbn. by destruct e as [? ? ? ? [] ? ? ? ?].
  - intros e s [= <-]. unfold toy_print. destruct (bits_plain (encode (tuple_of e))) as [H1 H2].
    split_and!; [|apply utf8_valid_ascii|by eexists].
    + unfold contains_char in *. by rewrite any_char_app, H1.
    + by rewrite all_chars_app, H2.
Qed.
End ToyJson.

Definition bad_key_event : AuditEvent unit :=
  {| event_id := "01"; timestamp_ms := 5; event_type := EventType_DnsDenied; workspace_id := None;
     payload := tt; chain_index := 0; prev_hash_hex := GENESIS_PREV_HASH; signature_b64 := "";
     signer_pubkey_b64 := "short" |}.
Lemma verify_chain_first_error_witness :
  let x := {| error_index := 0; error_reason := ChainErrorReason_MalformedPubkey |} in
  first_error (verify_chain (C := toy_crypto) (V := toy_vec) [bad_key_event]) = Some x
  /\ exists good bad rest, [bad_key_event] = good ++ bad :: rest
       /\ check_event (C := toy_crypto) (V := toy_vec) (last good) bad
          = Some (error_reason x).
Proof.
  cbv zeta.
  assert (first_error (verify_chain (C := toy_crypto) (V := toy_vec) [bad_key_event])
          = Some {| error_index := 0; error_reason := ChainErrorReason_MalformedPubkey |}) as H
    by reflexivity.
  split; [exact H|].
  destruct (verify_chain_first_error (C := toy_crypto) (V := toy_vec) _ _ H)
    as (good & bad & rest & He & _ & Hc & _).
  exists good, bad, rest. split; [exact He|exact Hc].
Defined.

Section LogProofs.
Context {Value : Type} {C : Crypto} {CL : CryptoLaws C}.
Context {V : JsonVec Value} {VL : JsonVecLaws Value V}.
Context {J : AuditJson Value} {JL : AuditJsonLaws Value J}.
Local Open Scope string_scope.

(** ** What the file holds *)

(** The file text is the printed events, one per line. *)
Inductive written : list (AuditEvent Value) -> string -> Prop :=
| written_nil : written [] ""
| written_cons e t es s :
    print_event e = Some t -> written es s -> written (e :: es) (t +:+ String newline s).
Definition written_file (es : list (AuditEvent Value)) (f : File) : Prop :=
  match f with
  | File_missing => es = []
  | File_content s => written es s
  | File_error => False
  end.

Lemma written_snoc es s e t :
  written es s -> print_event e = Some t ->
  (written (es ++ [e]) (s +:+ (t +:+ String newline "")))%list.
Proof.
  intros H Ht. induction H as [|e' t' es s Ht' H IH]; cbn.
  - apply (written_cons e t [] ""); [done|constructor].
  - rewrite string_app_assoc. cbn. by apply written_cons.
Qed.
Lemma written_lines es s :
  written es s -> read_event <$> read_lines s = (fun e => Ok (Some e)) <$> es.
Proof.
  induction 1 as [|e t es s Ht H IH]; [done|].
  destruct (print_line _ _ Ht) as (Hn & Hu & p & ->).
  rewrite read_lines_cons by done. cbn. rewrite IH. f_equal. unfold read_event.
  rewrite bytes_of_app. cbn. rewrite utf8_valid_app_ascii by (done || lia).
  by rewrite trim_end_line, (print_parse _ _ Ht).
Qed.

Lemma recover_loop_events lines es : forall li lc,
  read_event <$> lines = (fun e => Ok (Some e)) <$> es ->
  recover_loop lines li lc
  = Ok {| next_index := match (chain_index <$> last es) with
                        | Some i => wrapping_succ i
                        | None => match li with None => 0 | Some i => wrapping_succ i end
                        end;
          last_canonical := match last es with Some e => canonical_bytes e | None => lc end |}.
Proof.
  revert es. induction lines as [|line lines IH]; intros [|e es] li lc H; try done.
  cbn in H. injection H as He H. cbn. unfold mbind, result_bind. rewrite He.
  destruct (canonical_bytes_total e) as [canon Hc]. rewrite Hc. cbn.
  rewrite (IH es) by done. destruct es as [|e' es]; cbn [last fmap option_fmap option_map].
  - cbn. by rewrite Hc.
  - by destruct (last (e' :: es)) eqn:El; [|apply last_None in El].
Qed.

Lemma list_loop_events req lim lines es : forall out,
  (length out < lim)%nat -> read_event <$> lines = (fun e => Ok (Some e)) <$> es ->
  list_loop req lim lines out = Ok (take lim (out ++ List.filter (wanted req) es))%list.
Proof.
  revert es. induction lines as [|line lines IH]; intros [|e es] out Hl H; try done.
  - cbn. by rewrite app_nil_r, take_ge by lia.
  - cbn in H. injection H as He H. cbn. unfold mbind, result_bind. rewrite He.
    destruct (wanted req e) eqn:Hw; cbn; [|by apply IH].
    destruct (Nat.leb_spec lim (length (out ++ [e])%list)) as [Hle|Hgt].
    + rewrite length_app in Hle. cbn in Hle. f_equal.
      rewrite (cons_middle e out (List.filter _ _)), (app_assoc out [e] (List.filter _ _)).
      rewrite take_app_le by (rewrite length_app; cbn; lia).
      by rewrite take_ge by (rewrite length_app; cbn; lia).
    + rewrite (IH es) by done. by rewrite <- app_assoc.
Qed.

(** ** Runs of the log *)

Inductive LogOp :=
| Op_emit (now : option Z) (id : string) (io : IoOutcome) (ty : EventType)
    (ws : option string) (p : Value)
| Op_reopen.
(** The file is never left with part of a line. *)
Definition untorn (o : LogOp) : Prop :=
  match o with Op_emit _ _ (Io_write_error _) _ _ _ => False | _ => True end.
Definition run_op (o : LogOp) (l : AuditLog) : AuditLog :=
  match o with
  | Op_emit now id io ty ws p => snd (emit now id io ty ws p l)
  | Op_reopen => match open (signing_key l) (log_file l) with Ok l' => l' | Err _ => l end
  end.
Definition emitted (o : LogOp) : bool :=
  match o with Op_emit (Some _) _ Io_ok _ _ _ => true | _ => false end.
Definition fresh_log (sk : SigningKey) : AuditLog :=
  {| signing_key := sk; log_file := File_missing;
     chain := {| next_index := 0; last_canonical := None |} |}.
Definition run_ops (ops : list LogOp) (l : AuditLog) : AuditLog :=
  fold_left (fun l o => run_op o l) ops l.

Record log_inv (l : AuditLog) (es : list (AuditEvent Value)) : Prop := {
  li_file : written_file es (log_file l);
  li_chain : chain_ok None es;
  li_index : chain_index <$> es = seqZ 0 (Z.of_nat (length es));
  li_next : next_index (chain l) = Z.of_nat (length es);
  li_last : last_canonical (chain l) = (e ← last es; canonical_bytes e);
}.

Lemma chain_ok_snoc es e : forall prev,
  chain_ok prev es -> sig_ok e ->
  link_ok (match last es with Some g => Some g | None => prev end) e ->
  (chain_ok prev (es ++ [e]))%list.
Proof.
  induction es as [|x es IH]; intros prev; cbn [chain_ok app]; [done|].
  intros (Hs & Hl & Hc) He Hlink. split_and!; try done. apply IH; try done.
  destruct es as [|y es]; [done|]. cbn [last] in *.
  destruct (last (y :: es)) eqn:E; [done|by apply last_None in E].
Qed.

Lemma last_index_of (es : list (AuditEvent Value)) e :
  chain_index <$> es = seqZ 0 (Z.of_nat (length es)) -> last es = Some e ->
  chain_index e = Z.of_nat (length es) - 1.
Proof.
  intros Hi Hl. rewrite last_lookup in Hl. apply (f_equal (fmap chain_index)) in Hl.
  rewrite <- list_lookup_fmap, Hi in Hl. cbn in Hl. apply lookup_seqZ in Hl as [? ?]. lia.
Qed.
Lemma seqZ_snoc n : 0 <= n -> seqZ 0 (n + 1) = (seqZ 0 n ++ [n])%list.
Proof. intros. rewrite seqZ_app by lia. done. Qed.

Lemma recover_written l es :
  log_inv l es -> Z.of_nat (length es) <= U64_MAX ->
  recover_chain_head (log_file l) = Ok (chain l).
Proof.
  intros [Hf _ Hi Hn Hl] Hb. destruct l as [sk f ch]. cbn in *. destruct ch as [nx lc]; cbn in *. subst.
  destruct f as [|s|]; cbn in *; [by subst| |done].
  rewrite (recover_loop_events _ es) by (by apply written_lines). f_equal. f_equal.
  destruct (last es) as [e|] eqn:El; cbn.
  - rewrite (last_index_of es e) by done. unfold wrapping_succ, U64_MAX in *.
    rewrite Z.mod_small; lia.
  - by apply last_None in El as ->.
Qed.

(** What [emit] builds: the signed event and its line, whatever the outcome of
    the write. *)
(** What an event says happened. *)
Definition about (e : AuditEvent Value) : EventType * option string * Value := (event_type e, workspace_id e, payload e).
Lemma emit_builds now id ty ws p (l : AuditLog) :
  exists canon (e : AuditEvent Value) t,
    canonical_bytes e = Some canon /\ print_event e = Some t /\ sig_ok e
    /\ chain_index e = next_index (chain l)
    /\ prev_hash_hex e = match last_canonical (chain l) with
                         | None => GENESIS_PREV_HASH | Some b => hex_encode (sha256 b) end
    /\ about e = (ty, ws, p)
    /\ forall io, emit (Some now) id io ty ws p l
         = match io with
           | Io_open_error => (Err AuditError_Io, l)
           | Io_write_error k =>
               (Err AuditError_Io,
                {| signing_key := signing_key l;
                   log_file := append (log_file l)
                                 (String.substring 0 k (t +:+ String newline ""));
                   chain := chain l |})
           | Io_ok =>
               (Ok (next_index (chain l)),
                {| signing_key := signing_key l;
                   log_file := append (log_file l) (t +:+ String newline "");
                   chain := {| next_index := saturating_add U64_MAX (next_index (chain l)) 1;
                               last_canonical := Some canon |} |})
           end.
Proof.
  set (u := unsigned_event l now id ty ws p).
  destruct (canonical_bytes_total u) as [canon Hcanon].
  set (e := with_signature u (b64_encode (sign (signing_key l) canon))).
  destruct (print_total e) as [t Ht]. exists canon, e, t.
  assert (canonical_bytes e = Some canon) as He by (unfold e; by rewrite canonical_bytes_with_signature).
  split_and!; try done.
  - exists canon, (vk_to_bytes (verifying_key (signing_key l))), (verifying_key (signing_key l)),
      (sign (signing_key l) canon).
    destruct (vk_bytes_ok (signing_key l)), (sign_bytes_ok (signing_key l) canon).
    cbn. rewrite !b64_array_encode by done. split_and!; auto using vk_round_trip, sign_verifies.
  - intros io. unfold emit. fold u. rewrite Hcanon. fold e. by rewrite Ht.
Qed.
Lemma written_append es (f : File) e t :
  written_file es f -> print_event e = Some t ->
  written_file (es ++ [e])%list (append f (t +:+ String newline "")).
Proof.
  intros Hf Ht. destruct f as [|s|]; cbn in *; [|by apply written_snoc|done].
  subst. apply (written_snoc [] "" e t); [constructor|done].
Qed.
Lemma next_link l es e :
  log_inv l es -> Z.of_nat (length es) <= U64_MAX ->
  chain_index e = next_index (chain l) ->
  prev_hash_hex e = match last_canonical (chain l) with
                    | None => GENESIS_PREV_HASH | Some b => hex_encode (sha256 b) end ->
  link_ok (last es) e.
Proof.
  intros [_ _ Hi Hn Hl] Hb He Hp. unfold link_ok. rewrite He, Hp, Hl, Hn.
  destruct (last es) as [g|] eqn:El; cbn; [|done].
  rewrite (last_index_of es g) by done. split_and!; [lia|lia|].
  destruct (canonical_bytes_total g) as [gc Hg]. rewrite Hg. eauto.
Qed.

(** A successful [emit] appends one event to the chain. *)
Lemma emit_ok_inv now id ty ws p l es :
  log_inv l es -> Z.of_nat (length es) + 1 <= U64_MAX ->
  exists e, about e = (ty, ws, p) /\ log_inv (snd (emit (Some now) id Io_ok ty ws p l)) (es ++ [e])%list.
Proof.
  intros Hinv Hb. destruct (emit_builds now id ty ws p l) as (canon & e & t & Hc & Ht & Hs & Hidx & Hp & Ha & Hio).
  exists e. split; [done|]. rewrite Hio. pose proof (next_link l es e Hinv ltac:(lia) Hidx Hp) as Hlink.
  destruct Hinv as [Hf Hch Hi Hn Hl]. constructor; cbn.
  - by apply written_append.
  - apply chain_ok_snoc; [done..|]. by destruct (last es).
  - rewrite fmap_app, length_app, Hi. cbn. rewrite Nat2Z.inj_add, seqZ_snoc, Hidx, Hn by lia. done.
  - rewrite Hn, length_app. unfold saturating_add. cbn. lia.
  - by rewrite last_snoc.
Qed.

Lemma run_op_inv o l es :
  untorn o -> log_inv l es -> Z.of_nat (length es) + 1 <= U64_MAX ->
  exists es', log_inv (run_op o l) es'
    /\ Z.of_nat (length es') = Z.of_nat (length es) + (if emitted o then 1 else 0).
Proof.
  intros Hu Hinv Hb. destruct o as [[now|] id [| |k] ty ws p|]; try done.
  - destruct (emit_ok_inv now id ty ws p l es Hinv Hb) as (e & _ & He). exists (es ++ [e])%list.
    split; [done|]. rewrite length_app. cbn. lia.
  - exists es. cbn. split; [|lia]. repeat case_match; done.
  - exists es. cbn. split; [done|lia].
  - exists es. cbn. split; [done|lia].
  - exists es. cbn. unfold open, mbind, result_bind. rewrite (recover_written l es) by (done || lia).
    split; [|lia]. by destruct l.
Qed.
Lemma run_ops_inv ops : forall l es,
  Forall untorn ops -> log_inv l es -> Z.of_nat (length es) + Z.of_nat (length ops) <= U64_MAX ->
  exists es', log_inv (run_ops ops l) es'
    /\ length es' = (length es + length (List.filter emitted ops))%nat.
Proof.
  induction ops as [|o ops IH]; intros l es Hu Hinv Hb; cbn.
  { exists es. split; [done|lia]. }
  apply Forall_cons in Hu as [Ho Hu]. cbn [length] in Hb.
  destruct (run_op_inv o l es Ho Hinv) as (es1 & H1 & Hlen); [lia|].
  destruct (IH _ es1 Hu H1) as (es' & H' & Hl'); [destruct (emitted o); lia|].
  exists es'. split; [done|]. destruct (emitted o); cbn [length]; lia.
Qed.

Lemma log_inv_verifies l es : log_inv l es -> ok (verify_chain es) = true.
Proof.
  intros Hinv. unfold verify_chain.
  by rewrite (proj2 (verify_loop_Ok es None (root_of es)) (conj (li_chain _ _ Hinv) eq_refl)).
Qed.
Lemma list_events_inv l es req : log_inv l es -> 0 <= limit req ->
  list_events req (log_file l)
  = Ok (take (if (limit req =? 0)%Z then 100%nat else Z.to_nat (limit req)) (List.filter (wanted req) es)).
Proof.
  intros Hinv Hreq. pose proof (li_file _ _ Hinv) as Hf. unfold list_events.
  destruct (log_file _) as [|s|]; cbn in Hf; [|  |done].
  { subst. cbn [List.filter]. by rewrite take_nil. }
  apply written_lines in Hf. rewrite (list_loop_events _ _ _ es); [done| |done].
  destruct (Z.eqb_spec (limit req) 0); cbn; lia.
Qed.

(** C13: Any sequence of emissions and restarts, with clock and open failures but no torn write,
    leaves a log that verifies end to end: one event per successful emission, with consecutive
    indices from 0; restarting recovers exactly the in-memory chain head; and listing returns the
    first matching events in order, bounded by the requested limit. *)
Theorem audit_log_verifies sk ops :
  Forall untorn ops -> Z.of_nat (length ops) <= U64_MAX ->
  let l := run_ops ops (fresh_log sk) in
  exists es : list (AuditEvent Value), length es = length (List.filter emitted ops)
    /\ ok (verify_chain es) = true
    /\ chain_index <$> es = seqZ 0 (Z.of_nat (length es))
    /\ recover_chain_head (log_file l) = Ok (chain l)
    /\ forall req, 0 <= limit req ->
         list_events req (log_file l)
         = Ok (take (if (limit req =? 0)%Z then 100%nat else Z.to_nat (limit req))
                 (List.filter (wanted req) es)).
Proof.
  intros Hu Hb. cbn zeta.
  destruct (run_ops_inv ops (fresh_log sk) [] Hu) as (es & Hinv & Hlen); [by constructor|cbn; lia|].
  assert (length (List.filter emitted ops) <= length ops)%nat by apply List.filter_length_le.
  exists es. split_and!; [done|by eapply log_inv_verifies|apply (li_index _ _ Hinv)| |].
  - apply (recover_written _ es); [done|]. cbn in Hlen. lia.
  - intros req Hreq. by apply list_events_inv.
Qed.

(** ** Pinning the root *)

Lemma chain_ok_snoc_inv es e : forall prev,
  (chain_ok prev (es ++ [e]))%list ->
  chain_ok prev es /\ link_ok (match last es with Some g => Some g | None => prev end) e.
Proof.
  induction es as [|x es IH]; intros prev; cbn [chain_ok app]; [by intros (_ & ? & _)|].
  intros (Hs & Hl & [Hc Hlink]%IH). split_and!; try done.
  destruct es as [|y es]; [done|]. cbn [last] in *.
  destruct (last (y :: es)) eqn:E; [done|by apply last_None in E].
Qed.
Lemma chain_indices es : forall prev e0,
  chain_ok prev es -> head es = Some e0 ->
  chain_index <$> es = seqZ (chain_index e0) (Z.of_nat (length es)).
Proof.
  induction es as [|e es IH]; intros prev e0 Hc Hh; [done|]. injection Hh as ->.
  destruct Hc as (_ & _ & Hc). cbn [length]. rewrite Nat2Z.inj_succ, seqZ_cons by lia.
  rewrite fmap_cons, Z.pred_succ. f_equal. destruct es as [|e1 es]; [done|].
  rewrite (IH (Some e0) e1) by done. destruct Hc as (_ & (-> & _) & _). done.
Qed.

(** The part of an event the chain commits to. *)
Definition core (e : AuditEvent Value) : AuditEvent Value := with_signature e "".

Lemma same_root_same_core es : forall es',
  chain_ok None es -> chain_ok None es' ->
  chain_index <$> es = seqZ 0 (Z.of_nat (length es)) ->
  chain_index <$> es' = seqZ 0 (Z.of_nat (length es')) ->
  root_of es = root_of es' -> core <$> es = core <$> es' \/ sha256_collision.
Proof.
  induction es as [|e es IH] using rev_ind; intros es' Hc Hc' Hi Hi' Hr.
  { destruct es' as [|e' es' _] using rev_ind; [by left|]. unfold root_of in Hr.
    rewrite last_snoc in Hr. cbn in Hr. by destruct (canonical_bytes_total e') as [? He]; rewrite He in Hr. }
  destruct es' as [|e' es' _] using rev_ind.
  { unfold root_of in Hr. rewrite last_snoc in Hr. cbn in Hr.
    by destruct (canonical_bytes_total e) as [? He]; rewrite He in Hr. }
  unfold root_of in Hr. rewrite !last_snoc in Hr. cbn in Hr.
  destruct (canonical_bytes_total e) as [c He], (canonical_bytes_total e') as [c' He'].
  rewrite He, He' in Hr. injection Hr as Hr.
  apply hex_sha256_eq in Hr as [->|?]; [|by right].
  pose proof (canonical_bytes_inj _ _ _ He He') as Hcore.
  pose proof (last_index_of _ e Hi (last_snoc _ _)) as Hx.
  pose proof (last_index_of _ e' Hi' (last_snoc _ _)) as Hx'.
  assert (chain_index e = chain_index e') as Hidx by (by apply (f_equal chain_index) in Hcore).
  assert (prev_hash_hex e = prev_hash_hex e') as Hprev by (by apply (f_equal prev_hash_hex) in Hcore).
  rewrite !length_app in Hx, Hx'. cbn in Hx, Hx'. assert (length es = length es') as Hlen by lia.
  apply chain_ok_snoc_inv in Hc as [Hc Hl], Hc' as [Hc' Hl'].
  rewrite fmap_app, length_app, Nat2Z.inj_add in Hi, Hi'. cbn in Hi, Hi'.
  rewrite seqZ_snoc in Hi, Hi' by lia.
  apply app_inj_tail in Hi as [Hi _], Hi' as [Hi' _].
  assert (root_of es = root_of es') as Hroot.
  { unfold root_of. destruct (last es) as [g|] eqn:El, (last es') as [g'|] eqn:El'.
    - destruct Hl as (_ & _ & gc & Hg & Hh), Hl' as (_ & _ & gc' & Hg' & Hh'). cbn.
      rewrite Hg, Hg'. cbn. congruence.
    - apply last_None in El' as ->. by destruct es.
    - apply last_None in El as ->. by destruct es'.
    - done. }
  destruct (IH es' Hc Hc' Hi Hi' Hroot) as [Heq|?]; [left|by right].
  rewrite !fmap_app, Heq. cbn. unfold core. by rewrite Hcore.
Qed.

(** A pinned root identifies a complete log: two verified chains that start at index 0 and report
    the same root are the same events in everything the signatures cover, whatever their lengths;
    otherwise the two logs exhibit a SHA-256 collision. *)
Theorem pinned_root_identifies_log (es es' : list (AuditEvent Value)) :
  ok (verify_chain es) = true -> ok (verify_chain es') = true ->
  first_index (verify_chain es) = Some 0 -> first_index (verify_chain es') = Some 0 ->
  root_hex (verify_chain es) = root_hex (verify_chain es') ->
  core <$> es = core <$> es' \/ sha256_collision.
Proof.
  assert (forall es : list (AuditEvent Value), ok (verify_chain es) = true ->
    first_index (verify_chain es) = Some 0 ->
    chain_ok None es /\ root_hex (verify_chain es) = root_of es
    /\ chain_index <$> es = seqZ 0 (Z.of_nat (length es))) as H.
  { intros l Hok Hfi. unfold verify_chain in *. destruct (verify_loop None l) eqn:E; cbn in *; [|done].
    apply verify_loop_Ok in E as [Hc ->]. split_and!; try done.
    destruct (head l) as [e0|] eqn:Eh; [|done]. cbn in Hfi.
    rewrite (chain_indices l None e0) by done. injection Hfi as ->. done. }
  intros Hok Hok' Hf Hf' Hr. destruct (H _ Hok Hf) as (? & Hr1 & ?), (H _ Hok' Hf') as (? & Hr2 & ?).
  apply same_root_same_core; congruence.
Qed.

(** ** A write error after the line was written *)

Lemma verify_loop_error prev good bad rest reason : 
  chain_ok prev good ->
  check_event (match last good with Some g => Some g | None => prev end) bad = Some reason ->
  verify_loop prev (good ++ bad :: rest)%list
  = Err {| error_index := chain_index bad; error_reason := reason |}.
Proof.
  revert prev. induction good as [|e good IH]; intros prev Hc Hb; cbn; [cbn in Hb; by rewrite Hb|].
  destruct Hc as (Hs & Hl & Hc).
  rewrite (proj2 (check_event_None prev e) (conj Hs Hl)).
  destruct (good ++ bad :: rest)%list eqn:E; [by destruct good|].
  apply IH; [done|]. destruct good as [|y good]; [done|]. cbn [last] in *.
  destruct (last (y :: good)) eqn:El; [done|by apply last_None in El].
Qed.
Lemma check_event_gap p e :
  sig_ok e -> chain_index e <> chain_index p + 1 ->
  check_event (Some p) e = Some ChainErrorReason_NonSequentialIndex.
Proof.
  intros (canon & pk & vk & sig & Hc & Hpk & Hvk & Hsig & Hv) Hne. unfold check_event.
  rewrite Hc, Hpk, Hvk, Hsig, Hv. cbn. unfold checked_add.
  destruct (Z.leb_spec (chain_index p + 1) U64_MAX); [|done].
  destruct (Z.eqb_spec (chain_index p + 1) (chain_index e)); [lia|done].
Qed.

Lemma substring_all s : String.substring 0 (String.length s) s = s.
Proof. induction s as [|c s IH]; cbn; [done|]. by rewrite IH. Qed.

(** A write that reports an error after its line reached the file is not undone and not counted:
    the next successful emission reuses the same chain index, so the log then holds two events with
    one index and no longer verifies. *)
Theorem late_write_error_breaks_chain sk ops t1 id1 ty1 ws1 p1 t2 id2 ty2 ws2 p2 :
  Forall untorn ops -> Z.of_nat (length ops) + 2 <= U64_MAX ->
  exists k es, let l := run_ops ops (fresh_log sk) in
    let l1 := snd (emit (Some t1) id1 (Io_write_error k) ty1 ws1 p1 l) in
    let l2 := snd (emit (Some t2) id2 Io_ok ty2 ws2 p2 l1) in
    fst (emit (Some t1) id1 (Io_write_error k) ty1 ws1 p1 l) = Err AuditError_Io
    /\ fst (emit (Some t2) id2 Io_ok ty2 ws2 p2 l1) = Ok (next_index (chain l))
    /\ written_file es (log_file l2)
    /\ first_error (verify_chain es)
       = Some {| error_index := next_index (chain l);
                 error_reason := ChainErrorReason_NonSequentialIndex |}.
Proof.
  intros Hu Hb.
  destruct (run_ops_inv ops (fresh_log sk) [] Hu) as (es & Hinv & Hlen); [by constructor|cbn; lia|].
  assert (length (List.filter emitted ops) <= length ops)%nat by apply List.filter_length_le.
  cbn zeta. set (l := run_ops ops (fresh_log sk)) in *. cbn in Hlen.
  destruct (emit_builds t1 id1 ty1 ws1 p1 l) as (c1 & e1 & s1 & Hc1 & Ht1 & Hs1 & Hi1 & Hp1 & _ & Hio1).
  exists (String.length (s1 +:+ String newline "")).
  rewrite !Hio1. cbn [fst snd]. rewrite substring_all.
  set (l1 := {| signing_key := _; log_file := _; chain := _ |}).
  destruct (emit_builds t2 id2 ty2 ws2 p2 l1) as (c2 & e2 & s2 & Hc2 & Ht2 & Hs2 & Hi2 & Hp2 & _ & Hio2).
  exists ((es ++ [e1]) ++ [e2])%list. rewrite !Hio2. cbn [fst snd]. split_and!; try done.
  - apply written_append; [|done]. apply written_append; [|done]. apply (li_file _ _ Hinv).
  - unfold verify_chain. rewrite (verify_loop_error None (es ++ [e1])%list e2 []
      ChainErrorReason_NonSequentialIndex).
    + by rewrite Hi2.
    + apply chain_ok_snoc; [apply (li_chain _ _ Hinv)|done|].
      pose proof (next_link l es e1 Hinv ltac:(lia) Hi1 Hp1). by destruct (last es).
    + rewrite last_snoc. apply check_event_gap; [done|]. rewrite Hi1, Hi2. cbn. lia.
Qed.
End LogProofs.

(** ** Concrete runs *)
Module Demo.
Definition toy_log : Type := AuditLog (C := toy_crypto).
Definition ops : list (LogOp (Value := unit)) :=
  [ Op_emit (Some 5) "01" Io_ok EventType_WorkspaceCreated (Some "ws-a") tt;
    Op_reopen;
    Op_emit None "02" Io_ok EventType_CommandExecuted (Some "ws-a") tt;
    Op_emit (Some 9) "03" Io_ok EventType_WorkspaceTerminated (Some "ws-a") tt ].
Definition fresh : toy_log := fresh_log (C := toy_crypto) 7.
Definition first_event : AuditEvent unit :=
  let u := unsigned_event (C := toy_crypto) fresh 5 "01" EventType_WorkspaceCreated (Some "ws-a") tt in
  with_signature u (b64_encode (Crypto := toy_crypto) (sign (Crypto := toy_crypto) 7
    (default [] (canonical_bytes (V := toy_vec) u)))).
Lemma ops_untorn : Forall untorn ops.
Proof. by repeat constructor. Qed.
Lemma ops_short : Z.of_nat (length ops) + 2 <= U64_MAX.
Proof. by vm_compute. Qed.

Lemma audit_log_verifies_witness :
  exists es : list (AuditEvent unit), length es = 2%nat
    /\ ok (verify_chain (C := toy_crypto) (V := toy_vec) es) = true.
Proof.
  destruct (audit_log_verifies (C := toy_crypto) (CL := toy_crypto_laws) (V := toy_vec) (J := ToyJson.toy_json)
    (VL := toy_vec_laws) (JL := ToyJson.toy_json_laws) 7 ops ops_untorn) as (es & Hl & Hok & _).
  - pose proof ops_short. lia.
  - exists es. split; [exact Hl|exact Hok].
Defined.
Lemma pinned_root_identifies_log_witness :
  core <$> [first_event] = core <$> [first_event] \/ sha256_collision (H := toy_crypto).
Proof.
  apply (pinned_root_identifies_log (C := toy_crypto) (CL := toy_crypto_laws)
    (V := toy_vec) (VL := toy_vec_laws)); vm_compute; reflexivity.
Defined.
Lemma late_write_error_breaks_chain_witness :
  exists k (es : list (AuditEvent unit)),
    let l := run_ops (V := toy_vec) (J := ToyJson.toy_json) ops fresh in
    let l1 := snd (emit (V := toy_vec) (J := ToyJson.toy_json) (Some 11) "04" (Io_write_error k)
                     EventType_DnsDenied None tt l) in
    let l2 := snd (emit (V := toy_vec) (J := ToyJson.toy_json) (Some 12) "05" Io_ok
                     EventType_DnsDenied None tt l1) in
    written_file (J := ToyJson.toy_json) es (log_file l2)
    /\ ok (verify_chain (C := toy_crypto) (V := toy_vec) es) = false.
Proof.
  destruct (late_write_error_breaks_chain (C := toy_crypto) (CL := toy_crypto_laws)
    (V := toy_vec) (J := ToyJson.toy_json) (VL := toy_vec_laws) (JL := ToyJson.toy_json_laws) 7 ops
    11 "04" EventType_DnsDenied None tt 12 "05" EventType_DnsDenied None tt
    ops_untorn ops_short) as (k & es & _ & _ & Hw & He).
  exists k, es. split; [exact Hw|].
  unfold verify_chain in *. destruct (verify_loop None es); [discriminate|reflexivity].
Defined.
End Demo.
