(* ===== verification/Snapshot.v ===== *)
(** * Snapshot artifacts

    [crates/ne-protocol/src/snapshot.rs] (the signed manifest and its
    verification) and [crates/ne-supervisor/src/snapshot.rs] (writing, reading
    and checking an artifact directory).  The manifest's JSON text is the
    parameter class [ManifestJson]; the managed-image store that resolves the
    signed image digests is an argument of [verify_and_resolve_images]. *)

From S2P Require Import Prelude Text Json Crypto AuditChain.

Definition MANIFEST_VERSION : Z := 5.
Definition SNAPSHOT_DOMAIN_TAG : string := "ne-enclave-snapshot-v1".

Record GuestIdentity := {
  hostname : string; mac : string; guest_vsock_cid : Z; gi_vcpu_count : Z; gi_mem_size_mib : Z }.
Record SnapshotManifest := {
  manifest_version : Z;
  snapshot_id : string;
  created_from_workspace_id : string;
  firecracker_version : string;
  mem_sha256 : string;
  vmstate_sha256 : string;
  kernel_sha256 : string;
  rootfs_sha256 : string;
  guest_identity : GuestIdentity;
  kernel_boot_args : string;
  m_signer_pubkey_b64 : string;
  m_signature_b64 : string;
}.

Inductive VerifyError :=
| VerifyError_UnsupportedVersion (got supported : Z)
| VerifyError_Base64 (field : string)
| VerifyError_BadPublicKey
| VerifyError_UntrustedSigner
| VerifyError_BadSignature
| VerifyError_SignatureMismatch
| VerifyError_Canonical
| VerifyError_HashMismatch (field expected actual : string).
Inductive SnapshotError :=
| SnapshotError_Io
| SnapshotError_Manifest
| SnapshotError_Verify (e : VerifyError)
| SnapshotError_Serde.

(** The manifest as JSON text: the version envelope, the strict schema, and the
    pretty printer. *)
Class ManifestJson := {
  parse_envelope : list Z -> option Z;
  parse_strict : list Z -> option SnapshotManifest;
  to_vec_pretty : SnapshotManifest -> option (list Z);
}.
Class ManifestJsonLaws (J : ManifestJson) : Prop := {
  pretty_total m : is_Some (to_vec_pretty m);
  pretty_strict m b : to_vec_pretty m = Some b -> parse_strict b = Some m;
  pretty_envelope m b : to_vec_pretty m = Some b -> parse_envelope b = Some (manifest_version m);
}.

Section Manifest.
Context {C : Crypto} {V : JsonVec unit} {J : ManifestJson}.

(** ** The signed form *)

(** The members of the nested object, sorted by key as in a [serde_json::Map]. *)
Definition identity_members (g : GuestIdentity) : list (string * (string + Z)) :=
  [ ("guest_vsock_cid", inr (guest_vsock_cid g)); ("hostname", inl (hostname g));
    ("mac", inl (mac g)); ("mem_size_mib", inr (gi_mem_size_mib g));
    ("vcpu_count", inr (gi_vcpu_count g)) ].
Definition manifest_to_value (m : SnapshotManifest) : list (string * Field unit) :=
  [ ("manifest_version", Field_number (manifest_version m));
    ("snapshot_id", Field_string (snapshot_id m));
    ("created_from_workspace_id", Field_string (created_from_workspace_id m));
    ("firecracker_version", Field_string (firecracker_version m));
    ("mem_sha256", Field_string (mem_sha256 m));
    ("vmstate_sha256", Field_string (vmstate_sha256 m));
    ("kernel_sha256", Field_string (kernel_sha256 m));
    ("rootfs_sha256", Field_string (rootfs_sha256 m));
    ("guest_identity", Field_struct (identity_members (guest_identity m)));
    ("kernel_boot_args", Field_string (kernel_boot_args m));
    ("signer_pubkey_b64", Field_string (m_signer_pubkey_b64 m));
    ("signature_b64", Field_string (m_signature_b64 m)) ].
Definition manifest_canonical_bytes (m : SnapshotManifest) : option (list Z) :=
  to_vec (canonicalize SNAPSHOT_DOMAIN_TAG (manifest_to_value m)).

(** ** Signature checks *)

Definition decode_signer_and_sig (m : SnapshotManifest)
    : result VerifyError (VerifyingKey * list Z) :=
  if negb (manifest_version m =? MANIFEST_VERSION)
  then Err (VerifyError_UnsupportedVersion (manifest_version m) MANIFEST_VERSION)
  else
    pk_bytes ← ok_or (b64_decode (m_signer_pubkey_b64 m)) (VerifyError_Base64 "signer_pubkey_b64");
    pk_arr ← ok_or (to_array 32 pk_bytes) VerifyError_BadPublicKey;
    vk ← ok_or (vk_from_bytes pk_arr) VerifyError_BadPublicKey;
    sig_bytes ← ok_or (b64_decode (m_signature_b64 m)) (VerifyError_Base64 "signature_b64");
    sig_arr ← ok_or (to_array 64 sig_bytes) VerifyError_BadSignature;
    Ok (vk, sig_arr).

Definition verify_manifest_signature (m : SnapshotManifest) : result VerifyError unit :=
  '(vk, sig) ← decode_signer_and_sig m;
  bytes ← ok_or (manifest_canonical_bytes m) VerifyError_Canonical;
  if verify_strict vk bytes sig then Ok tt else Err VerifyError_SignatureMismatch.

Definition verify_manifest_signature_pinned (m : SnapshotManifest) (expected_signer : VerifyingKey)
    : result VerifyError unit :=
  '(embedded_vk, sig) ← decode_signer_and_sig m;
  if negb (bool_decide (vk_to_bytes embedded_vk = vk_to_bytes expected_signer))
  then Err VerifyError_UntrustedSigner
  else
    bytes ← ok_or (manifest_canonical_bytes m) VerifyError_Canonical;
    if verify_strict expected_signer bytes sig then Ok tt else Err VerifyError_SignatureMismatch.

Definition check (field expected actual : string) : result VerifyError unit :=
  if String.eqb expected actual then Ok tt else Err (VerifyError_HashMismatch field expected actual).
Definition manifest_matches_hashes (m : SnapshotManifest) (mem_h vmstate_h : string)
    : result VerifyError unit :=
  _ ← check "mem" (mem_sha256 m) mem_h;
  _ ← check "vmstate" (vmstate_sha256 m) vmstate_h;
  Ok tt.

(** ** The artifact directory *)

(** The three files of a snapshot; [None] is a file that cannot be read. *)
Record SnapshotDir := {
  mem_file : option (list Z);
  vmstate_file : option (list Z);
  manifest_file : option (list Z);
}.
(** The digest of the whole file, fed to the hasher chunk by chunk. *)
Definition sha256_hex (f : option (list Z)) : result SnapshotError string :=
  content ← ok_or f SnapshotError_Io; Ok (hex_encode (sha256 content)).

Record SnapshotInfo := {
  info_snapshot_id : string; info_created_from : string;
  info_mem_sha256 : string; info_vmstate_sha256 : string; size_bytes : Z }.

Definition sign_manifest (signer : SigningKey) (m : SnapshotManifest)
    : result SnapshotError SnapshotManifest :=
  bytes ← ok_or (manifest_canonical_bytes m) SnapshotError_Manifest;
  Ok {| manifest_version := manifest_version m; snapshot_id := snapshot_id m;
        created_from_workspace_id := created_from_workspace_id m;
        firecracker_version := firecracker_version m; mem_sha256 := mem_sha256 m;
        vmstate_sha256 := vmstate_sha256 m; kernel_sha256 := kernel_sha256 m;
        rootfs_sha256 := rootfs_sha256 m; guest_identity := guest_identity m;
        kernel_boot_args := kernel_boot_args m; m_signer_pubkey_b64 := m_signer_pubkey_b64 m;
        m_signature_b64 := b64_encode (sign signer bytes) |}.

Definition write_manifest (dir : SnapshotDir) (signer : SigningKey)
    (id from fc kernel rootfs : string) (g : GuestIdentity) (boot_args : string)
    (write_ok : bool) : result SnapshotError (SnapshotInfo * SnapshotDir) :=
  mem_h ← sha256_hex (mem_file dir);
  vmstate_h ← sha256_hex (vmstate_file dir);
  let size := Z.of_nat (length (default [] (mem_file dir)))
              + Z.of_nat (length (default [] (vmstate_file dir))) in
  manifest ← sign_manifest signer
    {| manifest_version := MANIFEST_VERSION; snapshot_id := id; created_from_workspace_id := from;
       firecracker_version := fc; mem_sha256 := mem_h; vmstate_sha256 := vmstate_h;
       kernel_sha256 := kernel; rootfs_sha256 := rootfs; guest_identity := g;
       kernel_boot_args := boot_args;
       m_signer_pubkey_b64 := b64_encode (vk_to_bytes (verifying_key signer));
       m_signature_b64 := "" |};
  json ← ok_or (to_vec_pretty manifest) SnapshotError_Serde;
  if negb write_ok then Err SnapshotError_Io
  else Ok ({| info_snapshot_id := id; info_created_from := from; info_mem_sha256 := mem_h;
              info_vmstate_sha256 := vmstate_h; size_bytes := size |},
           {| mem_file := mem_file dir; vmstate_file := vmstate_file dir;
              manifest_file := Some json |}).

Definition parse_manifest (bytes : list Z) : result SnapshotError SnapshotManifest :=
  version ← ok_or (parse_envelope bytes) SnapshotError_Serde;
  if negb (version =? MANIFEST_VERSION)
  then Err (SnapshotError_Verify (VerifyError_UnsupportedVersion version MANIFEST_VERSION))
  else ok_or (parse_strict bytes) SnapshotError_Serde.
Definition read_manifest (dir : SnapshotDir) : result SnapshotError SnapshotManifest :=
  bytes ← ok_or (manifest_file dir) SnapshotError_Io; parse_manifest bytes.

Definition check_artifact_hashes (dir : SnapshotDir) (m : SnapshotManifest)
    : result SnapshotError unit :=
  mem_h ← sha256_hex (mem_file dir);
  vm_h ← sha256_hex (vmstate_file dir);
  map_err SnapshotError_Verify (manifest_matches_hashes m mem_h vm_h).
Definition verify_artifact (dir : SnapshotDir) : result SnapshotError SnapshotManifest :=
  m ← read_manifest dir;
  _ ← map_err SnapshotError_Verify (verify_manifest_signature m);
  _ ← check_artifact_hashes dir m;
  Ok m.
Definition verify_artifact_pinned (dir : SnapshotDir) (expected_signer : VerifyingKey)
    : result SnapshotError SnapshotManifest :=
  m ← read_manifest dir;
  _ ← map_err SnapshotError_Verify (verify_manifest_signature_pinned m expected_signer);
  _ ← check_artifact_hashes dir m;
  Ok m.

(** [resolve_pair] of the image store. *)
Definition verify_and_resolve_images {ImageError VerifiedImagePair : Type}
    (resolve_pair : string -> string -> result ImageError VerifiedImagePair)
    (dir : SnapshotDir) (expected_signer : VerifyingKey)
    : result (SnapshotError + ImageError) (SnapshotManifest * VerifiedImagePair) :=
  manifest ← map_err inl (verify_artifact_pinned dir expected_signer);
  images ← map_err inr (resolve_pair (kernel_sha256 manifest) (rootfs_sha256 manifest));
  Ok (manifest, images).
End Manifest.

Section Proofs.
Context {C : Crypto} {CL : CryptoLaws C} {V : JsonVec unit} {VL : JsonVecLaws unit V}.
Context {J : ManifestJson} {JL : ManifestJsonLaws J}.

(** ** The canonical form *)

Definition unsign (m : SnapshotManifest) : SnapshotManifest :=
  {| manifest_version := manifest_version m; snapshot_id := snapshot_id m;
     created_from_workspace_id := created_from_workspace_id m;
     firecracker_version := firecracker_version m; mem_sha256 := mem_sha256 m;
     vmstate_sha256 := vmstate_sha256 m; kernel_sha256 := kernel_sha256 m;
     rootfs_sha256 := rootfs_sha256 m; guest_identity := guest_identity m;
     kernel_boot_args := kernel_boot_args m; m_signer_pubkey_b64 := m_signer_pubkey_b64 m;
     m_signature_b64 := "" |}.

Lemma manifest_canonical_eq m :
  canonicalize SNAPSHOT_DOMAIN_TAG (manifest_to_value m) =
    [ ("created_from_workspace_id", Field_string (created_from_workspace_id m));
      ("ctx", Field_string SNAPSHOT_DOMAIN_TAG);
      ("firecracker_version", Field_string (firecracker_version m));
      ("guest_identity", Field_struct (identity_members (guest_identity m)));
      ("kernel_boot_args", Field_string (kernel_boot_args m));
      ("kernel_sha256", Field_string (kernel_sha256 m));
      ("manifest_version", Field_number (manifest_version m));
      ("mem_sha256", Field_string (mem_sha256 m));
      ("rootfs_sha256", Field_string (rootfs_sha256 m));
      ("signer_pubkey_b64", Field_string (m_signer_pubkey_b64 m));
      ("snapshot_id", Field_string (snapshot_id m));
      ("vmstate_sha256", Field_string (vmstate_sha256 m)) ].
Proof. reflexivity. Qed.
Lemma manifest_canonical_inj a b x :
  manifest_canonical_bytes a = Some x -> manifest_canonical_bytes b = Some x ->
  unsign a = unsign b.
Proof.
  intros Ha Hb. pose proof (to_vec_inj _ _ _ Ha Hb) as H. rewrite !manifest_canonical_eq in H.
  unfold identity_members in H. injection H; intros. unfold unsign.
  destruct a as [? ? ? ? ? ? ? ? [] ? ? ?], b as [? ? ? ? ? ? ? ? [] ? ? ?]; cbn in *. congruence.
Qed.
Lemma manifest_canonical_ext a b :
  unsign a = unsign b -> manifest_canonical_bytes a = manifest_canonical_bytes b.
Proof.
  intros H. unfold manifest_canonical_bytes. rewrite !manifest_canonical_eq.
  destruct a, b; cbn in *. unfold unsign in H. cbn in H. injection H; intros; subst. done.
Qed.

(** ** What verification establishes *)

Definition signed_by (vk : VerifyingKey) (m : SnapshotManifest) : Prop :=
  manifest_version m = MANIFEST_VERSION
  /\ exists pk embedded sig bytes,
       b64_array 32 (m_signer_pubkey_b64 m) = Some pk /\ vk_from_bytes pk = Some embedded
       /\ vk_to_bytes embedded = vk_to_bytes vk
       /\ b64_array 64 (m_signature_b64 m) = Some sig
       /\ manifest_canonical_bytes m = Some bytes /\ verify_strict vk bytes sig = true.
Definition content_matches (dir : SnapshotDir) (m : SnapshotManifest) : Prop :=
  exists mem vmstate, mem_file dir = Some mem /\ vmstate_file dir = Some vmstate
    /\ mem_sha256 m = hex_encode (sha256 mem) /\ vmstate_sha256 m = hex_encode (sha256 vmstate).

Lemma decode_spec m vk sig :
  decode_signer_and_sig m = Ok (vk, sig) <->
  manifest_version m = MANIFEST_VERSION
  /\ exists pk, b64_array 32 (m_signer_pubkey_b64 m) = Some pk /\ vk_from_bytes pk = Some vk
       /\ b64_array 64 (m_signature_b64 m) = Some sig.
Proof.
  unfold decode_signer_and_sig, b64_array.
  destruct (Z.eqb_spec (manifest_version m) MANIFEST_VERSION); cbn; [|naive_solver].
  unfold mbind, result_bind, option_bind.
  destruct (b64_decode (m_signer_pubkey_b64 m)) as [b|]; cbn; [|naive_solver].
  destruct (to_array 32 b) as [pk|]; cbn; [|naive_solver].
  destruct (vk_from_bytes pk) as [k|] eqn:Ek; cbn; [|naive_solver].
  destruct (b64_decode (m_signature_b64 m)) as [c|]; cbn; [|naive_solver].
  destruct (to_array 64 c) as [sg|]; cbn; naive_solver.
Qed.
Lemma verify_pinned_spec m vk :
  verify_manifest_signature_pinned m vk = Ok tt <-> signed_by vk m.
Proof.
  unfold verify_manifest_signature_pinned, signed_by. rewrite bind_ok. split.
  - intros ([k sig] & (Hv & pk & Hpk & Hk & Hs)%decode_spec & H).
    case_bool_decide; cbn in H; [|done]. apply bind_ok in H as (bytes & Hb%ok_or_ok & H).
    destruct (verify_strict vk bytes sig) eqn:E; [|done]. eauto 12.
  - intros (Hv & pk & k & sig & bytes & Hpk & Hk & Heq & Hs & Hb & Hver).
    exists (k, sig). split; [apply decode_spec; eauto|]. rewrite bool_decide_true by done. cbn.
    unfold mbind, result_bind. rewrite Hb. cbn. by rewrite Hver.
Qed.
Lemma check_hashes_spec dir m : check_artifact_hashes dir m = Ok tt <-> content_matches dir m.
Proof.
  unfold check_artifact_hashes, sha256_hex, content_matches, manifest_matches_hashes, check.
  unfold mbind, result_bind. destruct (mem_file dir) as [mem|]; cbn; [|naive_solver].
  destruct (vmstate_file dir) as [vms|]; cbn; [|naive_solver].
  destruct (String.eqb_spec (mem_sha256 m) (hex_encode (sha256 mem))); cbn; [|naive_solver].
  destruct (String.eqb_spec (vmstate_sha256 m) (hex_encode (sha256 vms))); cbn; naive_solver.
Qed.

(** The pinned verifier used on restore and fork accepts an artifact exactly when its manifest
    parses, has the supported version, embeds the pinned key, carries a signature over its canonical
    bytes that verifies under that key, and records the digests of the memory and device-state files
    actually present. *)
Theorem verify_artifact_pinned_iff dir vk m :
  verify_artifact_pinned dir vk = Ok m
  <-> read_manifest dir = Ok m /\ signed_by vk m /\ content_matches dir m.
Proof.
  unfold verify_artifact_pinned. rewrite bind_ok. split.
  - intros (m' & Hr & H). apply bind_unit_ok in H as [Hs%map_err_ok%verify_pinned_spec H].
    apply bind_unit_ok in H as [Hc%check_hashes_spec H]. by injection H as <-.
  - intros (Hr & Hs & Hc). exists m. split; [done|].
    apply bind_unit_ok. split; [by apply map_err_ok, verify_pinned_spec|].
    apply bind_unit_ok. split; [by apply check_hashes_spec|done].
Qed.

Lemma sign_manifest_signed sk m m' :
  manifest_version m = MANIFEST_VERSION ->
  m_signer_pubkey_b64 m = b64_encode (vk_to_bytes (verifying_key sk)) ->
  sign_manifest sk m = Ok m' ->
  exists bytes, unsign m' = unsign m /\ manifest_canonical_bytes m' = Some bytes
    /\ decode_signer_and_sig m' = Ok (verifying_key sk, sign sk bytes).
Proof.
  intros Hv Hpk H. unfold sign_manifest in H.
  destruct (manifest_canonical_bytes m) as [bytes|] eqn:Eb; [|done]. cbn in H. injection H as <-.
  destruct (vk_bytes_ok sk), (sign_bytes_ok sk bytes). exists bytes. split_and!; [done| |].
  - rewrite <- Eb. by apply manifest_canonical_ext.
  - apply decode_spec. split; [done|]. exists (vk_to_bytes (verifying_key sk)). cbn.
    rewrite Hpk, !b64_array_encode by done. auto using vk_round_trip.
Qed.

(** An artifact written by a host verifies on that host: after [write_manifest] the pinned
    verifier accepts the directory under the writer's key and returns a manifest that records what
    was given; and a host with a different key rejects it as an untrusted signer, although the
    integrity-only check accepts it. *)
Theorem written_manifest_verifies dir sk id from fc kernel rootfs g boot info dir' other :
  write_manifest dir sk id from fc kernel rootfs g boot true = Ok (info, dir') ->
  vk_to_bytes (verifying_key sk) <> vk_to_bytes other ->
  (exists m, verify_artifact_pinned dir' (verifying_key sk) = Ok m
     /\ verify_artifact dir' = Ok m
     /\ snapshot_id m = id /\ kernel_sha256 m = kernel /\ rootfs_sha256 m = rootfs
     /\ guest_identity m = g /\ mem_sha256 m = info_mem_sha256 info
     /\ vmstate_sha256 m = info_vmstate_sha256 info)
  /\ verify_artifact_pinned dir' other = Err (SnapshotError_Verify VerifyError_UntrustedSigner).
Proof.
  unfold write_manifest. intros H Hne.
  apply bind_ok in H as (mem_h & Hm & H). apply bind_ok in H as (vm_h & Hvm & H).
  apply bind_ok in H as (m & Hsign & H). apply bind_ok in H as (json & Hj%ok_or_ok & H).
  cbn in H. injection H as <- <-.
  apply sign_manifest_signed in Hsign as (bytes & Hun & Hb & Hd); [|done|done].
  set (dir' := Build_SnapshotDir _ _ _).
  assert (manifest_version m = MANIFEST_VERSION) as Hver by (by apply (f_equal manifest_version) in Hun).
  assert (read_manifest dir' = Ok m) as Hr.
  { unfold read_manifest, parse_manifest. cbn. unfold mbind, result_bind.
    rewrite (pretty_envelope _ _ Hj). cbn. rewrite Hver. cbn. by rewrite (pretty_strict _ _ Hj). }
  assert (mem_sha256 m = mem_h /\ vmstate_sha256 m = vm_h) as [Hmh Hvh]
    by (split; [apply (f_equal mem_sha256) in Hun|apply (f_equal vmstate_sha256) in Hun]; done).
  assert (check_artifact_hashes dir' m = Ok tt) as Hc.
  { apply check_hashes_spec. unfold content_matches, sha256_hex in *.
    apply bind_ok in Hm as (mem & Hm%ok_or_ok & Hmem).
    apply bind_ok in Hvm as (vms & Hvm%ok_or_ok & Hvms).
    exists mem, vms. cbn. split_and!; congruence. }
  split.
  - exists m. unfold verify_artifact_pinned, verify_artifact, verify_manifest_signature_pinned,
      verify_manifest_signature. rewrite Hr. cbn. rewrite Hd. cbn.
    rewrite bool_decide_true by done. cbn. rewrite Hb. cbn. rewrite sign_verifies. cbn. rewrite Hc. cbn.
    split_and!; try done; [apply (f_equal snapshot_id) in Hun|apply (f_equal kernel_sha256) in Hun
      |apply (f_equal rootfs_sha256) in Hun|apply (f_equal guest_identity) in Hun]; done.
  - unfold verify_artifact_pinned, verify_manifest_signature_pinned. rewrite Hr. cbn. rewrite Hd. cbn.
    by rewrite bool_decide_false by congruence.
Qed.

(** The signature pins the artifact: two directories accepted by the pinned verifier with
    manifests that sign the same content identifiers hold the same memory and device state, or
    exhibit a SHA-256 collision; and one signed byte string belongs to one manifest only. *)
Theorem signed_content_is_unique dir1 dir2 vk m1 m2 :
  verify_artifact_pinned dir1 vk = Ok m1 -> verify_artifact_pinned dir2 vk = Ok m2 ->
  manifest_canonical_bytes m1 = manifest_canonical_bytes m2 ->
  unsign m1 = unsign m2
  /\ (mem_file dir1 = mem_file dir2 /\ vmstate_file dir1 = vmstate_file dir2 \/ sha256_collision).
Proof.
  intros H1 H2 Hcan.
  assert (forall dir m, verify_artifact_pinned dir vk = Ok m ->
    is_Some (manifest_canonical_bytes m) /\ content_matches dir m) as Hv.
  { intros dir m H. unfold verify_artifact_pinned in H. apply bind_ok in H as (m' & _ & H).
    apply bind_unit_ok in H as [Hs%map_err_ok%verify_pinned_spec H].
    apply bind_unit_ok in H as [Hc%check_hashes_spec H]. injection H as <-.
    destruct Hs as (_ & ? & ? & ? & bytes & _ & _ & _ & _ & Hb & _). split; [by eexists|done]. }
  destruct (Hv _ _ H1) as [[b Hb] (mem1 & vms1 & Hm1 & Hs1 & Hh1 & Hg1)].
  destruct (Hv _ _ H2) as [_ (mem2 & vms2 & Hm2 & Hs2 & Hh2 & Hg2)].
  assert (unsign m1 = unsign m2) as Hun by (eapply manifest_canonical_inj; [done|congruence]).
  split; [done|]. rewrite Hm1, Hm2, Hs1, Hs2.
  assert (mem_sha256 m1 = mem_sha256 m2) as Em by (by apply (f_equal mem_sha256) in Hun).
  assert (vmstate_sha256 m1 = vmstate_sha256 m2) as Ev by (by apply (f_equal vmstate_sha256) in Hun).
  rewrite Hh1, Hh2 in Em. rewrite Hg1, Hg2 in Ev.
  apply hex_sha256_eq in Em as [->|?]; [|by right].
  apply hex_sha256_eq in Ev as [->|?]; [by left|by right].
Qed.

(** Audit and snapshot signatures are not interchangeable. *)
Lemma audit_and_snapshot_bytes_differ (e : AuditEvent unit) m x :
  canonical_bytes e = Some x -> manifest_canonical_bytes m <> Some x.
Proof.
  intros He Hm. pose proof (to_vec_inj _ _ _ He Hm) as H.
  rewrite canonical_object_eq, manifest_canonical_eq in H. discriminate H.
Qed.
End Proofs.

(** ** Concrete artifacts *)
Module SnapshotDemo.
(** A manifest is the list of its fields, each text as one number. *)
Definition of_text (s : string) : Z := Z.pos (encode s).
Definition to_text (z : Z) : string :=
  match z with Z.pos p => default "" (decode p) | _ => "" end.
Lemma to_text_of_text s : to_text (of_text s) = s.
Proof. unfold to_text, of_text. by rewrite decode_encode. Qed.
Definition toy_pretty (m : SnapshotManifest) : list Z :=
  let g := guest_identity m in
  [ manifest_version m; of_text (snapshot_id m); of_text (created_from_workspace_id m);
    of_text (firecracker_version m); of_text (mem_sha256 m); of_text (vmstate_sha256 m);
    of_text (kernel_sha256 m); of_text (rootfs_sha256 m); of_text (hostname g); of_text (mac g);
    guest_vsock_cid g; gi_vcpu_count g; gi_mem_size_mib g; of_text (kernel_boot_args m);
    of_text (m_signer_pubkey_b64 m); of_text (m_signature_b64 m) ].
Definition toy_strict (b : list Z) : option SnapshotManifest :=
  match b with
  | [v; id; from; fc; mem; vms; ker; root; host; mc; cid; cpu; ms; boot; pk; sg] =>
      Some {| manifest_version := v; snapshot_id := to_text id;
              created_from_workspace_id := to_text from; firecracker_version := to_text fc;
              mem_sha256 := to_text mem; vmstate_sha256 := to_text vms;
              kernel_sha256 := to_text ker; rootfs_sha256 := to_text root;
              guest_identity := {| hostname := to_text host; mac := to_text mc;
                                   guest_vsock_cid := cid; gi_vcpu_count := cpu;
                                   gi_mem_size_mib := ms |};
              kernel_boot_args := to_text boot; m_signer_pubkey_b64 := to_text pk;
              m_signature_b64 := to_text sg |}
  | _ => None
  end.
Definition toy_manifest_json : ManifestJson := {|
  parse_strict := toy_strict;
  parse_envelope := head;
  to_vec_pretty := fun m => Some (toy_pretty m);
|}.
Lemma toy_manifest_json_laws : ManifestJsonLaws toy_manifest_json.
Proof.
  constructor.
  - intros m. by eexists.
  - intros m b H. injection H as <-. change (toy_strict (toy_pretty m) = Some m).
    unfold toy_strict, toy_pretty. rewrite !to_text_of_text. by destruct m as [? ? ? ? ? ? ? ? [] ? ? ?].
  - intros m b [= <-]. done.
Qed.

Definition dir0 : SnapshotDir :=
  {| mem_file := Some [1; 2]; vmstate_file := Some [3]; manifest_file := None |}.
Definition identity0 : GuestIdentity :=
  {| hostname := "vm"; mac := "02"; guest_vsock_cid := 3; gi_vcpu_count := 2; gi_mem_size_mib := 128 |}.
Definition write0 : result SnapshotError (SnapshotInfo * SnapshotDir) :=
  write_manifest (C := toy_crypto) (V := toy_vec) (J := toy_manifest_json) dir0 7 "s1" "ws-a" "1.7"
    "aa" "bb" identity0 "quiet" true.
Lemma write0_ok : exists info dir', write0 = Ok (info, dir').
Proof. eexists _, _. vm_compute. reflexivity. Qed.

Lemma written_manifest_verifies_witness :
  exists info dir', write0 = Ok (info, dir') /\
  exists m, verify_artifact_pinned (C := toy_crypto) (V := toy_vec) (J := toy_manifest_json)
              dir' (verifying_key (Crypto := toy_crypto) 7) = Ok m /\ kernel_sha256 m = "aa".
Proof.
  destruct write0_ok as (info & dir' & H). exists info, dir'. split; [exact H|].
  destruct (written_manifest_verifies (C := toy_crypto) (CL := toy_crypto_laws) (V := toy_vec)
    (J := toy_manifest_json) (JL := toy_manifest_json_laws)
    _ 7 _ _ _ _ _ _ _ _ _ (verifying_key (Crypto := toy_crypto) 8) H)
    as [(m & Hm & _ & _ & Hk & _) _].
  - vm_compute. discriminate.
  - exists m. split; [exact Hm|exact Hk].
Defined.
Lemma signed_content_is_unique_witness :
  exists dir m, verify_artifact_pinned (C := toy_crypto) (V := toy_vec) (J := toy_manifest_json)
                  dir (verifying_key (Crypto := toy_crypto) 7) = Ok m
    /\ (mem_file dir = mem_file dir /\ vmstate_file dir = vmstate_file dir
        \/ sha256_collision (H := toy_crypto)).
Proof.
  assert (exists dir m, verify_artifact_pinned (C := toy_crypto) (V := toy_vec)
    (J := toy_manifest_json) dir (verifying_key (Crypto := toy_crypto) 7) = Ok m) as (dir & m & H).
  { destruct write0_ok as (info & dir' & Hw). exists dir'.
    vm_compute in Hw. injection Hw as _ <-. eexists. vm_compute. reflexivity. }
  exists dir, m. split; [exact H|].
  exact (proj2 (signed_content_is_unique (C := toy_crypto) (CL := toy_crypto_laws) (V := toy_vec)
    (VL := toy_vec_laws) (J := toy_manifest_json) dir dir _ m m H H eq_refl)).
Defined.
End SnapshotDemo.
