(* ===== verification/DnsFilter.v ===== *)
(** * The DNS allowlist filter ([crates/ne-dns-filter/src/lib.rs])

    Pattern normalisation and matching, the wire parser for the first question
    of a query, the synthesised error responses and the per-query handler.
    Sockets are abstracted to the datagrams sent; the upstream's answer is an
    input.  [str::to_lowercase] is a parameter that agrees with ASCII
    lower-casing on ASCII text. *)

From S2P Require Import Prelude Text.

Definition MAX_UDP_PAYLOAD : Z := 4096.
Inductive Decision := Decision_Allowed | Decision_Denied | Decision_Malformed.

Section Filter.
Context (to_lowercase : string -> string).

(** ** Allowlist *)

Definition normalize (s : string) : string :=
  let trimmed := trim s in
  let stripped := default trimmed (strip_prefix "*." trimmed) in
  to_lowercase (trim_end_matches "." stripped).

Definition Allowlist : Type := gset string.
Definition Allowlist_new (patterns : list string) : Allowlist :=
  fold_left (fun acc raw =>
    let n := normalize raw in if is_empty n then acc else {[ n ]} ∪ acc) patterns ∅.
Definition matches (normalized : Allowlist) (qname : string) : bool :=
  let q := normalize qname in
  existsb (fun allow => String.eqb q allow || ends_with (String "." allow) q) (elements normalized).

(** ** Wire format *)

Definition u16_be (a b : Z) : Z := a * 256 + b.
Definition byte_at (buf : list Z) (i : Z) : Z := default 0 (buf !! Z.to_nat i).
Definition slice (buf : list Z) (i n : Z) : list Z := take (Z.to_nat n) (drop (Z.to_nat i) buf).
Definition buf_len (buf : list Z) : Z := Z.of_nat (length buf).

(** The label loop; each turn advances by at least one byte, so [length buf]
    turns are enough ([parse_query_round_trip]). *)
Fixpoint parse_labels (fuel : nat) (buf : list Z) (pos : Z) (name : string) : option (string * Z) :=
  match fuel with
  | O => None
  | S fuel =>
      if buf_len buf <=? pos then None
      else
        let len := byte_at buf pos in
        if len =? 0 then Some (name, pos + 1)
        else if negb (Z.land len 192 =? 0) then None
        else if (63 <? len) || (buf_len buf <? pos + 1 + len) then None
        else
          let name := if is_empty name then name else (name +:+ ".")%string in
          label ← from_utf8 (slice buf (pos + 1) len);
          parse_labels fuel buf (pos + 1 + len) (name +:+ label)%string
  end.

Definition parse_query (buf : list Z) : option (string * Z) :=
  if buf_len buf <? 12 then None
  else
    let qdcount := u16_be (byte_at buf 4) (byte_at buf 5) in
    if qdcount =? 0 then None
    else
      '(name, pos) ← parse_labels (S (length buf)) buf 12 "";
      if buf_len buf <? pos + 4 then None
      else Some (name, u16_be (byte_at buf pos) (byte_at buf (pos + 1))).

Definition rcode_response (query : list Z) (rcode : Z) : option (list Z) :=
  if buf_len query <? 12 then None
  else
    let resp := query in
    let resp := <[2%nat := Z.lor (byte_at resp 2) 128]> resp in
    let resp := <[2%nat := Z.land (byte_at resp 2) 253]> resp in
    let resp := <[3%nat := Z.lor (Z.land (byte_at resp 3) 112) (Z.land rcode 15)]> resp in
    let resp := <[6%nat := 0]> (<[7%nat := 0]> resp) in
    let resp := <[8%nat := 0]> (<[9%nat := 0]> resp) in
    let resp := <[10%nat := 0]> (<[11%nat := 0]> resp) in
    Some resp.
Definition nxdomain_response (query : list Z) : option (list Z) := rcode_response query 3.
Definition formerr_response (query : list Z) : option (list Z) := rcode_response query 1.

(** ** Handling one query

    [upstream] is what forwarding the query would yield; the result is whether
    it was forwarded, the datagram sent back and the audited decision. *)
Record Handled := { forwarded : bool; reply : option (list Z); decision : Decision;
                    audited_qname : string; audited_qtype : Z }.
Definition handle_one (allowlist : Allowlist) (upstream : option (list Z)) (query : list Z) : Handled :=
  match parse_query query with
  | None => {| forwarded := false; reply := formerr_response query; decision := Decision_Malformed;
               audited_qname := "<malformed>"; audited_qtype := 0 |}
  | Some (qname, qtype) =>
      if matches allowlist qname
      then match upstream with
           | Some resp => {| forwarded := true; reply := Some resp; decision := Decision_Allowed;
                             audited_qname := qname; audited_qtype := qtype |}
           | None => {| forwarded := true; reply := nxdomain_response query;
                        decision := Decision_Denied; audited_qname := qname; audited_qtype := qtype |}
           end
      else {| forwarded := false; reply := nxdomain_response query; decision := Decision_Denied;
              audited_qname := qname; audited_qtype := qtype |}
  end.

(** ** Matching at label boundaries *)

Definition labels (name : string) : list string := split_on "." name.

End Filter.

Section FilterProofs.
Context (to_lowercase : string -> string).

(** ** Matching at label boundaries *)

Lemma elem_of_Allowlist_new ps x :
  x ∈ Allowlist_new to_lowercase ps
  <-> x <> "" /\ exists p, p ∈ ps /\ x = normalize to_lowercase p.
Proof.
  unfold Allowlist_new. assert (forall acc : gset string,
    x ∈ fold_left (fun acc raw => let n := normalize to_lowercase raw in
            if is_empty n then acc else {[ n ]} ∪ acc) ps acc
    <-> x ∈ acc \/ (x <> "" /\ exists p, p ∈ ps /\ x = normalize to_lowercase p)) as H.
  { induction ps as [|p ps IH]; intros acc; cbn.
    { split; [by left|]. intros [?|(_ & p & Hp & _)]; [done|]. by apply not_elem_of_nil in Hp. }
    rewrite IH. setoid_rewrite elem_of_cons. unfold is_empty.
    destruct (normalize to_lowercase p) eqn:E; [naive_solver|].
    rewrite elem_of_union, elem_of_singleton. naive_solver. }
  rewrite H. set_solver.
Qed.

(** Equality or a dotted suffix is a suffix of the label list. *)
Lemma label_suffix q p :
  (q = p \/ exists r, q = r +:+ String "." p) <-> labels p `suffix_of` labels q.
Proof.
  unfold labels. split.
  - intros [->|[r ->]]; [done|]. rewrite split_on_sep. by exists (split_on "." r).
  - intros [k Hk]. destruct k as [|x k]; cbn in Hk.
    + left. rewrite <- (join_split_on "." q), Hk. apply join_split_on.
    + right. exists (join "." (x :: k)).
      rewrite <- (join_split_on "." q), Hk. change (x :: k ++ split_on "." p) with ((x :: k) ++ split_on "." p).
      rewrite join_app; [|done|apply split_on_nonempty]. by rewrite join_split_on.
Qed.

(** A query name is allowed exactly when, after normalisation, the labels of some non-empty
    pattern are a suffix of its labels: the pattern itself and its subdomains match, a name that
    merely ends with the same letters does not, and an empty allowlist allows nothing. *)
Theorem matches_iff_label_suffix ps qname :
  matches to_lowercase (Allowlist_new to_lowercase ps) qname = true
  <-> exists p, p ∈ ps /\ normalize to_lowercase p <> ""
        /\ labels (normalize to_lowercase p) `suffix_of` labels (normalize to_lowercase qname).
Proof.
  unfold matches. rewrite existsb_exists. setoid_rewrite <- label_suffix.
  setoid_rewrite orb_true_iff. setoid_rewrite String.eqb_eq. setoid_rewrite ends_with_spec.
  setoid_rewrite <- list_elem_of_In. setoid_rewrite elem_of_elements.
  setoid_rewrite elem_of_Allowlist_new. naive_solver.
Qed.

(** ** The wire parser *)

Definition label_bytes (l : list Z) : Prop :=
  (1 <= length l <= 63)%nat /\ utf8_valid l = true /\ Forall (fun b => 0 <= b <= 255) l.
Definition wire_label (l : list Z) : list Z := Z.of_nat (length l) :: l.
Definition wire_name (ls : list (list Z)) : list Z := concat (wire_label <$> ls) ++ [0].
Definition dotted (ls : list (list Z)) : string := join "." (string_of <$> ls).

Lemma byte_at_app pre b rest : byte_at (pre ++ b :: rest) (buf_len pre) = b.
Proof. unfold byte_at, buf_len. rewrite Nat2Z.id. by rewrite list_lookup_middle. Qed.
Lemma slice_app pre l rest : slice (pre ++ l ++ rest) (buf_len pre) (buf_len l) = l.
Proof. unfold slice, buf_len. rewrite !Nat2Z.id, drop_app_length, take_app_length. done. Qed.
Lemma buf_len_app a b : buf_len (a ++ b) = buf_len a + buf_len b.
Proof. unfold buf_len. rewrite length_app. lia. Qed.
Lemma buf_len_cons x a : buf_len (x :: a) = 1 + buf_len a.
Proof. unfold buf_len. cbn -[Z.of_nat]. lia. Qed.
Lemma label_len_bits n : 0 <= n <= 63 -> Z.land n 192 = 0.
Proof.
  intros H. assert (n = n mod 2 ^ 6) as -> by (rewrite Z.mod_small; lia).
  rewrite <- Z.land_ones by lia. rewrite <- Z.land_assoc. by rewrite Z.land_0_r.
Qed.
Lemma len_bits_label n : 0 <= n <= 255 -> Z.land n 192 = 0 -> n <= 63.
Proof.
  intros H Hl. destruct (Z.le_gt_cases n 63); [done|exfalso].
  assert (Z.testbit (Z.land n 192) 6 = false /\ Z.testbit (Z.land n 192) 7 = false) as [H6 H7]
    by (rewrite Hl; by rewrite !Z.testbit_0_l).
  rewrite Z.land_spec in H6, H7. change (Z.testbit 192 6) with true in H6.
  change (Z.testbit 192 7) with true in H7. rewrite andb_true_r in H6, H7.
  rewrite Z.testbit_false in H6, H7 by lia. change (2 ^ 6) with 64 in H6. change (2 ^ 7) with 128 in H7.
  pose proof (Z.div_le_mono n 255 64 ltac:(lia) ltac:(lia)). pose proof (Z.div_le_mono 64 n 64 ltac:(lia) ltac:(lia)).
  change (255 / 64) with 3 in *. change (64 / 64) with 1 in *.
  assert (n / 128 = n / 64 / 2) as E by (by rewrite Z.div_div by lia).
  rewrite E in H7. assert (n / 64 = 1 \/ n / 64 = 2 \/ n / 64 = 3) as [Hn|[Hn|Hn]] by lia;
    rewrite Hn in H6, H7; vm_compute in H6, H7; discriminate.
Qed.

(** Append one label to the dotted name read so far. *)
Definition add_label (name : string) (l : list Z) : string :=
  ((if is_empty name then name else name +:+ ".") +:+ string_of l)%string.

Lemma parse_labels_label fuel pre l rest name :
  label_bytes l ->
  parse_labels (S fuel) (pre ++ wire_label l ++ rest) (buf_len pre) name
  = parse_labels fuel (pre ++ wire_label l ++ rest) (buf_len (pre ++ wire_label l)) (add_label name l).
Proof.
  intros (Hl & Hu & Hb). cbn [parse_labels]. unfold wire_label.
  set (buf := pre ++ _). assert (buf = pre ++ Z.of_nat (length l) :: (l ++ rest)) as Hbuf by done.
  assert (byte_at buf (buf_len pre) = Z.of_nat (length l)) as -> by (rewrite Hbuf; apply byte_at_app).
  assert (buf_len buf = buf_len pre + 1 + Z.of_nat (length l) + buf_len rest) as Hlen.
  { rewrite Hbuf, buf_len_app, buf_len_cons, buf_len_app. unfold buf_len. lia. }
  assert (0 <= buf_len rest) by (unfold buf_len; lia).
  destruct (Z.leb_spec (buf_len buf) (buf_len pre)); [lia|].
  destruct (Z.eqb_spec (Z.of_nat (length l)) 0); [lia|].
  rewrite label_len_bits by lia. cbn.
  destruct (Z.ltb_spec 63 (Z.of_nat (length l))); [lia|].
  destruct (Z.ltb_spec (buf_len buf) (buf_len pre + 1 + Z.of_nat (length l))); [lia|]. cbn.
  assert (slice buf (buf_len pre + 1) (Z.of_nat (length l)) = l) as ->.
  { rewrite Hbuf. replace (pre ++ Z.of_nat (length l) :: l ++ rest)
      with ((pre ++ [Z.of_nat (length l)]) ++ l ++ rest) by (by rewrite <- app_assoc).
    replace (buf_len pre + 1) with (buf_len (pre ++ [Z.of_nat (length l)]))
      by (rewrite buf_len_app; done).
    apply slice_app. }
  unfold from_utf8. rewrite Hu. cbn. f_equal.
  rewrite buf_len_app, buf_len_cons. unfold buf_len. lia.
Qed.
Lemma parse_labels_end fuel pre rest name :
  parse_labels (S fuel) (pre ++ 0 :: rest) (buf_len pre) name = Some (name, buf_len pre + 1).
Proof.
  cbn [parse_labels]. rewrite byte_at_app, buf_len_app, buf_len_cons.
  assert (0 <= buf_len rest) by (unfold buf_len; lia).
  destruct (Z.leb_spec (buf_len pre + (1 + buf_len rest)) (buf_len pre)); [lia|]. done.
Qed.

Lemma parse_labels_wire ls : forall fuel pre rest name,
  Forall label_bytes ls -> (length ls < fuel)%nat ->
  parse_labels fuel (pre ++ wire_name ls ++ rest) (buf_len pre) name
  = Some (fold_left add_label ls name, buf_len (pre ++ wire_name ls)).
Proof.
  induction ls as [|l ls IH]; intros fuel pre rest name Hls Hf; (destruct fuel as [|fuel]; [cbn in Hf; lia|]).
  - change (wire_name [] ++ rest) with (0 :: rest). rewrite parse_labels_end, buf_len_app. done.
  - apply Forall_cons in Hls as [Hl Hls]. unfold wire_name. cbn [fmap list_fmap concat].
    rewrite <- !app_assoc. rewrite parse_labels_label by done.
    rewrite (app_assoc pre (wire_label l)).
    change (concat (list_fmap _ _ wire_label ls)) with (concat (wire_label <$> ls)).
    assert (forall X, (pre ++ wire_label l) ++ concat (wire_label <$> ls) ++ [0] ++ X
      = (pre ++ wire_label l) ++ wire_name ls ++ X) as E by (intros; unfold wire_name; by rewrite !app_assoc).
    rewrite E. rewrite IH by (try done; cbn in Hf; lia). cbn. f_equal. f_equal.
    unfold wire_name. cbn. unfold wire_label. by rewrite <- !app_assoc.
Qed.

Lemma fold_add_label ls : forall name,
  name <> "" -> ls <> [] -> fold_left add_label ls name = (name +:+ String "." (dotted ls))%string.
Proof.
  unfold dotted. induction ls as [|l ls IH]; intros name Hn Hls; [done|]. cbn [fold_left].
  assert (add_label name l = (name +:+ String "." (string_of l))%string) as ->.
  { unfold add_label, is_empty. destruct name; [done|]. by rewrite string_app_assoc. }
  destruct ls as [|l' ls]; [done|]. rewrite IH; [|by destruct name|done].
  rewrite string_app_assoc. cbn [fmap list_fmap]. rewrite (join_cons "." (string_of l)) by done. done.
Qed.
Lemma fold_add_label_dotted ls :
  Forall label_bytes ls -> fold_left add_label ls "" = dotted ls.
Proof.
  intros Hls. destruct ls as [|l ls]; [done|]. apply Forall_cons in Hls as [(Hl & _ & _) _].
  cbn [fold_left]. change (add_label "" l) with (string_of l).
  destruct ls as [|l' ls]; [done|].
  rewrite fold_add_label; [|destruct l; cbn in *; [lia|done]|done].
  unfold dotted. cbn [fmap list_fmap]. by rewrite (join_cons "." (string_of l)) by done.
Qed.

(** Round trip of the question parser: a query whose first question encodes the labels [ls]
    (each of 1 to 63 bytes of UTF-8) is parsed to their dotted name and its type, whatever follows
    the first question, and the parser never runs out of steps. *)
Theorem parse_query_round_trip hdr ls t1 t2 c1 c2 rest :
  length hdr = 12%nat -> u16_be (byte_at hdr 4) (byte_at hdr 5) <> 0 -> Forall label_bytes ls ->
  parse_query (hdr ++ wire_name ls ++ [t1; t2; c1; c2] ++ rest) = Some (dotted ls, u16_be t1 t2).
Proof.
  intros Hh Hq Hls. unfold parse_query. set (buf := hdr ++ _).
  assert (buf_len hdr = 12) as Hh' by (unfold buf_len; lia).
  assert (buf_len buf = 12 + buf_len (wire_name ls) + 4 + buf_len rest) as Hlen.
  { unfold buf. rewrite !buf_len_app, Hh'. unfold buf_len. cbn -[Z.of_nat]. lia. }
  assert (0 <= buf_len (wire_name ls) /\ 0 <= buf_len rest) as [] by (unfold buf_len; lia).
  destruct (Z.ltb_spec (buf_len buf) 12); [lia|].
  assert (forall i, 0 <= i < 12 -> byte_at buf i = byte_at hdr i) as Hb.
  { intros i Hi. unfold byte_at, buf. by rewrite lookup_app_l by lia. }
  rewrite !Hb by lia. destruct (Z.eqb_spec (u16_be (byte_at hdr 4) (byte_at hdr 5)) 0); [done|].
  unfold mbind, option_bind. replace 12 with (buf_len hdr) at 1. unfold buf at 2.
  rewrite parse_labels_wire; [|done|].
  - rewrite fold_add_label_dotted by done. rewrite buf_len_app, Hh'.
    destruct (Z.ltb_spec (buf_len buf) (12 + buf_len (wire_name ls) + 4)); [lia|].
    assert (buf = (hdr ++ wire_name ls) ++ t1 :: t2 :: c1 :: c2 :: rest) as Hbuf
      by (unfold buf; by rewrite <- app_assoc).
    replace (12 + buf_len (wire_name ls)) with (buf_len (hdr ++ wire_name ls)) by (rewrite buf_len_app; lia).
    rewrite Hbuf. rewrite byte_at_app.
    replace (buf_len (hdr ++ wire_name ls) + 1) with (buf_len ((hdr ++ wire_name ls) ++ [t1]))
      by (rewrite (buf_len_app _ [t1]); done).
    replace ((hdr ++ wire_name ls) ++ t1 :: t2 :: c1 :: c2 :: rest)
      with (((hdr ++ wire_name ls) ++ [t1]) ++ t2 :: c1 :: c2 :: rest) by (by rewrite <- app_assoc).
    by rewrite byte_at_app.
  - assert (length ls <= length (wire_name ls))%nat.
    { clear. unfold wire_name. rewrite length_app. induction ls as [|l ls IH]; cbn; [lia|].
      rewrite length_app. cbn in IH. lia. }
    unfold buf. rewrite !length_app. lia.
Qed.

Lemma wire_name_len l ls : buf_len (wire_name (l :: ls)) = 1 + buf_len l + buf_len (wire_name ls).
Proof.
  unfold wire_name. rewrite fmap_cons. cbn [concat]. rewrite !buf_len_app. unfold wire_label.
  rewrite buf_len_cons. lia.
Qed.
Lemma byte_at_drop buf pos : 0 <= pos < buf_len buf ->
  drop (Z.to_nat pos) buf = byte_at buf pos :: drop (Z.to_nat (pos + 1)) buf.
Proof.
  intros Hp. unfold byte_at, buf_len in *.
  destruct (lookup_lt_is_Some_2 buf (Z.to_nat pos)) as [x Hx]; [lia|].
  rewrite (drop_S _ _ _ Hx), Hx. cbn. by replace (Z.to_nat (pos + 1)) with (S (Z.to_nat pos)) by lia.
Qed.
Lemma parse_labels_sound fuel : forall buf pos name name' pos',
  Forall (fun b => 0 <= b <= 255) buf -> 0 <= pos ->
  parse_labels fuel buf pos name = Some (name', pos') ->
  exists ls, Forall label_bytes ls
    /\ drop (Z.to_nat pos) buf = wire_name ls ++ drop (Z.to_nat pos') buf
    /\ pos' = pos + buf_len (wire_name ls) /\ name' = fold_left add_label ls name.
Proof.
  induction fuel as [|fuel IH]; intros buf pos name name' pos' Hb Hp; cbn; [done|].
  destruct (Z.leb_spec (buf_len buf) pos); [done|].
  pose proof (byte_at_drop buf pos ltac:(lia)) as Hd. set (n := byte_at buf pos) in *.
  assert (0 <= n <= 255) as Hn.
  { assert (n ∈ buf) as Hin; [|rewrite Forall_forall in Hb; by apply Hb].
    rewrite <- (take_drop (Z.to_nat pos) buf), Hd. apply elem_of_app. right. left. }
  destruct (Z.eqb_spec n 0) as [Hn0|Hn0].
  { intros [= <- <-]. exists []. rewrite Hd, Hn0. by split_and!. }
  destruct (Z.eqb_spec (Z.land n 192) 0) as [Hl|]; cbn; [|done].
  apply len_bits_label in Hl; [|done]. destruct (Z.ltb_spec 63 n); [lia|]. cbn.
  destruct (Z.ltb_spec (buf_len buf) (pos + 1 + n)); [done|].
  unfold from_utf8. destruct (utf8_valid _) eqn:Hu; cbn; [|done].
  intros (ls & Hls & Hdrop & -> & ->)%IH; [|done|lia]. set (l := slice buf (pos + 1) n) in *.
  assert (length l = Z.to_nat n) as Hlen.
  { unfold l, slice, buf_len in *. rewrite length_take, length_drop. lia. }
  assert (drop (Z.to_nat (pos + 1)) buf = l ++ drop (Z.to_nat (pos + 1 + n)) buf) as Hrest.
  { unfold l, slice. rewrite <- (take_drop (Z.to_nat n) (drop (Z.to_nat (pos + 1)) buf)) at 1.
    f_equal. rewrite drop_drop. f_equal. lia. }
  exists (l :: ls). split_and!.
  - constructor; [|done]. split_and!; [lia|lia|done|].
    apply (Forall_impl (fun b => 0 <= b <= 255)); [|done]. unfold l, slice.
    by apply Forall_take, Forall_drop.
  - rewrite Hd, Hrest, Hdrop. unfold wire_name. cbn. rewrite Hlen, Z2Nat.id by lia.
    by rewrite <- !app_assoc.
  - rewrite wire_name_len. assert (buf_len l = n) by (unfold buf_len; lia). lia.
  - done.
Qed.

(** The question parser accepts nothing else: whenever it returns a name, the datagram is a
    12-byte header with a non-zero question count followed by the wire encoding of labels of 1 to 63
    UTF-8 bytes, whose dotted form is that name, and by the type it reports; compression pointers and
    truncated questions are refused. *)
Theorem parse_query_sound buf name qtype :
  Forall (fun b => 0 <= b <= 255) buf -> parse_query buf = Some (name, qtype) ->
  exists hdr ls t1 t2 c1 c2 rest,
    buf = hdr ++ wire_name ls ++ [t1; t2; c1; c2] ++ rest
    /\ length hdr = 12%nat /\ u16_be (byte_at hdr 4) (byte_at hdr 5) <> 0
    /\ Forall label_bytes ls /\ name = dotted ls /\ qtype = u16_be t1 t2.
Proof.
  intros Hb. unfold parse_query. destruct (Z.ltb_spec (buf_len buf) 12); [done|].
  destruct (Z.eqb_spec (u16_be (byte_at buf 4) (byte_at buf 5)) 0); [done|].
  destruct (parse_labels _ _ _ _) as [[nm pos]|] eqn:E; cbn; [|done].
  apply parse_labels_sound in E as (ls & Hls & Hdrop & Hpos & ->); [|done|lia].
  destruct (Z.ltb_spec (buf_len buf) (pos + 4)); [done|]. intros [= <- <-].
  assert (0 <= buf_len (wire_name ls)) by (unfold buf_len; lia).
  exists (take 12 buf), ls, (byte_at buf pos), (byte_at buf (pos + 1)), (byte_at buf (pos + 2)),
    (byte_at buf (pos + 3)), (drop (Z.to_nat (pos + 4)) buf).
  split_and!; try done.
  - rewrite <- (take_drop 12 buf) at 1. f_equal. change 12%nat with (Z.to_nat 12). rewrite Hdrop.
    f_equal. cbn [app].
    rewrite (byte_at_drop buf pos), (byte_at_drop buf (pos + 1)) by lia.
    replace (pos + 1 + 1) with (pos + 2) by lia. rewrite (byte_at_drop buf (pos + 2)) by lia.
    replace (pos + 2 + 1) with (pos + 3) by lia. rewrite (byte_at_drop buf (pos + 3)) by lia.
    by replace (pos + 3 + 1) with (pos + 4) by lia.
  - rewrite length_take. unfold buf_len in *. lia.
  - unfold byte_at in *. by rewrite !lookup_take_lt by lia.
  - by apply fold_add_label_dotted.
Qed.
End FilterProofs.

(** ** Responses and the handler *)

Lemma byte_at_2 a b c r : byte_at (a :: b :: c :: r) 2 = c.
Proof. done. Qed.
Lemma byte_at_3 a b c d r : byte_at (a :: b :: c :: d :: r) 3 = d.
Proof. done. Qed.

(** A synthesised response echoes the query with the header rewritten as announced: same length,
    identifier, opcode, recursion-desired flag, question count and question bytes; the response flag
    set, truncation and recursion-available cleared, the requested code in the low nibble, and the
    answer, authority and additional counts zero.  It exists for every query that has a header. *)
Theorem rcode_response_header query rcode :
  12 <= buf_len query -> 0 <= rcode <= 15 ->
  exists r, rcode_response query rcode = Some r
    /\ length r = length query
    /\ byte_at r 0 = byte_at query 0 /\ byte_at r 1 = byte_at query 1
    /\ (forall k, 0 <= k < 8 -> Z.testbit (byte_at r 2) k =
          if k =? 7 then true else if k =? 1 then false else Z.testbit (byte_at query 2) k)
    /\ (forall k, 0 <= k < 4 -> Z.testbit (byte_at r 3) k = Z.testbit rcode k)
    /\ Z.testbit (byte_at r 3) 7 = false
    /\ byte_at r 4 = byte_at query 4 /\ byte_at r 5 = byte_at query 5
    /\ (forall i, 6 <= i <= 11 -> byte_at r i = 0)
    /\ forall i, 12 <= i -> byte_at r i = byte_at query i.
Proof.
  intros Hl Hr. unfold rcode_response. destruct (Z.ltb_spec (buf_len query) 12); [lia|].
  unfold buf_len in Hl. do 12 (destruct query as [|? query]; [cbn in Hl; lia|]). clear Hl H.
  eexists. split; [reflexivity|]. cbn -[Z.land Z.lor Z.testbit]. split_and!; try done.
  - intros k Hk. rewrite ?byte_at_2, ?byte_at_3. rewrite Z.land_spec, Z.lor_spec.
    assert (k = 0 \/ k = 1 \/ k = 2 \/ k = 3 \/ k = 4 \/ k = 5 \/ k = 6 \/ k = 7) as Hc by lia.
    destruct Hc as [->|[->|[->|[->|[->|[->|[->| ->]]]]]]]; cbn;
      by rewrite ?orb_false_r, ?andb_true_r, ?andb_false_r, ?orb_true_r.
  - intros k Hk. rewrite ?byte_at_2, ?byte_at_3. rewrite Z.lor_spec, !Z.land_spec.
    assert (k = 0 \/ k = 1 \/ k = 2 \/ k = 3) as [->|[->|[->| ->]]] by lia; cbn;
      by rewrite ?andb_false_r, ?andb_true_r.
  - rewrite ?byte_at_2, ?byte_at_3. rewrite Z.lor_spec, !Z.land_spec. cbn. by rewrite !andb_false_r.
  - intros i Hi. assert (i = 6 \/ i = 7 \/ i = 8 \/ i = 9 \/ i = 10 \/ i = 11)
      as [->|[->|[->|[->|[->| ->]]]]] by lia; done.
  - intros i Hi. unfold byte_at. by replace (Z.to_nat i) with (12 + (Z.to_nat i - 12))%nat by lia.
Qed.
Lemma rcode_response_header_witness :
  exists r, rcode_response [1; 2; 3; 32; 0; 1; 0; 1; 0; 0; 0; 1; 0] 3 = Some r
    /\ byte_at r 0 = 1 /\ Z.testbit (byte_at r 3) 7 = false.
Proof.
  destruct (rcode_response_header [1; 2; 3; 32; 0; 1; 0; 1; 0; 0; 0; 1; 0] 3)
    as (r & Hr & _ & H0 & _ & _ & _ & H7 & _).
  - vm_compute. discriminate.
  - lia.
  - exists r. split; [exact Hr|]. split; [exact H0|exact H7].
Defined.

(** A query leaves the filter exactly when its first question parses and matches the allowlist;
    every other query is answered locally, with NXDOMAIN when it parses and FORMERR when it does
    not; an "allowed" decision is recorded only for an answered, allowed query; and with an empty
    allowlist nothing is forwarded. *)
Theorem handle_one_forwards_iff_allowed to_lowercase allow upstream query :
  let h := handle_one to_lowercase allow upstream query in
  (forwarded h = true <->
     exists qname qtype, parse_query query = Some (qname, qtype)
       /\ matches to_lowercase allow qname = true)
  /\ (forwarded h = false ->
        reply h = (if is_Some_dec (parse_query query) then nxdomain_response query
                   else formerr_response query)
        /\ decision h <> Decision_Allowed)
  /\ (decision h = Decision_Allowed -> forwarded h = true /\ is_Some upstream /\ reply h = upstream)
  /\ forwarded (handle_one to_lowercase (Allowlist_new to_lowercase []) upstream query) = false.
Proof.
  cbn zeta. unfold handle_one. destruct (parse_query query) as [[qname qtype]|] eqn:E; cbn.
  - destruct (matches to_lowercase allow qname) eqn:Em; [destruct upstream|]; cbn; split_and!;
      try done; naive_solver.
  - split_and!; try done; naive_solver.
Qed.

(** Two questions: the first for [a.b], the second for [x]. *)
Definition two_questions : list Z :=
  [0; 7; 1; 0; 0; 2; 0; 0; 0; 0; 0; 0] ++ wire_name [[97]; [98]] ++ [0; 1; 0; 1]
  ++ wire_name [[120]] ++ [0; 1; 0; 1].

(** Only the first question is checked: a datagram with two questions is forwarded whole, second
    question included, although that question alone would be refused. *)
Theorem second_question_is_not_checked :
  let allow := Allowlist_new to_ascii_lowercase ["b"] in
  forwarded (handle_one to_ascii_lowercase allow None two_questions) = true
  /\ forwarded (handle_one to_ascii_lowercase allow None
       ([0; 7; 1; 0; 0; 1; 0; 0; 0; 0; 0; 0] ++ wire_name [[120]] ++ [0; 1; 0; 1])) = false.
Proof. split; vm_compute; reflexivity. Qed.

Lemma parse_query_round_trip_witness :
  parse_query ([0; 7; 1; 0; 0; 2; 0; 0; 0; 0; 0; 0] ++ wire_name [[97]; [98]] ++ [0; 1; 0; 1]
               ++ wire_name [[120]] ++ [0; 1; 0; 1]) = Some (dotted [[97]; [98]], 1).
Proof.
  apply (parse_query_round_trip [0; 7; 1; 0; 0; 2; 0; 0; 0; 0; 0; 0] [[97]; [98]] 0 1 0 1
           (wire_name [[120]] ++ [0; 1; 0; 1])).
  - reflexivity.
  - vm_compute. discriminate.
  - repeat constructor; vm_compute; (reflexivity || discriminate || lia).
Defined.
Lemma parse_query_sound_witness :
  exists hdr ls t1 t2 c1 c2 rest,
    two_questions = hdr ++ wire_name ls ++ [t1; t2; c1; c2] ++ rest /\ dotted ls = "a.b".
Proof.
  destruct (parse_query_sound two_questions "a.b" 1)
    as (hdr & ls & t1 & t2 & c1 & c2 & rest & Hb & _ & _ & _ & Hn & _).
  - vm_compute. repeat constructor; discriminate.
  - vm_compute. reflexivity.
  - exists hdr, ls, t1, t2, c1, c2, rest. split; [exact Hb|exact (eq_sym Hn)].
Defined.
