(* ===== verification/Ingress.v ===== *)
(** * The ingress edge ([crates/ne-ingress/src])

    [host.rs] (the Host-header grammar), [registry.rs] (the route table) and
    the decision and header handling of [router.rs].  Header names and values
    belong to the [http] crate: parsing a name, parsing a value and reading a
    value as text are parameters. *)

From S2P Require Import Prelude Text.

(** ** Host header *)

Inductive IngressError := IngressError_Parse | IngressError_DomainMismatch.

(** [host.split(':').next().unwrap_or("").trim()]. *)
Definition bare_host (host : string) : string := trim (default "" (head (split_on ":" host))).
Definition wsid_char (c : ascii) : bool := is_ascii_alphanumeric c || Ascii.eqb c "-".

Definition parse_ingress_host (host ingress_domain : string) : result IngressError (Z * string) :=
  let host := bare_host host in
  let suffix := String "." (to_ascii_lowercase ingress_domain) in
  let host_lower := to_ascii_lowercase host in
  label_len ← ok_or (String.length <$> strip_suffix suffix host_lower) IngressError_DomainMismatch;
  let label := String.substring 0 label_len host in
  '(port_str, wsid) ← ok_or (split_once "-" label) IngressError_Parse;
  port ← ok_or (parse_uint U16_MAX port_str) IngressError_Parse;
  if port =? 0 then Err IngressError_Parse
  else if is_empty wsid || (64 <? len wsid) || negb (all_chars wsid_char wsid)
  then Err IngressError_Parse
  else Ok (port, wsid).

(** ** Route table *)

Record Ipv4Addr := { o1 : Z; o2 : Z; o3 : Z; o4 : Z }.
Record PortRoute := { pr_port : Z; pr_inject_headers : list (string * string) }.
Record WorkspaceRoutes := { wr_guest_ip : Ipv4Addr; wr_ports : gmap Z PortRoute }.
Record Target := { t_guest_ip : Ipv4Addr; t_port : Z; t_inject_headers : list (string * string) }.
Inductive RegistryError := RegistryError_WorkspaceNotFound | RegistryError_PortNotFound.

(** The table behind the registry's lock, [HashMap<String, WorkspaceRoutes>]. *)
Local Abbreviation Routes := (gmap string WorkspaceRoutes).
(** [collect] into a map: a later route for the same port wins. *)
Definition ports_of (ports : list PortRoute) : gmap Z PortRoute :=
  fold_left (fun m p => <[pr_port p := p]> m) ports ∅.

Definition upsert_workspace (wsid : string) (guest_ip : Ipv4Addr) (ports : list PortRoute)
    (g : Routes) : Routes :=
  <[wsid := {| wr_guest_ip := guest_ip; wr_ports := ports_of ports |}]> g.
Definition expose_port (wsid : string) (route : PortRoute) : M Routes RegistryError unit :=
  g ← get;
  ws ← lift (ok_or (g !! wsid) RegistryError_WorkspaceNotFound);
  put (<[wsid := {| wr_guest_ip := wr_guest_ip ws;
                    wr_ports := <[pr_port route := route]> (wr_ports ws) |}]> g).
Definition unexpose_port (wsid : string) (port : Z) : M Routes RegistryError unit :=
  g ← get;
  ws ← lift (ok_or (g !! wsid) RegistryError_WorkspaceNotFound);
  _ ← lift (ok_or (wr_ports ws !! port) RegistryError_PortNotFound);
  put (<[wsid := {| wr_guest_ip := wr_guest_ip ws; wr_ports := delete port (wr_ports ws) |}]> g).
Definition remove_workspace (wsid : string) (g : Routes) : Routes := delete wsid g.
Definition resolve (wsid : string) (port : Z) (g : Routes) : option Target :=
  ws ← g !! wsid;
  route ← wr_ports ws !! port;
  Some {| t_guest_ip := wr_guest_ip ws; t_port := port;
          t_inject_headers := pr_inject_headers route |}.
Definition workspace_exists (wsid : string) (g : Routes) : bool :=
  bool_decide (is_Some (g !! wsid)).

(** ** Routing decision *)

Inductive DenyReason :=
| DenyReason_ParseError
| DenyReason_DomainMismatch
| DenyReason_UnknownWorkspace
| DenyReason_UnexposedPort
| DenyReason_SsrfGuard.
Inductive Decision :=
| Decision_Allow (target : Target) (wsid : string) (port : Z)
| Decision_Deny (reason : DenyReason).

Definition deny_as_str (r : DenyReason) : string :=
  match r with
  | DenyReason_ParseError => "parse_error"
  | DenyReason_DomainMismatch => "domain_mismatch"
  | DenyReason_UnknownWorkspace => "unknown_workspace"
  | DenyReason_UnexposedPort => "unexposed_port"
  | DenyReason_SsrfGuard => "ssrf_guard"
  end.

Definition is_link_local (ip : Ipv4Addr) : bool := (o1 ip =? 169) && (o2 ip =? 254).

(** The table is locked twice: [reg] is its content at the lookup, [reg'] at the
    later existence check. *)
Definition route_decision (host domain : string) (reg reg' : Routes) : Decision :=
  if negb (contains_char "." (bare_host host)) then Decision_Deny DenyReason_ParseError
  else
    match parse_ingress_host host domain with
    | Err IngressError_DomainMismatch => Decision_Deny DenyReason_DomainMismatch
    | Err IngressError_Parse => Decision_Deny DenyReason_ParseError
    | Ok (port, wsid) =>
        match resolve wsid port reg with
        | Some target =>
            if is_link_local (t_guest_ip target) then Decision_Allow target wsid port
            else Decision_Deny DenyReason_SsrfGuard
        | None =>
            if workspace_exists wsid reg' then Decision_Deny DenyReason_UnexposedPort
            else Decision_Deny DenyReason_UnknownWorkspace
        end
    end.

(** ** Forwarded headers *)

Section Headers.
(** [HeaderName::from_bytes], [HeaderValue::from_str], [HeaderValue::to_str]. *)
Context (header_name : string -> option string).
Context (header_value : string -> option string).
Context (value_to_str : string -> option string).

(** [HeaderMap]: a multimap from lower-case names to values. *)
Definition HeaderMap : Type := list (string * string).
Definition get_all (name : string) (h : HeaderMap) : list string :=
  snd <$> List.filter (fun p => String.eqb (fst p) name) h.
Definition header_remove (name : string) (h : HeaderMap) : HeaderMap :=
  List.filter (fun p => negb (String.eqb (fst p) name)) h.
Definition header_insert (name value : string) (h : HeaderMap) : HeaderMap :=
  header_remove name h ++ [(name, value)].

Definition conn_listed (h : HeaderMap) : list string :=
  v ← get_all "connection" h;
  match value_to_str v with
  | None => []
  | Some s => omap (fun tok => header_name (trim tok)) (split_on "," s)
  end.
Definition hop : list string :=
  ["connection"; "keep-alive"; "proxy-authenticate"; "proxy-authorization"; "te"; "trailer";
   "transfer-encoding"; "upgrade"].
Definition inject_one (h : HeaderMap) (nv : string * string) : HeaderMap :=
  match header_name (fst nv), header_value (snd nv) with
  | Some n, Some v => header_insert n v h
  | _, _ => h
  end.
Definition prepare_upstream_headers (h : HeaderMap) (inject : list (string * string)) : HeaderMap :=
  let listed := conn_listed h in
  let h := fold_left (fun h name => header_remove name h) hop h in
  let h := fold_left (fun h name => header_remove name h) listed h in
  fold_left inject_one inject h.

(** What [handle] leaves behind: the audit record it hands to the sink, and a
    local answer or the request sent to the guest.  [connected] and
    [handshaken] are the outcomes of [TcpStream::connect] and of the HTTP/1
    handshake. *)
Inductive AuditRecord :=
| route_allowed (host wsid : string) (port : Z)
| route_denied (host : string) (reason : DenyReason).
Inductive Handling :=
| Handling_respond (status : Z) (body : string)
| Handling_send (ip : Ipv4Addr) (port : Z) (h : HeaderMap).
Definition deny_response (status : Z) (r : DenyReason) : Handling :=
  Handling_respond status ("ingress: " +:+ deny_as_str r +:+ String "010" "").
Definition proxy (connected handshaken : bool) (h : HeaderMap) (ip : Ipv4Addr) (port : Z) : Handling :=
  if negb connected then deny_response 502 DenyReason_SsrfGuard
  else if negb handshaken then deny_response 502 DenyReason_SsrfGuard
  else Handling_send ip port h.
Definition handle (domain : string) (reg reg' : Routes) (connected handshaken : bool)
    (h : HeaderMap) : AuditRecord * Handling :=
  let host := default "" (v ← head (get_all "host" h); value_to_str v) in
  match route_decision host domain reg reg' with
  | Decision_Deny reason =>
      let code := match reason with DenyReason_DomainMismatch => 421 | _ => 404 end in
      (route_denied host reason, deny_response code reason)
  | Decision_Allow target wsid port =>
      (route_allowed host wsid port,
       proxy connected handshaken (prepare_upstream_headers h (t_inject_headers target))
         (t_guest_ip target) (t_port target))
  end.
End Headers.

(** ** Host grammar *)

(** The jailer identifier grammar [[a-zA-Z0-9-]{1,64}]. *)
Definition wsid_ok (w : string) : Prop := 1 <= len w <= 64 /\ all_chars wsid_char w = true.
Lemma wsid_ok_spec w :
  wsid_ok w <-> is_empty w || (64 <? len w) || negb (all_chars wsid_char w) = false.
Proof.
  unfold wsid_ok. rewrite !orb_false_iff, negb_false_iff, Z.ltb_ge.
  destruct w as [|c w]; [vm_compute; naive_solver|].
  assert (1 <= len (String c w)) by (unfold len; cbn [String.length]; lia). naive_solver lia.
Qed.

(** [host] is [{port}-{wsid}.{domain}], where [port_str] is what stands for the
    port. *)
Definition host_names (host domain port_str wsid : string) (port : Z) : Prop :=
  (exists dom, host = port_str +:+ String "-" wsid +:+ String "." dom /\
               to_ascii_lowercase dom = to_ascii_lowercase domain) /\
  contains_char "-" port_str = false /\ parse_uint U16_MAX port_str = Some port /\
  port <> 0 /\ wsid_ok wsid.

Lemma length_app_string s t : String.length (s +:+ t) = (String.length s + String.length t)%nat.
Proof. induction s; simpl; auto. Qed.
Lemma length_lower s : String.length (to_ascii_lowercase s) = String.length s.
Proof. unfold to_ascii_lowercase. induction s; simpl; auto. Qed.
Lemma substring_app s t : String.substring 0 (String.length s) (s +:+ t) = s.
Proof. induction s as [|c s IH]; simpl; [by destruct t|]. by rewrite IH. Qed.
Lemma lower_app_inv h p t :
  to_ascii_lowercase h = p +:+ t ->
  exists h1 h2, h = h1 +:+ h2 /\ to_ascii_lowercase h1 = p /\ to_ascii_lowercase h2 = t.
Proof.
  revert h. induction p as [|c p IH]; intros h; cbn [String.append].
  - intros Hh. by exists EmptyString, h.
  - destruct h as [|a h]; [done|]. intros [= Ha Hh].
    destruct (IH h Hh) as (h1 & h2 & -> & Hp & Ht).
    exists (String a h1), h2. split; [done|]. split; [|done].
    change (to_ascii_lowercase (String a h1)) with (String (to_ascii_lower a) (to_ascii_lowercase h1)).
    congruence.
Qed.
Lemma lower_dot c : to_ascii_lower c = "."%char -> c = "."%char.
Proof.
  unfold to_ascii_lower. destruct (is_ascii_uppercase c) eqn:E; [|done]. intros H.
  unfold is_ascii_uppercase, in_class in E. apply andb_true_iff in E as [E1 E2]. reflect_Z.
  apply (f_equal byte_of) in H. rewrite byte_of_char_of in H by lia.
  change (byte_of ".") with 46 in H. lia.
Qed.

(** The case-insensitive suffix test cuts the host at a dot before the domain. *)
Lemma domain_suffix_iff h domain n :
  (String.length <$> strip_suffix (String "." (to_ascii_lowercase domain)) (to_ascii_lowercase h))
    = Some n <->
  exists label dom, h = label +:+ String "." dom /\ String.length label = n /\
    to_ascii_lowercase dom = to_ascii_lowercase domain.
Proof.
  rewrite fmap_Some. split.
  - intros (p & Hp & ->). apply strip_suffix_Some, lower_app_inv in Hp
      as (h1 & h2 & -> & <- & Hh2).
    destruct h2 as [|c dom]; [done|]. injection Hh2 as Hc Hdom. apply lower_dot in Hc as ->.
    exists h1, dom. by rewrite length_lower.
  - intros (label & dom & -> & <- & Hdom). exists (to_ascii_lowercase label).
    rewrite length_lower. split; [|done]. apply strip_suffix_Some.
    unfold to_ascii_lowercase in *. rewrite map_chars_app. cbn [map_chars].
    rewrite Hdom. done.
Qed.

Lemma parse_ok_iff host domain port wsid :
  parse_ingress_host host domain = Ok (port, wsid) <->
  exists port_str, host_names (bare_host host) domain port_str wsid port.
Proof.
  unfold parse_ingress_host. rewrite bind_ok. setoid_rewrite ok_or_ok.
  setoid_rewrite domain_suffix_iff. set (h := bare_host host). split.
  - intros (n & (label & dom & Hh & <- & Hdom) & H).
    rewrite Hh, substring_app in H. apply bind_ok in H as ([ps w] & Hs & H).
    apply ok_or_ok, split_once_Some in Hs as [-> Hps].
    apply bind_ok in H as (p & Hp & H). apply ok_or_ok in Hp.
    destruct (Z.eqb_spec p 0) as [|Hp0]; [done|].
    destruct (_ || _ || _) eqn:Hw in H; [done|]. simplify_eq.
    exists ps. split; [|by rewrite wsid_ok_spec].
    exists dom. split; [|done]. by rewrite Hh, !string_app_assoc.
  - intros (ps & (dom & Hh & Hdom) & Hps & Hp & Hp0 & Hw). apply wsid_ok_spec in Hw.
    exists (String.length (ps +:+ String "-" wsid)). split.
    { exists (ps +:+ String "-" wsid), dom. by rewrite string_app_assoc. }
    rewrite Hh. change (String "-" wsid +:+ String "." dom)
      with (String "-" (wsid +:+ String "." dom)).
    replace (ps +:+ String "-" (wsid +:+ String "." dom))
      with ((ps +:+ String "-" wsid) +:+ String "." dom) by (by rewrite string_app_assoc).
    rewrite substring_app. rewrite (proj2 (split_once_Some "-" _ ps wsid)) by done.
    unfold mbind, result_bind, ok_or. rewrite Hp.
    destruct (Z.eqb_spec port 0); [done|]. by rewrite Hw.
Qed.
Lemma parse_ok_intro host domain port_str port wsid :
  host_names (bare_host host) domain port_str wsid port ->
  parse_ingress_host host domain = Ok (port, wsid).
Proof. intros H. apply parse_ok_iff. eauto. Qed.

(** C26: [parse_ingress_host] accepts exactly the Host values of the form
    [{port}-{wsid}.{domain}] (after cutting a [:authority-port] and white
    space): the domain compares case-insensitively, the port is a [u16] in
    1..=65535 cut at the first hyphen, and the workspace id follows the jailer
    grammar and keeps its case. *)
Theorem parse_ingress_host_iff host domain port wsid :
  parse_ingress_host host domain = Ok (port, wsid) <->
  exists port_str, host_names (bare_host host) domain port_str wsid port.
Proof. apply parse_ok_iff. Qed.

(** ** Routing *)

Lemma contains_char_app c s t : contains_char c (s +:+ t) = contains_char c s || contains_char c t.
Proof. apply any_char_app. Qed.
(** The dot check in front of the parser refuses nothing the parser accepts. *)
Lemma parsed_host_has_dot host domain r :
  parse_ingress_host host domain = Ok r -> contains_char "." (bare_host host) = true.
Proof.
  unfold parse_ingress_host. rewrite bind_ok. intros (n & Hn & _).
  apply ok_or_ok, domain_suffix_iff in Hn as (label & dom & -> & _).
  rewrite contains_char_app. cbn. by rewrite orb_true_r.
Qed.
Lemma resolve_Some wsid port g t :
  resolve wsid port g = Some t <->
  exists ws r, g !! wsid = Some ws /\ wr_ports ws !! port = Some r /\
    t = {| t_guest_ip := wr_guest_ip ws; t_port := port; t_inject_headers := pr_inject_headers r |}.
Proof.
  unfold resolve. destruct (g !! wsid) as [ws|]; cbn; [|naive_solver].
  destruct (wr_ports ws !! port) as [r|] eqn:E; cbn; naive_solver.
Qed.

(** A request is routed to a guest exactly when its Host parses to a
    (port, workspace) pair that is exposed at the moment of the lookup and
    whose guest address is in 169.254.0.0/16.  The target is the registered
    address and the named port: nothing outside the link-local pool and
    nothing unregistered is ever dialled, whatever the Host header says. *)
Theorem route_allow_iff host domain reg reg' t wsid port :
  route_decision host domain reg reg' = Decision_Allow t wsid port <->
  parse_ingress_host host domain = Ok (port, wsid) /\
  (exists ws r, reg !! wsid = Some ws /\ wr_ports ws !! port = Some r /\
     t = {| t_guest_ip := wr_guest_ip ws; t_port := port;
            t_inject_headers := pr_inject_headers r |}) /\
  o1 (t_guest_ip t) = 169 /\ o2 (t_guest_ip t) = 254.
Proof.
  rewrite <- resolve_Some. unfold route_decision.
  destruct (parse_ingress_host host domain) as [[p w]|e] eqn:Hp.
  - rewrite (parsed_host_has_dot _ _ _ Hp). cbn [negb].
    destruct (resolve w p reg) as [t'|] eqn:Hr.
    + unfold is_link_local. destruct (Z.eqb_spec (o1 (t_guest_ip t')) 169),
        (Z.eqb_spec (o2 (t_guest_ip t')) 254); cbn; naive_solver.
    + destruct (workspace_exists w reg'); naive_solver.
  - destruct (negb _); [naive_solver|]. destruct e; naive_solver.
Qed.

(** The public URL of an exposed port, with an optional [:authority-port]. *)
Definition public_host (port : Z) (wsid domain : string) : string :=
  show_uint port +:+ String "-" wsid +:+ String "." domain.
Definition authority_ok (a : string) : Prop := a = EmptyString \/ exists p, a = String ":" p.
(** A configured ingress domain: printable ASCII without a colon. *)
Definition domain_ok (d : string) : Prop :=
  all_chars is_ascii_graphic d = true /\ contains_char ":" d = false.

Lemma digit_graphic c : is_ascii_digit c = true -> is_ascii_graphic c = true.
Proof.
  unfold is_ascii_digit, is_ascii_graphic, in_class. rewrite !andb_true_iff, !Z.leb_le. lia.
Qed.
Lemma wsid_char_graphic c : wsid_char c = true -> is_ascii_graphic c = true.
Proof.
  unfold wsid_char. rewrite orb_true_iff. intros [H|H].
  - revert H. unfold is_ascii_alphanumeric, is_ascii_digit, is_ascii_lowercase,
      is_ascii_uppercase, is_ascii_graphic, in_class.
    rewrite !orb_true_iff, !andb_true_iff, !Z.leb_le. lia.
  - by apply Ascii.eqb_eq in H as ->.
Qed.
Lemma public_host_bare port wsid domain a :
  0 <= port -> wsid_ok wsid -> domain_ok domain -> authority_ok a ->
  bare_host (public_host port wsid domain +:+ a) = public_host port wsid domain.
Proof.
  intros Hp [_ Hw] [Hd Hdc] Ha. unfold bare_host.
  pose proof (show_digits_all 20 port Hp) as Hs. change (show_digits 20 port) with (show_uint port) in Hs.
  assert (Hc : contains_char ":" (public_host port wsid domain) = false).
  { unfold public_host. rewrite !contains_char_app.
    rewrite (all_chars_not_contains _ ":" _ eq_refl Hs). cbn.
    change (any_char _ wsid) with (contains_char ":" wsid).
    change (any_char _ domain) with (contains_char ":" domain).
    by rewrite (all_chars_not_contains wsid_char ":" wsid eq_refl Hw), Hdc. }
  assert (head (split_on ":" (public_host port wsid domain +:+ a))
    = Some (public_host port wsid domain)) as ->.
  { destruct Ha as [->|[p ->]].
    - by rewrite string_app_nil_r, split_on_single.
    - by rewrite split_on_app. }
  cbn [default]. apply trim_graphic.
  - unfold public_host. pose proof (show_uint_nonempty port). by destruct (show_uint port).
  - unfold public_host. rewrite !all_chars_app.
    rewrite (all_chars_impl _ _ _ digit_graphic Hs). cbn.
    by rewrite (all_chars_impl _ _ _ wsid_char_graphic Hw), Hd.
Qed.
Lemma public_host_parses port wsid domain a :
  1 <= port <= U16_MAX -> wsid_ok wsid -> domain_ok domain -> authority_ok a ->
  parse_ingress_host (public_host port wsid domain +:+ a) domain = Ok (port, wsid).
Proof.
  intros Hp Hw Hd Ha. apply parse_ok_intro with (show_uint port).
  rewrite public_host_bare by (done || lia).
  split; [by exists domain|]. split.
  - apply (all_chars_not_contains is_ascii_digit); [done|]. apply show_digits_all. lia.
  - split; [|split; [lia|done]]. apply parse_show_uint; unfold U16_MAX, U64_MAX in *; lia.
Qed.
Lemma route_public_host port wsid domain a reg reg' :
  1 <= port <= U16_MAX -> wsid_ok wsid -> domain_ok domain -> authority_ok a ->
  route_decision (public_host port wsid domain +:+ a) domain reg reg' =
  match resolve wsid port reg with
  | Some t => if is_link_local (t_guest_ip t) then Decision_Allow t wsid port
              else Decision_Deny DenyReason_SsrfGuard
  | None => if workspace_exists wsid reg' then Decision_Deny DenyReason_UnexposedPort
            else Decision_Deny DenyReason_UnknownWorkspace
  end.
Proof.
  intros Hp Hw Hd Ha. pose proof (public_host_parses port wsid domain a Hp Hw Hd Ha) as Hok.
  unfold route_decision. by rewrite (parsed_host_has_dot _ _ _ Hok), Hok.
Qed.

Lemma expose_port_registered wsid route g ws :
  g !! wsid = Some ws ->
  expose_port wsid route g =
    (Ok tt, <[wsid := {| wr_guest_ip := wr_guest_ip ws;
                         wr_ports := <[pr_port route := route]> (wr_ports ws) |}]> g).
Proof. intros H. unfold expose_port, mbind, M_bind, get, lift. by rewrite H. Qed.
Lemma unexpose_port_exposed wsid port g ws :
  g !! wsid = Some ws -> is_Some (wr_ports ws !! port) ->
  unexpose_port wsid port g =
    (Ok tt, <[wsid := {| wr_guest_ip := wr_guest_ip ws;
                         wr_ports := delete port (wr_ports ws) |}]> g).
Proof.
  intros H [r Hr]. unfold unexpose_port, mbind, M_bind, get, lift.
  rewrite H. cbn [ok_or]. by rewrite Hr.
Qed.

(** The life of an exposed port, end to end.  On a registered workspace
    with a link-local address, [expose_port] succeeds and the public URL
    [{port}-{wsid}.{domain}], with or without an authority port, is then routed
    to that guest and port with the route's headers; the routes of other
    workspaces are untouched; [unexpose_port] succeeds and makes the same URL
    an unexposed port; [remove_workspace] makes it an unknown workspace. *)
Theorem exposed_port_is_reachable domain wsid route a g ws :
  domain_ok domain -> wsid_ok wsid -> authority_ok a -> 1 <= pr_port route <= U16_MAX ->
  g !! wsid = Some ws -> is_link_local (wr_guest_ip ws) = true ->
  let port := pr_port route in
  let host := public_host port wsid domain +:+ a in
  exists g1 g2,
    expose_port wsid route g = (Ok tt, g1) /\
    (forall reg', route_decision host domain g1 reg' =
       Decision_Allow {| t_guest_ip := wr_guest_ip ws; t_port := port;
                         t_inject_headers := pr_inject_headers route |} wsid port) /\
    (forall w p, w <> wsid \/ p <> port -> resolve w p g1 = resolve w p g) /\
    unexpose_port wsid port g1 = (Ok tt, g2) /\
    route_decision host domain g2 g2 = Decision_Deny DenyReason_UnexposedPort /\
    route_decision host domain (remove_workspace wsid g1) (remove_workspace wsid g1)
      = Decision_Deny DenyReason_UnknownWorkspace.
Proof.
  intros Hd Hw Ha Hp Hg Hl port host. subst host.
  exists (<[wsid := {| wr_guest_ip := wr_guest_ip ws; wr_ports := <[port := route]> (wr_ports ws) |}]> g).
  exists (<[wsid := {| wr_guest_ip := wr_guest_ip ws;
                       wr_ports := delete port (<[port := route]> (wr_ports ws)) |}]>
          (<[wsid := {| wr_guest_ip := wr_guest_ip ws; wr_ports := <[port := route]> (wr_ports ws) |}]> g)).
  split; [by apply expose_port_registered|].
  split; [|split; [|split; [|split]]].
  - intros reg'. rewrite route_public_host by done. unfold resolve.
    rewrite lookup_insert_eq. cbn [mbind option_bind wr_ports wr_guest_ip t_guest_ip].
    rewrite lookup_insert_eq. cbn [mbind option_bind wr_ports wr_guest_ip t_guest_ip].
    by rewrite Hl.
  - intros w p Hne. unfold resolve. destruct (decide (w = wsid)) as [->|Hww].
    + rewrite lookup_insert_eq, Hg. cbn [mbind option_bind wr_ports wr_guest_ip t_guest_ip].
    rewrite lookup_insert_ne by naive_solver. done.
    + by rewrite lookup_insert_ne.
  - erewrite unexpose_port_exposed;
      [|apply lookup_insert_eq|cbn [wr_ports]; rewrite lookup_insert_eq; by eexists].
    done.
  - rewrite route_public_host by done. unfold resolve, workspace_exists.
    rewrite lookup_insert_eq. cbn [mbind option_bind wr_ports wr_guest_ip t_guest_ip].
    rewrite lookup_delete_eq. cbn [mbind option_bind wr_ports wr_guest_ip t_guest_ip].
    rewrite bool_decide_true; [done|]. eauto.
  - rewrite route_public_host by done. unfold resolve, workspace_exists, remove_workspace.
    rewrite lookup_delete_eq. cbn [mbind option_bind wr_ports wr_guest_ip t_guest_ip].
    done.
Qed.
Lemma exposed_port_is_reachable_witness :
  let g := upsert_workspace "ws-1" {| o1 := 169; o2 := 254; o3 := 7; o4 := 2 |} [] ∅ in
  exists g1, expose_port "ws-1" {| pr_port := 8080; pr_inject_headers := [] |} g = (Ok tt, g1) /\
    route_decision "8080-ws-1.edge.example:443" "edge.example" g1 g1 =
      Decision_Allow {| t_guest_ip := {| o1 := 169; o2 := 254; o3 := 7; o4 := 2 |};
                        t_port := 8080; t_inject_headers := [] |} "ws-1" 8080.
Proof.
  destruct (exposed_port_is_reachable "edge.example" "ws-1"
    {| pr_port := 8080; pr_inject_headers := [] |} ":443"
    (upsert_workspace "ws-1" {| o1 := 169; o2 := 254; o3 := 7; o4 := 2 |} [] ∅)
    {| wr_guest_ip := {| o1 := 169; o2 := 254; o3 := 7; o4 := 2 |}; wr_ports := ∅ |})
    as (g1 & g2 & He & Hr & _).
  - done.
  - split; [split; vm_compute; congruence|done].
  - right. by exists "443".
  - split; vm_compute; congruence.
  - done.
  - done.
  - exists g1. split; [exact He|exact (Hr g1)].
Defined.

(** ** Forwarded headers *)

Lemma get_all_remove n m h :
  get_all n (header_remove m h) = if String.eqb m n then [] else get_all n h.
Proof.
  unfold get_all, header_remove. induction h as [|[k v] h IH]; cbn.
  - by destruct (String.eqb m n).
  - destruct (String.eqb_spec k m) as [->|Hkm]; cbn.
    + rewrite IH. destruct (String.eqb_spec m n); done.
    + destruct (String.eqb_spec k n) as [->|Hkn]; cbn; rewrite IH; [|done].
      destruct (String.eqb_spec m n); [congruence|done].
Qed.
Lemma get_all_insert n m v h :
  get_all n (header_insert m v h) = if String.eqb m n then [v] else get_all n h.
Proof.
  unfold header_insert. transitivity (get_all n (header_remove m h) ++ get_all n [(m, v)]).
  - unfold get_all. by rewrite List.filter_app, fmap_app.
  - rewrite get_all_remove. unfold get_all at 2. cbn.
    destruct (String.eqb m n); cbn; [done|]. apply app_nil_r.
Qed.
Lemma get_all_remove_list n l h :
  get_all n (fold_left (fun h name => header_remove name h) l h) =
  if bool_decide (n ∈ l) then [] else get_all n h.
Proof.
  revert h. induction l as [|m l IH]; intros h; cbn [fold_left].
  - by rewrite bool_decide_false by apply not_elem_of_nil.
  - rewrite IH, get_all_remove. destruct (String.eqb_spec m n) as [->|Hne].
    + rewrite (bool_decide_true (n ∈ n :: l)) by left. by case_bool_decide.
    + rewrite (bool_decide_ext (n ∈ m :: l) (n ∈ l)); [done|].
      rewrite elem_of_cons. naive_solver.
Qed.

Section HeaderTheorems.
Context (header_name : string -> option string).
Context (header_value : string -> option string).
Context (value_to_str : string -> option string).

(** The value the last valid injected header with this name sets, if any. *)
Fixpoint injected (n : string) (inject : list (string * string)) : option string :=
  match inject with
  | [] => None
  | (k, v) :: r =>
      match injected n r with
      | Some w => Some w
      | None =>
          match header_name k, header_value v with
          | Some k', Some v' => if String.eqb k' n then Some v' else None
          | _, _ => None
          end
      end
  end.
Lemma get_all_inject n inject h :
  get_all n (fold_left (inject_one header_name header_value) inject h) =
  match injected n inject with Some v => [v] | None => get_all n h end.
Proof.
  revert h. induction inject as [|[k v] r IH]; intros h; cbn [fold_left injected]; [done|].
  rewrite IH. destruct (injected n r); [done|]. unfold inject_one. cbn [fst snd].
  destruct (header_name k) as [k'|]; [|done]. destruct (header_value v) as [v'|]; [|done].
  rewrite get_all_insert. by destruct (String.eqb k' n).
Qed.

(** C35: The headers a guest receives, name by name.  A name with a valid
    configured header carries exactly the configured value: the client can
    neither override it, add a second value, nor strip it by listing it in
    [Connection].  Any other hop-by-hop name, and any name the client listed in
    [Connection], is absent; every remaining name keeps its values. *)
Theorem upstream_headers n h inject :
  get_all n (prepare_upstream_headers header_name header_value value_to_str h inject) =
  match injected n inject with
  | Some v => [v]
  | None =>
      if bool_decide (n ∈ hop ++ conn_listed header_name value_to_str h) then [] else get_all n h
  end.
Proof.
  unfold prepare_upstream_headers. rewrite get_all_inject.
  destruct (injected n inject); [done|]. rewrite !get_all_remove_list.
  rewrite (bool_decide_ext (n ∈ hop ++ _)
    (n ∈ hop \/ n ∈ conn_listed header_name value_to_str h)) by apply elem_of_app.
  rewrite bool_decide_or. by repeat case_bool_decide.
Qed.
End HeaderTheorems.
