(* ===== verification/Network.v ===== *)
(** * Per-workspace networking ([crates/ne-supervisor/src/network.rs])

    The slot pool, the policy validators, and [setup]/[teardown] with every
    command they issue.  The host tools ([ip], [iptables], [sysctl]) and the
    spawned filters are outside the program: how each invocation ends is an
    oracle that may depend on everything issued before it, and the commands
    themselves are recorded as a log. *)

From S2P Require Import Prelude Text Crypto.

Definition MAX_SLOT : Z := 253.
Definition PRIVACY_ROUTER_PORT : Z := 8888.

Inductive NetworkError :=
| NetworkError_Command (program stderr : string)
| NetworkError_Spawn (program : string)
| NetworkError_PoolExhausted
| NetworkError_InvalidWorkspaceId (id : string)
| NetworkError_InvalidCidr (cidr : string)
| NetworkError_InvalidHostname (host : string).

(** ** Address layout of a slot *)

(** [format!("169.254.{slot}{rest}")]. *)
Definition slot_addr (slot : Z) (rest : string) : string := "169.254." +:+ show_uint slot +:+ rest.
Record SlotIpLayout := {
  l_host_ip : string; l_workspace_ip : string; l_tap_gateway_ip : string;
  l_guest_eth_ip : string; l_guest_subnet_cidr : string; l_netmask : string;
}.
Definition for_slot (slot : Z) : SlotIpLayout := {|
  l_host_ip := slot_addr slot ".1";
  l_workspace_ip := slot_addr slot ".2";
  l_tap_gateway_ip := slot_addr slot ".5";
  l_guest_eth_ip := slot_addr slot ".6";
  l_guest_subnet_cidr := slot_addr slot ".4/30";
  l_netmask := "255.255.255.252";
|}.
Definition ip_boot_arg (l : SlotIpLayout) : string :=
  "ip=" +:+ l_guest_eth_ip l +:+ "::" +:+ l_tap_gateway_ip l +:+ ":" +:+ l_netmask l
    +:+ "::eth0:off".

(** ** Policy validation *)

Record NetworkPolicy := {
  enable_egress : bool;
  allow_cidrs : list string;
  allow_hostnames : list string;
  enable_privacy_router : bool;
}.

Definition hostname_char (c : ascii) : bool := is_ascii_alphanumeric c || Ascii.eqb c "-".
Definition validate_label (label : string) : bool :=
  negb (is_empty label || (63 <? len label)) &&
  negb (starts_with "-" label || ends_with "-" label) &&
  all_chars hostname_char label.
Definition validate_hostname (host : string) : result NetworkError unit :=
  let trimmed := trim host in
  if is_empty trimmed || (253 <? len trimmed) then Err (NetworkError_InvalidHostname host)
  else
    let stripped := default trimmed (strip_prefix "*." trimmed) in
    let stripped := trim_end_matches "." stripped in
    if is_empty stripped then Err (NetworkError_InvalidHostname host)
    else if forallb validate_label (split_on "." stripped) then Ok tt
    else Err (NetworkError_InvalidHostname host).

Definition validate_cidr (cidr : string) : result NetworkError unit :=
  let '(addr, prefix) :=
    match split_once "/" cidr with
    | Some (a, p) => (a, Some p)
    | None => (cidr, None)
    end in
  let octets := split_on "." addr in
  if negb (length octets =? 4)%nat then Err (NetworkError_InvalidCidr cidr)
  else if negb (forallb (fun o => bool_decide (is_Some (parse_uint U8_MAX o))) octets)
  then Err (NetworkError_InvalidCidr cidr)
  else
    match prefix with
    | None => Ok tt
    | Some p =>
        match parse_uint U8_MAX p with
        | Some n => if n <=? 32 then Ok tt else Err (NetworkError_InvalidCidr cidr)
        | None => Err (NetworkError_InvalidCidr cidr)
        end
    end.

(** [for x in xs { f(x)?; }]. *)
Fixpoint validate_all {E A} (f : A -> result E unit) (l : list A) : result E unit :=
  match l with
  | [] => Ok tt
  | x :: r => _ ← f x; validate_all f r
  end.

(** ** Controller state *)

Record Inner := {
  upstream_iface : string;
  dns_filter_binary : option string;
  dns_upstream : string;
  privacy_router_binary : option string;
  privacy_router_policy : option string;
  audit : bool;
}.
(** What the controller does to the host, in order. *)
Inductive Action :=
| Act_run (program : string) (args : list string)
| Act_spawn (args : list string)
| Act_signal (pid : Z)
| Act_abort_relay.
Record NetState := { slots : list bool; log : list Action }.
Definition slots_new : list bool := replicate 254 true.

Record NetworkSlot := {
  ns_workspace_id : string; ns_short_id : string; ns_slot : Z; ns_netns : string;
  ns_veth_host : string; ns_veth_guest : string; ns_tap : string;
  ns_host_ip : string; ns_workspace_ip : string; ns_prefix : Z;
  ns_tap_gateway_ip : string; ns_guest_eth_ip : string;
  ns_host_route_installed : bool; ns_forward_chain : string; ns_masquerade_installed : bool;
  ns_dns_filter_pid : option Z; ns_dns_audit_relay : bool;
  ns_privacy_router_pid : option Z; ns_privacy_audit_relay : bool;
}.

Inductive ExecOutcome := Exec_ok | Exec_spawn_failed | Exec_failed (stderr : string).
Inductive SpawnOutcome := Spawned (pid : Z) | Spawn_failed | Spawn_no_pid.

(** First free slot from 1 up. *)
Fixpoint first_free (n : nat) (i : nat) (s : list bool) : option nat :=
  match n with
  | O => None
  | S n' => if default false (s !! i) then Some i else first_free n' (S i) s
  end.
Definition allocate_slot : M NetState NetworkError Z :=
  st ← get;
  match first_free 253 1 (slots st) with
  | Some i =>
      put {| slots := <[i := false]> (slots st); log := log st |} ;;;
      mret (Z.of_nat i)
  | None => throw NetworkError_PoolExhausted
  end.
Definition release_slot (slot : Z) : M NetState NetworkError unit :=
  modify (fun st => {| slots := <[Z.to_nat slot := true]> (slots st); log := log st |}).

(** ** Commands *)

Section Controller.
Context {C : Crypto}.
Context (exec : list Action -> string -> list string -> ExecOutcome).
Context (spawn : list Action -> list string -> SpawnOutcome).
Context (inner : Inner).
Local Abbreviation Net := (M NetState NetworkError).

Definition record (a : Action) : Net unit :=
  modify (fun st => {| slots := slots st; log := log st ++ [a] |}).

Definition run (program_alias : string) (args : list string) : Net unit :=
  if negb (String.eqb program_alias "ip" || String.eqb program_alias "iptables")
  then throw (NetworkError_Spawn program_alias)
  else
    st ← get;
    record (Act_run program_alias args) ;;;
    match exec (log st) program_alias args with
    | Exec_ok => mret tt
    | Exec_spawn_failed => throw (NetworkError_Spawn program_alias)
    | Exec_failed stderr => throw (NetworkError_Command program_alias stderr)
    end.
Definition run_in_netns (netns program_alias : string) (args : list string) : Net unit :=
  run "ip" (["netns"; "exec"; netns; program_alias] ++ args).
Fixpoint for_each {A} (f : A -> Net unit) (l : list A) : Net unit :=
  match l with
  | [] => mret tt
  | x :: r => f x ;;; for_each f r
  end.

Definition install_forward_chain (slot : Z) (chain : string) (policy : NetworkPolicy) : Net unit :=
  let src := slot_addr slot ".0/30" in
  run "iptables" ["-N"; chain] ;;;
  run "iptables" ["-A"; chain; "-m"; "conntrack"; "--ctstate"; "ESTABLISHED,RELATED"; "-j"; "ACCEPT"] ;;;
  (if bool_decide (allow_cidrs policy = []) && enable_egress policy then
     run "iptables" ["-A"; chain; "-j"; "ACCEPT"]
   else
     for_each (fun cidr => run "iptables" ["-A"; chain; "-d"; cidr; "-j"; "ACCEPT"])
       (allow_cidrs policy) ;;;
     run "iptables" ["-A"; chain; "-j"; "DROP"]) ;;;
  run "iptables" ["-A"; "FORWARD"; "-s"; src; "-j"; chain].
Definition uninstall_forward_chain (slot : Z) (chain : string) : Net unit :=
  let src := slot_addr slot ".0/30" in
  run "iptables" ["-D"; "FORWARD"; "-s"; src; "-j"; chain] ;;;
  run "iptables" ["-F"; chain] ;;;
  run "iptables" ["-X"; chain].

Inductive AntiSpoofOp := AntiSpoofOp_Insert | AntiSpoofOp_Delete.
Definition antispoof_forward_argv (op : AntiSpoofOp) (veth_host : string) (slot : Z) : list string :=
  let src := slot_addr slot ".0/30" in
  match op with
  | AntiSpoofOp_Insert => ["-I"; "FORWARD"; "1"]
  | AntiSpoofOp_Delete => ["-D"; "FORWARD"]
  end ++ ["-i"; veth_host; "!"; "-s"; src; "-j"; "DROP"].
Definition install_antispoof_rule (veth_host : string) (slot : Z) : Net unit :=
  run "iptables" (antispoof_forward_argv AntiSpoofOp_Insert veth_host slot).
Definition uninstall_antispoof_rule (veth_host : string) (slot : Z) : Net unit :=
  run "iptables" (antispoof_forward_argv AntiSpoofOp_Delete veth_host slot).

Definition masquerade_argv (op : string) (slot : Z) : list string :=
  ["-t"; "nat"; op; "POSTROUTING"; "-s"; slot_addr slot ".0/30"; "-o"; upstream_iface inner; "-j";
   "MASQUERADE"].
Definition add_masquerade_rule (slot : Z) : Net unit := run "iptables" (masquerade_argv "-A" slot).
Definition delete_masquerade_rule (slot : Z) : Net unit := run "iptables" (masquerade_argv "-D" slot).

Definition dns_filter_args (filter_bin netns listen upstream : string) (allow : list string)
    : list string :=
  ["netns"; "exec"; netns; filter_bin; "dns-filter"; "--listen"; listen; "--upstream"; upstream]
  ++ mjoin ((fun h => ["--allow"; h]) <$> allow).
Definition privacy_router_args (router_bin netns listen policy : string) : list string :=
  ["netns"; "exec"; netns; router_bin; "privacy-router"; "--listen"; listen; "--policy"; policy;
   "--emit-audit-stdout"].
(** Start a child through [ip netns exec]; the stdout relay exists exactly when
    the controller has an audit log. *)
Definition spawn_child (program : string) (args : list string) : Net (Z * bool) :=
  st ← get;
  record (Act_spawn args) ;;;
  match spawn (log st) args with
  | Spawned pid => mret (pid, audit inner)
  | _ => throw (NetworkError_Spawn program)
  end.
Definition spawn_dns_filter (netns listen_addr filter_bin : string) (policy : NetworkPolicy)
    : Net (Z * bool) :=
  spawn_child "ip netns exec"
    (dns_filter_args filter_bin netns (listen_addr +:+ ":53") (dns_upstream inner)
       (allow_hostnames policy)).
Definition spawn_privacy_router (netns listen_addr router_bin policy_path : string)
    : Net (Z * bool) :=
  spawn_child "ip netns exec (privacy-router)"
    (privacy_router_args router_bin netns
       (listen_addr +:+ ":" +:+ show_uint PRIVACY_ROUTER_PORT) policy_path).
Definition dnat_argv (chain proto dport dest : string) : list string :=
  ["-t"; "nat"; "-A"; chain; "-p"; proto; "--dport"; dport; "-j"; "DNAT"; "--to-destination"; dest].
Definition install_privacy_dnat (netns host_addr : string) : Net unit :=
  for_each (fun chain =>
      run_in_netns netns "iptables"
        (dnat_argv chain "tcp" "80" (host_addr +:+ ":" +:+ show_uint PRIVACY_ROUTER_PORT)))
    ["OUTPUT"; "PREROUTING"].
Definition install_dns_redirect (netns host_addr : string) : Net unit :=
  for_each (fun proto =>
      run_in_netns netns "iptables" (dnat_argv "OUTPUT" proto "53" (host_addr +:+ ":53")) ;;;
      run_in_netns netns "iptables" (dnat_argv "PREROUTING" proto "53" (host_addr +:+ ":53")))
    ["udp"; "tcp"].

(** ** Setup and teardown *)

Definition short_id_for (workspace_id : string) : string :=
  hex_encode (take 4 (sha256 (bytes_of workspace_id))).
Record Names := {
  n_netns : string; n_veth_host : string; n_veth_guest : string; n_tap : string; n_chain : string }.
Definition names_of (short_id : string) : Names := {|
  n_netns := "ne-" +:+ short_id; n_veth_host := "vh-" +:+ short_id;
  n_veth_guest := "vg-" +:+ short_id; n_tap := "tap-" +:+ short_id;
  n_chain := "NE-FWD-" +:+ short_id |}.

(** The checks [setup] makes before it takes a slot. *)
Definition setup_checks (workspace_id : string) (policy : NetworkPolicy) : result NetworkError unit :=
  let n := names_of (short_id_for workspace_id) in
  _ ← (if (15 <? len (n_veth_host n)) || (15 <? len (n_veth_guest n)) || (15 <? len (n_tap n))
       then Err (NetworkError_InvalidWorkspaceId workspace_id) else Ok tt);
  _ ← (if 28 <? len (n_chain n)
       then Err (NetworkError_InvalidWorkspaceId workspace_id) else Ok tt);
  _ ← validate_all validate_cidr (allow_cidrs policy);
  validate_all validate_hostname (allow_hostnames policy).

(** The namespace, links, addresses and routes of a slot. *)
Definition provision_links (n : Names) (slot : Z) : Net unit :=
  let host_addr := slot_addr slot ".1" in
  let guest_addr := slot_addr slot ".2" in
  let layout := for_slot slot in
  run "ip" ["netns"; "add"; n_netns n] ;;;
  run "ip" ["link"; "add"; n_veth_host n; "type"; "veth"; "peer"; "name"; n_veth_guest n] ;;;
  run "ip" ["link"; "set"; n_veth_guest n; "netns"; n_netns n] ;;;
  run "ip" ["addr"; "add"; host_addr +:+ "/30"; "dev"; n_veth_host n] ;;;
  run "ip" ["link"; "set"; n_veth_host n; "up"] ;;;
  run_in_netns (n_netns n) "ip" ["addr"; "add"; guest_addr +:+ "/30"; "dev"; n_veth_guest n] ;;;
  run_in_netns (n_netns n) "ip" ["link"; "set"; n_veth_guest n; "up"] ;;;
  run_in_netns (n_netns n) "ip" ["link"; "set"; "lo"; "up"] ;;;
  run_in_netns (n_netns n) "ip" ["tuntap"; "add"; n_tap n; "mode"; "tap"] ;;;
  run_in_netns (n_netns n) "ip" ["link"; "set"; n_tap n; "up"] ;;;
  run_in_netns (n_netns n) "ip" ["route"; "add"; "default"; "via"; host_addr] ;;;
  run_in_netns (n_netns n) "ip" ["addr"; "add"; l_tap_gateway_ip layout +:+ "/30"; "dev"; n_tap n] ;;;
  run_in_netns (n_netns n) "sysctl" ["-w"; "net.ipv4.ip_forward=1"] ;;;
  run_in_netns (n_netns n) "iptables"
    ["-t"; "nat"; "-A"; "POSTROUTING"; "-s"; l_guest_subnet_cidr layout; "-o"; n_veth_guest n; "-j";
     "SNAT"; "--to-source"; l_workspace_ip layout] ;;;
  run "ip" ["route"; "add"; l_guest_subnet_cidr layout; "via"; l_workspace_ip layout; "dev";
            n_veth_host n].

Definition start_dns_filter (n : Names) (guest_addr : string) (policy : NetworkPolicy)
    : Net (option (Z * bool)) :=
  if bool_decide (allow_hostnames policy = []) then mret None
  else match dns_filter_binary inner with
       | Some bin =>
           r ← spawn_dns_filter (n_netns n) guest_addr bin policy;
           install_dns_redirect (n_netns n) guest_addr ;;;
           mret (Some r)
       | None => mret None
       end.
Definition start_privacy_router (n : Names) (guest_addr : string) (policy : NetworkPolicy)
    : Net (option (Z * bool)) :=
  if negb (enable_privacy_router policy) then mret None
  else match privacy_router_binary inner, privacy_router_policy inner with
       | Some bin, Some path =>
           r ← spawn_privacy_router (n_netns n) guest_addr bin path;
           install_privacy_dnat (n_netns n) guest_addr ;;;
           mret (Some r)
       | _, _ => mret None
       end.

Definition setup (workspace_id : string) (policy : NetworkPolicy) : Net NetworkSlot :=
  let short_id := short_id_for workspace_id in
  let n := names_of short_id in
  lift (setup_checks workspace_id policy) ;;;
  slot ← allocate_slot;
  let guest_addr := slot_addr slot ".2" in
  let layout := for_slot slot in
  provision_links n slot ;;;
  install_forward_chain slot (n_chain n) policy ;;;
  install_antispoof_rule (n_veth_host n) slot ;;;
  (if enable_egress policy then add_masquerade_rule slot else mret tt) ;;;
  dns ← start_dns_filter n guest_addr policy;
  privacy ← start_privacy_router n guest_addr policy;
  mret {|
    ns_workspace_id := workspace_id; ns_short_id := short_id; ns_slot := slot;
    ns_netns := n_netns n; ns_veth_host := n_veth_host n; ns_veth_guest := n_veth_guest n;
    ns_tap := n_tap n; ns_host_ip := slot_addr slot ".1"; ns_workspace_ip := guest_addr;
    ns_prefix := 30; ns_tap_gateway_ip := l_tap_gateway_ip layout;
    ns_guest_eth_ip := l_guest_eth_ip layout; ns_host_route_installed := true;
    ns_forward_chain := n_chain n; ns_masquerade_installed := enable_egress policy;
    ns_dns_filter_pid := fst <$> dns; ns_dns_audit_relay := default false (snd <$> dns);
    ns_privacy_router_pid := fst <$> privacy;
    ns_privacy_audit_relay := default false (snd <$> privacy) |}.

(** A step whose failure is only logged. *)
Definition best_effort (m : Net unit) : Net unit := fun st => (Ok tt, snd (m st)).
Definition when (b : bool) (m : Net unit) : Net unit := if b then m else mret tt.
Definition signal_opt (pid : option Z) : Net unit :=
  match pid with Some p => record (Act_signal p) | None => mret tt end.

Definition teardown (s : NetworkSlot) : Net unit :=
  when (ns_masquerade_installed s) (best_effort (delete_masquerade_rule (ns_slot s))) ;;;
  best_effort (uninstall_forward_chain (ns_slot s) (ns_forward_chain s)) ;;;
  best_effort (uninstall_antispoof_rule (ns_veth_host s) (ns_slot s)) ;;;
  signal_opt (ns_dns_filter_pid s) ;;;
  when (ns_dns_audit_relay s) (record Act_abort_relay) ;;;
  signal_opt (ns_privacy_router_pid s) ;;;
  when (ns_privacy_audit_relay s) (record Act_abort_relay) ;;;
  when (ns_host_route_installed s)
    (best_effort (run "ip" ["route"; "del"; l_guest_subnet_cidr (for_slot (ns_slot s)); "via";
                            ns_workspace_ip s; "dev"; ns_veth_host s])) ;;;
  best_effort (run "ip" ["netns"; "del"; ns_netns s]) ;;;
  best_effort (run "ip" ["link"; "del"; ns_veth_host s]) ;;;
  release_slot (ns_slot s).
End Controller.

(** ** The slot pool *)

Lemma first_free_Some n i s j :
  first_free n i s = Some j -> (i <= j < i + n)%nat /\ s !! j = Some true.
Proof.
  revert i. induction n as [|n IH]; intros i; cbn; [done|].
  destruct (s !! i) as [[]|] eqn:E; cbn; intros H.
  - simplify_eq. split; [lia|done].
  - apply IH in H as [? ?]. split; [lia|done].
  - apply IH in H as [? ?]. split; [lia|done].
Qed.
Lemma first_free_least n i s j k :
  first_free n i s = Some j -> (i <= k < j)%nat -> s !! k <> Some true.
Proof.
  revert i. induction n as [|n IH]; intros i; cbn; [done|].
  destruct (s !! i) as [[]|] eqn:E; cbn; intros H Hk; simplify_eq; try lia;
    destruct (decide (k = i)) as [->|]; try congruence; apply (IH (S i)); auto; lia.
Qed.
Lemma first_free_None n i s j :
  first_free n i s = None -> (i <= j < i + n)%nat -> s !! j <> Some true.
Proof.
  revert i. induction n as [|n IH]; intros i; cbn; [lia|].
  destruct (s !! i) as [[]|] eqn:E; cbn; [done|..]; intros H Hj;
    destruct (decide (j = i)) as [->|]; try congruence; apply (IH (S i)); auto; lia.
Qed.
Lemma allocate_slot_eq st :
  allocate_slot st =
  match first_free 253 1 (slots st) with
  | Some i => (Ok (Z.of_nat i), {| slots := <[i := false]> (slots st); log := log st |})
  | None => (Err NetworkError_PoolExhausted, st)
  end.
Proof. unfold allocate_slot. unfold mbind, M_bind, get. by destruct (first_free _ _ _). Qed.
#[global] Arguments first_free : simpl never.

(** The pool as its users see it.  A slot index is held from the allocation in
    [setup] until [teardown] releases it; a failed [setup] drops the index
    without releasing it. *)
Inductive pool_op :=
| Pool_allocate
| Pool_release (slot : Z)
| Pool_lose (slot : Z).
Definition pool_run (o : pool_op) (p : NetState * list Z) : NetState * list Z :=
  let '(st, held) := p in
  match o with
  | Pool_allocate =>
      match allocate_slot st with
      | (Ok i, st') => (st', i :: held)
      | (Err _, st') => (st', held)
      end
  | Pool_release i =>
      if bool_decide (i ∈ held) then (snd (release_slot i st), filter (.≠ i) held) else p
  | Pool_lose i => (st, filter (.≠ i) held)
  end.

Record pool_inv (p : NetState * list Z) : Prop := {
  pi_length : length (slots p.1) = 254%nat;
  pi_nodup : NoDup p.2;
  pi_taken : Forall (fun i => 1 <= i <= MAX_SLOT /\ slots p.1 !! Z.to_nat i = Some false) p.2;
}.
Lemma pool_inv_run o p : pool_inv p -> pool_inv (pool_run o p).
Proof.
  destruct p as [st held]. intros [Hl Hn Ht]. cbn in Hl, Hn, Ht. destruct o as [|i|i]; cbn [pool_run].
  - rewrite allocate_slot_eq. destruct (first_free 253 1 (slots st)) as [i|] eqn:E; [|done].
    apply first_free_Some in E as [Hi Hs]. constructor; cbn.
    + by rewrite length_insert.
    + constructor; [|done]. intros Hin. rewrite Forall_forall in Ht.
      apply Ht in Hin as [_ Hin]. rewrite Nat2Z.id in Hin. congruence.
    + constructor.
      * rewrite Nat2Z.id, list_lookup_insert_eq by lia. unfold MAX_SLOT. split; [lia|done].
      * eapply Forall_impl; [exact Ht|]. cbn. intros j [Hj Hf]. split; [done|].
        rewrite list_lookup_insert_ne; [done|]. intros ->. congruence.
  - case_bool_decide as Hin; [|done]. constructor; cbn.
    + by rewrite length_insert.
    + by apply NoDup_filter.
    + rewrite Forall_forall in *. intros j [Hj Hjin]%list_elem_of_filter.
      destruct (Ht _ Hjin) as [Hr Hf], (Ht _ Hin) as [Hr' _]. split; [done|].
      rewrite list_lookup_insert_ne; [done|]. intros Heq. apply Hj. lia.
  - constructor; cbn; [done|by apply NoDup_filter|].
    rewrite Forall_forall in *. intros j [_ Hj]%list_elem_of_filter. by apply Ht.
Qed.
Lemma pool_inv_init : pool_inv ({| slots := slots_new; log := [] |}, []).
Proof. by constructor; [|constructor|constructor]. Qed.
Lemma pool_inv_runs ops p : pool_inv p -> pool_inv (fold_left (fun p o => pool_run o p) ops p).
Proof. revert p. induction ops; cbn; intros p Hp; [done|]. by apply IHops, pool_inv_run. Qed.

Lemma slot_addr_inj i j r :
  in_range U8_MAX i -> in_range U8_MAX j -> slot_addr i r = slot_addr j r -> i = j.
Proof.
  unfold slot_addr, in_range, U8_MAX. intros Hi Hj H. apply (f_equal (strip_prefix "169.254.")) in H.
  rewrite !(proj2 (strip_prefix_Some "169.254." _ _) eq_refl) in H. apply (inj Some) in H.
  assert (Hs : show_uint i = show_uint j).
  { apply (f_equal (strip_suffix r)) in H.
    rewrite !(proj2 (strip_suffix_Some r _ _) eq_refl) in H. by apply (inj Some) in H. }
  apply (f_equal (parse_uint 255)) in Hs.
  rewrite !parse_show_uint in Hs by (unfold U64_MAX; lia). by apply (inj Some) in Hs.
Qed.

(** Network slots are exclusive.  After any sequence of allocations,
    releases and abandoned setups, the slot indices in use are pairwise
    distinct, lie in 1..=253 and are marked taken; so two live workspaces have
    different addresses on the veth pair, on the TAP and in the guest.  The
    next allocation returns the least free index, which nobody holds, and
    fails only when all 253 are taken. *)
Theorem slots_are_exclusive ops st held :
  fold_left (fun p o => pool_run o p) ops ({| slots := slots_new; log := [] |}, []) = (st, held) ->
  NoDup held /\
  Forall (fun i => 1 <= i <= MAX_SLOT) held /\
  (forall i j rest, i ∈ held -> j ∈ held -> slot_addr i rest = slot_addr j rest -> i = j) /\
  match fst (allocate_slot st) with
  | Ok i => 1 <= i <= MAX_SLOT /\ (i ∉ held) /\
            (forall k, 1 <= k < i -> slots st !! Z.to_nat k = Some false)
  | Err e => e = NetworkError_PoolExhausted /\
             forall k, 1 <= k <= MAX_SLOT -> slots st !! Z.to_nat k = Some false
  end.
Proof.
  intros H. pose proof (pool_inv_runs ops _ pool_inv_init) as Hinv. rewrite H in Hinv.
  destruct Hinv as [Hl Hn Ht]. cbn in Hl, Hn, Ht. rewrite Forall_forall in Ht.
  assert (Hcell : forall k : nat, (k < 254)%nat -> slots st !! k <> Some true ->
            slots st !! k = Some false).
  { intros k Hk Hne. destruct (lookup_lt_is_Some_2 (slots st) k) as [[] Hb]; [lia|..]; congruence. }
  split; [done|]. split; [rewrite Forall_forall; naive_solver|]. split.
  { intros i j rest Hi Hj. apply slot_addr_inj; unfold in_range, U8_MAX;
      destruct (Ht _ Hi), (Ht _ Hj); unfold MAX_SLOT in *; lia. }
  rewrite allocate_slot_eq. destruct (first_free 253 1 (slots st)) as [i|] eqn:E; cbn.
  - pose proof (first_free_Some _ _ _ _ E) as [Hi Hs]. unfold MAX_SLOT. split; [lia|]. split.
    + intros Hin. apply Ht in Hin as [_ Hin]. rewrite Nat2Z.id in Hin. congruence.
    + intros k Hk. apply Hcell; [lia|]. eapply first_free_least; [exact E|lia].
  - split; [done|]. unfold MAX_SLOT. intros k Hk. apply Hcell; [lia|].
    eapply first_free_None; [exact E|lia].
Qed.
Lemma slots_are_exclusive_witness :
  NoDup [3; 1] /\ (slot_addr 3 ".6" = slot_addr 1 ".6" -> 3 = 1).
Proof.
  pose (p := fold_left (fun p o => pool_run o p)
    [Pool_allocate; Pool_allocate; Pool_allocate; Pool_release 2]
    ({| slots := slots_new; log := [] |}, [])).
  destruct (slots_are_exclusive
    [Pool_allocate; Pool_allocate; Pool_allocate; Pool_release 2] (fst p) (snd p)
    (surjective_pairing p)) as (Hn & _ & Ha & _).
  assert (Hp : snd p = [3; 1]) by (vm_compute; reflexivity). rewrite Hp in Hn, Ha.
  split; [exact Hn|]. apply Ha; rewrite !elem_of_cons; auto.
Defined.

(** ** What setup and teardown issue *)

#[local] Opaque show_uint slot_addr.

(** [m], when it succeeds, issues exactly [acts]; it never touches the slots. *)
Definition emits {A} (m : M NetState NetworkError A) (acts : list Action) : Prop :=
  forall st, slots (snd (m st)) = slots st /\
    match m st with
    | (Ok _, st') => log st' = log st ++ acts
    | (Err _, _) => True
    end.
Lemma emits_ret {A} (a : A) : emits (mret a) [].
Proof. intros st. cbn. by rewrite app_nil_r. Qed.
Lemma emits_bind {A B} (m : M NetState NetworkError A) (k : A -> M NetState NetworkError B) x y :
  emits m x -> (forall a, emits (k a) y) -> emits (m ≫= k) (x ++ y).
Proof.
  intros Hm Hk st. unfold mbind, M_bind. specialize (Hm st).
  destruct (m st) as [[a|e] st1]; cbn in Hm; [|naive_solver].
  destruct Hm as [Hs Hl]. specialize (Hk a st1). destruct (k a st1) as [[b|e] st2]; cbn in *.
  - destruct Hk as [-> ->]. by rewrite Hl, app_assoc.
  - destruct Hk as [-> _]. done.
Qed.
Lemma emits_for_each {A} (f : A -> M NetState NetworkError unit) g l :
  (forall x, emits (f x) (g x)) -> emits (for_each f l) (mjoin (g <$> l)).
Proof.
  intros Hf. induction l as [|x l IH]; cbn; [apply emits_ret|]. by apply emits_bind.
Qed.
Lemma emits_if {A} (b : bool) (m k : M NetState NetworkError A) x y :
  emits m x -> emits k y -> emits (if b then m else k) (if b then x else y).
Proof. by destruct b. Qed.

Section Scripts.
Context {C : Crypto}.
Context (exec : list Action -> string -> list string -> ExecOutcome).
Context (spawn : list Action -> list string -> SpawnOutcome).
Context (inner : Inner).

Lemma emits_ip args : emits (run exec "ip" args) [Act_run "ip" args].
Proof. intros st. unfold run, record. unfold_m. by destruct (exec _ _ _). Qed.
Lemma emits_iptables args : emits (run exec "iptables" args) [Act_run "iptables" args].
Proof. intros st. unfold run, record. unfold_m. by destruct (exec _ _ _). Qed.
Lemma emits_spawn program args : emits (spawn_child spawn inner program args) [Act_spawn args].
Proof. intros st. unfold spawn_child, record. unfold_m. by destruct (spawn _ _). Qed.
Lemma emits_netns netns p args :
  emits (run_in_netns exec netns p args) [Act_run "ip" (["netns"; "exec"; netns; p] ++ args)].
Proof. apply emits_ip. Qed.
End Scripts.

(** The script of a straight-line piece of code. *)
Ltac emits_tac :=
  repeat first
    [ apply emits_ip | apply emits_iptables | apply emits_netns | apply emits_spawn
    | apply emits_ret | apply emits_for_each; intros ?
    | apply emits_if | apply emits_bind; [|intros ?] ].

Definition ip_ (args : list string) : Action := Act_run "ip" args.
Definition ipt (args : list string) : Action := Act_run "iptables" args.
Definition in_ns (netns p : string) (args : list string) : Action :=
  ip_ (["netns"; "exec"; netns; p] ++ args).

(** The rules of a workspace's FORWARD chain, and the jump into it. *)
Definition chain_rules (policy : NetworkPolicy) : list (list string) :=
  ["-m"; "conntrack"; "--ctstate"; "ESTABLISHED,RELATED"; "-j"; "ACCEPT"] ::
  (if bool_decide (allow_cidrs policy = []) && enable_egress policy then [["-j"; "ACCEPT"]]
   else ((fun c => ["-d"; c; "-j"; "ACCEPT"]) <$> allow_cidrs policy) ++ [["-j"; "DROP"]]).
Definition forward_script (slot : Z) (chain : string) (policy : NetworkPolicy) : list Action :=
  ipt ["-N"; chain] ::
  ((fun r => ipt (["-A"; chain] ++ r)) <$> chain_rules policy) ++
  [ipt ["-A"; "FORWARD"; "-s"; slot_addr slot ".0/30"; "-j"; chain]].
Lemma join_cons_list {A} (x : list A) l : mjoin (x :: l) = x ++ mjoin l.
Proof. done. Qed.
Lemma emits_forward exec slot chain policy :
  emits (install_forward_chain exec slot chain policy) (forward_script slot chain policy).
Proof.
  unfold forward_script, chain_rules. rewrite fmap_cons.
  change (emits (install_forward_chain exec slot chain policy)
    ([ipt ["-N"; chain]] ++
     [ipt ["-A"; chain; "-m"; "conntrack"; "--ctstate"; "ESTABLISHED,RELATED"; "-j"; "ACCEPT"]] ++
     ((fun r => ipt (["-A"; chain] ++ r)) <$>
        (if bool_decide (allow_cidrs policy = []) && enable_egress policy then [["-j"; "ACCEPT"]]
         else ((fun c => ["-d"; c; "-j"; "ACCEPT"]) <$> allow_cidrs policy) ++ [["-j"; "DROP"]])) ++
     [ipt ["-A"; "FORWARD"; "-s"; slot_addr slot ".0/30"; "-j"; chain]])).
  unfold install_forward_chain. destruct (bool_decide _ && _); [emits_tac|].
  rewrite fmap_app, <- list_fmap_compose.
  replace ((λ r, ipt (["-A"; chain] ++ r)) ∘ (λ c, ["-d"; c; "-j"; "ACCEPT"]) <$> allow_cidrs policy)
    with (mjoin ((fun c => [ipt ["-A"; chain; "-d"; c; "-j"; "ACCEPT"]]) <$> allow_cidrs policy)).
  - emits_tac.
  - induction (allow_cidrs policy) as [|c l IH]; [done|].
    rewrite !fmap_cons, join_cons_list. rewrite IH. done.
Qed.

Lemma emits_cons {A B} (m : M NetState NetworkError A) (k : A -> M NetState NetworkError B) x y :
  emits m [x] -> (forall a, emits (k a) y) -> emits (m ≫= k) (x :: y).
Proof. apply emits_bind. Qed.

(** Whatever [m] returns satisfies [Q]. *)
Definition returns {A} (m : M NetState NetworkError A) (Q : A -> Prop) : Prop :=
  forall st, match m st with (Ok a, _) => Q a | (Err _, _) => True end.
Lemma returns_bind {A B} (m : M NetState NetworkError A) (k : A -> M NetState NetworkError B) Q :
  (forall a, returns (k a) Q) -> returns (m ≫= k) Q.
Proof.
  intros Hk st. unfold mbind, M_bind. destruct (m st) as [[a|e] st1]; [apply Hk|done].
Qed.
Lemma returns_ret {A} (a : A) (Q : A -> Prop) : Q a -> returns (mret a) Q.
Proof. by intros H st. Qed.

Lemma bind_lift_ok {B} (k : unit -> M NetState NetworkError B) st :
  (lift (Ok tt) ≫= k) st = k tt st.
Proof. done. Qed.
Lemma bind_allocate {B} (k : Z -> M NetState NetworkError B) st :
  (allocate_slot ≫= k) st =
  match first_free 253 1 (slots st) with
  | Some i => k (Z.of_nat i) {| slots := <[i := false]> (slots st); log := log st |}
  | None => (Err NetworkError_PoolExhausted, st)
  end.
Proof. unfold mbind, M_bind. rewrite allocate_slot_eq. by destruct (first_free _ _ _). Qed.

Definition links_script (n : Names) (slot : Z) : list Action :=
  let ns := n_netns n in
  let layout := for_slot slot in
  [ ip_ ["netns"; "add"; ns];
    ip_ ["link"; "add"; n_veth_host n; "type"; "veth"; "peer"; "name"; n_veth_guest n];
    ip_ ["link"; "set"; n_veth_guest n; "netns"; ns];
    ip_ ["addr"; "add"; slot_addr slot ".1" +:+ "/30"; "dev"; n_veth_host n];
    ip_ ["link"; "set"; n_veth_host n; "up"];
    in_ns ns "ip" ["addr"; "add"; slot_addr slot ".2" +:+ "/30"; "dev"; n_veth_guest n];
    in_ns ns "ip" ["link"; "set"; n_veth_guest n; "up"];
    in_ns ns "ip" ["link"; "set"; "lo"; "up"];
    in_ns ns "ip" ["tuntap"; "add"; n_tap n; "mode"; "tap"];
    in_ns ns "ip" ["link"; "set"; n_tap n; "up"];
    in_ns ns "ip" ["route"; "add"; "default"; "via"; slot_addr slot ".1"];
    in_ns ns "ip" ["addr"; "add"; l_tap_gateway_ip layout +:+ "/30"; "dev"; n_tap n];
    in_ns ns "sysctl" ["-w"; "net.ipv4.ip_forward=1"];
    in_ns ns "iptables" ["-t"; "nat"; "-A"; "POSTROUTING"; "-s"; l_guest_subnet_cidr layout; "-o";
      n_veth_guest n; "-j"; "SNAT"; "--to-source"; l_workspace_ip layout];
    ip_ ["route"; "add"; l_guest_subnet_cidr layout; "via"; l_workspace_ip layout; "dev";
         n_veth_host n] ].
Lemma emits_links exec n slot : emits (provision_links exec n slot) (links_script n slot).
Proof.
  unfold provision_links, links_script.
  repeat first [apply emits_ip | apply emits_netns | apply emits_cons; [|intros _]].
Qed.

Section SetupScript.
Context {C : Crypto}.
Context (exec : list Action -> string -> list string -> ExecOutcome).
Context (spawn : list Action -> list string -> SpawnOutcome).
Context (inner : Inner).

Definition dns_script (n : Names) (addr : string) (policy : NetworkPolicy) : list Action :=
  if bool_decide (allow_hostnames policy = []) then []
  else match dns_filter_binary inner with
       | Some bin =>
           Act_spawn (dns_filter_args bin (n_netns n) (addr +:+ ":53") (dns_upstream inner)
                        (allow_hostnames policy)) ::
           (p ← ["udp"; "tcp"]; c ← ["OUTPUT"; "PREROUTING"];
            [in_ns (n_netns n) "iptables" (dnat_argv c p "53" (addr +:+ ":53"))])
       | None => []
       end.
Definition privacy_script (n : Names) (addr : string) (policy : NetworkPolicy) : list Action :=
  let dest := addr +:+ ":" +:+ show_uint PRIVACY_ROUTER_PORT in
  if negb (enable_privacy_router policy) then []
  else match privacy_router_binary inner, privacy_router_policy inner with
       | Some bin, Some path =>
           Act_spawn (privacy_router_args bin (n_netns n) dest path) ::
           (c ← ["OUTPUT"; "PREROUTING"];
            [in_ns (n_netns n) "iptables" (dnat_argv c "tcp" "80" dest)])
       | _, _ => []
       end.
Lemma emits_dns n addr policy :
  emits (start_dns_filter exec spawn inner n addr policy) (dns_script n addr policy).
Proof.
  unfold start_dns_filter, dns_script. apply emits_if; [apply emits_ret|].
  destruct (dns_filter_binary inner) as [bin|]; [|apply emits_ret].
  apply emits_cons; [apply emits_spawn|intros r]. cbn [mbind].
  unfold install_dns_redirect. cbn [for_each].
  intros st.
  assert (H : emits (for_each (fun proto =>
      run_in_netns exec (n_netns n) "iptables" (dnat_argv "OUTPUT" proto "53" (addr +:+ ":53")) ;;;
      run_in_netns exec (n_netns n) "iptables" (dnat_argv "PREROUTING" proto "53" (addr +:+ ":53")))
      ["udp"; "tcp"] ;;; mret (Some r))
    (mjoin ((fun p => [in_ns (n_netns n) "iptables" (dnat_argv "OUTPUT" p "53" (addr +:+ ":53"))] ++
       [in_ns (n_netns n) "iptables" (dnat_argv "PREROUTING" p "53" (addr +:+ ":53"))])
       <$> ["udp"; "tcp"]) ++ [])) by emits_tac.
  exact (H st).
Qed.
Lemma emits_privacy n addr policy :
  emits (start_privacy_router exec spawn inner n addr policy) (privacy_script n addr policy).
Proof.
  unfold start_privacy_router, privacy_script. apply emits_if; [apply emits_ret|].
  destruct (privacy_router_binary inner) as [bin|]; [|apply emits_ret].
  destruct (privacy_router_policy inner) as [path|]; [|apply emits_ret].
  apply emits_cons; [apply emits_spawn|intros r]. unfold install_privacy_dnat. cbn [for_each].
  intros st.
  assert (H : emits (for_each (fun chain =>
      run_in_netns exec (n_netns n) "iptables"
        (dnat_argv chain "tcp" "80" (addr +:+ ":" +:+ show_uint PRIVACY_ROUTER_PORT)))
      ["OUTPUT"; "PREROUTING"] ;;; mret (Some r))
    (mjoin ((fun c => [in_ns (n_netns n) "iptables"
        (dnat_argv c "tcp" "80" (addr +:+ ":" +:+ show_uint PRIVACY_ROUTER_PORT))])
       <$> ["OUTPUT"; "PREROUTING"]) ++ [])) by emits_tac.
  exact (H st).
Qed.

(** Everything a successful setup issues for [slot]. *)
Definition filter_script (id : string) (policy : NetworkPolicy) (slot : Z) : list Action :=
  let n := names_of (short_id_for id) in
  dns_script n (slot_addr slot ".2") policy ++ privacy_script n (slot_addr slot ".2") policy.
Definition setup_script (id : string) (policy : NetworkPolicy) (slot : Z) : list Action :=
  let n := names_of (short_id_for id) in
  links_script n slot ++ forward_script slot (n_chain n) policy ++
  [ipt (antispoof_forward_argv AntiSpoofOp_Insert (n_veth_host n) slot)] ++
  (if enable_egress policy then [ipt (masquerade_argv inner "-A" slot)] else []) ++
  filter_script id policy slot.
(** The record a successful setup returns, up to the children's ids. *)
Definition slot_for (id : string) (policy : NetworkPolicy) (slot : Z) (s : NetworkSlot) : Prop :=
  let n := names_of (short_id_for id) in
  ns_slot s = slot /\ ns_netns s = n_netns n /\ ns_veth_host s = n_veth_host n /\
  ns_forward_chain s = n_chain n /\ ns_workspace_ip s = slot_addr slot ".2" /\
  ns_guest_eth_ip s = slot_addr slot ".6" /\
  ns_host_route_installed s = true /\ ns_masquerade_installed s = enable_egress policy.

Lemma setup_outcome id policy st :
  match setup_checks id policy with
  | Err e => setup exec spawn inner id policy st = (Err e, st)
  | Ok _ =>
      match first_free 253 1 (slots st) with
      | None => setup exec spawn inner id policy st = (Err NetworkError_PoolExhausted, st)
      | Some i =>
          let r := setup exec spawn inner id policy st in
          slots (snd r) = <[i := false]> (slots st) /\
          match r with
          | (Ok s, st') => log st' = log st ++ setup_script id policy (Z.of_nat i) /\
                           slot_for id policy (Z.of_nat i) s
          | (Err _, _) => True
          end
      end
  end.
Proof.
  unfold setup. destruct (setup_checks id policy) as [[]|e]; [|done].
  destruct (first_free 253 1 (slots st)) as [i|] eqn:Hfree;
    [|by unfold mbind, M_bind, lift; rewrite allocate_slot_eq, Hfree].
  rewrite bind_lift_ok, bind_allocate, Hfree.
  set (st1 := {| slots := <[i := false]> (slots st); log := log st |}).
  cbn zeta. match goal with |- slots (snd (?m st1)) = _ /\ _ => set (k := m) end.
  assert (He : emits k (setup_script id policy (Z.of_nat i))).
  { unfold k, setup_script, filter_script. apply emits_bind; [apply emits_links|intros _].
    apply emits_bind; [apply emits_forward|intros _].
    apply emits_bind; [apply emits_iptables|intros _].
    apply emits_bind; [apply emits_if; [apply emits_iptables|apply emits_ret]|intros _].
    apply emits_bind; [apply emits_dns|intros d].
    rewrite <- (app_nil_r (privacy_script _ _ _)).
    apply emits_bind; [apply emits_privacy|intros p]. apply emits_ret. }
  destruct (He st1) as [Hs Hl]. split; [done|].
  destruct (k st1) as [[s|e] st2] eqn:Hk; [|done]. split; [done|].
  assert (Hr : returns k (slot_for id policy (Z.of_nat i))).
  { unfold k. do 6 (apply returns_bind; intros ?). apply returns_ret. repeat split. }
  specialize (Hr st1). by rewrite Hk in Hr.
Qed.
End SetupScript.

(** ** Teardown *)

(** The command that takes back what [a] put into the root namespace.  What was
    put inside the workspace namespace goes away with it. *)
Definition undo (a : Action) : option Action :=
  match a with
  | Act_run p args =>
      if String.eqb p "iptables" then
        match args with
        | [op; chain] => if String.eqb op "-N" then Some (ipt ["-X"; chain]) else None
        | op :: x :: y :: rest =>
            if String.eqb op "-I" then Some (ipt ("-D" :: x :: rest))
            else if String.eqb op "-t" then Some (ipt (op :: x :: "-D" :: rest))
            else if String.eqb x "FORWARD" then Some (ipt ("-D" :: x :: y :: rest))
            else Some (ipt ["-F"; x])
        | _ => None
        end
      else
        match args with
        | object :: op :: name :: rest =>
            if negb (String.eqb op "add") then None
            else if String.eqb object "route" then Some (ip_ ("route" :: "del" :: name :: rest))
            else if String.eqb object "netns" || String.eqb object "link"
            then Some (ip_ [object; "del"; name])
            else None
        | _ => None
        end
  | _ => None
  end.

Section Teardown.
Context {C : Crypto}.
Context (inner : Inner).

(** [m] never fails and changes the slots by [f]. *)
Definition frees (f : list bool -> list bool) (m : M NetState NetworkError unit) : Prop :=
  forall st, exists st', m st = (Ok tt, st') /\ slots st' = f (slots st).
Lemma frees_bind f m k : frees id m -> frees f k -> frees f (m ;;; k).
Proof.
  intros Hm Hk st. destruct (Hm st) as (st1 & H1 & Hs1), (Hk st1) as (st2 & H2 & Hs2).
  exists st2. unfold mbind, M_bind. rewrite H1, H2. split; [done|]. by rewrite Hs2, Hs1.
Qed.
Lemma frees_best_effort m acts : emits m acts -> frees id (best_effort m).
Proof. intros H st. exists (snd (m st)). split; [done|]. apply (H st). Qed.
Lemma frees_when b m : frees id m -> frees id (when b m).
Proof. intros H. destruct b; [done|]. intros st. by exists st. Qed.
Lemma frees_record a : frees id (record a).
Proof. intros st. by eexists. Qed.
Lemma frees_signal p : frees id (signal_opt p).
Proof. destruct p; [apply frees_record|]. intros st. by exists st. Qed.

Lemma emits_uninstall exec slot chain :
  emits (uninstall_forward_chain exec slot chain)
    [ipt ["-D"; "FORWARD"; "-s"; slot_addr slot ".0/30"; "-j"; chain];
     ipt ["-F"; chain]; ipt ["-X"; chain]].
Proof. repeat first [apply emits_iptables | apply emits_cons; [|intros _]]. Qed.

(** Teardown never fails and releases its slot, whatever the commands do. *)
Lemma teardown_releases exec s :
  frees (fun l => <[Z.to_nat (ns_slot s) := true]> l) (teardown exec inner s).
Proof.
  unfold teardown.
  repeat (apply frees_bind;
    [first [ apply frees_signal
           | apply frees_when; first [apply frees_record | idtac]
           | idtac ];
     try (eapply frees_best_effort;
          first [apply emits_uninstall | apply emits_iptables | apply emits_ip])|]).
  intros st. by eexists.
Qed.

(** [m] never fails and issues exactly [acts]. *)
Definition issues (m : M NetState NetworkError unit) (acts : list Action) : Prop :=
  forall st, exists st', m st = (Ok tt, st') /\ log st' = log st ++ acts.
Lemma issues_bind m k x y : issues m x -> issues k y -> issues (m ;;; k) (x ++ y).
Proof.
  intros Hm Hk st. destruct (Hm st) as (st1 & H1 & Hl1), (Hk st1) as (st2 & H2 & Hl2).
  exists st2. unfold mbind, M_bind. rewrite H1, H2. split; [done|]. by rewrite Hl2, Hl1, app_assoc.
Qed.
Lemma issues_cons m k x y : issues m [x] -> issues k y -> issues (m ;;; k) (x :: y).
Proof. apply issues_bind. Qed.
Lemma issues_best_effort m acts : issues m acts -> issues (best_effort m) acts.
Proof. intros H st. destruct (H st) as (st' & Hm & Hl). exists st'. unfold best_effort. by rewrite Hm. Qed.
Lemma issues_when b m acts : issues m acts -> issues (when b m) (if b then acts else []).
Proof. intros H. destruct b; [done|]. intros st. exists st. by rewrite app_nil_r. Qed.
Lemma issues_record a : issues (record a) [a].
Proof. intros st. by eexists. Qed.
Lemma issues_signal p : issues (signal_opt p) (Act_signal <$> option_list p).
Proof. destruct p; [apply issues_record|]. intros st. exists st. by rewrite app_nil_r. Qed.
Lemma issues_run exec p args :
  (forall l p a, exec l p a = Exec_ok) -> p = "ip" \/ p = "iptables" ->
  issues (run exec p args) [Act_run p args].
Proof. intros He [->| ->] st; unfold run, record; unfold_m; rewrite He; by eexists. Qed.

Definition teardown_script (s : NetworkSlot) : list Action :=
  (if ns_masquerade_installed s then [ipt (masquerade_argv inner "-D" (ns_slot s))] else []) ++
  [ipt ["-D"; "FORWARD"; "-s"; slot_addr (ns_slot s) ".0/30"; "-j"; ns_forward_chain s];
   ipt ["-F"; ns_forward_chain s]; ipt ["-X"; ns_forward_chain s]] ++
  [ipt (antispoof_forward_argv AntiSpoofOp_Delete (ns_veth_host s) (ns_slot s))] ++
  (Act_signal <$> option_list (ns_dns_filter_pid s)) ++
  (if ns_dns_audit_relay s then [Act_abort_relay] else []) ++
  (Act_signal <$> option_list (ns_privacy_router_pid s)) ++
  (if ns_privacy_audit_relay s then [Act_abort_relay] else []) ++
  (if ns_host_route_installed s then
     [ip_ ["route"; "del"; l_guest_subnet_cidr (for_slot (ns_slot s)); "via"; ns_workspace_ip s;
           "dev"; ns_veth_host s]] else []) ++
  [ip_ ["netns"; "del"; ns_netns s]] ++ [ip_ ["link"; "del"; ns_veth_host s]] ++ [].
Lemma teardown_issues exec s :
  (forall l p a, exec l p a = Exec_ok) -> issues (teardown exec inner s) (teardown_script s).
Proof.
  intros He. unfold teardown, teardown_script.
  repeat (apply issues_bind;
    [first [ apply issues_signal
           | apply issues_when; first [apply issues_record | idtac]
           | idtac ];
     try (apply issues_best_effort;
          first [ apply issues_run; [done|by auto]
                | unfold uninstall_forward_chain; repeat
                    first [apply issues_run; [done|by auto] | apply issues_cons] ])|]).
  intros st. eexists. split; [done|]. cbn. by rewrite app_nil_r.
Qed.
End Teardown.

Section NetworkTheorems.
Context {C : Crypto}.
Context (exec : list Action -> string -> list string -> ExecOutcome).
Context (spawn : list Action -> list string -> SpawnOutcome).
Context (inner : Inner).

(** A successful setup, in one place. *)
Lemma setup_ok id policy st s st1 :
  setup exec spawn inner id policy st = (Ok s, st1) ->
  exists i, setup_checks id policy = Ok tt /\ (1 <= i < 254)%nat /\ slots st !! i = Some true /\
    slots st1 = <[i := false]> (slots st) /\
    log st1 = log st ++ setup_script inner id policy (Z.of_nat i) /\
    slot_for id policy (Z.of_nat i) s.
Proof.
  intros H. pose proof (setup_outcome exec spawn inner id policy st) as Ho. rewrite H in Ho.
  destruct (setup_checks id policy) as [[]|e]; [|done].
  destruct (first_free 253 1 (slots st)) as [i|] eqn:E; [|done].
  apply first_free_Some in E as [Hi Hs]. destruct Ho as (Hsl & Hl & Hf). exists i.
  split; [done|]. split; [lia|]. done.
Qed.

Lemma validate_all_ok {E A} (f : A -> result E unit) l :
  validate_all f l = Ok tt <-> Forall (fun x => f x = Ok tt) l.
Proof.
  induction l as [|x l IH]; cbn [validate_all]; [by split|].
  rewrite bind_ok, Forall_cons, <- IH. split; [intros ([] & ? & ?)|intros []]; eauto.
Qed.
Lemma setup_checks_cidr id policy c :
  setup_checks id policy = Ok tt -> c ∈ allow_cidrs policy -> validate_cidr c = Ok tt.
Proof.
  unfold setup_checks. rewrite !bind_unit_ok, validate_all_ok, Forall_forall. naive_solver.
Qed.
(** The filters are started, and redirected to, inside the namespace only. *)
Lemma filter_script_shape id policy i a :
  a ∈ filter_script inner id policy i ->
  (exists args, a = Act_spawn args) \/ (exists netns p args, a = in_ns netns p args).
Proof.
  unfold filter_script, dns_script, privacy_script. intros [Ha|Ha]%elem_of_app.
  - destruct (bool_decide _); [by apply not_elem_of_nil in Ha|].
    destruct (dns_filter_binary inner); [|by apply not_elem_of_nil in Ha]. cbn [mbind list_bind app] in Ha.
    rewrite !elem_of_cons, elem_of_nil in Ha. destruct_or! Ha; subst; eauto 6; done.
  - destruct (negb _); [by apply not_elem_of_nil in Ha|].
    destruct (privacy_router_binary inner), (privacy_router_policy inner);
      try by apply not_elem_of_nil in Ha. cbn [mbind list_bind app] in Ha.
    rewrite !elem_of_cons, elem_of_nil in Ha. destruct_or! Ha; subst; eauto 6; done.
Qed.
(** Find the reflexive equation in a disjunction. *)
Ltac or_refl :=
  lazymatch goal with
  | |- _ \/ _ => first [left; or_refl | right; or_refl]
  | |- _ = _ => reflexivity
  end.
Ltac undo_here :=
  intros ? Hundo; cbn in Hundo; first [discriminate Hundo
  | apply (inj Some) in Hundo as <-; rewrite ?elem_of_app, ?elem_of_cons; or_refl].
Ltac undo_list := repeat (apply Forall_cons; split; [undo_here|]); apply Forall_nil; exact I.
Lemma undo_covers_setup id policy i s :
  slot_for id policy i s ->
  Forall (fun a => forall b, undo a = Some b -> b ∈ teardown_script inner s)
    (setup_script inner id policy i).
Proof.
  intros (Hslot & Hns & Hvh & Hch & Hip & _ & Hroute & Hmasq).
  unfold setup_script, teardown_script. rewrite Hmasq, Hroute, Hslot, Hns, Hvh, Hch, Hip.
  set (n := names_of (short_id_for id)).
  rewrite !Forall_app. split; [|split; [|split; [|split]]].
  - undo_list.
  - unfold forward_script. apply Forall_cons; split; [undo_here|apply Forall_app; split].
    + apply Forall_fmap, Forall_forall. intros r Hr b.
      assert (Hr' : exists x y, r = x :: y).
      { unfold chain_rules in Hr. apply elem_of_cons in Hr as [->|Hr]; [by eexists _, _|].
        destruct (bool_decide _ && _).
        - apply list_elem_of_singleton in Hr as ->. by eexists _, _.
        - apply elem_of_app in Hr as [Hr|Hr].
          + apply list_elem_of_fmap in Hr as (c & -> & _). by eexists _, _.
          + apply list_elem_of_singleton in Hr as ->. by eexists _, _. }
      destruct Hr' as (x & y & ->). 
      assert (undo (ipt (["-A"; n_chain n] ++ x :: y)) = Some (ipt ["-F"; n_chain n])) as -> by done.
      intros <-%(inj Some). rewrite ?elem_of_app, ?elem_of_cons. or_refl.
    + undo_list.
  - undo_list.
  - destruct (enable_egress policy); undo_list.
  - apply Forall_forall. intros a Ha b.
    apply filter_script_shape in Ha as [(args & ->)|(netns & p & args & ->)]; done.
Qed.

(** C29: Teardown undoes setup.  For a slot a successful [setup] returned,
    [teardown] run right away gives back exactly the slot pool from before the
    setup, and run at any later moment succeeds and frees that slot whatever
    the host tools do; when they succeed, every namespace, link, host route,
    chain and rule that the setup put into the root namespace is removed by its
    matching command, and both filter processes are signalled. *)
Theorem teardown_undoes_setup exec' id policy st s st1 :
  setup exec spawn inner id policy st = (Ok s, st1) ->
  slots (snd (teardown exec' inner s st1)) = slots st /\
  (forall st2, fst (teardown exec' inner s st2) = Ok tt /\
     slots (snd (teardown exec' inner s st2)) = <[Z.to_nat (ns_slot s) := true]> (slots st2)) /\
  exists issued, log st1 = log st ++ issued /\
    forall st2, (forall l p a, exec' l p a = Exec_ok) ->
      exists undone, log (snd (teardown exec' inner s st2)) = log st2 ++ undone /\
        (forall a b, a ∈ issued -> undo a = Some b -> b ∈ undone) /\
        (forall pid, ns_dns_filter_pid s = Some pid \/ ns_privacy_router_pid s = Some pid ->
           Act_signal pid ∈ undone).
Proof.
  intros H. apply setup_ok in H as (i & _ & Hi & Hfree & Hs & Hl & Hfor).
  pose proof (teardown_releases inner exec' s) as Hrel.
  assert (Hslot : ns_slot s = Z.of_nat i) by apply Hfor. split; [|split].
  - destruct (Hrel st1) as (st2 & -> & Hs2). cbn [snd]. rewrite Hs2, Hs, Hslot, Nat2Z.id.
    rewrite list_insert_insert_eq. by apply list_insert_id.
  - intros st2. destruct (Hrel st2) as (st3 & -> & Hs3). done.
  - eexists. split; [exact Hl|]. intros st2 He. exists (teardown_script inner s).
    destruct (teardown_issues inner exec' s He st2) as (st3 & -> & Hl3). split; [done|]. split.
    + intros a b Ha. pose proof (undo_covers_setup id policy _ _ Hfor) as Hc.
      rewrite Forall_forall in Hc. by apply Hc.
    + intros pid Hp. unfold teardown_script. rewrite !elem_of_app.
      destruct Hp as [-> | ->]; [do 3 right; left|do 5 right; left];
        cbn; apply elem_of_cons; by left.
Qed.

(** A workspace's egress is denied by default.  The commands of a
    successful [setup] append to the workspace's own chain exactly the rules of
    [chain_rules]; unless the policy is open (egress on and no CIDR list) the
    last of them drops everything, and each accepting rule is the return-traffic
    rule or names a validated CIDR of the policy.  The jump into the chain
    selects the slot's own /30, the anti-spoofing rule is installed after it at
    the top of FORWARD, and MASQUERADE is installed only with egress on. *)
Theorem egress_denied_by_default id policy st s st1 :
  setup exec spawn inner id policy st = (Ok s, st1) ->
  let chain := ns_forward_chain s in
  let slot := ns_slot s in
  exists pre post,
    log st1 = log st ++ pre ++ ipt ["-N"; chain] ::
      ((fun r => ipt (["-A"; chain] ++ r)) <$> chain_rules policy) ++
      ipt ["-A"; "FORWARD"; "-s"; slot_addr slot ".0/30"; "-j"; chain] ::
      ipt (antispoof_forward_argv AntiSpoofOp_Insert (ns_veth_host s) slot) :: post /\
    (forall r, ipt ("-A" :: chain :: r) ∉ pre ++ post) /\
    (allow_cidrs policy <> [] \/ enable_egress policy = false ->
       last (chain_rules policy) = Some ["-j"; "DROP"] /\
       forall r, r ∈ chain_rules policy -> last r = Some "ACCEPT" ->
         r = ["-m"; "conntrack"; "--ctstate"; "ESTABLISHED,RELATED"; "-j"; "ACCEPT"] \/
         exists c, c ∈ allow_cidrs policy /\ validate_cidr c = Ok tt /\ r = ["-d"; c; "-j"; "ACCEPT"]) /\
    (ipt (masquerade_argv inner "-A" slot) ∈ post <-> enable_egress policy = true).
Proof.
  intros H. cbn zeta. apply setup_ok in H as (i & Hchk & _ & _ & _ & Hl & Hfor).
  destruct Hfor as (-> & _ & -> & -> & _). set (n := names_of (short_id_for id)) in *.
  exists (links_script n (Z.of_nat i)).
  exists ((if enable_egress policy then [ipt (masquerade_argv inner "-A" (Z.of_nat i))] else []) ++
          filter_script inner id policy (Z.of_nat i)).
  split; [|split; [|split]].
  - rewrite Hl. unfold setup_script, forward_script. fold n.
    rewrite <- app_comm_cons, <- (app_assoc (_ <$> _)). done.
  - intros r. rewrite !elem_of_app. intros [Hr|[Hr|Hr]].
    + unfold links_script in Hr. cbn zeta in Hr. rewrite !elem_of_cons, elem_of_nil in Hr. by destruct_or! Hr.
    + destruct (enable_egress policy); [|by apply not_elem_of_nil in Hr].
      by apply list_elem_of_singleton in Hr.
    + apply filter_script_shape in Hr as [(args & Hr)|(netns & p & args & Hr)]; done.
  - intros Hclosed. assert (Hb : bool_decide (allow_cidrs policy = []) && enable_egress policy = false).
    { apply andb_false_iff. rewrite bool_decide_eq_false. naive_solver. }
    unfold chain_rules. rewrite Hb. split.
    + change (?x :: ?y ++ ?z) with ((x :: y) ++ z). by rewrite last_snoc.
    + intros r [->|[Hr|Hr]%elem_of_app]%elem_of_cons Hlast; [by left|right|].
      * apply list_elem_of_fmap in Hr as (c & -> & Hc). exists c.
        split; [done|]. split; [|done]. by eapply setup_checks_cidr.
      * apply list_elem_of_singleton in Hr as ->. done.
  - rewrite elem_of_app. split.
    + intros [Hm|Hm]; [by destruct (enable_egress policy); [|apply not_elem_of_nil in Hm]|].
      apply filter_script_shape in Hm as [(args & Hm)|(netns & p & args & Hm)]; done.
    + intros ->. left. by apply list_elem_of_singleton.
Qed.

(** The pool after an accepted call to [setup], whatever its result. *)
Definition take_slot (s : list bool) : list bool :=
  match first_free 253 1 s with Some i => <[i := false]> s | None => s end.
Definition after_setups (id : string) (policy : NetworkPolicy) (n : nat) : NetState :=
  Nat.iter n (fun st => snd (setup exec spawn inner id policy st)) {| slots := slots_new; log := [] |}.
Lemma after_setups_slots id policy n :
  setup_checks id policy = Ok tt ->
  slots (after_setups id policy n) = Nat.iter n take_slot slots_new.
Proof.
  intros Hc. induction n as [|n IH]; [done|].
  change (after_setups id policy (S n))
    with (snd (setup exec spawn inner id policy (after_setups id policy n))).
  change (Nat.iter (S n) take_slot slots_new) with (take_slot (Nat.iter n take_slot slots_new)).
  rewrite <- IH. pose proof (setup_outcome exec spawn inner id policy (after_setups id policy n)) as Ho.
  rewrite Hc in Ho. unfold take_slot. destruct (first_free 253 1 _); [apply Ho|by rewrite Ho].
Qed.
Lemma setup_fails id policy st :
  (forall l p a, exec l p a <> Exec_ok) ->
  exists e, fst (setup exec spawn inner id policy st) = Err e.
Proof.
  intros He. unfold setup. destruct (setup_checks id policy) as [[]|e]; [|by exists e].
  rewrite bind_lift_ok, bind_allocate. destruct (first_free 253 1 (slots st)) as [i|]; [|by eexists].
  unfold provision_links, run, record. unfold_m.
  match goal with |- context [exec ?l ?p ?a] => specialize (He l p a); destruct (exec l p a) end;
    [done|by eexists..].
Qed.

(** A setup that fails half way keeps its network slot.  When a host tool
    fails, [setup] returns an error and no [NetworkSlot], yet the index it
    allocated stays taken and no later operation can release it: after 253
    such failures every further [setup] reports an exhausted pool although no
    workspace has a network. *)
Theorem failed_setups_exhaust_pool id policy :
  setup_checks id policy = Ok tt ->
  (forall l p a, exec l p a <> Exec_ok) ->
  (forall n, exists e, fst (setup exec spawn inner id policy (after_setups id policy n)) = Err e) /\
  (forall n, (n < 253)%nat ->
     exists i, slots (after_setups id policy n) !! i = Some true /\
               slots (after_setups id policy (S n)) = <[i := false]> (slots (after_setups id policy n))) /\
  setup exec spawn inner id policy (after_setups id policy 253)
    = (Err NetworkError_PoolExhausted, after_setups id policy 253).
Proof.
  intros Hc He. split; [intros n; by apply setup_fails|]. split.
  - intros n Hn. rewrite !after_setups_slots by done.
    assert (Hf : forallb (fun n => bool_decide (is_Some (first_free 253 1 (Nat.iter n take_slot slots_new))))
              (seq 0 253) = true) by (vm_compute; reflexivity).
    rewrite forallb_forall in Hf. specialize (Hf n (proj2 (in_seq 253 0 n) ltac:(lia))).
    apply bool_decide_eq_true in Hf as [i Hi]. exists i. split.
    + by apply first_free_Some in Hi as [_ Hi].
    + change (Nat.iter (S n) take_slot slots_new) with (take_slot (Nat.iter n take_slot slots_new)).
      unfold take_slot at 1. by rewrite Hi.
  - pose proof (setup_outcome exec spawn inner id policy (after_setups id policy 253)) as Ho.
    rewrite Hc, after_setups_slots in Ho by done.
    replace (first_free 253 1 (Nat.iter 253 take_slot slots_new)) with (@None nat) in Ho
      by (vm_compute; reflexivity).
    done.
Qed.
End NetworkTheorems.

Module NetworkDemo.
Definition inner : Inner := {|
  upstream_iface := "eth0"; dns_filter_binary := Some "/usr/bin/nee"; dns_upstream := "1.1.1.1:53";
  privacy_router_binary := None; privacy_router_policy := None; audit := true |}.
Definition policy : NetworkPolicy := {|
  enable_egress := true; allow_cidrs := ["10.0.0.0/8"]; allow_hostnames := ["*.example.com"];
  enable_privacy_router := false |}.
Definition good (l : list Action) (p : string) (a : list string) : ExecOutcome := Exec_ok.
Definition bad (l : list Action) (p : string) (a : list string) : ExecOutcome := Exec_failed "denied".
Definition child (l : list Action) (a : list string) : SpawnOutcome := Spawned 4242.
Definition st0 : NetState := {| slots := slots_new; log := [] |}.
Definition result := @setup toy_crypto good child inner "ws-1" policy st0.
Definition dummy : NetworkSlot := {|
  ns_workspace_id := ""; ns_short_id := ""; ns_slot := 0; ns_netns := ""; ns_veth_host := "";
  ns_veth_guest := ""; ns_tap := ""; ns_host_ip := ""; ns_workspace_ip := ""; ns_prefix := 0;
  ns_tap_gateway_ip := ""; ns_guest_eth_ip := ""; ns_host_route_installed := false;
  ns_forward_chain := ""; ns_masquerade_installed := false; ns_dns_filter_pid := None;
  ns_dns_audit_relay := false; ns_privacy_router_pid := None; ns_privacy_audit_relay := false |}.
Definition slot : NetworkSlot := match fst result with Ok s => s | Err _ => dummy end.

Lemma teardown_undoes_setup_witness :
  slots (snd (teardown bad inner slot (snd result))) = slots_new.
Proof.
  apply (@teardown_undoes_setup toy_crypto good child inner bad "ws-1" policy st0 slot (snd result)).
  vm_compute. reflexivity.
Defined.
Lemma egress_denied_by_default_witness : last (chain_rules policy) = Some ["-j"; "DROP"].
Proof.
  destruct (@egress_denied_by_default toy_crypto good child inner "ws-1" policy st0 slot (snd result))
    as (pre & post & _ & _ & Hd & _); [vm_compute; reflexivity|].
  apply Hd. left. discriminate.
Defined.
Lemma failed_setups_exhaust_pool_witness :
  @setup toy_crypto bad child inner "ws-1" policy
    (@after_setups toy_crypto bad child inner "ws-1" policy 253)
  = (Err NetworkError_PoolExhausted, @after_setups toy_crypto bad child inner "ws-1" policy 253).
Proof.
  apply (@failed_setups_exhaust_pool toy_crypto bad child inner "ws-1" policy).
  - vm_compute. reflexivity.
  - intros l p a. discriminate.
Defined.
End NetworkDemo.
