(* ===== verification/NetPolicy.v ===== *)
(** * The hostname grammar of a network policy

    What [validate_hostname] of [crates/ne-supervisor/src/network.rs] accepts. *)

From S2P Require Import Prelude Text Crypto Network.

(** ** Hostname grammar *)

Lemma trim_end_matches_app c s :
  exists d, s = trim_end_matches c s +:+ d /\ all_chars (Ascii.eqb c) d = true.
Proof.
  induction s as [|a s (d & Hs & Hd)]; cbn [trim_end_matches]; [by exists EmptyString|].
  destruct (trim_end_matches c s) as [|b r] eqn:E.
  - destruct (Ascii.eqb_spec a c) as [->|Hne].
    + exists (String c s). split; [done|]. cbn [all_chars]. rewrite Ascii.eqb_refl.
      cbn in Hs. by rewrite Hs.
    + exists s. split; [done|]. cbn in Hs. by rewrite Hs.
  - exists d. split; [cbn; by f_equal|done].
Qed.
Lemma trim_end_matches_dots c d :
  all_chars (Ascii.eqb c) d = true -> trim_end_matches c d = EmptyString.
Proof.
  induction d as [|a d IH]; cbn; [done|]. rewrite andb_true_iff. intros [Ha Hd].
  rewrite IH by done. apply Ascii.eqb_eq in Ha as ->. by rewrite Ascii.eqb_refl.
Qed.
Lemma trim_end_matches_keep c r z d :
  z <> c -> all_chars (Ascii.eqb c) d = true ->
  trim_end_matches c ((r +:+ String z EmptyString) +:+ d) = r +:+ String z EmptyString.
Proof.
  intros Hz Hd. induction r as [|a r IH]; cbn [String.append trim_end_matches].
  - rewrite trim_end_matches_dots by done. destruct (Ascii.eqb_spec z c); done.
  - rewrite IH. by destruct r.
Qed.

(** A DNS label as the validator reads it. *)
Definition label_ok (l : string) : Prop :=
  1 <= len l <= 63 /\ all_chars hostname_char l = true /\
  (forall r, l <> String "-" r) /\ (forall r, l <> r +:+ "-").
Lemma validate_label_iff l : validate_label l = true <-> label_ok l.
Proof.
  unfold validate_label, label_ok. rewrite !andb_true_iff, !negb_true_iff, !orb_false_iff, Z.ltb_ge.
  assert (Hs : starts_with "-" l = false <-> forall r, l <> String "-" r).
  { rewrite <- not_true_iff_false, starts_with_spec. split; [|naive_solver].
    intros H r ->. apply H. by exists r. }
  assert (He : ends_with "-" l = false <-> forall r, l <> r +:+ "-").
  { rewrite <- not_true_iff_false, ends_with_spec. naive_solver. }
  assert (Hn : is_empty l = false <-> 1 <= len l).
  { destruct l; [vm_compute; naive_solver|]. unfold len. cbn. split; [lia|done]. }
  rewrite Hs, He, Hn. naive_solver lia.
Qed.
Lemma string_snoc l : 1 <= len l -> exists r z, l = r +:+ String z EmptyString.
Proof.
  induction l as [|a l IH]; [vm_compute; naive_solver|]. intros _. destruct l as [|b l].
  - by exists EmptyString, a.
  - destruct IH as (r & z & ->); [unfold len; cbn; lia|]. by exists (String a r), z.
Qed.
Lemma label_ok_last l : label_ok l -> exists r z, l = r +:+ String z EmptyString /\ z <> "."%char.
Proof.
  intros (Hlen & Hc & _). destruct (string_snoc l) as (r & z & ->); [lia|]. exists r, z.
  split; [done|]. intros ->. rewrite all_chars_app in Hc. cbn in Hc. rewrite andb_false_r in Hc. done.
Qed.
Lemma join_last labels :
  labels <> [] -> Forall label_ok labels ->
  exists r z, join "." labels = r +:+ String z EmptyString /\ z <> "."%char.
Proof.
  intros Hne Hl. induction Hl as [|x l Hx Hl IH]; [done|]. destruct l as [|y l].
  - by apply label_ok_last.
  - destruct IH as (r & z & Hr & Hz); [done|]. rewrite join_cons, Hr by done.
    exists (x +:+ "." +:+ r), z. by rewrite !string_app_assoc.
Qed.
Lemma label_no_dot l : label_ok l -> contains_char "." l = false.
Proof. intros (_ & Hc & _). by apply (all_chars_not_contains hostname_char). Qed.
Lemma join_no_star labels t d :
  labels <> [] -> Forall label_ok labels -> join "." labels +:+ d <> "*." +:+ t.
Proof.
  intros Hne Hl. destruct Hl as [|x l (Hlen & Hc & _) _]; [done|].
  destruct x as [|a x]; [unfold len in Hlen; cbn in Hlen; lia|].
  cbn in Hc. apply andb_true_iff in Hc as [Ha _].
  destruct l; cbn [join String.append]; intros [= -> _]; vm_compute in Ha; discriminate.
Qed.

(** C36: [validate_hostname] accepts exactly the patterns of one grammar.  After
    trimming, at most 253 bytes: an optional [*.], one or more labels of 1 to 63
    letters, digits and inner hyphens separated by dots, and any number of
    trailing dots.  (All-numeric labels are labels, so a dotted-quad address is
    accepted as a hostname.) *)
Theorem validate_hostname_iff host :
  validate_hostname host = Ok tt <->
  1 <= len (trim host) <= 253 /\
  exists (wildcard : bool) labels dots,
    trim host = (if wildcard then "*." else "") +:+ join "." labels +:+ dots /\
    labels <> [] /\ Forall label_ok labels /\ all_chars (Ascii.eqb ".") dots = true.
Proof.
  unfold validate_hostname. set (t := trim host).
  assert (Hlen : is_empty t || (253 <? len t) = false <-> 1 <= len t <= 253).
  { rewrite orb_false_iff, Z.ltb_ge. destruct t; [vm_compute; naive_solver|].
    unfold len. cbn [is_empty String.length]. naive_solver lia. }
  destruct (is_empty t || (253 <? len t)); [naive_solver|].
  apply proj1 in Hlen. specialize (Hlen eq_refl).
  set (body := default t (strip_prefix "*." t)).
  assert (Hbody : exists w : bool, t = (if w then "*." else "") +:+ body).
  { unfold body. destruct (strip_prefix "*." t) eqn:E; [|by exists false].
    apply strip_prefix_Some in E. by exists true. }
  split.
  - destruct (is_empty (trim_end_matches "." body)) eqn:Hemp; [done|].
    destruct (forallb _ _) eqn:Hall; [|done]. intros _. split; [done|].
    destruct Hbody as [w Hw], (trim_end_matches_app "." body) as (d & Hd & Hdots).
    exists w, (split_on "." (trim_end_matches "." body)), d.
    rewrite join_split_on. split; [by rewrite <- Hd|]. split; [apply split_on_nonempty|].
    split; [|done]. apply Forall_forall. intros l Hin. rewrite forallb_forall in Hall.
    apply validate_label_iff, Hall. by apply list_elem_of_In.
  - intros (_ & w & labels & d & Ht & Hne & Hl & Hdots).
    assert (Hb : body = join "." labels +:+ d).
    { unfold body. destruct w.
      - rewrite (proj2 (strip_prefix_Some "*." t (join "." labels +:+ d))) by done. done.
      - cbn in Ht. destruct (strip_prefix "*." t) eqn:E; [|done]. exfalso.
        apply strip_prefix_Some in E. rewrite Ht in E. by apply join_no_star in E. }
    destruct (join_last labels Hne Hl) as (r & z & Hj & Hz).
    assert (Htr : trim_end_matches "." body = join "." labels).
    { rewrite Hb, Hj. by apply trim_end_matches_keep. }
    rewrite Htr. destruct (is_empty (join "." labels)) eqn:He; [rewrite Hj in He; by destruct r|].
    rewrite split_on_join; [|done|by eapply Forall_impl; [exact Hl|apply label_no_dot]].
    assert (forallb validate_label labels = true) as ->; [|done].
    apply forallb_forall. intros l Hin%list_elem_of_In. rewrite Forall_forall in Hl.
    by apply validate_label_iff, Hl.
Qed.
