(* ===== verification/FleetClient.v ===== *)
(** * The fleet polling client ([crates/ne-api/src/fleet_client.rs])

    The state of one polling loop, the checks on a response, one iteration, the
    retry delays, and the bounded body reader.  URL parsing and JSON decoding
    are third-party code: their results are parameters.  Durations are in
    milliseconds. *)

From S2P Require Import Prelude Text Fleet.

Inductive FleetClientError :=
| FleetClientError_Configuration
| FleetClientError_RedirectRefused
| FleetClientError_ResponseTooLarge
| FleetClientError_Transport
| FleetClientError_Protocol
| FleetClientError_PayloadTooLarge
| FleetClientError_IdentityRejected
| FleetClientError_SessionFenced
| FleetClientError_Retryable.

(** ** Loop state *)

Record FleetLoopState := {
  st_process_instance_id : FleetUuid;
  st_session : option FleetSession;
  st_next_sequence : Z;
  st_pending : option FleetPollRequest;
}.
Definition with_process_instance_id (id : FleetUuid) : FleetLoopState := {|
  st_process_instance_id := id; st_session := None; st_next_sequence := 1; st_pending := None |}.

(** The request [prepare_pending] builds; [fresh] is the new [request_id]. *)
Definition build_request (st : FleetLoopState) (c : RunnerCapacity) (fresh : FleetUuid)
    : FleetPollRequest := {|
  protocol := {| min_version := FLEET_PROTOCOL_V1; max_version := FLEET_PROTOCOL_V1 |};
  process_instance_id := st_process_instance_id st;
  session := st_session st;
  request_id := fresh;
  sequence := st_next_sequence st;
  capacity := c;
  supported_contracts := []; renewals := []; releases := []; terminal_reports := [] |}.
Definition prepare_pending (c : RunnerCapacity) (fresh : FleetUuid)
    : M FleetLoopState FleetClientError FleetPollRequest :=
  st ← get;
  match st_pending st with
  | Some r => mret r
  | None =>
      _ ← lift (map_err (fun _ => FleetClientError_Protocol)
                  (FleetProtocolRange_new FLEET_PROTOCOL_V1 FLEET_PROTOCOL_V1));
      let request := build_request st c fresh in
      _ ← lift (map_err (fun _ => FleetClientError_Protocol) (FleetPollRequest_validate request));
      put {| st_process_instance_id := st_process_instance_id st; st_session := st_session st;
             st_next_sequence := st_next_sequence st; st_pending := Some request |} ;;;
      mret request
  end.

Definition session_regresses (pending_session : option FleetSession) (s : FleetSession) : bool :=
  match pending_session with
  | Some p => negb (bool_decide (session_id s = session_id p)) || (generation s <? generation p)
  | None => false
  end.
Definition validate_response_for (response : FleetPollResponse) (pending : FleetPollRequest)
    : result FleetClientError unit :=
  _ ← map_err (fun _ => FleetClientError_Protocol) (FleetPollResponse_validate response);
  let matching_correlation :=
    bool_decide (response_request_id response = request_id pending) &&
    (accepted_sequence response =? sequence pending) in
  if negb matching_correlation
     || (protocol_version response <? min_version (protocol pending))
     || (max_version (protocol pending) <? protocol_version response)
  then Err FleetClientError_Protocol
  else if session_regresses (session pending) (response_session response)
  then Err FleetClientError_Protocol
  else if existsb (fun l => negb (bool_decide (contract l ∈ supported_contracts pending)))
            (leases response)
  then Err FleetClientError_Protocol
  else Ok tt.

Definition apply_response (response : FleetPollResponse)
    : M FleetLoopState FleetClientError unit :=
  st ← get;
  pending ← lift (ok_or (st_pending st) FleetClientError_Protocol);
  _ ← lift (validate_response_for response pending);
  next ← lift (ok_or (checked_add U64_MAX (sequence pending) 1) FleetClientError_Protocol);
  put {| st_process_instance_id := st_process_instance_id st;
         st_session := Some (response_session response);
         st_next_sequence := next; st_pending := None |}.

(** ** One iteration *)

Inductive FleetIteration :=
| FleetIteration_Retry (snapshot_failed : bool)
| FleetIteration_Wait (delay : Z)
| FleetIteration_Stop.

Definition stops (e : FleetClientError) : bool :=
  match e with
  | FleetClientError_PayloadTooLarge | FleetClientError_Protocol
  | FleetClientError_IdentityRejected | FleetClientError_SessionFenced => true
  | _ => false
  end.

(** The capacity closure of [run_fleet_loop]: [answer] is what the supervisor
    replied, if it was a capacity snapshot. *)
Definition capacity_snapshot (answer : option RunnerCapacity) : result FleetClientError RunnerCapacity :=
  c ← ok_or answer FleetClientError_Transport;
  _ ← map_err (fun _ => FleetClientError_Protocol) (RunnerCapacity_validate c);
  Ok c.

(** What the outside world does during one iteration. *)
Record Input := {
  in_capacity : option RunnerCapacity;
  in_fresh_id : FleetUuid;
  in_reply : result FleetClientError FleetPollResponse;
  in_adjustment : Z;
}.

(** The second component is the request handed to the transport, if any. *)
Definition poll_iteration (i : Input) (st : FleetLoopState)
    : FleetIteration * option FleetPollRequest * FleetLoopState :=
  let prepared :=
    match st_pending st with
    | Some _ => inr st
    | None =>
        match capacity_snapshot (in_capacity i) with
        | Err _ => inl (FleetIteration_Retry true)
        | Ok c =>
            match prepare_pending c (in_fresh_id i) st with
            | (Err _, _) => inl FleetIteration_Stop
            | (Ok _, st') => inr st'
            end
        end
    end in
  match prepared with
  | inl it => (it, None, st)
  | inr st =>
      match st_pending st with
      | None => (FleetIteration_Stop, None, st)
      | Some pending =>
          match in_reply i with
          | Ok response =>
              match apply_response response st with
              | (Ok _, st') => (FleetIteration_Wait (poll_after_ms response), Some pending, st')
              | (Err _, st') => (FleetIteration_Stop, Some pending, st')
              end
          | Err e =>
              ((if stops e then FleetIteration_Stop else FleetIteration_Retry false),
               Some pending, st)
          end
      end
  end.

(** ** Delays *)

Definition U128_MAX : Z := 2 ^ 128 - 1.
(** [RandomFleetJitter::apply] with the drawn [adjustment]. *)
Definition jitter_apply (adjustment delay : Z) : Z :=
  let factor := if 0 <=? 100 + adjustment then 100 + adjustment else 100 in
  let adjusted := Z.min U128_MAX (delay * factor) / 100 in
  default U64_MAX (try_into U64_MAX adjusted).
Definition retry_delay (attempt adjustment : Z) : Z :=
  let multiplier := Z.shiftl 1 (Z.min attempt 5) in
  jitter_apply adjustment (Z.min (multiplier * 1000) 30000).

(** ** The loop *)

Record LoopRun := {
  run_state : FleetLoopState;
  retry_attempt : Z;
  sent : list FleetPollRequest;
  waits : list Z;
  stopped : bool;
}.
Definition run_start (id : FleetUuid) : LoopRun := {|
  run_state := with_process_instance_id id; retry_attempt := 0; sent := []; waits := [];
  stopped := false |}.
(** One turn of [run_fleet_loop]'s [loop]. *)
Definition loop_turn (run : LoopRun) (i : Input) : LoopRun :=
  if stopped run then run
  else
    let '(it, request, st) := poll_iteration i (run_state run) in
    let sent' := sent run ++ option_list request in
    match it with
    | FleetIteration_Retry _ => {|
        run_state := st; retry_attempt := saturating_add U32_MAX (retry_attempt run) 1;
        sent := sent'; waits := waits run ++ [retry_delay (retry_attempt run) (in_adjustment i)];
        stopped := false |}
    | FleetIteration_Wait delay => {|
        run_state := st; retry_attempt := 0; sent := sent';
        waits := waits run ++ [jitter_apply (in_adjustment i) delay]; stopped := false |}
    | FleetIteration_Stop => {|
        run_state := st; retry_attempt := retry_attempt run; sent := sent'; waits := waits run;
        stopped := true |}
    end.
Definition run_fleet_loop (id : FleetUuid) (inputs : list Input) : LoopRun :=
  fold_left loop_turn inputs (run_start id).

(** ** HTTP layer *)

Section Http.
(** [reqwest::Url::parse] and the accessors [validate_endpoint] uses. *)
Context {Url : Type} (url_parse : string -> option Url).
Context (url_scheme : Url -> string) (url_host : Url -> option string).
Context (url_username : Url -> string) (url_password url_query url_fragment : Url -> option string).
Definition validate_endpoint (value : string) : result FleetClientError Url :=
  endpoint ← ok_or (url_parse value) FleetClientError_Configuration;
  if negb (String.eqb (url_scheme endpoint) "https")
     || is_none (url_host endpoint)
     || negb (is_empty (url_username endpoint))
     || negb (is_none (url_password endpoint))
     || negb (is_none (url_query endpoint))
     || negb (is_none (url_fragment endpoint))
  then Err FleetClientError_Configuration
  else Ok endpoint.
Record FleetClientConfig := {
  endpoint : Url; ca_cert : string; client_cert : string; client_key : string;
  poll_interval : Z; connect_timeout : Z; request_timeout : Z; max_response_bytes : Z }.
Definition from_optional (endpoint ca_cert client_cert client_key : option string)
    : result FleetClientError (option FleetClientConfig) :=
  match endpoint with
  | None => Ok None
  | Some e =>
      match ca_cert, client_cert, client_key with
      | Some ca, Some cert, Some key =>
          url ← validate_endpoint e;
          Ok (Some {| endpoint := url; ca_cert := ca; client_cert := cert; client_key := key;
                      poll_interval := 30000; connect_timeout := 5000; request_timeout := 30000;
                      max_response_bytes := 64 * 1024 |})
      | _, _, _ => Err FleetClientError_Configuration
      end
  end.
End Http.

(** The body reader of [post_json]: the chunks the transport yields, [None]
    standing for a transport error. *)
Fixpoint read_body (max : Z) (body : list Z) (chunks : list (option (list Z)))
    : result FleetClientError (list Z) :=
  match chunks with
  | [] => Ok body
  | None :: _ => Err FleetClientError_Transport
  | Some chunk :: r =>
      size ← ok_or (checked_add USIZE_MAX (Z.of_nat (length body)) (Z.of_nat (length chunk)))
               FleetClientError_ResponseTooLarge;
      if max <? size then Err FleetClientError_ResponseTooLarge
      else read_body max (body ++ chunk) r
  end.
Definition is_redirection (status : Z) : bool := (300 <=? status) && (status <? 400).
(** [sent] is the outcome of sending: the response status and its chunks. *)
Definition post_json (max : Z) (sent : option (Z * list (option (list Z))))
    : result FleetClientError (Z * list Z) :=
  '(status, chunks) ← ok_or sent FleetClientError_Transport;
  if is_redirection status then Err FleetClientError_RedirectRefused
  else body ← read_body max [] chunks; Ok (status, body).

Section Decode.
(** [from_json_no_duplicate_keys] at the two response types. *)
Context (parse_response : string -> option FleetPollResponse).
Context (parse_error : string -> option FleetErrorResponse).
Definition map_error_response (body : list Z) (pending_sequence : Z)
    : result FleetClientError FleetPollResponse :=
  text ← ok_or (from_utf8 body) FleetClientError_Protocol;
  error ← ok_or (parse_error text) FleetClientError_Protocol;
  match code error with
  | FleetErrorCode_SequenceGap =>
      match expected_sequence error with
      | Some e => if pending_sequence <? e then Err FleetClientError_Retryable
                  else Err FleetClientError_Protocol
      | None => Err FleetClientError_Protocol
      end
  | FleetErrorCode_RateLimited | FleetErrorCode_Unavailable => Err FleetClientError_Retryable
  | FleetErrorCode_PayloadTooLarge => Err FleetClientError_PayloadTooLarge
  | FleetErrorCode_Unauthenticated => Err FleetClientError_IdentityRejected
  | FleetErrorCode_SessionFenced => Err FleetClientError_SessionFenced
  | _ => Err FleetClientError_Protocol
  end.
Definition decode_poll_response (status : Z) (body : list Z) (pending_sequence : Z)
    : result FleetClientError FleetPollResponse :=
  if (200 <=? status) && (status <=? 299) then
    text ← ok_or (from_utf8 body) FleetClientError_Protocol;
    ok_or (parse_response text) FleetClientError_Protocol
  else if status =? 413 then Err FleetClientError_PayloadTooLarge
  else if (status =? 429) || (status =? 500) || (status =? 503) then Err FleetClientError_Retryable
  else map_error_response body pending_sequence.
(** [FleetTransport::poll] for [FleetClient]; [send] takes the serialised
    request. *)
Definition client_poll (to_vec : FleetPollRequest -> option (list Z))
    (send : list Z -> option (Z * list (option (list Z)))) (max : Z) (request : FleetPollRequest)
    : result FleetClientError FleetPollResponse :=
  body ← ok_or (to_vec request) FleetClientError_Protocol;
  '(status, reply) ← post_json max (send body);
  decode_poll_response status reply (sequence request).
End Decode.

(** ** Responses are read within their bound *)

(** The response reader is bounded and lossless.  It succeeds exactly when
    no chunk is a transport error and the whole body fits the configured limit,
    and then returns the concatenation of the chunks; so no response can make
    the client hold more than that many bytes. *)
Theorem read_body_iff max chunks body :
  max <= USIZE_MAX ->
  read_body max [] chunks = Ok body <->
  (exists parts, chunks = Some <$> parts /\ body = mjoin parts) /\
  (chunks = [] \/ Z.of_nat (length body) <= max).
Proof.
  intros Hmax.
  enough (H : forall acc, read_body max acc chunks = Ok body <->
    (exists parts, chunks = Some <$> parts /\ body = acc ++ mjoin parts) /\
    (chunks = [] \/ Z.of_nat (length body) <= max)) by apply (H []).
  induction chunks as [|[c|] r IH]; intros acc; cbn [read_body].
  - split.
    + intros [= <-]. split; [exists []; by rewrite app_nil_r|by left].
    + intros [([|p parts] & Hp & ->) _]; [by rewrite app_nil_r|done].
  - rewrite bind_ok. setoid_rewrite ok_or_ok. setoid_rewrite checked_add_Some.
    rewrite <- Nat2Z.inj_add, <- length_app. split.
    + intros (size & [-> Hs] & H). destruct (Z.ltb_spec max (Z.of_nat (length (acc ++ c)))); [done|].
      apply IH in H as [(parts & -> & ->) Hl]. split.
      * exists (c :: parts). split; [done|]. by rewrite <- app_assoc.
      * right. destruct Hl as [Hl|Hl]; [|done]. destruct parts; [|done]. by rewrite app_nil_r.
    + intros [(parts & Hp & ->) Hl]. destruct parts as [|p parts]; [done|].
      injection Hp as -> ->. destruct Hl as [|Hl]; [done|].
      cbn in Hl. rewrite app_assoc, length_app in Hl.
      eexists. split; [split; [done|]; lia|].
      destruct (Z.ltb_spec max (Z.of_nat (length (acc ++ p)))); [lia|].
      apply IH. split; [exists parts; split; [done|]; cbn; by rewrite app_assoc|].
      right. cbn. rewrite app_assoc, length_app. lia.
  - split; [done|]. intros [(parts & Hp & _) _]. by destruct parts.
Qed.
Lemma read_body_iff_witness : read_body 4 [] [Some [1; 2]; Some [3]] = Ok [1; 2; 3].
Proof.
  apply (read_body_iff 4 [Some [1; 2]; Some [3]] [1; 2; 3]).
  - vm_compute. discriminate.
  - split; [by exists [[1; 2]; [3]]|]. right. vm_compute. discriminate.
Defined.

(** ** Delays *)

Lemma jitter_bounds a d :
  -20 <= a <= 20 -> 0 <= d <= 60000 -> d * 80 / 100 <= jitter_apply a d <= d * 120 / 100.
Proof.
  intros Ha Hd. unfold jitter_apply. destruct (Z.leb_spec 0 (100 + a)); [|lia].
  assert (Hmin : Z.min U128_MAX (d * (100 + a)) = d * (100 + a)).
  { apply Z.min_r. apply (Z.le_trans _ (60000 * 120)); [nia|vm_compute; discriminate]. }
  rewrite Hmin.
  assert (Hb : d * 80 / 100 <= d * (100 + a) / 100 <= d * 120 / 100).
  { split; apply Z.div_le_mono; nia. }
  assert (Hu : d * 120 / 100 <= U64_MAX).
  { apply (Z.le_trans _ (60000 * 120 / 100)); [apply Z.div_le_mono; lia|vm_compute; discriminate]. }
  unfold try_into. destruct (Z.leb_spec (d * (100 + a) / 100) U64_MAX); cbn; lia.
Qed.
Lemma backoff_range attempt :
  0 <= attempt -> 1000 <= Z.min (Z.shiftl 1 (Z.min attempt 5) * 1000) 30000 <= 30000.
Proof.
  intros H. assert (Hc : Z.min attempt 5 = 0 \/ Z.min attempt 5 = 1 \/ Z.min attempt 5 = 2 \/
    Z.min attempt 5 = 3 \/ Z.min attempt 5 = 4 \/ Z.min attempt 5 = 5) by lia.
  destruct_or! Hc; rewrite Hc; vm_compute; split; discriminate.
Qed.

(** ** The order of requests *)

(** The session of a later request continues the earlier one. *)
Definition session_continues (old : option FleetSession) (s : FleetSession) : Prop :=
  forall p, old = Some p -> session_id s = session_id p /\ generation p <= generation s.
Lemma session_regresses_false old s :
  session_regresses old s = false <-> session_continues old s.
Proof.
  unfold session_regresses, session_continues. destruct old as [p|]; [|naive_solver].
  rewrite orb_false_iff, negb_false_iff, bool_decide_eq_true, Z.ltb_ge. naive_solver.
Qed.
(** Two requests sent one after the other: a retransmission, or the successor. *)
Definition follows (a b : FleetPollRequest) : Prop :=
  b = a \/
  (sequence b = sequence a + 1 /\ exists s, session b = Some s /\ session_continues (session a) s).
(** What every request carries. *)
Definition request_ok (id : FleetUuid) (r : FleetPollRequest) : Prop :=
  FleetPollRequest_validate r = Ok tt /\ process_instance_id r = id /\ supported_contracts r = [].

Record loop_inv (id : FleetUuid) (run : LoopRun) : Prop := {
  li_id : st_process_instance_id (run_state run) = id;
  li_sent : Forall (request_ok id) (sent run);
  li_order : forall k a b, sent run !! k = Some a -> sent run !! S k = Some b -> follows a b;
  li_first : forall a, head (sent run) = Some a -> sequence a = 1 /\ session a = None;
  li_next :
    match last (sent run) with
    | None => st_pending (run_state run) = None /\ st_next_sequence (run_state run) = 1 /\
              st_session (run_state run) = None
    | Some r =>
        st_pending (run_state run) = Some r \/
        (st_pending (run_state run) = None /\ st_next_sequence (run_state run) = sequence r + 1 /\
         exists s, st_session (run_state run) = Some s /\ session_continues (session r) s)
    end;
}.

Lemma prepare_pending_fresh c fresh st r st' :
  st_pending st = None -> prepare_pending c fresh st = (Ok r, st') ->
  r = build_request st c fresh /\ FleetPollRequest_validate r = Ok tt /\
  st' = {| st_process_instance_id := st_process_instance_id st; st_session := st_session st;
           st_next_sequence := st_next_sequence st; st_pending := Some r |}.
Proof.
  intros Hp. unfold prepare_pending, mbind, M_bind, get, lift, put, mret, M_ret. rewrite Hp.
  change (FleetProtocolRange_new FLEET_PROTOCOL_V1 FLEET_PROTOCOL_V1)
    with (Ok (E := FleetValidationError)
            {| min_version := FLEET_PROTOCOL_V1; max_version := FLEET_PROTOCOL_V1 |}).
  cbn [map_err].
  destruct (FleetPollRequest_validate (build_request st c fresh)) as [[]|e] eqn:E; cbn [map_err].
  - intros [= <- <-]. done.
  - done.
Qed.
Lemma apply_response_ok resp st st' :
  apply_response resp st = (Ok tt, st') ->
  exists r, st_pending st = Some r /\ session_continues (session r) (response_session resp) /\
    (supported_contracts r = [] -> leases resp = []) /\
    FleetPollResponse_validate resp = Ok tt /\
    st' = {| st_process_instance_id := st_process_instance_id st;
             st_session := Some (response_session resp);
             st_next_sequence := sequence r + 1; st_pending := None |}.
Proof.
  unfold apply_response, mbind, M_bind, get, lift, put.
  destruct (st_pending st) as [r|]; [|done]. cbn [ok_or].
  destruct (validate_response_for resp r) as [[]|e] eqn:Hv; [|done].
  destruct (checked_add U64_MAX (sequence r) 1) as [n|] eqn:Hn; [|done]. cbn [ok_or].
  intros [= <-]. apply checked_add_Some in Hn as [-> _]. exists r. split; [done|].
  unfold validate_response_for in Hv. rewrite bind_ok in Hv. destruct Hv as ([] & Hval & Hv).
  apply map_err_ok in Hval. destruct (negb _ || _ || _) in Hv; [done|].
  destruct (session_regresses _ _) eqn:Hs; [done|]. apply session_regresses_false in Hs.
  destruct (existsb _ _) eqn:Hl; [done|]. split; [done|]. split; [|done].
  intros Hc. destruct (leases resp) as [|l ls]; [done|]. cbn in Hl. by rewrite Hc in Hl.
Qed.
Lemma apply_response_err resp st e st' : apply_response resp st = (Err e, st') -> st' = st.
Proof.
  unfold apply_response, mbind, M_bind, get, lift, put.
  destruct (ok_or (st_pending st) _); [|naive_solver].
  destruct (validate_response_for _ _); [|naive_solver]. destruct (ok_or _ _); naive_solver.
Qed.

Definition with_pending (st : FleetLoopState) (r : FleetPollRequest) : FleetLoopState := {|
  st_process_instance_id := st_process_instance_id st; st_session := st_session st;
  st_next_sequence := st_next_sequence st; st_pending := Some r |}.
Lemma with_pending_id st r : st_pending st = Some r -> with_pending st r = st.
Proof. destruct st; cbn. by intros ->. Qed.

(** Sending [r] from a state where it is pending. *)
Lemma send_cases i st r :
  st_pending st = Some r ->
  exists it st', poll_iteration i st = (it, Some r, st') /\
   ((st' = st /\ forall d, it <> FleetIteration_Wait d) \/
    exists resp, in_reply i = Ok resp /\ it = FleetIteration_Wait (poll_after_ms resp) /\
      FleetPollResponse_validate resp = Ok tt /\
      session_continues (session r) (response_session resp) /\
      (supported_contracts r = [] -> leases resp = []) /\
      st' = {| st_process_instance_id := st_process_instance_id st;
               st_session := Some (response_session resp);
               st_next_sequence := sequence r + 1; st_pending := None |}).
Proof.
  intros Hp. unfold poll_iteration. rewrite Hp. rewrite Hp.
  destruct (in_reply i) as [resp|e].
  - destruct (apply_response resp st) as [[[]|e] st'] eqn:Ha; eexists _, _; (split; [done|]).
    + right. apply apply_response_ok in Ha as (r' & Hr & Hs & Hl & Hv & ->). rewrite Hp in Hr.
      simplify_eq. by exists resp.
    + left. by apply apply_response_err in Ha.
  - eexists _, _. split; [done|]. left. split; [done|]. intros d. by destruct (stops e).
Qed.
Lemma poll_iteration_cases i st :
  (exists it, poll_iteration i st = (it, None, st) /\ st_pending st = None /\
     forall d, it <> FleetIteration_Wait d) \/
  exists r, (st_pending st = Some r \/
             st_pending st = None /\ FleetPollRequest_validate r = Ok tt /\
             exists c, r = build_request st c (in_fresh_id i)) /\
    poll_iteration i st = poll_iteration i (with_pending st r).
Proof.
  destruct (st_pending st) as [r|] eqn:Hp.
  { right. exists r. split; [by left|]. by rewrite with_pending_id. }
  unfold poll_iteration at 1 2. rewrite Hp.
  destruct (capacity_snapshot (in_capacity i)) as [c|e] eqn:Hc; [|left; by eexists].
  destruct (prepare_pending c (in_fresh_id i) st) as [[r|e] st'] eqn:Hpp; [|left; by eexists].
  apply prepare_pending_fresh in Hpp as (Hr & Hv & ->); [|done].
  right. exists r. split; [right; split; [done|]; split; [done|]; by exists c|]. done.
Qed.

Lemma follows_snoc (l : list FleetPollRequest) r :
  (forall k a b, l !! k = Some a -> l !! S k = Some b -> follows a b) ->
  (forall a, last l = Some a -> follows a r) ->
  forall k a b, (l ++ [r]) !! k = Some a -> (l ++ [r]) !! S k = Some b -> follows a b.
Proof.
  intros Hl Hlast k a b Ha Hb.
  destruct (decide (S k < length l)%nat) as [Hk|Hk].
  - rewrite lookup_app_l in Ha, Hb by lia. eauto.
  - assert (Hk' : S k = length l).
    { apply lookup_lt_Some in Hb. rewrite length_app in Hb. cbn in Hb. lia. }
    rewrite lookup_app_l in Ha by lia. rewrite Hk', list_lookup_middle in Hb by done.
    simplify_eq. apply Hlast. rewrite last_lookup, <- Hk'. done.
Qed.
Lemma head_snoc {A} (l : list A) r : head (l ++ [r]) = match head l with Some a => Some a | None => Some r end.
Proof. by destruct l. Qed.

(** The invariant after [r] has been sent. *)
Lemma loop_inv_send id run r st' attempt w stop :
  loop_inv id run ->
  (st_pending (run_state run) = Some r \/
   st_pending (run_state run) = None /\ FleetPollRequest_validate r = Ok tt /\
   exists c fresh, r = build_request (run_state run) c fresh) ->
  st_process_instance_id st' = id ->
  (st_pending st' = Some r \/
   (st_pending st' = None /\ st_next_sequence st' = sequence r + 1 /\
    exists s, st_session st' = Some s /\ session_continues (session r) s)) ->
  loop_inv id {| run_state := st'; retry_attempt := attempt; sent := sent run ++ [r];
                 waits := w; stopped := stop |}.
Proof.
  intros [Hid Hok Hord Hfirst Hnext] Hr Hid' Hst'.
  assert (Hr_ok : request_ok id r /\ (forall a, last (sent run) = Some a -> follows a r) /\
    (head (sent run) = None -> sequence r = 1 /\ session r = None)).
  { destruct (last (sent run)) as [z|] eqn:Hlast.
    - assert (Hz : request_ok id z).
      { rewrite Forall_forall in Hok. apply Hok. rewrite last_lookup in Hlast.
        by eapply list_elem_of_lookup_2. }
      split; [|split].
      + destruct Hr as [Hr|(Hr & Hv & c & f & ->)]; [|done].
        destruct Hnext as [Hn|(Hn & _)]; congruence.
      + intros a [= <-]. destruct Hr as [Hr|(Hr & Hv & c & f & ->)].
        * left. destruct Hnext as [Hn|(Hn & _)]; congruence.
        * right. destruct Hnext as [Hn|(Hn & Hseq & s & Hs & Hc)]; [congruence|].
          cbn. rewrite Hseq, Hs. split; [done|]. by exists s.
      + intros Hh. destruct (sent run); done.
    - destruct Hnext as (Hn & Hseq & Hs).
      destruct Hr as [Hr|(Hr & Hv & c & f & ->)]; [congruence|].
      split; [done|]. split; [done|]. cbn. done. }
  destruct Hr_ok as (Hrok & Hfol & Hhd). constructor; cbn.
  - done.
  - apply Forall_app. by split; [|constructor].
  - by apply follows_snoc.
  - intros a. rewrite head_snoc. destruct (head (sent run)) as [b|]; [apply Hfirst|].
    intros [= <-]. by apply Hhd.
  - by rewrite last_snoc.
Qed.
Lemma loop_turn_spec id run i :
  loop_inv id run -> 0 <= retry_attempt run ->
  loop_inv id (loop_turn run i) /\ 0 <= retry_attempt (loop_turn run i) /\
  (waits (loop_turn run i) = waits run \/
   waits (loop_turn run i) = waits run ++ [retry_delay (retry_attempt run) (in_adjustment i)] \/
   exists resp, FleetPollResponse_validate resp = Ok tt /\
     waits (loop_turn run i) = waits run ++ [jitter_apply (in_adjustment i) (poll_after_ms resp)]).
Proof.
  intros Hinv Ha. unfold loop_turn. destruct (stopped run); [by auto|].
  assert (Hsat : 0 <= saturating_add U32_MAX (retry_attempt run) 1)
    by (unfold saturating_add, U32_MAX; lia).
  destruct (poll_iteration_cases i (run_state run)) as [(it & -> & Hp & Hw)|(r & Hr & ->)].
  - rewrite app_nil_r. destruct Hinv as [H1 H2 H3 H4 H5].
    destruct it as [b|d|]; [|by destruct (Hw d)|]; (split; [by constructor|]; split; [done|]); cbn; auto.
  - destruct (send_cases i (with_pending (run_state run) r) r eq_refl) as (it & st' & -> & Hst').
    assert (Hr' : st_pending (run_state run) = Some r \/
      st_pending (run_state run) = None /\ FleetPollRequest_validate r = Ok tt /\
      exists c fresh, r = build_request (run_state run) c fresh) by naive_solver.
    pose proof (li_id _ _ Hinv) as Hid.
    destruct Hst' as [[-> Hw]|(resp & _ & -> & Hv & Hs & _ & ->)].
    + destruct it as [b|d|]; [|by destruct (Hw d)|];
        (split; [apply loop_inv_send; auto; by left|]; split; [done|]); cbn; auto.
    + split; [apply loop_inv_send; auto; right; cbn; eauto|]. split; [done|].
      right. right. exists resp. done.
Qed.
Lemma run_start_inv id : loop_inv id (run_start id).
Proof. by constructor; [|constructor|..]. Qed.
Lemma run_inv id inputs run :
  loop_inv id run -> 0 <= retry_attempt run ->
  loop_inv id (fold_left loop_turn inputs run).
Proof.
  revert run. induction inputs as [|i l IH]; intros run Hi Ha; cbn; [done|].
  destruct (loop_turn_spec id run i Hi Ha) as (? & ? & _). by apply IH.
Qed.

(** C34: The fleet loop sends requests in order, each until it is answered.
    Whatever capacity reports, replies, failures and malformed responses the
    loop meets, every request it sends is valid, carries this process's id and
    offers no contracts; the first has sequence 1 and no session; each next one
    is the identical request again (a retry) or the one with the next sequence
    number, in the same session with a generation that never goes back. *)
Theorem fleet_requests_in_order id inputs :
  let run := run_fleet_loop id inputs in
  Forall (request_ok id) (sent run) /\
  (forall a, head (sent run) = Some a -> sequence a = 1 /\ session a = None) /\
  (forall k a b, sent run !! k = Some a -> sent run !! S k = Some b -> follows a b).
Proof.
  cbn zeta. destruct (run_inv id inputs (run_start id) (run_start_inv id)) as [_ H1 H2 H3 _]; [done|].
  done.
Qed.

Lemma poll_after_range resp :
  FleetPollResponse_validate resp = Ok tt -> 5000 <= poll_after_ms resp <= 60000.
Proof.
  unfold FleetPollResponse_validate.
  destruct (_ || _); [done|].
  destruct (negb ((5000 <=? poll_after_ms resp) && (poll_after_ms resp <=? 60000))) eqn:E; [done|].
  intros _. apply negb_false_iff, andb_true_iff in E as [E1 E2]. reflect_Z. lia.
Qed.

(** Every pause of the fleet loop is bounded.  With the jitter drawn from
    its range, the loop waits at least 0.8 s between polls, at most 36 s after a
    failure however many came before it, and at most 72 s after a success; no
    intermediate product overflows. *)
Theorem fleet_waits_bounded id inputs :
  Forall (fun i => -20 <= in_adjustment i <= 20) inputs ->
  Forall (fun w => 800 <= w <= 72000) (waits (run_fleet_loop id inputs)) /\
  (forall attempt a, 0 <= attempt -> -20 <= a <= 20 -> 800 <= retry_delay attempt a <= 36000).
Proof.
  assert (Hretry : forall attempt a, 0 <= attempt -> -20 <= a <= 20 ->
    800 <= retry_delay attempt a <= 36000).
  { intros attempt a Hat Ha. unfold retry_delay. pose proof (backoff_range attempt Hat) as Hb.
    set (d := Z.min _ 30000) in *. pose proof (jitter_bounds a d Ha ltac:(lia)) as Hj.
    assert (1000 * 80 / 100 <= d * 80 / 100) by (apply Z.div_le_mono; lia).
    assert (d * 120 / 100 <= 30000 * 120 / 100) by (apply Z.div_le_mono; lia).
    change (1000 * 80 / 100) with 800 in *. change (30000 * 120 / 100) with 36000 in *. lia. }
  intros Hin. split; [|done]. unfold run_fleet_loop.
  assert (Hw : Forall (fun w => 800 <= w <= 72000) (waits (run_start id))) by constructor.
  revert Hw. generalize (run_start_inv id).
  assert (Ha : 0 <= retry_attempt (run_start id)) by done. revert Ha.
  generalize (run_start id). induction Hin as [|i l Hi Hl IH]; intros run Ha Hinv Hw; cbn; [done|].
  destruct (loop_turn_spec id run i Hinv Ha) as (Hinv' & Ha' & Hcase).
  apply IH; [done..|]. destruct Hcase as [->|[->|(resp & Hv & ->)]]; [done|..];
    apply Forall_app; (split; [done|]); apply Forall_singleton.
  - pose proof (Hretry (retry_attempt run) (in_adjustment i) Ha Hi). lia.
  - apply poll_after_range in Hv.
    pose proof (jitter_bounds (in_adjustment i) (poll_after_ms resp) Hi ltac:(lia)) as Hj.
    assert (5000 * 80 / 100 <= poll_after_ms resp * 80 / 100) by (apply Z.div_le_mono; lia).
    assert (poll_after_ms resp * 120 / 100 <= 60000 * 120 / 100) by (apply Z.div_le_mono; lia).
    change (5000 * 80 / 100) with 4000 in *. change (60000 * 120 / 100) with 72000 in *. lia.
Qed.
Lemma fleet_waits_bounded_witness :
  waits (run_fleet_loop 7 [{| in_capacity := None; in_fresh_id := 1;
    in_reply := Err FleetClientError_Transport; in_adjustment := 20 |}]) = [1200] /\
  800 <= retry_delay 9 (-20) <= 36000.
Proof.
  split; [vm_compute; reflexivity|].
  destruct (fleet_waits_bounded 7 [{| in_capacity := None; in_fresh_id := 1;
    in_reply := Err FleetClientError_Transport; in_adjustment := 20 |}]) as [_ H].
  - constructor; [cbn; lia|constructor].
  - apply H; lia.
Defined.
