(* ===== verification/Bytes.v ===== *)
(** * Byte strings

    Slices and fixed-width integers of byte strings, as binary parsers read
    them.  A byte string is a list of integers; a read at an offset is the
    [slice::get] of the source, offsets are integers.  The lemmas move between a
    slice and the decomposition of the string it is taken from; [slices] computes
    the slices of an appended byte string. *)

From S2P Require Import Prelude Text Crypto.

(** ** Byte strings *)

Definition blen (l : list Z) : Z := Z.of_nat (length l).
(** [l.get(a..b)]. *)
Definition get_range (l : list Z) (a b : Z) : option (list Z) :=
  if (0 <=? a) && (a <=? b) && (b <=? blen l)
  then Some (take (Z.to_nat (b - a)) (drop (Z.to_nat a) l)) else None.
Definition get_byte (l : list Z) (a : Z) : option Z :=
  if 0 <=? a then l !! Z.to_nat a else None.
Definition get_from (l : list Z) (a : Z) : option (list Z) := get_range l a (blen l).
(** The first [n] bytes and the rest; [n] is not turned into a unary number. *)
Fixpoint takeZ (n : Z) (l : list Z) : list Z :=
  match l with [] => [] | x :: r => if n <=? 0 then [] else x :: takeZ (n - 1) r end.
Fixpoint dropZ (n : Z) (l : list Z) : list Z :=
  match l with [] => [] | x :: r => if n <=? 0 then l else dropZ (n - 1) r end.
(** [from_le_bytes] and [from_be_bytes]. *)
Definition le_int (l : list Z) : Z := foldr (fun b acc => b + 256 * acc) 0 l.
Definition be_int (l : list Z) : Z := le_int (rev l).

(** ** Lemmas *)

Lemma blen_app l k : blen (l ++ k) = blen l + blen k.
Proof. unfold blen. rewrite length_app. lia. Qed.
Lemma blen_cons a l : blen (a :: l) = 1 + blen l.
Proof. unfold blen. cbn [length]. lia. Qed.
Lemma blen_nil : blen [] = 0.
Proof. done. Qed.
Lemma blen_nonneg l : 0 <= blen l.
Proof. unfold blen. lia. Qed.
Lemma blen_replicate n (x : Z) : blen (replicate n x) = Z.of_nat n.
Proof. unfold blen. by rewrite length_replicate. Qed.
Lemma takeZ_dropZ n l : takeZ n l ++ dropZ n l = l.
Proof.
  revert n. induction l as [|x r IH]; intros n; cbn; [done|]. destruct (n <=? 0); [done|].
  cbn. by rewrite IH.
Qed.
Lemma blen_takeZ n l : 0 <= n -> blen (takeZ n l) = Z.min n (blen l).
Proof.
  revert n. induction l as [|x r IH]; intros n Hn; cbn [takeZ].
  - rewrite blen_nil. lia.
  - pose proof (blen_nonneg r). destruct (Z.leb_spec n 0); [rewrite blen_cons, blen_nil; lia|].
    rewrite !blen_cons, IH by lia. lia.
Qed.
Lemma takeZ_app n l k : blen l = n -> takeZ n (l ++ k) = l.
Proof.
  revert n. induction l as [|x r IH]; intros n <-; cbn [app].
  - rewrite blen_nil. by destruct k.
  - cbn [takeZ]. rewrite blen_cons. pose proof (blen_nonneg r).
    destruct (Z.leb_spec (1 + blen r) 0); [lia|]. f_equal. apply IH. lia.
Qed.
Lemma dropZ_app n l k : blen l = n -> dropZ n (l ++ k) = k.
Proof.
  intros H. apply (app_inv_head l). rewrite <- (takeZ_app n l k H) at 1. apply takeZ_dropZ.
Qed.
Lemma takeZ_all n l : blen l <= n -> takeZ n l = l /\ dropZ n l = [].
Proof.
  revert n. induction l as [|x r IH]; intros n; cbn [takeZ dropZ]; [done|]. rewrite blen_cons.
  intros Hn. pose proof (blen_nonneg r). destruct (Z.leb_spec n 0); [lia|].
  destruct (IH (n - 1)) as [-> ->]; [lia|done].
Qed.
Lemma get_range_Some l a b x :
  get_range l a b = Some x <->
  0 <= a /\ a <= b /\ exists p s, l = p ++ x ++ s /\ blen p = a /\ blen x = b - a.
Proof.
  unfold get_range, blen. split.
  - destruct (Z.leb_spec 0 a), (Z.leb_spec a b), (Z.leb_spec b (Z.of_nat (length l))); try done.
    cbn. intros [= <-]. split; [done|]. split; [done|].
    exists (take (Z.to_nat a) l), (drop (Z.to_nat (b - a)) (drop (Z.to_nat a) l)).
    rewrite take_drop, take_drop, !length_take, length_drop. split; [done|]. lia.
  - intros (Ha & Hab & p & s & -> & <- & Hx). rewrite !length_app.
    rewrite (proj2 (Z.leb_le 0 _)), (proj2 (Z.leb_le _ b)), (proj2 (Z.leb_le b _)) by lia.
    cbn. f_equal. rewrite Nat2Z.id, drop_app_length. rewrite take_app_length'; [done|]. lia.
Qed.
Lemma get_range_app p x s a b :
  blen p = a -> a + blen x = b -> get_range (p ++ x ++ s) a b = Some x.
Proof.
  intros <- <-. apply get_range_Some. pose proof (blen_nonneg p). pose proof (blen_nonneg x).
  split; [done|]. split; [lia|]. exists p, s. split; [done|]. split; [done|lia].
Qed.
Lemma get_range_length l a b x : get_range l a b = Some x -> blen x = b - a.
Proof. rewrite get_range_Some. naive_solver. Qed.
(** A slice that ends before a suffix does not see it. *)
Lemma get_range_prefix l k a b : b <= blen l -> get_range (l ++ k) a b = get_range l a b.
Proof.
  intros Hb. unfold get_range. rewrite blen_app. pose proof (blen_nonneg k).
  rewrite (proj2 (Z.leb_le b (blen l + blen k))), (proj2 (Z.leb_le b (blen l))) by lia.
  rewrite andb_true_r. destruct (Z.leb_spec 0 a), (Z.leb_spec a b); try done. cbn. f_equal.
  unfold blen in *. rewrite drop_app_le by lia. rewrite take_app_le; [done|]. rewrite length_drop. lia.
Qed.

Fixpoint le_bytes (n : nat) (v : Z) : list Z :=
  match n with O => [] | S n => v mod 256 :: le_bytes n (v / 256) end.
Definition be_bytes (n : nat) (v : Z) : list Z := rev (le_bytes n v).
#[global] Arguments be_bytes : simpl never.
Lemma length_le_bytes n v : length (le_bytes n v) = n.
Proof. revert v. induction n as [|n IH]; intros v; cbn; [done|]. by rewrite IH. Qed.
Lemma blen_le_bytes n v : blen (le_bytes n v) = Z.of_nat n.
Proof. unfold blen. by rewrite length_le_bytes. Qed.
Lemma blen_be_bytes n v : blen (be_bytes n v) = Z.of_nat n.
Proof. unfold blen, be_bytes. by rewrite length_rev, length_le_bytes. Qed.
Lemma le_bytes_is_bytes n v : is_bytes (le_bytes n v).
Proof. revert v. induction n as [|n IH]; intros v; constructor; [apply is_byte_mod|apply IH]. Qed.
Lemma is_bytes_rev l : is_bytes l -> is_bytes (rev l).
Proof. unfold is_bytes. rewrite !List.Forall_forall. intros H x Hx. apply H. by rewrite in_rev. Qed.
Lemma le_int_le_bytes n v : 0 <= v < 256 ^ Z.of_nat n -> le_int (le_bytes n v) = v.
Proof.
  revert v. induction n as [|n IH]; intros v Hv; cbn [le_bytes le_int foldr].
  - cbn in Hv. lia.
  - fold (le_int (le_bytes n (v / 256))). rewrite IH; [pose proof (Z.div_mod v 256); lia|].
    rewrite Nat2Z.inj_succ, Z.pow_succ_r in Hv by lia.
    split; [apply Z.div_pos; lia|]. apply Z.div_lt_upper_bound; lia.
Qed.
Lemma le_bytes_le_int l : is_bytes l -> le_bytes (length l) (le_int l) = l.
Proof.
  intros H. induction H as [|b l Hb Hl IH]; cbn [length le_bytes le_int foldr]; [done|].
  fold (le_int l). unfold is_byte in Hb.
  rewrite (Z.mul_comm 256), Z.mod_add, Z.mod_small, Z.div_add, Z.div_small, Z.add_0_l by lia.
  by rewrite IH.
Qed.
Lemma be_int_be_bytes n v : 0 <= v < 256 ^ Z.of_nat n -> be_int (be_bytes n v) = v.
Proof. intros H. unfold be_int, be_bytes. rewrite rev_involutive. by apply le_int_le_bytes. Qed.
Lemma be_bytes_be_int l n : is_bytes l -> blen l = Z.of_nat n -> be_bytes n (be_int l) = l.
Proof.
  intros H Hn. unfold be_bytes, be_int. assert (length (rev l) = n) as <-.
  { rewrite length_rev. unfold blen in Hn. lia. }
  rewrite le_bytes_le_int by (by apply is_bytes_rev). apply rev_involutive.
Qed.
Lemma be_int_range l : is_bytes l -> 0 <= be_int l < 256 ^ blen l.
Proof.
  intros H. apply is_bytes_rev in H. unfold be_int. assert (blen l = blen (rev l)) as ->.
  { unfold blen. by rewrite length_rev. }
  induction H as [|b k Hb Hk IH]; [by vm_compute|]. rewrite blen_cons. cbn [le_int foldr].
  fold (le_int k). unfold is_byte in Hb. rewrite Z.pow_add_r by (pose proof (blen_nonneg k); lia).
  change (256 ^ 1) with 256. lia.
Qed.
Lemma is_bytes_app l k : is_bytes (l ++ k) <-> is_bytes l /\ is_bytes k.
Proof. apply Forall_app. Qed.
#[export] Hint Rewrite blen_app blen_cons blen_nil blen_replicate blen_le_bytes blen_be_bytes : enclave_eq.
Ltac blen_lia := autorewrite with enclave_eq in *; cbn [Z.of_nat Pos.of_succ_nat Pos.succ] in *; try lia.
Lemma get_range_skip p l a b : blen p <= a -> get_range (p ++ l) a b = get_range l (a - blen p) (b - blen p).
Proof.
  intros Ha. unfold get_range. rewrite blen_app. pose proof (blen_nonneg p).
  replace (0 <=? a) with true by (symmetry; apply Z.leb_le; lia).
  replace (0 <=? a - blen p) with true by (symmetry; apply Z.leb_le; lia).
  replace (a - blen p <=? b - blen p) with (a <=? b)
    by (destruct (Z.leb_spec a b), (Z.leb_spec (a - blen p) (b - blen p)); lia).
  replace (b - blen p <=? blen l) with (b <=? blen p + blen l)
    by (destruct (Z.leb_spec b (blen p + blen l)), (Z.leb_spec (b - blen p) (blen l)); lia).
  destruct (_ && _ && _); [|done]. f_equal. unfold blen in *.
  replace (b - _ - (a - _)) with (b - a) by lia. rewrite drop_app_ge by lia.
  f_equal. f_equal. lia.
Qed.
Lemma get_range_head x s a b : a = 0 -> blen x = b -> get_range (x ++ s) a b = Some x.
Proof. intros -> <-. by apply (get_range_app [] x s). Qed.
Lemma get_range_full x b : blen x = b -> get_range x 0 b = Some x.
Proof. intros H. rewrite <- (app_nil_r x) at 1. by apply get_range_head. Qed.
(** Walk to the slice at a known offset of an appended byte string. *)
Ltac slice_step :=
  match goal with
  | |- context [get_range (?p ++ ?l) ?a ?b] =>
      first [rewrite (get_range_head p l a b) by blen_lia
            |rewrite (get_range_skip p l a b) by blen_lia]
  end.
Ltac slices := repeat slice_step.

Lemma le_int_u32 v : in_range U32_MAX v -> le_int (le_bytes 4 v) = v.
Proof. intros H. apply le_int_le_bytes. unfold in_range, U32_MAX in H. change (256 ^ Z.of_nat 4) with 4294967296. lia. Qed.
Lemma le_int_u64 v : in_range U64_MAX v -> le_int (le_bytes 8 v) = v.
Proof. intros H. apply le_int_le_bytes. unfold in_range, U64_MAX in H. change (256 ^ Z.of_nat 8) with 18446744073709551616. lia. Qed.

Lemma be_int_u16 v : in_range U16_MAX v -> be_int (be_bytes 2 v) = v.
Proof. intros H. apply be_int_be_bytes. unfold in_range, U16_MAX in H. change (256 ^ Z.of_nat 2) with 65536. lia. Qed.
Lemma be_int_u16_range x : is_bytes x -> blen x = 2 -> in_range U16_MAX (be_int x).
Proof.
  intros H Hx. apply be_int_range in H. rewrite Hx in H. change (256 ^ 2) with 65536 in H.
  unfold in_range, U16_MAX. lia.
Qed.

Lemma get_range_at c rest a b x :
  get_range (c ++ rest) a b = Some x -> blen c = a ->
  exists rest', rest = x ++ rest' /\ blen x = b - a.
Proof.
  rewrite get_range_Some. intros (_ & _ & p & s & Hl & Hp & Hx) Hc.
  apply app_inj_1 in Hl as [-> ->]; [by exists s|]. unfold blen in *. lia.
Qed.
Lemma get_from_Some l a x : get_from l a = Some x <-> exists p, l = p ++ x /\ blen p = a.
Proof.
  unfold get_from. rewrite get_range_Some. split.
  - intros (_ & _ & p & s & -> & Hp & Hx). exists p. rewrite !blen_app in Hx.
    destruct s; [by rewrite app_nil_r|]. rewrite blen_cons in Hx. pose proof (blen_nonneg s).
    pose proof (blen_nonneg x). lia.
  - intros (p & -> & Hp). rewrite blen_app. pose proof (blen_nonneg p). pose proof (blen_nonneg x).
    split; [lia|]. split; [lia|]. exists p, []. rewrite app_nil_r. split; [done|]. lia.
Qed.

Lemma get_byte_Some l a x : get_byte l a = Some x <-> exists p s, l = p ++ x :: s /\ blen p = a.
Proof.
  unfold get_byte. split.
  - destruct (Z.leb_spec 0 a); [|done]. intros Hl. apply list_elem_of_split_length in Hl as (p & s & -> & Hp).
    exists p, s. split; [done|]. unfold blen. lia.
  - intros (p & s & -> & <-). rewrite (proj2 (Z.leb_le _ _)) by apply blen_nonneg.
    unfold blen. rewrite Nat2Z.id. by rewrite list_lookup_middle.
Qed.
Lemma get_byte_at p rest x :
  get_byte (p ++ rest) (blen p) = Some x <-> exists rest', rest = x :: rest'.
Proof.
  rewrite get_byte_Some. split.
  - intros (p' & s & Hl & Hp). apply app_inj_1 in Hl as [-> ->]; [by exists s|]. unfold blen in Hp. lia.
  - intros (r & ->). by exists p, r.
Qed.
