(* ===== verification/GuestFiles.v ===== *)
(** * Files of a workspace ([crates/ne-guest-agent/src/files.rs])

    The path check, the atomic write and the capped read of the guest agent,
    over a file system with directories, files and symbolic links.  A path is
    the list of its components; the operations of [std::fs] that the source
    calls follow the links the way the system calls do.  Failures with a cause
    outside the model (a full disk, a failing device) are the fields of
    [WriteIo]. *)

From S2P Require Import Prelude Text.

(** ** File system *)

Abbreviation path := (list string).
Inductive Node :=
| Node_dir (mode : Z)
| Node_file (mode : Z) (content : list Z)
| Node_symlink (absolute : bool) (target : path).
Abbreviation Fs := (gmap (list string) Node).

Inductive IoError :=
| IoError_NotFound
| IoError_AlreadyExists
| IoError_NotADirectory
| IoError_IsADirectory
| IoError_Loop
| IoError_Other.

(** The root directory always exists. *)
Definition node (fs : Fs) (p : path) : option Node :=
  match p with [] => Some (Node_dir 493) | _ => fs !! p end.
Definition parent_of (p : path) : path := removelast p.

(** Path resolution: walk the components from [cur], following at most [links]
    symbolic links; [follow] says whether a link in last position is followed. *)
Fixpoint walk (links : nat) (fs : Fs) (follow : bool) (cur : path) (todo : path) : result IoError path :=
  let fix go (cur todo : path) : result IoError path :=
    match todo with
    | [] => Ok cur
    | c :: rest =>
        if String.eqb c "." then go cur rest
        else if String.eqb c ".." then go (parent_of cur) rest
        else
          match node fs (cur ++ [c]) with
          | None => Err IoError_NotFound
          | Some (Node_dir _) => go (cur ++ [c]) rest
          | Some (Node_file _ _) =>
              match rest with [] => Ok (cur ++ [c]) | _ => Err IoError_NotADirectory end
          | Some (Node_symlink absolute target) =>
              if negb follow && bool_decide (rest = []) then Ok (cur ++ [c])
              else
                match links with
                | O => Err IoError_Loop
                | S links' => walk links' fs follow (if absolute then [] else cur) (target ++ rest)
                end
          end
    end in
  go cur todo.
(** Linux follows at most 40 links. *)
Definition resolve_path (fs : Fs) (p : path) : result IoError path := walk 40 fs true [] p.

(** [Path::canonicalize] and [Path::is_dir]. *)
Definition canonicalize_path (fs : Fs) (p : path) : result IoError path := resolve_path fs p.
Definition is_dir (fs : Fs) (p : path) : bool :=
  match resolve_path fs p with
  | Ok q => match node fs q with Some (Node_dir _) => true | _ => false end
  | Err _ => false
  end.

(** The directory and the name a path stands for, before its last component is
    looked up. *)
Definition locate (fs : Fs) (p : path) : result IoError (path * string) :=
  match last p with
  | None => Err IoError_IsADirectory
  | Some name =>
      d ← resolve_path fs (parent_of p);
      match node fs d with
      | Some (Node_dir _) => Ok (d, name)
      | _ => Err IoError_NotADirectory
      end
  end.

(** The permission bits a process with this umask gives a new file or directory. *)
Definition masked (umask mode : Z) : Z := Z.land mode (Z.lnot umask).
(** [mkdir(2)] with the mode left by the umask. *)
Definition mkdir (umask_mode : Z) (p : path) : M Fs IoError unit :=
  fs ← get;
  '(d, name) ← lift (locate fs p);
  match node fs (d ++ [name]) with
  | Some _ => throw IoError_AlreadyExists
  | None => put (<[d ++ [name] := Node_dir umask_mode]> fs)
  end.
(** [std::fs::create_dir_all], on the reversed path. *)
Fixpoint create_dir_all_rev (umask_mode : Z) (rp : path) : M Fs IoError unit :=
  match rp with
  | [] => mret tt
  | _ :: rparent => fun fs =>
      let p := rev rp in
      match mkdir umask_mode p fs with
      | (Ok _, fs') => (Ok tt, fs')
      | (Err IoError_NotFound, fs') =>
          match create_dir_all_rev umask_mode rparent fs' with
          | (Err e, fs'') => (Err e, fs'')
          | (Ok _, fs'') =>
              match mkdir umask_mode p fs'' with
              | (Ok _, fs3) => (Ok tt, fs3)
              | (Err e, fs3) => if is_dir fs3 p then (Ok tt, fs3) else (Err e, fs3)
              end
          end
      | (Err e, fs') => if is_dir fs' p then (Ok tt, fs') else (Err e, fs')
      end
  end.
Definition create_dir_all (umask_mode : Z) (p : path) : M Fs IoError unit :=
  create_dir_all_rev umask_mode (rev p).

Definition with_mode (mode : Z) (n : Node) : Node :=
  match n with
  | Node_dir _ => Node_dir mode
  | Node_file _ c => Node_file mode c
  | Node_symlink a t => Node_symlink a t
  end.
(** [fs::set_permissions] follows links; the source ignores its failures. *)
Definition set_permissions (mode : Z) (p : path) (fs : Fs) : Fs :=
  match resolve_path fs p with
  | Ok q => match fs !! q with Some n => <[q := with_mode mode n]> fs | None => fs end
  | Err _ => fs
  end.
(** [create_new] with the mode left by the umask: refuses anything that exists under the name, a
    link included. *)
Definition create_new (umask_mode : Z) (p : path) : M Fs IoError unit :=
  fs ← get;
  '(d, name) ← lift (locate fs p);
  match node fs (d ++ [name]) with
  | Some _ => throw IoError_AlreadyExists
  | None => put (<[d ++ [name] := Node_file umask_mode []]> fs)
  end.
(** [unlink(2)]; [removed] is false when it fails for a cause outside the model. *)
Definition remove_file (removed : bool) (p : path) : M Fs IoError unit :=
  fs ← get;
  '(d, name) ← lift (locate fs p);
  if negb removed then throw IoError_Other
  else match node fs (d ++ [name]) with
       | None => throw IoError_NotFound
       | Some (Node_dir _) => throw IoError_IsADirectory
       | Some _ => put (delete (d ++ [name]) fs)
       end.
(** [rename(2)] of a file: replaces a file or a link, not a directory. *)
Definition rename (from to : path) : M Fs IoError unit :=
  fs ← get;
  '(d, name) ← lift (locate fs from);
  '(d', name') ← lift (locate fs to);
  match node fs (d ++ [name]), node fs (d' ++ [name']) with
  | None, _ => throw IoError_NotFound
  | _, Some (Node_dir _) => throw IoError_IsADirectory
  | Some n, _ => put (<[d' ++ [name'] := n]> (delete (d ++ [name]) fs))
  end.

(** ** The agent's operations *)

Definition DEFAULT_MAX_BYTES : Z := 10 * 1024 * 1024.
Inductive FileError :=
| FileError_PathRejected
| FileError_NotFound
| FileError_TooLarge (actual cap : Z)
| FileError_Io (e : IoError).
(** The wire kind of an error. *)
Inductive GuestErrorKind :=
| GuestErrorKind_PathRejected | GuestErrorKind_FileNotFound | GuestErrorKind_FileTooLarge
| GuestErrorKind_IoError | GuestErrorKind_CommandFailed | GuestErrorKind_Timeout
| GuestErrorKind_InvalidRequest | GuestErrorKind_Internal.
Definition FileError_kind (e : FileError) : GuestErrorKind :=
  match e with
  | FileError_PathRejected => GuestErrorKind_PathRejected
  | FileError_NotFound => GuestErrorKind_FileNotFound
  | FileError_TooLarge _ _ => GuestErrorKind_FileTooLarge
  | FileError_Io _ => GuestErrorKind_IoError
  end.

Definition nul : ascii := "000".
Fixpoint validate_components (l : list string) : result FileError path :=
  match l with
  | [] => Ok []
  | c :: r =>
      if is_empty c then Err FileError_PathRejected
      else if String.eqb c "." || String.eqb c ".." then Err FileError_PathRejected
      else if contains_char nul c then Err FileError_PathRejected
      else out ← validate_components r; Ok (c :: out)
  end.
Definition validate_relative_path (raw : string) : result FileError path :=
  if is_empty raw then Err FileError_PathRejected
  else if starts_with "/" raw then Err FileError_PathRejected
  else validate_components (split_on "/" raw).

Fixpoint path_starts_with (prefix p : path) : bool :=
  match prefix, p with
  | [], _ => true
  | a :: r, b :: s => String.eqb a b && path_starts_with r s
  | _ :: _, [] => false
  end.
Definition jailed_absolute (fs : Fs) (jail_root p : path) : result FileError path :=
  let final_path := jail_root ++ p in
  jail_canon ← map_err FileError_Io (canonicalize_path fs jail_root);
  let parent := parent_of final_path in
  parent_canon ← match canonicalize_path fs parent with
                 | Ok q => Ok q
                 | Err IoError_NotFound => Err FileError_NotFound
                 | Err e => Err (FileError_Io e)
                 end;
  if negb (path_starts_with jail_canon parent_canon) then Err FileError_PathRejected
  else Ok final_path.

(** Outcomes decided outside the model: opening the temporary file; writing and syncing it, or how
    many bytes were in it when that failed; renaming it; and removing it after a failure. *)
Record WriteIo := { io_open : bool; io_write : option nat; io_rename : bool; io_remove : bool }.

(** [set_permissions] on every directory between the jail and the file. *)
Fixpoint tighten (walked : path) (comps : path) (fs : Fs) : Fs :=
  match comps with
  | [] => fs
  | c :: r => let walked := walked ++ [c] in tighten walked r (set_permissions 493 walked fs)
  end.
Definition tmp_name (name suffix : string) : string := "." +:+ name +:+ "." +:+ suffix +:+ ".tmp".

Definition io_step {A} (m : M Fs IoError A) : M Fs FileError A := fun fs =>
  let '(r, fs') := m fs in (map_err FileError_Io r, fs').
(** [let _ = fs::remove_file]: the file stays when the removal fails. *)
Definition clean (removed : bool) (tmp_path : path) (fs : Fs) : Fs := snd (remove_file removed tmp_path fs).
(** The last step: rename, or remove the temporary file. *)
Definition rename_or_clean (ok removed : bool) (tmp_path final_path : path) : M Fs FileError unit := fun fs =>
  match (if ok then rename tmp_path final_path else throw IoError_Other) fs with
  | (Ok _, fs') => (Ok tt, fs')
  | (Err e, fs') => (Err (FileError_Io e), clean removed tmp_path fs')
  end.
(** Writing through the handle of the temporary file. *)
Definition fill_tmp (mode : Z) (tmp_path : path) (content : list Z) (fs : Fs) : Fs :=
  match locate fs tmp_path with
  | Ok (d, name) => <[d ++ [name] := Node_file mode content]> fs
  | Err _ => fs
  end.
(** Write and sync the temporary file, or remove it. *)
Definition fill_or_clean (failed : option nat) (removed : bool) (mode : Z) (tmp_path : path)
    (content : list Z) : M Fs FileError unit := fun fs =>
  match failed with
  | None => (Ok tt, fill_tmp mode tmp_path content fs)
  | Some n => (Err (FileError_Io IoError_Other),
               clean removed tmp_path (fill_tmp mode tmp_path (take n content) fs))
  end.
Definition write_file_atomic (io : WriteIo) (umask : Z) (suffix : string) (jail_root : path)
    (relative : string) (content : list Z) : M Fs FileError path :=
  rel ← lift (validate_relative_path relative);
  let parent := parent_of (jail_root ++ rel) in
  io_step (create_dir_all (masked umask 511) parent) ;;;
  modify (tighten jail_root (parent_of rel)) ;;;
  fs ← get;
  final_path ← lift (jailed_absolute fs jail_root rel);
  let tmp_path := parent_of final_path ++ [tmp_name (default "file" (last final_path)) suffix] in
  let mode := masked umask 420 in
  (if io_open io then io_step (create_new mode tmp_path) else throw (FileError_Io IoError_Other)) ;;;
  fill_or_clean (io_write io) (io_remove io) mode tmp_path content ;;;
  rename_or_clean (io_rename io) (io_remove io) tmp_path final_path ;;;
  mret final_path.

(** [open] with [O_NOFOLLOW], the size check and the capped read.  The content
    returned, the size of the file, and whether it was cut. *)
Definition read_file_capped (fs : Fs) (jail_root : path) (relative : string) (max_bytes : Z)
    : result FileError (list Z * Z * bool) :=
  rel ← validate_relative_path relative;
  final_path ← jailed_absolute fs jail_root rel;
  match walk 40 fs false [] final_path with
  | Err IoError_NotFound => Err FileError_NotFound
  | Err IoError_Loop => Err FileError_PathRejected
  | Err e => Err (FileError_Io e)
  | Ok q =>
      match node fs q with
      | None => Err FileError_NotFound
      | Some (Node_symlink _ _) => Err FileError_PathRejected
      | Some (Node_dir _) => Err FileError_PathRejected
      | Some (Node_file _ content) =>
          let size_bytes := Z.of_nat (length content) in
          let cap := if max_bytes =? 0 then DEFAULT_MAX_BYTES else max_bytes in
          let to_read := Z.min size_bytes cap in
          Ok (take (Z.to_nat to_read) content, size_bytes, cap <? size_bytes)
      end
  end.

(** ** Path grammar *)

(** A component of a validated path. *)
Definition component_ok (c : string) : Prop :=
  c <> "" /\ c <> "." /\ c <> ".." /\ contains_char nul c = false /\ contains_char "/" c = false.
Lemma validate_components_iff l out :
  validate_components l = Ok out <->
  out = l /\ Forall (fun c => c <> "" /\ c <> "." /\ c <> ".." /\ contains_char nul c = false) l.
Proof.
  revert out. induction l as [|c r IH]; intros out; cbn [validate_components]; [by naive_solver|].
  rewrite Forall_cons.
  destruct c as [|a c']; [naive_solver|]. cbn [is_empty]. set (c := String a c').
  destruct (String.eqb_spec c ".") as [->|H1]; [naive_solver|].
  destruct (String.eqb_spec c "..") as [->|H2]; [naive_solver|]. cbn [orb].
  destruct (contains_char nul c); [naive_solver|]. rewrite bind_ok. setoid_rewrite IH.
  split; [|naive_solver]. intros (x & (-> & Hr) & [= <-]). done.
Qed.
Lemma validate_relative_path_spec raw p :
  validate_relative_path raw = Ok p <->
  p <> [] /\ raw = join "/" p /\ Forall component_ok p.
Proof.
  unfold validate_relative_path. split.
  - destruct (is_empty raw) eqn:He; [done|]. destruct (starts_with "/" raw) eqn:Hs; [done|].
    intros [-> Hok]%validate_components_iff. split; [apply split_on_nonempty|].
    split; [by rewrite join_split_on|]. pose proof (split_on_pieces "/" raw) as Hp.
    rewrite Forall_forall in *. intros c Hc. specialize (Hok c Hc). specialize (Hp c Hc).
    unfold component_ok. tauto.
  - intros (Hne & -> & Hok). destruct p as [|c r]; [done|]. apply Forall_cons in Hok as [Hc Hr].
    assert (Hj : exists a s, join "/" (c :: r) = String a s /\ a <> "/"%char).
    { destruct c as [|a c]; [by destruct Hc|]. destruct Hc as (_ & _ & _ & _ & Hc).
      unfold contains_char in Hc. cbn [any_char] in Hc. apply orb_false_iff in Hc as [Hc _].
      apply Ascii.eqb_neq in Hc. destruct r; eexists a, _; (split; [done|congruence]). }
    destruct Hj as (a & s & Hj & Ha). rewrite Hj. cbn [is_empty].
    unfold starts_with. cbn [strip_prefix]. destruct (Ascii.eqb_spec "/" a); [congruence|].
    rewrite <- Hj, split_on_join; [|done|].
    + apply validate_components_iff. split; [done|]. apply Forall_cons. split; [unfold component_ok in Hc; tauto|].
      eapply Forall_impl; [exact Hr|]. unfold component_ok. naive_solver.
    + apply Forall_cons. split; [by apply Hc|]. eapply Forall_impl; [exact Hr|].
      unfold component_ok. intros; tauto.
Qed.

(** ** Path resolution *)

Lemma walk_eq links fs follow cur todo :
  walk links fs follow cur todo =
  match todo with
  | [] => Ok cur
  | c :: rest =>
      if String.eqb c "." then walk links fs follow cur rest
      else if String.eqb c ".." then walk links fs follow (parent_of cur) rest
      else
        match node fs (cur ++ [c]) with
        | None => Err IoError_NotFound
        | Some (Node_dir _) => walk links fs follow (cur ++ [c]) rest
        | Some (Node_file _ _) =>
            match rest with [] => Ok (cur ++ [c]) | _ => Err IoError_NotADirectory end
        | Some (Node_symlink absolute target) =>
            if negb follow && bool_decide (rest = []) then Ok (cur ++ [c])
            else
              match links with
              | O => Err IoError_Loop
              | S links' => walk links' fs follow (if absolute then [] else cur) (target ++ rest)
              end
        end
  end.
Proof. by destruct links, todo. Qed.

(** Induction on the walk: the budget of links, then the components. *)
Lemma walk_ind (P : nat -> path -> path -> Prop) :
  (forall links cur todo,
     (forall cur' r, length r < length todo -> P links cur' r)%nat ->
     (forall links' cur' todo', links = S links' -> P links' cur' todo') ->
     P links cur todo) ->
  forall links cur todo, P links cur todo.
Proof.
  intros Hstep. induction links as [|l IHl]; intros cur todo; revert cur;
    induction todo as [todo IHt] using (induction_ltof1 _ (@length string)); intros cur;
    apply Hstep; intros; [by apply IHt|congruence|by apply IHt|].
  simplify_eq. apply IHl.
Qed.

(** [fs'] resolves whatever [fs] resolves, to the same place. *)
Definition walkable (fs fs' : Fs) : Prop := forall p,
  match node fs p with
  | Some (Node_dir _) => exists m, node fs' p = Some (Node_dir m)
  | Some (Node_file _ _) => exists m c, node fs' p = Some (Node_file m c)
  | Some (Node_symlink a t) => node fs' p = Some (Node_symlink a t)
  | None => True
  end.
Lemma walk_mono fs fs' follow links cur todo q :
  walkable fs fs' -> walk links fs follow cur todo = Ok q -> walk links fs' follow cur todo = Ok q.
Proof.
  intros Hw. revert links cur todo. apply (walk_ind (fun links cur todo =>
    walk links fs follow cur todo = Ok q -> walk links fs' follow cur todo = Ok q)).
  intros links cur todo IHt IHl. rewrite !(walk_eq links _ _ cur todo).
  destruct todo as [|c rest]; [done|].
  assert (Hlt : (length rest < length (c :: rest))%nat) by (cbn; lia).
  destruct (String.eqb c "."); [by apply IHt|]. destruct (String.eqb c ".."); [by apply IHt|].
  specialize (Hw (cur ++ [c])). destruct (node fs (cur ++ [c])) as [[m|m x|a t]|]; [..|done].
  - destruct Hw as [m' ->]. by apply IHt.
  - by destruct Hw as (m' & x' & ->).
  - rewrite Hw. destruct (negb follow && _); [done|]. destruct links; [done|]. by apply IHl.
Qed.
(** Descending from a resolved directory into a file. *)
Lemma walk_into_file fs follow links cur todo d name m m' x :
  walk links fs true cur todo = Ok d -> node fs d = Some (Node_dir m) ->
  name <> "." -> name <> ".." -> node fs (d ++ [name]) = Some (Node_file m' x) ->
  walk links fs follow cur (todo ++ [name]) = Ok (d ++ [name]).
Proof.
  intros Hwalk Hd H1 H2 Hf. revert links cur todo Hwalk. apply (walk_ind (fun links cur todo =>
    walk links fs true cur todo = Ok d -> walk links fs follow cur (todo ++ [name]) = Ok (d ++ [name]))).
  intros links cur todo IHt IHl. rewrite !walk_eq. destruct todo as [|c rest]; cbn [app].
  - intros [= ->]. destruct (String.eqb_spec name "."); [done|].
    destruct (String.eqb_spec name ".."); [done|]. by rewrite Hf.
  - assert (Hlt : (length rest < length (c :: rest))%nat) by (cbn; lia).
    destruct (String.eqb c "."); [by apply IHt|]. destruct (String.eqb c ".."); [by apply IHt|].
    destruct (node fs (cur ++ [c])) as [[mc|mc xc|a t]|] eqn:Hc; [..|done].
    + by apply IHt.
    + destruct rest; [|done]. intros [= <-]. congruence.
    + cbn [negb andb]. rewrite (bool_decide_false (rest ++ [name] = [])) by (by destruct rest).
      rewrite andb_false_r. destruct links; [done|]. rewrite app_assoc. by apply IHl.
Qed.

(** ** What the operations may change *)

Definition strip (n : Node) : Node := with_mode 0 n.
(** Up to permission bits, [fs'] is [fs] with directories added. *)
Definition grows (fs fs' : Fs) : Prop := forall p,
  match node fs p with
  | Some n => exists n', node fs' p = Some n' /\ strip n' = strip n
  | None => node fs' p = None \/ exists m, node fs' p = Some (Node_dir m)
  end.
#[global] Instance grows_preorder : PreOrder grows.
Proof.
  split.
  - intros fs p. destruct (node fs p) as [n|]; [by exists n|by left].
  - intros a b c Hab Hbc p. specialize (Hab p). specialize (Hbc p).
    destruct (node a p) as [n|].
    + destruct Hab as (n' & Hn' & Hs'). rewrite Hn' in Hbc. destruct Hbc as (n'' & Hn'' & Hs'').
      exists n''. split; [done|congruence].
    + destruct Hab as [Hb|(m & Hb)]; rewrite Hb in Hbc; [done|].
      destruct Hbc as (n'' & Hn'' & Hs''). right. destruct n''; try done. by eexists.
Qed.
Lemma strip_dir n m : strip n = strip (Node_dir m) -> exists m', n = Node_dir m'.
Proof. destruct n; try done. by eexists. Qed.
Lemma grows_walkable fs fs' : grows fs fs' -> walkable fs fs'.
Proof.
  intros Hg p. specialize (Hg p). destruct (node fs p) as [n|]; [|done].
  destruct Hg as (n' & Hn' & Hs). rewrite Hn'. destruct n, n'; try done; cbn in Hs; simplify_eq; eauto.
Qed.

Lemma node_insert fs p q n :
  q <> [] -> node (<[q := n]> fs) p = if decide (p = q) then Some n else node fs p.
Proof.
  intros Hq. destruct p as [|a p]; cbn [node].
  - destruct (decide ([] = q)); [congruence|done].
  - destruct (decide (a :: p = q)) as [<-|]; [apply lookup_insert_eq|by apply lookup_insert_ne].
Qed.
Lemma node_delete fs p q :
  q <> [] -> node (delete q fs) p = if decide (p = q) then None else node fs p.
Proof.
  intros Hq. destruct p as [|a p]; cbn [node].
  - destruct (decide ([] = q)); [congruence|done].
  - destruct (decide (a :: p = q)) as [<-|]; [apply lookup_delete_eq|by apply lookup_delete_ne].
Qed.
Lemma snoc_nonnil {A} (d : list A) x : d ++ [x] <> [].
Proof. by destruct d. Qed.
#[local] Hint Resolve snoc_nonnil : core.
Lemma grows_mkdir fs q m : q <> [] -> node fs q = None -> grows fs (<[q := Node_dir m]> fs).
Proof.
  intros Hq Hn p. rewrite node_insert by done. destruct (decide (p = q)) as [->|Hne].
  - rewrite Hn. right. by eexists.
  - destruct (node fs p) as [n|]; [by exists n|by left].
Qed.

Lemma bind_M_Ok {S E A B} (m : M S E A) (k : A -> M S E B) s b s' :
  (m ≫= k) s = (Ok b, s') -> exists a s1, m s = (Ok a, s1) /\ k a s1 = (Ok b, s').
Proof. unfold mbind, M_bind. destruct (m s) as [[a|e] s1]; [eauto|done]. Qed.
Lemma locate_Ok fs p d name :
  locate fs p = Ok (d, name) <->
  last p = Some name /\ resolve_path fs (parent_of p) = Ok d /\ exists m, node fs d = Some (Node_dir m).
Proof.
  unfold locate. destruct (last p) as [nm|]; [|naive_solver]. rewrite bind_ok. split.
  - intros (d' & Hr & Hd). destruct (node fs d') as [[]|] eqn:E; simplify_eq. eauto.
  - intros ([= ->] & Hr & m & Hd). exists d. by rewrite Hd.
Qed.
Lemma mkdir_grows u p fs r fs' : mkdir u p fs = (r, fs') -> grows fs fs'.
Proof.
  unfold mkdir, mbind, M_bind, get, lift. destruct (locate fs p) as [[d name]|e]; [|by intros [= <- <-]].
  destruct (node fs (d ++ [name])) eqn:E; intros [= <- <-]; [done|]. by apply grows_mkdir.
Qed.
Lemma create_dir_all_grows u rp fs r fs' : create_dir_all_rev u rp fs = (r, fs') -> grows fs fs'.
Proof.
  revert fs r fs'. induction rp as [|c rp IH]; intros fs r fs'; [by intros [= <- <-]|].
  cbn [create_dir_all_rev]. destruct (mkdir u (rev (c :: rp)) fs) as [[[]|e] f1] eqn:E1.
  - intros [= <- <-]. by eapply mkdir_grows.
  - apply mkdir_grows in E1.
    assert (Hother : forall e', (if is_dir f1 (rev (c :: rp)) then (Ok tt, f1) else (Err e', f1)) = (r, fs') ->
      grows fs fs') by (intros e'; destruct (is_dir _ _); by intros [= <- <-]).
    destruct e; try apply Hother. clear Hother.
    destruct (create_dir_all_rev u rp f1) as [[[]|e] f2] eqn:E2; apply IH in E2.
    + destruct (mkdir u (rev (c :: rp)) f2) as [[[]|e] f3] eqn:E3; apply mkdir_grows in E3;
        [|destruct (is_dir _ _)]; intros [= <- <-]; by do 2 (etrans; [eassumption|]).
    + intros [= <- <-]. by etrans.
Qed.
Lemma set_permissions_grows mode p fs : grows fs (set_permissions mode p fs).
Proof.
  unfold set_permissions. destruct (resolve_path fs p) as [q|]; [|done].
  destruct (fs !! q) as [n|] eqn:E; [|done]. destruct q as [|a q].
  { intros p'. destruct p' as [|b p']; cbn [node]; [by eexists|].
    rewrite lookup_insert_ne by done. destruct (fs !! (b :: p')) as [n'|]; [by eexists|by left]. }
  intros p'. rewrite node_insert by done. destruct (decide (p' = a :: q)) as [->|Hne].
  - cbn [node]. rewrite E. exists (with_mode mode n). split; [done|]. by destruct n.
  - destruct (node fs p') as [n'|]; [by exists n'|by left].
Qed.
Lemma tighten_grows walked comps fs : grows fs (tighten walked comps fs).
Proof.
  revert walked fs. induction comps as [|c r IH]; intros walked fs; cbn [tighten]; [done|].
  etrans; [apply set_permissions_grows|apply IH].
Qed.

Lemma locate_sibling fs p q d name name' :
  locate fs p = Ok (d, name) -> parent_of q = parent_of p -> last q = Some name' ->
  locate fs q = Ok (d, name').
Proof. rewrite !locate_Ok. intros (_ & Hr & Hd) -> Hq. done. Qed.
Lemma locate_mono fs fs' p d name :
  walkable fs fs' -> locate fs p = Ok (d, name) -> locate fs' p = Ok (d, name).
Proof.
  intros Hw. rewrite !locate_Ok. intros (Hl & Hr & m & Hd). split; [done|].
  split; [by eapply walk_mono|]. specialize (Hw d). by rewrite Hd in Hw.
Qed.
Lemma walkable_insert fs q m c :
  q <> [] -> (node fs q = None \/ exists m' c', node fs q = Some (Node_file m' c')) ->
  walkable fs (<[q := Node_file m c]> fs).
Proof.
  intros Hq Hn p. rewrite node_insert by done. destruct (decide (p = q)) as [->|Hne].
  - destruct Hn as [->|(m' & c' & ->)]; [done|by eexists _, _].
  - destruct (node fs p) as [[]|]; eauto.
Qed.

Lemma tmp_name_neq name suffix : tmp_name name suffix <> name.
Proof.
  intros H. apply (f_equal len) in H. unfold tmp_name in H. rewrite !len_app in H.
  pose proof (len_nonneg suffix). change (len ".") with 1 in H. change (len ".tmp") with 4 in H. lia.
Qed.
Lemma snoc_inj {A} (d : list A) x y : d ++ [x] = d ++ [y] -> x = y.
Proof. intros [= ?]%app_inv_head. done. Qed.

(** From the temporary file to its final name, or back to the start. *)
Definition replace_file (io : WriteIo) (mode : Z) (tmp_path final_path : path) (content : list Z)
    : M Fs FileError path :=
  (if io_open io then io_step (create_new mode tmp_path) else throw (FileError_Io IoError_Other)) ;;;
  fill_or_clean (io_write io) (io_remove io) mode tmp_path content ;;;
  rename_or_clean (io_rename io) (io_remove io) tmp_path final_path ;;;
  mret final_path.
(** [f] is [fs] with a file holding part of the content at [q]. *)
Definition with_partial (mode : Z) (content : list Z) (q : path) (fs f : Fs) : Prop :=
  (exists n, node f q = Some (Node_file mode (take n content))) /\ forall x, x <> q -> node f x = node fs x.
(** After a failure: as before, or with the temporary file if that could not be removed. *)
Definition cleaned (removed : bool) (mode : Z) (content : list Z) (q : path) (fs fs' : Fs) : Prop :=
  (forall x, node fs' x = node fs x)
  \/ (removed = false /\ node fs q = None /\ with_partial mode content q fs fs').
Section Replace.
Context (fs : Fs) (tmp : path) (d : path) (t : string) (mode : Z) (content : list Z).
Hypothesis Ht : locate fs tmp = Ok (d, t).
Hypothesis Hfree : node fs (d ++ [t]) = None.

Lemma partial_located f : with_partial mode content (d ++ [t]) fs f ->
  walkable fs f /\ locate f tmp = Ok (d, t).
Proof.
  intros [_ Hf]. assert (walkable fs f) as Hw.
  { intros x. destruct (decide (x = d ++ [t])) as [->|Hx]; [by rewrite Hfree|].
    rewrite Hf by done. destruct (node fs x) as [[]|]; eauto. }
  split; [done|by eapply locate_mono].
Qed.
Lemma clean_partial removed f :
  with_partial mode content (d ++ [t]) fs f -> cleaned removed mode content (d ++ [t]) fs (clean removed tmp f).
Proof.
  intros Hp. pose proof (partial_located f Hp) as [_ Hl]. destruct Hp as [[n Hn] Hf].
  unfold clean, remove_file, mbind, M_bind, get, lift. rewrite Hl, Hn.
  destruct removed; cbn; [left|right; split_and!; [done|done|by split; [exists n|]]].
  intros x. rewrite node_delete by done. destruct (decide (x = d ++ [t])) as [->|Hne]; [done|by apply Hf].
Qed.
Lemma fill_partial c f :
  with_partial mode content (d ++ [t]) fs f ->
  let f' := fill_tmp mode tmp c f in
  node f' (d ++ [t]) = Some (Node_file mode c) /\ forall x, x <> d ++ [t] -> node f' x = node fs x.
Proof.
  intros Hp. pose proof (partial_located f Hp) as [_ Hl]. destruct Hp as [_ Hf].
  cbn zeta. unfold fill_tmp. rewrite Hl. split.
  - rewrite node_insert by done. by rewrite decide_True.
  - intros x Hx. rewrite node_insert, decide_False by done. by apply Hf.
Qed.
End Replace.
(** Moving the filled temporary file over the name [p] stands for. *)
Lemma rename_outcome ok removed fs f tmp p d t name mode content :
  locate fs tmp = Ok (d, t) -> node fs (d ++ [t]) = None -> locate fs p = Ok (d, name) -> t <> name ->
  node f (d ++ [t]) = Some (Node_file mode content) -> (forall x, x <> d ++ [t] -> node f x = node fs x) ->
  match rename_or_clean ok removed tmp p f with
  | (Ok _, fs') =>
      (forall m, node fs (d ++ [name]) <> Some (Node_dir m)) /\
      forall x, node fs' x = if decide (x = d ++ [name]) then Some (Node_file mode content) else node fs x
  | (Err _, fs') => cleaned removed mode content (d ++ [t]) fs fs'
  end.
Proof.
  intros Ht Hfree Hloc Hne Hn Hf.
  assert (with_partial mode content (d ++ [t]) fs f) as Hp.
  { split; [|done]. exists (length content). by rewrite take_ge. }
  assert (Htn : d ++ [t] <> d ++ [name]) by (by intros H%snoc_inj).
  pose proof (clean_partial fs tmp d t mode content Ht Hfree removed f Hp) as Hback.
  destruct (partial_located fs tmp d t mode content Ht Hfree f Hp) as [Hw Hl].
  unfold rename_or_clean. destruct ok; [|exact Hback].
  unfold rename, mbind, M_bind, get, lift. rewrite Hl, (locate_mono fs f p d name) by done.
  rewrite Hn, Hf by done.
  assert (forall x, node (<[d ++ [name] := Node_file mode content]> (delete (d ++ [t]) f)) x
    = if decide (x = d ++ [name]) then Some (Node_file mode content) else node fs x) as Hput.
  { intros x. rewrite node_insert, node_delete by done.
    destruct (decide (x = d ++ [name])); [done|]. destruct (decide (x = d ++ [t])) as [->|Hx]; [done|].
    by apply Hf. }
  destruct (node fs (d ++ [name])) as [[m|m c|a tg]|]; cbn; [exact Hback|..]; (split; [done|exact Hput]).
Qed.
Lemma replace_file_outcome io mode p suffix content fs d name :
  locate fs p = Ok (d, name) ->
  let tmp := parent_of p ++ [tmp_name name suffix] in
  match replace_file io mode tmp p content fs with
  | (Ok q, fs') =>
      q = p /\ (forall m, node fs (d ++ [name]) <> Some (Node_dir m)) /\
      forall x, node fs' x = if decide (x = d ++ [name]) then Some (Node_file mode content) else node fs x
  | (Err _, fs') => cleaned (io_remove io) mode content (d ++ [tmp_name name suffix]) fs fs'
  end.
Proof.
  intros Hloc tmp. set (t := tmp_name name suffix) in *.
  assert (Ht : locate fs tmp = Ok (d, t)).
  { eapply locate_sibling; [exact Hloc| |]; unfold tmp, parent_of; [by rewrite removelast_last|].
    apply last_snoc. }
  unfold replace_file, mbind, M_bind. destruct (io_open io); [|by left].
  unfold io_step, create_new, mbind, M_bind, get, lift. rewrite Ht.
  destruct (node fs (d ++ [t])) eqn:Hfree; [by left|]. cbn [put map_err].
  set (f3 := <[d ++ [t] := Node_file mode []]> fs).
  assert (Hp3 : with_partial mode content (d ++ [t]) fs f3).
  { split; [exists 0%nat|intros x Hx]; unfold f3; rewrite node_insert by done;
      [by rewrite decide_True|by rewrite decide_False]. }
  unfold fill_or_clean. destruct (io_write io) as [n|].
  - apply (clean_partial fs tmp d t mode content Ht Hfree).
    destruct (fill_partial fs tmp d t mode content Ht Hfree (take n content) f3 Hp3). split; eauto.
  - destruct (fill_partial fs tmp d t mode content Ht Hfree content f3 Hp3) as [Hn Hf].
    pose proof (rename_outcome (io_rename io) (io_remove io) fs _ tmp p d t name mode content
      Ht Hfree Hloc (tmp_name_neq name suffix) Hn Hf) as Hr.
    destruct (rename_or_clean _ _ _ _ _) as [[[]|e] fs']; [by split|exact Hr].
Qed.

Lemma path_starts_with_iff j p : path_starts_with j p = true <-> j `prefix_of` p.
Proof.
  revert p. induction j as [|a j IH]; intros p; cbn.
  - split; [intros _; apply prefix_nil|done].
  - destruct p as [|b p]; [split; [done|by intros ?%prefix_nil_not]|].
    rewrite andb_true_iff, String.eqb_eq, IH. split.
    + intros [-> H]. by apply prefix_cons.
    + intros H. split; [by eapply prefix_cons_inv_1|by eapply prefix_cons_inv_2].
Qed.
Lemma jailed_absolute_Ok fs jail rel p :
  jailed_absolute fs jail rel = Ok p <->
  p = jail ++ rel /\ exists j d, resolve_path fs jail = Ok j /\
    resolve_path fs (parent_of p) = Ok d /\ j `prefix_of` d.
Proof.
  unfold jailed_absolute, canonicalize_path. rewrite bind_ok. setoid_rewrite map_err_ok. split.
  - intros (j & Hj & H). rewrite bind_ok in H. destruct H as (d & Hd & H).
    destruct (resolve_path fs (parent_of (jail ++ rel))) as [d'|[]] eqn:E; simplify_eq.
    destruct (path_starts_with j d) eqn:Hp; [|done]. apply path_starts_with_iff in Hp.
    cbn in H. simplify_eq. rewrite E. split; [done|]. by exists j, d.
  - intros (-> & j & d & Hj & Hd & Hp). exists j. split; [done|]. rewrite Hd.
    apply path_starts_with_iff in Hp. cbn. by rewrite Hp.
Qed.
Lemma replace_file_nodir io mode p t content fs e name :
  locate fs p = Err e -> last p = Some name ->
  exists e', replace_file io mode (parent_of p ++ [t]) p content fs = (Err e', fs).
Proof.
  intros Hloc Hl. unfold replace_file, mbind, M_bind. destruct (io_open io); [|by eexists].
  unfold io_step, create_new, mbind, M_bind, get, lift.
  assert (locate fs (parent_of p ++ [t]) = Err e) as ->; [|by eexists].
  unfold locate in *. rewrite Hl in Hloc. rewrite last_snoc.
  unfold parent_of at 1. rewrite removelast_last.
  destruct (resolve_path fs (parent_of p)); cbn in *; [|congruence].
  by destruct (node fs a) as [[]|].
Qed.

(** A point of the file system after directories were added and permission bits changed. *)
Definition grown_at (fs fs' : Fs) (x : path) : Prop :=
  match node fs x with
  | Some n => exists n', node fs' x = Some n' /\ strip n' = strip n
  | None => node fs' x = None \/ exists m, node fs' x = Some (Node_dir m)
  end.
(** The outcome of a write: [f2] is the file system once the parent directories
    exist. *)
Lemma write_outcome io u suffix jail relative content fs :
  match write_file_atomic io u suffix jail relative content fs with
  | (Ok p, fs') =>
      exists rel f2 j d name, validate_relative_path relative = Ok rel /\ p = jail ++ rel /\
        last rel = Some name /\ grows fs f2 /\
        resolve_path f2 jail = Ok j /\ locate f2 p = Ok (d, name) /\ j `prefix_of` d /\
        (forall m, node f2 (d ++ [name]) <> Some (Node_dir m)) /\
        forall x, node fs' x = if decide (x = d ++ [name]) then Some (Node_file (masked u 420) content) else node f2 x
  | (Err _, fs') => grows fs fs' \/
      exists rel f2 j d name, validate_relative_path relative = Ok rel /\ last rel = Some name /\
        grows fs f2 /\ resolve_path f2 jail = Ok j /\ j `prefix_of` d /\
        cleaned (io_remove io) (masked u 420) content (d ++ [tmp_name name suffix]) f2 fs'
  end.
Proof.
  unfold write_file_atomic. unfold mbind at 1. unfold M_bind at 1. unfold lift at 1.
  destruct (validate_relative_path relative) as [rel|e] eqn:Hv; [|by left].
  apply validate_relative_path_spec in Hv as Hrel. destruct Hrel as (Hne & _ & _).
  destruct (last rel) as [name|] eqn:Hlast; [|by apply last_None in Hlast].
  cbn zeta. unfold mbind at 1. unfold M_bind at 1. unfold io_step at 1.
  destruct (create_dir_all _ (parent_of (jail ++ rel)) fs) as [[[]|e] f1] eqn:Hc;
    apply create_dir_all_grows in Hc; [|by left].
  cbn [map_err]. unfold mbind at 1. unfold M_bind at 1. unfold modify at 1.
  set (f2 := tighten jail (parent_of rel) f1).
  assert (Hg : grows fs f2) by (etrans; [exact Hc|apply tighten_grows]).
  unfold mbind at 1. unfold M_bind at 1. unfold get at 1.
  unfold mbind at 1. unfold M_bind at 1. unfold lift at 1.
  destruct (jailed_absolute f2 jail rel) as [p|e] eqn:Hj; [|by left].
  apply jailed_absolute_Ok in Hj as (-> & j & d & Hj & Hd & Hpre).
  assert (Hlp : last (jail ++ rel) = Some name) by (by rewrite last_app, Hlast).
  rewrite Hlp. cbn [default].
  match goal with |- let (_, _) := ?x in _ =>
    change x with (replace_file io (masked u 420) (parent_of (jail ++ rel) ++ [tmp_name name suffix])
                     (jail ++ rel) content f2) end.
  destruct (locate f2 (jail ++ rel)) as [[d' name']|e] eqn:Hloc.
  - apply locate_Ok in Hloc as Hloc'. destruct Hloc' as (Hn' & Hd' & _).
    rewrite Hlp in Hn'. rewrite Hd in Hd'. injection Hn' as <-. injection Hd' as <-.
    pose proof (replace_file_outcome io (masked u 420) (jail ++ rel) suffix content f2 d name Hloc) as Ho.
    cbn zeta in Ho. destruct (replace_file _ _ _ _ _ f2) as [[q|e] fs'].
    + destruct Ho as (-> & Hnd & Hx). by exists rel, f2, j, d, name.
    + right. by exists rel, f2, j, d, name.
  - destruct (replace_file_nodir io (masked u 420) (jail ++ rel) (tmp_name name suffix) content f2 e name Hloc Hlp)
      as [e' ->]. by left.
Qed.
(** A failed write, seen from the start: [j] is the resolved jail root. *)
Lemma failed_write_leaves io u suffix jail relative content fs j e fs' :
  resolve_path fs jail = Ok j ->
  write_file_atomic io u suffix jail relative content fs = (Err e, fs') ->
  grows fs fs' \/
  (io_remove io = false /\ exists rel d name, validate_relative_path relative = Ok rel /\
     last rel = Some name /\ j `prefix_of` d /\ node fs (d ++ [tmp_name name suffix]) = None /\
     (exists n, node fs' (d ++ [tmp_name name suffix]) = Some (Node_file (masked u 420) (take n content))) /\
     forall x, x <> d ++ [tmp_name name suffix] -> grown_at fs fs' x).
Proof.
  intros Hjail Hw. pose proof (write_outcome io u suffix jail relative content fs) as H. rewrite Hw in H.
  destruct H as [H|(rel & f2 & j2 & d & name & Hv & Hlast & Hg & Hj & Hpre & Hc)]; [by left|].
  pose proof (grows_walkable _ _ Hg) as Hwalk. unfold resolve_path in *.
  rewrite (walk_mono fs f2 _ _ _ _ j Hwalk Hjail) in Hj. injection Hj as <-.
  destruct Hc as [Hc|(Hrm & Hnone & Hpart & Hx)].
  { left. intros x. rewrite Hc. apply Hg. }
  right. split; [done|]. exists rel, d, name. split_and!; try done.
  - specialize (Hg (d ++ [tmp_name name suffix])). rewrite Hnone in Hg.
    destruct (node fs (d ++ [tmp_name name suffix])); [by destruct Hg as (? & ? & _)|done].
  - intros x Hne. unfold grown_at. rewrite Hx by done. apply Hg.
Qed.

(** C15: A write replaces one file, inside the jail, or touches no file at all. When
    [write_file_atomic] succeeds, the file it names holds exactly the content, with mode 0644 less
    the umask; the directory it lies in is under the resolved jail root, and is the directory its
    parent path resolved to before the write if that existed; every other file and link of the
    system is as before, up to permission bits. When it fails, whatever the failing step, every file
    and link is as before; the one thing it can leave behind, and only if removing it fails too, is
    its own temporary file, new under its own name in a directory under the jail root, holding a
    prefix of the content. In all cases directories may have been added. *)
Theorem write_is_atomic_and_confined io u suffix jail relative content fs j :
  resolve_path fs jail = Ok j ->
  match write_file_atomic io u suffix jail relative content fs with
  | (Ok p, fs') =>
      exists rel d name, validate_relative_path relative = Ok rel /\ p = jail ++ rel /\
        last rel = Some name /\ j `prefix_of` d /\
        (forall d0, resolve_path fs (parent_of p) = Ok d0 -> d0 = d) /\
        node fs' (d ++ [name]) = Some (Node_file (masked u 420) content) /\
        forall x, x <> d ++ [name] -> grown_at fs fs' x
  | (Err _, fs') =>
      grows fs fs' \/
      (io_remove io = false /\ exists rel d name, validate_relative_path relative = Ok rel /\
         last rel = Some name /\ j `prefix_of` d /\ node fs (d ++ [tmp_name name suffix]) = None /\
         (exists n, node fs' (d ++ [tmp_name name suffix])
                    = Some (Node_file (masked u 420) (take n content))) /\
         forall x, x <> d ++ [tmp_name name suffix] -> grown_at fs fs' x)
  end.
Proof.
  intros Hjail. pose proof (write_outcome io u suffix jail relative content fs) as H.
  destruct (write_file_atomic _ _ _ _ _ _ fs) as [[p|e] fs'] eqn:Hw; [|by eapply failed_write_leaves].
  destruct H as (rel & f2 & j2 & d & name & Hv & -> & Hlast & Hg & Hj & Hloc & Hpre & _ & Hx).
  apply grows_walkable in Hg as Hwalk. apply locate_Ok in Hloc as (_ & Hd & _).
  unfold resolve_path in *. rewrite (walk_mono fs f2 _ _ _ _ j Hwalk Hjail) in Hj.
  injection Hj as <-. exists rel, d, name. do 4 (split; [done|]). split.
  { intros d0 Hd0. rewrite (walk_mono fs f2 _ _ _ _ d0 Hwalk Hd0) in Hd. by injection Hd. }
  split; [by rewrite Hx, decide_True|]. intros x Hne. specialize (Hg x). unfold grown_at.
  rewrite Hx, decide_False by done. exact Hg.
Qed.

Lemma write_then_read_file io u suffix jail relative content fs p fs' max_bytes :
  write_file_atomic io u suffix jail relative content fs = (Ok p, fs') -> 0 <= max_bytes ->
  (forall q a t, fs !! q = Some (Node_symlink a t) -> last q <> last p) ->
  let cap := if max_bytes =? 0 then DEFAULT_MAX_BYTES else max_bytes in
  read_file_capped fs' jail relative max_bytes =
    Ok (take (Z.to_nat cap) content, Z.of_nat (length content), cap <? Z.of_nat (length content)).
Proof.
  intros Hwr Hmax Hlinks cap. pose proof (write_outcome io u suffix jail relative content fs) as H.
  rewrite Hwr in H.
  destruct H as (rel & f2 & j & d & name & Hv & -> & Hlast & Hg & Hj & Hloc & Hpre & Hnd & Hx).
  apply locate_Ok in Hloc as (Hlp & Hd & m & Hm).
  assert (Hw : walkable f2 fs').
  { intros x. rewrite Hx. destruct (decide (x = d ++ [name])) as [->|Hne].
    - destruct (node f2 (d ++ [name])) as [[m'|m' c|a t]|] eqn:E; [by destruct (Hnd m')|eauto| |done].
      exfalso. specialize (Hg (d ++ [name])). rewrite E in Hg.
      destruct (node fs (d ++ [name])) as [n|] eqn:En.
      + destruct Hg as (n' & [= <-] & Hs). destruct n; try done. cbn in Hs. simplify_eq.
        destruct (d ++ [name]) eqn:Ed; [by destruct d|]. cbn in En.
        apply (Hlinks _ _ _ En). rewrite <- Ed, last_snoc. by symmetry.
      + destruct Hg as [|[]]; congruence.
    - destruct (node f2 x) as [[]|]; eauto. }
  assert (Hjail : jailed_absolute fs' jail rel = Ok (jail ++ rel)).
  { apply jailed_absolute_Ok. split; [done|]. exists j, d.
    split; [by eapply walk_mono|]. split; [by eapply walk_mono|done]. }
  apply validate_relative_path_spec in Hv as Hs. destruct Hs as (Hne & _ & Hok).
  assert (Hname : component_ok name).
  { rewrite Forall_forall in Hok. apply Hok. rewrite last_lookup in Hlast.
    by eapply list_elem_of_lookup_2. }
  assert (Hfile : node fs' (d ++ [name]) = Some (Node_file (masked u 420) content)) by (by rewrite Hx, decide_True).
  assert (Hwalk : walk 40 fs' false [] (jail ++ rel) = Ok (d ++ [name])).
  { pose proof (walk_mono f2 fs' true 40 [] _ d Hw Hd) as Hd'.
    specialize (Hw d). rewrite Hm in Hw. destruct Hw as [m' Hm'].
    replace (jail ++ rel) with (parent_of (jail ++ rel) ++ [name]).
    - destruct Hname as (_ & ? & ? & _). eapply walk_into_file; eauto.
    - unfold parent_of. apply last_Some in Hlp as [l ->]. by rewrite removelast_last. }
  unfold read_file_capped. rewrite Hv. cbn [mbind result_bind]. rewrite Hjail. cbn [mbind result_bind].
  rewrite Hwalk, Hfile. fold cap. f_equal. f_equal. f_equal.
  assert (0 <= cap) by (unfold cap, DEFAULT_MAX_BYTES; destruct (Z.eqb_spec max_bytes 0); lia).
  destruct (Z.le_ge_cases cap (Z.of_nat (length content))); [by rewrite Z.min_r|].
  rewrite Z.min_l by done. rewrite !take_ge; [done|lia..].
Qed.
(** What was written is what is read.  After a successful write, and unless
    some link bears the name of the written file, a read of the same path returns the content up to the
    requested cap (10 MiB when none is given), its true size, and whether it was
    cut. *)
Theorem write_then_read io u suffix jail relative content fs p fs' max_bytes :
  write_file_atomic io u suffix jail relative content fs = (Ok p, fs') -> 0 <= max_bytes ->
  (forall q a t, fs !! q = Some (Node_symlink a t) -> last q <> last p) ->
  let cap := if max_bytes =? 0 then DEFAULT_MAX_BYTES else max_bytes in
  read_file_capped fs' jail relative max_bytes =
    Ok (take (Z.to_nat cap) content, Z.of_nat (length content), cap <? Z.of_nat (length content)).
Proof. apply write_then_read_file. Qed.

(** The witnesses' file system: a jail at [/workspace], and [/etc] outside. *)
Module FilesDemo.
Definition fs0 : Fs := <[["workspace"] := Node_dir 493]> (<[["etc"] := Node_dir 448]> ∅).
Definition io : WriteIo := {| io_open := true; io_write := None; io_rename := true; io_remove := true |}.
Definition written := write_file_atomic io 18 "0badcafe" ["workspace"] "src/main.rs" [1; 2; 3] fs0.

(** A full disk and a removal that fails: the temporary file stays. *)
Definition full_disk : WriteIo := {| io_open := true; io_write := Some 1%nat; io_rename := true; io_remove := false |}.
Definition torn := write_file_atomic full_disk 18 "0badcafe" ["workspace"] "main.rs" [1; 2; 3] fs0.

Lemma write_is_atomic_and_confined_witness :
  resolve_path fs0 ["workspace"] = Ok ["workspace"] /\
  (exists d name, ["workspace"] `prefix_of` d /\
     node (snd written) (d ++ [name]) = Some (Node_file 420 [1; 2; 3])) /\
  (exists d name n, ["workspace"] `prefix_of` d /\
     node (snd torn) (d ++ [tmp_name name "0badcafe"]) = Some (Node_file 420 (take n [1; 2; 3]))).
Proof.
  split; [reflexivity|]. split.
  - pose proof (write_is_atomic_and_confined io 18 "0badcafe" ["workspace"] "src/main.rs" [1; 2; 3] fs0
      ["workspace"] eq_refl) as H.
    fold written in H. destruct written as [[p|e] fs'] eqn:E; [|vm_compute in E; discriminate].
    destruct H as (rel & d & name & _ & _ & _ & Hp & _ & Hn & _). exists d, name. exact (conj Hp Hn).
  - pose proof (write_is_atomic_and_confined full_disk 18 "0badcafe" ["workspace"] "main.rs" [1; 2; 3] fs0
      ["workspace"] eq_refl) as H.
    fold torn in H. destruct torn as [[p|e] fs'] eqn:E; [vm_compute in E; discriminate|].
    destruct H as [H|(_ & rel & d & name & _ & _ & Hp & _ & (n & Hn) & _)].
    + exfalso. specialize (H ["workspace"; ".main.rs.0badcafe.tmp"]).
      assert (node fs' ["workspace"; ".main.rs.0badcafe.tmp"] = Some (Node_file 420 [1])) as Hf.
      { change fs' with (snd (@Err FileError path e, fs')). rewrite <- E. vm_compute. reflexivity. }
      rewrite Hf in H. destruct H as [H|[m H]]; discriminate.
    + exists d, name, n. exact (conj Hp Hn).
Defined.
Lemma write_then_read_witness :
  exists fs', snd written = fs' /\
    read_file_capped fs' ["workspace"] "src/main.rs" 2 = Ok ([1; 2], 3, true).
Proof.
  exists (snd written). split; [reflexivity|].
  apply (write_then_read io 18 "0badcafe" ["workspace"] "src/main.rs" [1; 2; 3] fs0
    ["workspace"; "src"; "main.rs"] (snd written) 2).
  - vm_compute. reflexivity.
  - lia.
  - intros q a t H. unfold fs0 in H. exfalso.
    apply lookup_insert_Some in H as [[_ H]|[_ H]]; [discriminate|].
    apply lookup_insert_Some in H as [[_ H]|[_ H]]; [discriminate|].
    by rewrite lookup_empty in H.
Defined.

(** The parent directories are made before the jail is checked.  With a link
    planted in the workspace that leads out of the jail, a write through it is
    refused, but a directory was created and the permissions of an existing
    directory were changed outside the jail. *)
Theorem refused_write_leaves_the_jail :
  let fs := <[["workspace"; "a"] := Node_symlink true ["etc"]]> fs0 in
  let '(r, fs') := write_file_atomic io 18 "0badcafe" ["workspace"] "a/new/x" [1] fs in
  r = Err FileError_PathRejected /\
  node fs ["etc"; "new"] = None /\ node fs' ["etc"; "new"] = Some (Node_dir 493) /\
  node fs ["etc"] = Some (Node_dir 448) /\ node fs' ["etc"] = Some (Node_dir 493).
Proof. vm_compute. repeat split. Qed.
End FilesDemo.
