(* ===== verification/Image.v ===== *)
(** * The image store ([crates/ne-supervisor/src/image.rs])

    Kernels and root file systems live under a directory named by their SHA-256
    digest.  This file models the digest grammar, the resolution of a digest to
    a verified file over the file-system model of [GuestFiles], and the staging
    of a verified pair into a workspace tree with its roll-back.  A resolution
    makes several system calls, and the file system may change between them: the
    definition takes the file system at each moment. *)

From S2P Require Import Prelude Text Crypto Bytes GuestFiles.

Inductive ImageKind := ImageKind_Kernel | ImageKind_Rootfs.
Definition ImageKind_to_string (k : ImageKind) : string :=
  match k with ImageKind_Kernel => "kernel" | ImageKind_Rootfs => "rootfs" end.

Inductive ImageError :=
| ImageError_InvalidDigest (kind : ImageKind) (digest : string)
| ImageError_NotFound (kind : ImageKind) (digest : string)
| ImageError_Rejected (kind : ImageKind) (digest reason : string)
| ImageError_DigestMismatch (kind : ImageKind) (digest actual : string)
| ImageError_Stage (kind : ImageKind) (digest source : string).
Definition error_subject (e : ImageError) : ImageKind * string :=
  match e with
  | ImageError_InvalidDigest k d | ImageError_NotFound k d | ImageError_Rejected k d _
  | ImageError_DigestMismatch k d _ | ImageError_Stage k d _ => (k, d)
  end.
(** [Display] of the errors; the digest of an invalid request is shown quoted. *)
Definition ImageError_to_string (quote : string -> string) (e : ImageError) : string :=
  match e with
  | ImageError_InvalidDigest k d => "invalid " +:+ ImageKind_to_string k +:+ " image digest " +:+ quote d
  | ImageError_NotFound k d => ImageKind_to_string k +:+ " image " +:+ d +:+ " not found"
  | ImageError_Rejected k d r => ImageKind_to_string k +:+ " image " +:+ d +:+ " rejected: " +:+ r
  | ImageError_DigestMismatch k d a =>
      ImageKind_to_string k +:+ " image " +:+ d +:+ " content digest mismatch (actual " +:+ a +:+ ")"
  | ImageError_Stage k d s => "staging " +:+ ImageKind_to_string k +:+ " image " +:+ d +:+ ": " +:+ s
  end.
Definition with_cleanup_failure (quote : string -> string) (e : ImageError) (operation cleanup : string)
    : ImageError :=
  let '(kind, digest) := error_subject e in
  ImageError_Stage kind digest
    ("primary staging failure: " +:+ ImageError_to_string quote e +:+ "; " +:+ operation +:+ ": " +:+ cleanup).

(** ** Digests *)

Definition digest_char (c : ascii) : bool := is_ascii_digit c || in_class 97 102 c.
(** [ImageDigest::parse]; a digest is its text. *)
Definition ImageDigest_parse (kind : ImageKind) (raw : string) : result ImageError string :=
  if (len raw =? 64) && all_chars digest_char raw then Ok raw else Err (ImageError_InvalidDigest kind raw).

(** ** Resolution *)

Record VerifiedImageFile := { vi_kind : ImageKind; vi_digest : string; vi_content : list Z }.
Record VerifiedImagePair := { vp_kernel : VerifiedImageFile; vp_rootfs : VerifiedImageFile }.
Definition digests (p : VerifiedImagePair) : string * string :=
  (vi_digest (vp_kernel p), vi_digest (vp_rootfs p)).

Definition managed_path (root : path) (kind : ImageKind) (digest : string) : path :=
  match kind with
  | ImageKind_Kernel => root ++ ["kernels"; digest; "vmlinux"]
  | ImageKind_Rootfs => root ++ ["rootfs"; digest; "rootfs.img"]
  end.
Definition io_text (e : IoError) : string := match e with IoError_NotFound => "not found" | _ => "io" end.
Definition operational_error (kind : ImageKind) (digest : string) (source : IoError) : ImageError :=
  ImageError_Stage kind digest (io_text source).
Definition map_resolve_io (kind : ImageKind) (digest : string) (source : IoError) : ImageError :=
  match source with
  | IoError_NotFound => ImageError_NotFound kind digest
  | _ => operational_error kind digest source
  end.
Definition canonicalize (fs : Fs) (p : path) (kind : ImageKind) (digest : string) : result ImageError path :=
  map_err (map_resolve_io kind digest) (canonicalize_path fs p).
(** [symlink_metadata], and the node a file opened without following links is. *)
Definition lstat (fs : Fs) (p : path) : result IoError Node :=
  q ← walk 40 fs false [] p;
  ok_or (node fs q) IoError_NotFound.
Definition open_nofollow (fs : Fs) (p : path) : result IoError Node :=
  n ← lstat fs p;
  match n with Node_symlink _ _ => Err IoError_Loop | _ => Ok n end.

(** The file system at the four system calls, and the outcome of reading. *)
Record ResolveIo := {
  at_root : Fs; at_lstat : Fs; at_canonical : Fs; at_open : Fs; read_io : result IoError unit;
  rewind_io : result IoError unit }.

Section Store.
Context {C : Crypto}.
Definition reject (kind : ImageKind) (digest reason : string) : result ImageError unit :=
  Err (ImageError_Rejected kind digest reason).
Definition resolve_image (io : ResolveIo) (store_root : path) (kind : ImageKind) (raw_digest : string)
    : result ImageError VerifiedImageFile :=
  digest ← ImageDigest_parse kind raw_digest;
  root ← canonicalize (at_root io) store_root kind digest;
  let artifact := managed_path root kind digest in
  meta ← map_err (map_resolve_io kind digest) (lstat (at_lstat io) artifact);
  _ ← match meta with
      | Node_symlink _ _ => reject kind digest "symlink endpoint"
      | Node_file _ _ => Ok tt
      | Node_dir _ => reject kind digest "not a regular file"
      end;
  canonical_artifact ← canonicalize (at_canonical io) artifact kind digest;
  _ ← (if path_starts_with root canonical_artifact then Ok tt
       else reject kind digest "path escapes image store");
  file ← map_err (map_resolve_io kind digest) (open_nofollow (at_open io) artifact);
  content ← match file with
            | Node_file _ c => Ok c
            | _ => Err (ImageError_Rejected kind digest "not a regular file")
            end;
  _ ← map_err (operational_error kind digest) (read_io io);
  let actual := hex_encode (sha256 content) in
  if negb (String.eqb actual digest) then Err (ImageError_DigestMismatch kind digest actual)
  else
    _ ← map_err (operational_error kind digest) (rewind_io io);
    Ok {| vi_kind := kind; vi_digest := digest; vi_content := content |}.
Definition resolve_pair (io io' : ResolveIo) (store_root : path) (kernel rootfs : string)
    : result ImageError VerifiedImagePair :=
  k ← resolve_image io store_root ImageKind_Kernel kernel;
  r ← resolve_image io' store_root ImageKind_Rootfs rootfs;
  Ok {| vp_kernel := k; vp_rootfs := r |}.
End Store.

(** ** Staging *)

(** What staging meets outside the model: the process's umask; rewinding the handle; what the
    retained handle yields if its file was rewritten in place since it was hashed; the outcome of
    copying and of the change of owner and mode, with what an interrupted copy left; the clean-up
    after a failure. *)
Record StageIo := {
  stage_umask : Z; rewind_ok : bool; rewritten : option (list Z); copy_ok : bool; copied : list Z;
  cleanup_ok : bool }.
(** The bytes of the retained handle: those that were hashed, unless the file was rewritten. *)
Definition handle_bytes (io : StageIo) (f : VerifiedImageFile) : list Z :=
  default (vi_content f) (rewritten io).
Section Stage.
Context (quote : string -> string).
Definition mode_is_valid (kind : ImageKind) (mode : Z) : bool :=
  match kind with
  | ImageKind_Kernel => mode =? 256
  | ImageKind_Rootfs => (mode =? 256) || (mode =? 384)
  end.
Definition stage_error (f : VerifiedImageFile) (source : string) : ImageError :=
  ImageError_Stage (vi_kind f) (vi_digest f) source.
(** Writing through the handle of a file that was just created. *)
Definition fill (mode : Z) (content : list Z) (destination : path) (fs : Fs) : Fs :=
  match locate fs destination with
  | Ok (d, name) => <[d ++ [name] := Node_file mode content]> fs
  | Err _ => fs
  end.
Definition stage (io : StageIo) (f : VerifiedImageFile) (destination : path) (mode : Z)
    : M Fs ImageError unit := fun fs =>
  if negb (mode_is_valid (vi_kind f) mode) then (Err (stage_error f "invalid mode"), fs)
  else if negb (rewind_ok io) then (Err (stage_error f "rewind"), fs)
  else
    let created := masked (stage_umask io) mode in
    match create_new created destination fs with
    | (Err e, fs') => (Err (stage_error f (io_text e)), fs')
    | (Ok _, fs') =>
        if copy_ok io then (Ok tt, fill mode (handle_bytes io f) destination fs')
        else
          let primary := stage_error f "copy" in
          match remove_file (cleanup_ok io) destination (fill created (copied io) destination fs') with
          | (Ok _, fs') => (Err primary, fs')
          | (Err e, fs') =>
              (Err (with_cleanup_failure quote primary "removing partially staged destination" (io_text e)), fs')
          end
    end.
(** [rollback] is the outcome of removing the staged kernel. *)
Definition stage_verified_pair (io_kernel io_rootfs : StageIo) (rollback : bool) (pair : VerifiedImagePair)
    (kernel_destination rootfs_destination : path) (rootfs_read_only : bool) : M Fs ImageError unit := fun fs =>
  match stage io_kernel (vp_kernel pair) kernel_destination 256 fs with
  | (Err e, fs1) => (Err e, fs1)
  | (Ok _, fs1) =>
      match stage io_rootfs (vp_rootfs pair) rootfs_destination (if rootfs_read_only then 256 else 384) fs1 with
      | (Ok _, fs2) => (Ok tt, fs2)
      | (Err e, fs2) =>
          match remove_file rollback kernel_destination fs2 with
          | (Ok _, fs2) => (Err e, fs2)
          | (Err e', fs2) =>
              (Err (with_cleanup_failure quote e "rolling back staged kernel after rootfs failure" (io_text e')), fs2)
          end
      end
  end.
End Stage.

(** ** The claim of a workspace tree *)

(** [Path::join]: an absolute right-hand side replaces the left one; empty components and
    ["."] disappear. *)
Definition components (s : string) : path :=
  filter (fun c => c <> "" /\ c <> ".") (split_on "/" s).
Definition path_join (root : path) (s : string) : path :=
  if starts_with "/" s then components s else root ++ components s.
(** [remove_dir_all]; after a failure the entries of [kept] are still there. *)
Definition remove_dir_all (kept : option (gset (list string))) (p : path) (fs : Fs) : result IoError unit * Fs :=
  match locate fs p with
  | Err e => (Err e, fs)
  | Ok (d, name) =>
      let below q := path_starts_with (d ++ [name]) q in
      match kept with
      | None => (Ok tt, filter (fun kv => below kv.1 = false) fs)
      | Some k => (Err IoError_Other, filter (fun kv => below kv.1 = false \/ kv.1 ∈ k) fs)
      end
  end.
(** [remove_dir] of a directory that was just created, and so is empty. *)
Definition remove_dir (p : path) (fs : Fs) : Fs :=
  match locate fs p with Ok (d, name) => delete (d ++ [name]) fs | Err _ => fs end.

Record WorkspaceClaim := { workspace_root : path; jailer_chroot : path }.
(** The chroot directory of a claimed root; [chroot_io] is a failure of creating it for a
    cause outside the model, [removed] the outcome of removing the claimed root then. *)
Definition claim_chroot (umask_mode : Z) (chroot_io : option IoError) (removed : bool)
    (workspace_root : path) : M Fs IoError WorkspaceClaim := fun fs =>
  let jailer_chroot := path_join workspace_root "root" in
  match (match chroot_io with None => mkdir umask_mode jailer_chroot | Some e => throw e end) fs with
  | (Ok _, fs') => (Ok {| workspace_root := workspace_root; jailer_chroot := jailer_chroot |}, fs')
  | (Err primary, fs') =>
      if removed then (Err primary, remove_dir workspace_root fs') else (Err IoError_Other, fs')
  end.
Definition WorkspaceClaim_claim (umask_mode : Z) (chroot_io : option IoError) (removed : bool)
    (chroot_base : path) (workspace_id : string) : M Fs IoError WorkspaceClaim :=
  let shared_root := path_join chroot_base "firecracker" in
  create_dir_all umask_mode shared_root ;;;
  let workspace_root := path_join shared_root workspace_id in
  mkdir umask_mode workspace_root ;;;
  claim_chroot umask_mode chroot_io removed workspace_root.
Definition cleanup_image_failure (quote : string -> string) (kept : option (gset (list string)))
    (c : WorkspaceClaim) (primary : ImageError) (fs : Fs) : ImageError * Fs :=
  match remove_dir_all kept (workspace_root c) fs with
  | (Ok _, fs') => (primary, fs')
  | (Err e, fs') => (with_cleanup_failure quote primary "removing failed workspace tree" (io_text e), fs')
  end.
Definition WorkspaceClaim_cleanup (kept : option (gset (list string))) (c : WorkspaceClaim) : M Fs IoError unit :=
  remove_dir_all kept (workspace_root c).

(** ** Resolution is authentic *)

Section Proofs.
Context {C : Crypto} {CL : CryptoLaws C}.

(** The artifact of a digest, as the specification sees one file system. *)
Definition holds_image (fs : Fs) (store_root : path) (kind : ImageKind) (digest : string) (content : list Z) : Prop :=
  exists root artifact mode,
    canonicalize_path fs store_root = Ok root /\
    walk 40 fs false [] (managed_path root kind digest) = Ok artifact /\
    node fs artifact = Some (Node_file mode content) /\
    exists real, canonicalize_path fs (managed_path root kind digest) = Ok real /\ root `prefix_of` real.

Lemma digest_parse_ok kind raw d :
  ImageDigest_parse kind raw = Ok d <-> d = raw /\ len raw = 64 /\ all_chars digest_char raw = true.
Proof.
  unfold ImageDigest_parse. destruct (_ && _) eqn:E.
  - apply andb_true_iff in E as [E1%Z.eqb_eq E2]. split; [by intros [= <-]|by intros (-> & _)].
  - split; [done|]. intros (-> & Hl & Hc). by rewrite Hl, Hc in E.
Qed.
Lemma open_nofollow_file fs p m c :
  open_nofollow fs p = Ok (Node_file m c) <->
  exists q, walk 40 fs false [] p = Ok q /\ node fs q = Some (Node_file m c).
Proof.
  unfold open_nofollow, lstat. destruct (walk 40 fs false [] p) as [q|e]; cbn [mbind result_bind].
  2: { split; [done|]. by intros (q & ? & _). }
  split.
  - intros H. exists q. split; [done|]. destruct (node fs q) as [[]|]; cbn in H; congruence.
  - intros (q' & Hq & Hn). assert (q' = q) as -> by congruence. by rewrite Hn.
Qed.
Lemma resolve_image_sound io root kind raw f :
  resolve_image io root kind raw = Ok f ->
  vi_kind f = kind /\ vi_digest f = raw /\ len raw = 64 /\ all_chars digest_char raw = true /\
  hex_encode (sha256 (vi_content f)) = raw /\
  exists r q m, canonicalize_path (at_root io) root = Ok r /\
    walk 40 (at_open io) false [] (managed_path r kind raw) = Ok q /\
    node (at_open io) q = Some (Node_file m (vi_content f)).
Proof.
  unfold resolve_image. intros H. apply bind_ok in H as (d & Hd & H).
  apply digest_parse_ok in Hd as (-> & Hl & Hc). apply bind_ok in H as (r & Hr & H).
  apply map_err_ok in Hr. apply bind_ok in H as (meta & _ & H). apply bind_ok in H as (_ & _ & H).
  apply bind_ok in H as (real & _ & H). apply bind_ok in H as (_ & _ & H).
  apply bind_ok in H as (file & Hf & H). apply map_err_ok in Hf. apply bind_ok in H as (content & Hct & H).
  destruct file as [|m c|]; try discriminate. injection Hct as ->.
  apply bind_ok in H as (_ & _ & H). destruct (String.eqb_spec (hex_encode (sha256 content)) raw) as [He|]; [|done].
  cbn [negb] in H. apply bind_ok in H as (_ & _ & H). injection H as <-. cbn.
  apply open_nofollow_file in Hf as (q & Hq & Hn). split_and!; try done. by exists r, q, m.
Qed.

(** C17: An image is what its digest names.  Whatever happens to the file system between the system
    calls of a resolution, a file it returns hashes to the requested digest, a canonical one, and was
    read from a regular file under the canonical store path without following a final link; two
    resolutions of one digest give the same bytes unless SHA-256 collides.  On a file system that does
    not change, and when reading works, exactly the digests whose artifact is a regular file inside
    the store with that content resolve. *)
Theorem resolved_image_is_authentic io root kind raw :
  (forall f, resolve_image io root kind raw = Ok f ->
     hex_encode (sha256 (vi_content f)) = raw /\ len raw = 64 /\ all_chars digest_char raw = true /\
     (exists r q m, canonicalize_path (at_root io) root = Ok r /\
        walk 40 (at_open io) false [] (managed_path r kind raw) = Ok q /\
        node (at_open io) q = Some (Node_file m (vi_content f))) /\
     forall io' kind' f', resolve_image io' root kind' raw = Ok f' ->
       vi_content f' = vi_content f \/ sha256_collision) /\
  (forall fs, io = {| at_root := fs; at_lstat := fs; at_canonical := fs; at_open := fs;
                      read_io := Ok tt; rewind_io := Ok tt |} ->
     forall content, resolve_image io root kind raw
        = Ok {| vi_kind := kind; vi_digest := raw; vi_content := content |} <->
       len raw = 64 /\ all_chars digest_char raw = true /\ hex_encode (sha256 content) = raw /\
       holds_image fs root kind raw content).
Proof.
  split.
  - intros f Hf. apply resolve_image_sound in Hf as (_ & _ & Hl & Hc & He & Hn). split_and!; try done.
    intros io' kind' f' Hf'. apply resolve_image_sound in Hf' as (_ & _ & _ & _ & He' & _).
    apply hex_sha256_eq. congruence.
  - intros fs -> content. split.
    + intros H. pose proof H as Hs. apply resolve_image_sound in Hs as (_ & _ & Hl & Hc & He & r & q & m & Hr & Hq & Hn).
      split_and!; try done. exists r, q, m. split_and!; try done. revert H. unfold resolve_image.
      rewrite (proj2 (digest_parse_ok kind raw raw)) by done. cbn [mbind result_bind]. unfold canonicalize.
      cbn [at_root at_open vi_content] in Hr, Hq, Hn. cbn [at_root at_lstat at_canonical at_open]. rewrite Hr. cbn [map_err mbind result_bind].
      unfold lstat. rewrite Hq. cbn [mbind result_bind ok_or map_err]. rewrite Hn. cbn [ok_or map_err mbind result_bind].
      destruct (canonicalize_path fs (managed_path r kind raw)) as [real|e]; cbn [map_err mbind result_bind]; [|done].
      destruct (path_starts_with r real) eqn:Hp; [|done]. intros _. exists real. split; [done|].
      by apply path_starts_with_iff.
    + intros (Hl & Hc & He & r & q & m & Hr & Hq & Hn & real & Hre & Hp). unfold resolve_image.
      rewrite (proj2 (digest_parse_ok kind raw raw)) by done. cbn [mbind result_bind]. unfold canonicalize.
      cbn [at_root at_lstat at_canonical at_open read_io rewind_io]. rewrite Hr. cbn [map_err mbind result_bind].
      rewrite (proj2 (open_nofollow_file fs _ m content)) by (exists q; split; assumption).
      unfold lstat. rewrite Hq. cbn [mbind result_bind ok_or map_err]. rewrite Hn. cbn [ok_or map_err mbind result_bind].
      rewrite Hre. cbn [map_err mbind result_bind]. rewrite (proj2 (path_starts_with_iff r real)) by done.
      cbn [mbind result_bind map_err]. by rewrite He, String.eqb_refl.
Qed.
End Proofs.

(** ** Staging is all or nothing *)

Lemma create_new_ok mode p fs fs' :
  create_new mode p fs = (Ok tt, fs') ->
  exists d name, locate fs p = Ok (d, name) /\ node fs (d ++ [name]) = None /\
    fs' = <[d ++ [name] := Node_file mode []]> fs.
Proof.
  unfold create_new. unfold_m. destruct (locate fs p) as [[d name]|e]; [|done].
  destruct (node fs (d ++ [name])) eqn:E; [done|]. intros [= <-]. by exists d, name.
Qed.
Lemma create_new_err mode p fs e fs' : create_new mode p fs = (Err e, fs') -> fs' = fs.
Proof.
  unfold create_new. unfold_m. destruct (locate fs p) as [[d name]|e']; [|by intros [= _ <-]].
  destruct (node fs (d ++ [name])); [|done]. by intros [= _ <-].
Qed.
Lemma node_none_lookup fs d name : node fs (d ++ [name]) = None -> fs !! (d ++ [name]) = None.
Proof. by destruct d. Qed.
Lemma locate_created fs p d name m c :
  locate fs p = Ok (d, name) -> node fs (d ++ [name]) = None ->
  locate (<[d ++ [name] := Node_file m c]> fs) p = Ok (d, name).
Proof. intros Hl Hn. eapply locate_mono; [|done]. apply walkable_insert; [by destruct d|by left]. Qed.

(** Removing a file that was just created brings the file system back. *)
Lemma remove_created fs p d name m c :
  locate fs p = Ok (d, name) -> node fs (d ++ [name]) = None ->
  remove_file true p (<[d ++ [name] := Node_file m c]> fs) = (Ok tt, fs).
Proof.
  intros Hl Hn. unfold remove_file. unfold_m. rewrite (locate_created fs p d name m c Hl Hn).
  rewrite node_insert by (by destruct d). rewrite decide_True by done. cbn.
  unfold put. rewrite delete_insert_eq. f_equal. by apply delete_id, node_none_lookup.
Qed.

(** A stage writes the image or changes nothing, unless its clean-up fails too. *)
Lemma stage_cases quote io f dest mode fs r fs' :
  stage quote io f dest mode fs = (r, fs') ->
  match r with
  | Ok _ => exists d name, locate fs dest = Ok (d, name) /\ node fs (d ++ [name]) = None /\
              mode_is_valid (vi_kind f) mode = true /\
              fs' = <[d ++ [name] := Node_file mode (handle_bytes io f)]> fs
  | Err _ => cleanup_ok io = true -> fs' = fs
  end.
Proof.
  unfold stage. destruct (mode_is_valid (vi_kind f) mode) eqn:Hm; cbn [negb]; [|by intros [= <- <-]].
  destruct (rewind_ok io); cbn [negb]; [|by intros [= <- <-]].
  cbv zeta. generalize (masked (stage_umask io) mode) as created. intros created.
  destruct (create_new created dest fs) as [[[]|e] fs1] eqn:Ec.
  2: { apply create_new_err in Ec as ->. by intros [= <- <-]. }
  apply create_new_ok in Ec as (d & name & Hl & Hn & ->).
  pose proof (locate_created fs dest d name created [] Hl Hn) as Hl1.
  unfold fill. rewrite Hl1, !insert_insert_eq.
  destruct (copy_ok io); [intros [= <- <-]; exists d, name; auto|].
  destruct (cleanup_ok io).
  - rewrite (remove_created fs dest d name created (copied io) Hl Hn). by intros [= <- <-].
  - destruct (remove_file false _ _) as [[u|e] fs2]; by intros [= <- _].
Qed.

(** A new file is met only as the end of a path. *)
Lemma walk_without_file fs q m c follow links cur todo r :
  q <> [] -> node fs q = None -> r <> q ->
  walk links (<[q := Node_file m c]> fs) follow cur todo = Ok r -> walk links fs follow cur todo = Ok r.
Proof.
  intros Hq Hn Hr. revert links cur todo. apply (walk_ind (fun links cur todo =>
    walk links (<[q := Node_file m c]> fs) follow cur todo = Ok r -> walk links fs follow cur todo = Ok r)).
  intros links cur todo IHt IHl. rewrite !(walk_eq links _ _ cur todo).
  destruct todo as [|x rest]; [done|].
  assert (Hlt : (length rest < length (x :: rest))%nat) by (cbn; lia).
  destruct (String.eqb x "."); [by apply IHt|]. destruct (String.eqb x ".."); [by apply IHt|].
  rewrite node_insert by done. destruct (decide (cur ++ [x] = q)) as [E|_].
  - destruct rest; [|done]. intros [= <-]. done.
  - destruct (node fs (cur ++ [x])) as [[m'|m' y|a t]|]; [by apply IHt|done| |done].
    destruct (negb follow && _); [done|]. destruct links; [done|]. by apply IHl.
Qed.
Lemma locate_without_file fs q m c p d name :
  q <> [] -> node fs q = None -> locate (<[q := Node_file m c]> fs) p = Ok (d, name) ->
  locate fs p = Ok (d, name).
Proof.
  intros Hq Hn. rewrite !locate_Ok, node_insert by done. intros (Hl & Hr & md & Hd).
  destruct (decide (d = q)) as [|Hne]; [done|]. split; [done|].
  split; [exact (walk_without_file fs q m c _ _ _ _ d Hq Hn Hne Hr)|by exists md].
Qed.

Lemma staging_outcome quote io_k io_r rollback pair kd rd ro fs :
  match stage_verified_pair quote io_k io_r rollback pair kd rd ro fs with
  | (Ok _, fs') => exists d n d' n', locate fs kd = Ok (d, n) /\ locate fs rd = Ok (d', n') /\
      d ++ [n] <> d' ++ [n'] /\ node fs (d ++ [n]) = None /\ node fs (d' ++ [n']) = None /\
      fs' = <[d' ++ [n'] := Node_file (if ro then 256 else 384) (handle_bytes io_r (vp_rootfs pair))]>
              (<[d ++ [n] := Node_file 256 (handle_bytes io_k (vp_kernel pair))]> fs)
  | (Err _, fs') =>
      cleanup_ok io_k = true -> cleanup_ok io_r = true -> rollback = true -> fs' = fs
  end.
Proof.
  unfold stage_verified_pair. destruct (stage quote io_k (vp_kernel pair) kd 256 fs) as [[[]|e] fs1] eqn:Ek.
  2: { apply stage_cases in Ek. intros Hk _ _. by apply Ek. }
  apply stage_cases in Ek as (d & n & Hl & Hn & _ & ->).
  assert (Hw : walkable fs (<[d ++ [n] := Node_file 256 (handle_bytes io_k (vp_kernel pair))]> fs))
    by (apply walkable_insert; [by destruct d|by left]).
  destruct (stage quote io_r (vp_rootfs pair) rd _ _) as [[[]|e] fs2] eqn:Er; apply stage_cases in Er.
  - destruct Er as (d' & n' & Hl' & Hn' & _ & ->). apply locate_without_file in Hl'; [|by destruct d|done].
    rewrite node_insert in Hn' by (by destruct d).
    destruct (decide (d' ++ [n'] = d ++ [n])) as [|Hne]; [done|]. exists d, n, d', n'.
    split_and!; try done.
  - destruct rollback; [|by destruct (remove_file _ _ _) as [[]]].
    destruct (remove_file true kd fs2) as [r' fs3] eqn:E. destruct r'; intros _ Hr _; rewrite (Er Hr) in E;
      rewrite (remove_created fs kd d n _ _ Hl Hn) in E; by injection E.
Qed.

(** A workspace tree gets both images or neither.  When staging succeeds, both destinations were
    free and now hold exactly the bytes the retained handles yield, the kernel with mode 0400 and the
    root file system with 0400 or 0600 as requested, and nothing else changed.  When it fails and the
    roll-back works, the file system is exactly as before. *)
Theorem staging_is_all_or_nothing quote io_k io_r rollback pair kd rd ro fs :
  match stage_verified_pair quote io_k io_r rollback pair kd rd ro fs with
  | (Ok _, fs') => exists d n d' n', locate fs kd = Ok (d, n) /\ locate fs rd = Ok (d', n') /\
      d ++ [n] <> d' ++ [n'] /\ node fs (d ++ [n]) = None /\ node fs (d' ++ [n']) = None /\
      fs' = <[d' ++ [n'] := Node_file (if ro then 256 else 384) (handle_bytes io_r (vp_rootfs pair))]>
              (<[d ++ [n] := Node_file 256 (handle_bytes io_k (vp_kernel pair))]> fs)
  | (Err _, fs') =>
      cleanup_ok io_k = true -> cleanup_ok io_r = true -> rollback = true -> fs' = fs
  end.
Proof. apply staging_outcome. Qed.

(** ** A claim is exclusive *)

(** Directories are only added. *)
Lemma mkdir_cases u p fs r fs' :
  mkdir u p fs = (r, fs') ->
  match r with
  | Ok _ => exists d name, locate fs p = Ok (d, name) /\ node fs (d ++ [name]) = None /\
              fs' = <[d ++ [name] := Node_dir u]> fs
  | Err _ => fs' = fs
  end.
Proof.
  unfold mkdir. unfold_m. destruct (locate fs p) as [[d name]|e]; [|by intros [= <- <-]].
  destruct (node fs (d ++ [name])) eqn:E; [by intros [= <- <-]|]. intros [= <- <-]. exists d, name. auto.
Qed.
Lemma mkdir_subseteq u p fs r fs' : mkdir u p fs = (r, fs') -> fs ⊆ fs'.
Proof.
  intros H. apply mkdir_cases in H. destruct r; [|by subst]. destruct H as (d & name & _ & Hn & ->).
  by apply insert_subseteq, node_none_lookup.
Qed.
Lemma create_dir_all_subseteq u rp fs r fs' : create_dir_all_rev u rp fs = (r, fs') -> fs ⊆ fs'.
Proof.
  revert fs r fs'. induction rp as [|c rp IH]; intros fs r fs'; [by intros [= <- <-]|].
  cbn [create_dir_all_rev]. destruct (mkdir u (rev (c :: rp)) fs) as [[[]|e] f1] eqn:E1;
    apply mkdir_subseteq in E1; [by intros [= <- <-]|].
  assert (Hother : (if is_dir f1 (rev (c :: rp)) then (Ok tt, f1) else (Err e, f1)) = (r, fs') -> fs ⊆ fs')
    by (destruct (is_dir _ _); by intros [= <- <-]).
  destruct e; try exact Hother. destruct (create_dir_all_rev u rp f1) as [[[]|e] f2] eqn:E2;
    apply IH in E2; [|intros [= <- <-]; by etrans].
  destruct (mkdir u (rev (c :: rp)) f2) as [[[]|e] f3] eqn:E3; apply mkdir_subseteq in E3.
  - intros [= <- <-]. by do 2 etrans.
  - intros H. assert (fs' = f3) as -> by (destruct (is_dir f3 _); congruence). by do 2 etrans.
Qed.

(** [fs'] is [fs] with some directories created. *)
Definition shared_parent (u : Z) (chroot_base : path) (fs : Fs) : Fs :=
  (create_dir_all u (path_join chroot_base "firecracker") fs).2.
Lemma claim_cases u cio removed base id fs r fs' :
  WorkspaceClaim_claim u cio removed base id fs = (r, fs') ->
  let fs0 := shared_parent u base fs in
  let root := path_join (path_join base "firecracker") id in
  fs ⊆ fs0 /\
  match r with
  | Ok c => workspace_root c = root /\ jailer_chroot c = path_join root "root" /\
      exists d name d' name', locate fs0 root = Ok (d, name) /\ node fs0 (d ++ [name]) = None /\
        let fs1 := <[d ++ [name] := Node_dir u]> fs0 in
        locate fs1 (jailer_chroot c) = Ok (d', name') /\ node fs1 (d' ++ [name']) = None /\
        fs' = <[d' ++ [name'] := Node_dir u]> fs1
  | Err _ => removed = true -> fs' = fs0
  end.
Proof.
  unfold WorkspaceClaim_claim, shared_parent. set (root := path_join _ id).
  unfold mbind, M_bind. unfold create_dir_all.
  destruct (create_dir_all_rev u _ fs) as [[[]|e] fs0] eqn:E0; cbn [snd];
    apply create_dir_all_subseteq in E0; [|intros [= <- <-]; by split].
  destruct (mkdir u root fs0) as [[[]|e] fs1] eqn:E1; apply mkdir_cases in E1;
    [|intros [= <- <-]; by split].
  destruct E1 as (d & name & Hl & Hn & ->). unfold claim_chroot.
  assert (Hback : remove_dir root (<[d ++ [name] := Node_dir u]> fs0) = fs0).
  { unfold remove_dir. rewrite (locate_mono fs0 (<[d ++ [name] := Node_dir u]> fs0) root d name); [| |exact Hl].
    - cbn iota beta. rewrite delete_insert_eq. by apply delete_id, node_none_lookup.
    - apply grows_walkable, grows_mkdir; [by destruct d|done]. }
  assert (Hfail : forall (e : IoError), (if removed then (@Err IoError WorkspaceClaim e, remove_dir root (<[d ++ [name] := Node_dir u]> fs0))
      else (Err IoError_Other, <[d ++ [name] := Node_dir u]> fs0)) = (r, fs') ->
      fs ⊆ fs0 /\ match r with Ok _ => False | Err _ => removed = true -> fs' = fs0 end).
  { intros e. rewrite Hback. destruct removed; intros [= <- <-]; by split. }
  destruct cio as [e|]; unfold throw.
  - intros H. apply Hfail in H as [H1 H2]. split; [done|]. by destruct r.
  - destruct (mkdir u (path_join root "root") _) as [[[]|e] fs2] eqn:E2; apply mkdir_cases in E2.
    + destruct E2 as (d' & name' & Hl' & Hn' & ->). intros [= <- <-]. split; [done|]. cbn.
      split; [done|]. split; [done|]. exists d, name, d', name'. auto.
    + subst fs2. intros H. apply Hfail in H as [H1 H2]. split; [done|]. by destruct r.
Qed.

Lemma subseteq_node (fs fs' : Fs) p n : fs ⊆ fs' -> node fs p = Some n -> node fs' p = Some n.
Proof. intros Hs. destruct p; [done|]. cbn [node]. intros H. by eapply lookup_weaken. Qed.
Lemma subseteq_walkable (fs fs' : Fs) : fs ⊆ fs' -> walkable fs fs'.
Proof.
  intros Hs p. destruct (node fs p) as [n|] eqn:E; [|done]. rewrite (subseteq_node _ _ _ _ Hs E).
  destruct n; eauto.
Qed.
Lemma claim_grows u cio removed base id fs c fs' :
  WorkspaceClaim_claim u cio removed base id fs = (Ok c, fs') ->
  fs ⊆ fs' /\
  exists d name, locate fs' (workspace_root c) = Ok (d, name) /\ node fs (d ++ [name]) = None /\
    node fs' (d ++ [name]) = Some (Node_dir u).
Proof.
  intros H. apply claim_cases in H as (H0 & Hr & Hc & d & name & d' & name' & Hl & Hn & Hl' & Hn' & ->).
  cbn zeta in *. set (fs0 := shared_parent u base fs) in *. set (fs1 := <[d ++ [name] := Node_dir u]> fs0) in *.
  assert (H1 : fs0 ⊆ fs1) by (by apply insert_subseteq, node_none_lookup).
  assert (H2 : fs1 ⊆ <[d' ++ [name'] := Node_dir u]> fs1) by (by apply insert_subseteq, node_none_lookup).
  split; [by do 2 etrans|]. exists d, name. split_and!.
  - rewrite Hr. eapply locate_mono; [|exact Hl]. apply subseteq_walkable. by etrans.
  - destruct (node fs (d ++ [name])) eqn:E; [|done]. pose proof (subseteq_node _ _ _ _ H0 E). congruence.
  - eapply subseteq_node; [exact H2|]. subst fs1. rewrite node_insert by (by destruct d). by rewrite decide_True.
Qed.
(** A claim on a tree that is already there fails and touches nothing that exists. *)
Lemma claim_refused u cio removed base id fs d name n :
  locate fs (path_join (path_join base "firecracker") id) = Ok (d, name) ->
  node fs (d ++ [name]) = Some n ->
  exists e, WorkspaceClaim_claim u cio removed base id fs = (Err e, shared_parent u base fs) /\
    fs ⊆ shared_parent u base fs.
Proof.
  intros Hl Hn. unfold WorkspaceClaim_claim, shared_parent. unfold mbind, M_bind. unfold create_dir_all.
  destruct (create_dir_all_rev u _ fs) as [[[]|e] fs0] eqn:E0; cbn [snd];
    apply create_dir_all_subseteq in E0; [|by exists e]. exists IoError_AlreadyExists. split; [|done].
  unfold mkdir at 1, mbind, M_bind, get, lift.
  rewrite (locate_mono fs fs0 _ d name); [|by apply subseteq_walkable|exact Hl].
  cbn iota beta. by rewrite (subseteq_node fs fs0 _ n E0 Hn).
Qed.

(** C22: A workspace tree has one owner.  A claim that succeeds created the tree itself, where nothing
    was, and changed no existing entry.  From then on, whatever is added to the file system, a claim of
    the same id fails and leaves every existing entry as it was, so the loser of a race can never
    remove or alter the winner's tree; when the owner cleans up, exactly the entries of its tree
    disappear. *)
Theorem claim_is_exclusive u cio removed base id fs c fs' :
  WorkspaceClaim_claim u cio removed base id fs = (Ok c, fs') ->
  fs ⊆ fs' /\
  exists d name, node fs (d ++ [name]) = None /\ node fs' (d ++ [name]) = Some (Node_dir u) /\
    forall fs2, fs' ⊆ fs2 ->
      (forall u' cio' removed', exists e fs3,
         WorkspaceClaim_claim u' cio' removed' base id fs2 = (Err e, fs3) /\ fs2 ⊆ fs3) /\
      (exists fs3, WorkspaceClaim_cleanup None c fs2 = (Ok tt, fs3) /\
         forall p, fs3 !! p = if path_starts_with (d ++ [name]) p then None else fs2 !! p).
Proof.
  intros H. pose proof H as Hc. apply claim_cases in Hc as (_ & Hr & _).
  apply claim_grows in H as (Hsub & d & name & Hl & Hn & Hn'). split; [done|]. exists d, name.
  split_and!; [done..|]. intros fs2 H2.
  assert (Hl2 : locate fs2 (workspace_root c) = Ok (d, name))
    by (eapply locate_mono; [by apply subseteq_walkable|exact Hl]).
  pose proof (subseteq_node _ _ _ _ H2 Hn') as Hn2. split.
  - intros u' cio' removed'. rewrite Hr in Hl2.
    destruct (claim_refused u' cio' removed' base id fs2 d name _ Hl2 Hn2) as (e & He & Hs). by exists e, (shared_parent u' base fs2).
  - unfold WorkspaceClaim_cleanup, remove_dir_all. rewrite Hl2. eexists. split; [done|]. intros p.
    destruct (path_starts_with (d ++ [name]) p) eqn:E.
    + apply map_lookup_filter_None. right. intros x _. cbn. by rewrite E.
    + destruct (fs2 !! p) as [x|] eqn:Ex.
      * apply map_lookup_filter_Some. by split.
      * apply map_lookup_filter_None. by left.
Qed.

(** ** A concrete store *)

Module ImageDemo.
#[local] Existing Instances toy_crypto toy_crypto_laws.
Definition content0 : list Z := replicate 64 97.
Definition digest0 : string := hex_encode (sha256 content0).
Definition store : Fs :=
  list_to_map
    [(["store"], Node_dir 493); (["store"; "kernels"], Node_dir 493);
     (["store"; "kernels"; digest0], Node_dir 493);
     (["store"; "kernels"; digest0; "vmlinux"], Node_file 256 content0)].
Definition quiet : ResolveIo :=
  {| at_root := store; at_lstat := store; at_canonical := store; at_open := store;
     read_io := Ok tt; rewind_io := Ok tt |}.
Definition image0 : VerifiedImageFile :=
  {| vi_kind := ImageKind_Kernel; vi_digest := digest0; vi_content := content0 |}.
Lemma resolved_image_is_authentic_witness :
  resolve_image quiet ["store"] ImageKind_Kernel digest0 = Ok image0 /\
  hex_encode (sha256 (vi_content image0)) = digest0 /\
  holds_image store ["store"] ImageKind_Kernel digest0 content0.
Proof.
  destruct (resolved_image_is_authentic quiet ["store"] ImageKind_Kernel digest0)
    as [H1 H2].
  assert (Hr : resolve_image quiet ["store"] ImageKind_Kernel digest0 = Ok image0)
    by (vm_compute; reflexivity).
  split; [exact Hr|]. split; [exact (proj1 (H1 image0 Hr))|].
  exact (proj2 (proj2 (proj2 (proj1 (H2 store eq_refl content0) Hr)))).
Defined.

(** A claim of [w1] under [/srv], on a file system where [/srv] exists. *)
Definition host0 : Fs := {[ ["srv"] := Node_dir 493 ]}.
Definition host1 : Fs := (WorkspaceClaim_claim 493 None true ["srv"] "w1" host0).2.
Definition claimed : WorkspaceClaim :=
  {| workspace_root := ["srv"; "firecracker"; "w1"]; jailer_chroot := ["srv"; "firecracker"; "w1"; "root"] |}.
Lemma claim_is_exclusive_witness :
  WorkspaceClaim_claim 493 None true ["srv"] "w1" host0 = (Ok claimed, host1) /\ host0 ⊆ host1 /\
  exists d name, node host0 (d ++ [name]) = None /\
    exists e fs3, WorkspaceClaim_claim 493 None true ["srv"] "w1" host1 = (Err e, fs3) /\ host1 ⊆ fs3.
Proof.
  assert (H : WorkspaceClaim_claim 493 None true ["srv"] "w1" host0 = (Ok claimed, host1))
    by (vm_cast_no_check (@eq_refl (result IoError WorkspaceClaim * Fs) (Ok claimed, host1))).
  destruct (claim_is_exclusive 493 None true ["srv"] "w1" host0 claimed host1 H) as (Hs & d & name & Hn & _ & H2).
  split; [exact H|]. split; [exact Hs|]. exists d, name. split; [exact Hn|].
  exact (proj1 (H2 host1 (reflexivity _)) 493 None true).
Defined.
End ImageDemo.
