(* ===== verification/Wire.v ===== *)
(** * Line-delimited JSON over a stream ([crates/ne-supervisor/src/util.rs],
    [crates/ne-supervisor/src/ipc.rs], [crates/ne-supervisor/src/firecracker.rs],
    [crates/ne-api/src/supervisor_client.rs])

    Both channels of the system, the supervisor's socket and the guest's vsock,
    carry one request per line and one response per line.  This file models the
    capped line reader, the serving loop shared by [handle_connection] of the
    supervisor and of the guest agent, peer authentication, and the two clients.
    The JSON text is the class [Codec]; a peer is the bytes it sends. *)

From S2P Require Import Prelude Text Crypto Bytes.
From Equations Require Import Equations.

(** ** The capped line reader *)

(** [AsyncReadExt::take(limit)] and [read_until(b'\n')]: the bytes up to and
    including a newline, at most [limit] of them. *)
Fixpoint read_until_newline (limit : Z) (input : list Z) : list Z * list Z :=
  match input with
  | [] => ([], [])
  | b :: r =>
      if limit <=? 0 then ([], input)
      else if b =? 10 then ([b], r)
      else let '(l, rest) := read_until_newline (limit - 1) r in (b :: l, rest)
  end.
Inductive LineError := LineError_utf8 | LineError_too_long.
(** [read_capped_line]: the number of bytes, the line and the rest.  [max + 1]
    wraps at 64 bits. *)
Definition read_capped_line (max : Z) (input : list Z) : result LineError (Z * string * list Z) :=
  let '(bytes, rest) := read_until_newline ((max + 1) mod 2 ^ 64) input in
  line ← ok_or (from_utf8 bytes) LineError_utf8;
  if max <? blen bytes then Err LineError_too_long else Ok (blen bytes, line, rest).
Definition trim_end (s : string) : string := string_of (rev (skip_ws_rev (rev (bytes_of s)))).

(** The knobs of the byte and time caps. *)
Definition parse_positive_or (max : Z) (raw : option string) (dflt : Z) : Z :=
  default dflt (v ← raw; n ← parse_uint max v; if 0 <? n then Some n else None).
Definition parse_ceiling (raw : option string) : Z :=
  default 3600000 (v ← raw; n ← parse_uint U32_MAX v; if 0 <? n then Some n else None).
Definition clamp_timeout_ms (requested ceiling : Z) : Z :=
  if (requested =? 0) || (ceiling <? requested) then ceiling else requested.

(** ** Messages *)

Class Codec (Req Resp : Type) := {
  encode_req : Req -> option (list Z);
  decode_req : string -> result string Req;
  encode_resp : Resp -> option (list Z);
  decode_resp : string -> option Resp;
}.
(** JSON text on one line: valid UTF-8 that ends in a brace. *)
Definition json_line (b : list Z) : Prop :=
  is_bytes b /\ utf8_valid b = true /\ (10 ∉ b) /\ last b = Some 125.
Class CodecLaws (Req Resp : Type) (K : Codec Req Resp) : Prop := {
  encode_req_total q : is_Some (encode_req q);
  encode_resp_total p : is_Some (encode_resp p);
  req_line q b : encode_req q = Some b -> json_line b;
  resp_line p b : encode_resp p = Some b -> json_line b;
  req_decodes q b : encode_req q = Some b -> decode_req (string_of b) = Ok q;
  resp_decodes p b : encode_resp p = Some b -> decode_resp (string_of b) = Some p;
}.

(** ** The serving loop *)

Inductive ServeError := ServeError_line (e : LineError) | ServeError_serialize | ServeError_write.

Section Serve.
Context {Req Resp World : Type} {K : Codec Req Resp}.
Context (dispatch : Req -> World -> Resp * World) (invalid : string -> Resp).

(** The response to one line. *)
Definition answer (w : World) (line : string) : Resp * World :=
  match decode_req line with
  | Ok req => dispatch req w
  | Err e => (invalid e, w)
  end.

Lemma read_until_newline_app limit input l rest :
  read_until_newline limit input = (l, rest) -> input = l ++ rest.
Proof.
  revert limit l rest. induction input as [|b r IH]; intros limit l rest; cbn; [by intros [= <- <-]|].
  destruct (limit <=? 0); [by intros [= <- <-]|]. destruct (b =? 10); [by intros [= <- <-]|].
  destruct (read_until_newline (limit - 1) r) as [l' rest'] eqn:E. intros [= <- <-].
  cbn. f_equal. by eapply IH.
Qed.
Lemma read_capped_line_shorter max input n line rest :
  read_capped_line max input = Ok (n, line, rest) -> n <> 0 -> (length rest < length input)%nat.
Proof.
  unfold read_capped_line. destruct (read_until_newline _ input) as [l r] eqn:E. intros H Hn.
  apply bind_ok in H as (s & _ & H). destruct (max <? blen l); [done|]. injection H as <- <- <-.
  apply read_until_newline_app in E as ->. rewrite length_app. unfold blen in Hn. lia.
Qed.
(** [handle_connection]: until the peer closes its side, read a line, answer it,
    write the answer.  [wr_io] says which writes fail, and after how many bytes; the result, the
    final state and the bytes written. *)
Equations? serve (cap : Z) (wr_io : nat -> option nat) (sent : nat) (w : World) (input : list Z)
    : (result ServeError unit * World) * list Z by wf (length input) lt :=
serve cap wr_io sent w input with inspect (read_capped_line cap input) := {
  | exist _ (Err e) _ => (Err (ServeError_line e), w, []);
  | exist _ (Ok (n, line, rest)) H with inspect (n =? 0) := {
    | exist _ true _ => (Ok tt, w, []);
    | exist _ false Hn =>
        match encode_resp (fst (answer w (trim_end line))) with
        | None => (Err ServeError_serialize, snd (answer w (trim_end line)), [])
        | Some bytes =>
            match wr_io sent with
            | None =>
                let '(r, out) := serve cap wr_io (S sent) (snd (answer w (trim_end line))) rest in
                (r, (bytes ++ [10]) ++ out)
            | Some n =>
                (Err ServeError_write, snd (answer w (trim_end line)), take n (bytes ++ [10]))
            end
        end } }.
Proof. apply (read_capped_line_shorter _ _ _ _ _ H). by apply Z.eqb_neq. Qed.

Lemma serve_eq cap wr_io sent w input :
  serve cap wr_io sent w input =
  match read_capped_line cap input with
  | Err e => (Err (ServeError_line e), w, [])
  | Ok (n, line, rest) =>
      if n =? 0 then (Ok tt, w, [])
      else
        let '(resp, w') := answer w (trim_end line) in
        match encode_resp resp with
        | None => (Err ServeError_serialize, w', [])
        | Some bytes =>
            match wr_io sent with
            | None => let '(r, out) := serve cap wr_io (S sent) w' rest in (r, (bytes ++ [10]) ++ out)
            | Some n => (Err ServeError_write, w', take n (bytes ++ [10]))
            end
        end
  end.
Proof.
  rewrite serve_equation_1. destruct (inspect (read_capped_line cap input)) as [[[[n line] rest]|e] H];
    cbn [serve_unfold_clause_1]; [|by rewrite H].
  destruct (inspect (n =? 0)) as [[] Hn]; cbn [serve_unfold_clause_1_clause_2]; rewrite H, Hn; [done|].
  by destruct (answer w (trim_end line)).
Qed.
End Serve.

(** Every write goes through. *)
Definition writes_pass : nat -> option nat := fun _ => None.

(** ** The supervisor's socket ([ipc.rs]) *)

Definition MAX_IPC_FRAME_BYTES : Z := 1024 * 1024.
Inductive PeerAuth := PeerAuth_RequireUid (uid : Z) | PeerAuth_DevDisabled.
(** The mode [IpcServer::bind] gives the socket. *)
Definition socket_mode (auth : PeerAuth) : Z :=
  match auth with PeerAuth_DevDisabled => 438 | PeerAuth_RequireUid _ => 432 end.

Section Ipc.
Context {Req Resp World : Type} {K : Codec Req Resp}.
Context (dispatch : Req -> World -> Resp * World) (invalid unauthorized : string -> Resp).

(** The result of the write and the bytes that went out. *)
Definition write_one (wr_io : nat -> option nat) (resp : Resp) : result ServeError unit * list Z :=
  match encode_resp resp with
  | None => (Err ServeError_serialize, [])
  | Some bytes =>
      match wr_io 0%nat with
      | None => (Ok tt, bytes ++ [10])
      | Some n => (Err ServeError_write, take n (bytes ++ [10]))
      end
  end.
(** [handle_connection]; [peer] is the uid of [SO_PEERCRED]. *)
Definition ipc_handle_connection (auth : PeerAuth) (peer : Z) (wr_io : nat -> option nat) (w : World)
    (input : list Z) : (result ServeError unit * World) * list Z :=
  match auth with
  | PeerAuth_RequireUid expected =>
      if negb (peer =? expected) then
        let '(r, out) := write_one wr_io (unauthorized ("unauthorized peer uid " +:+ show_uint peer)) in
        (r, w, out)
      else serve dispatch invalid MAX_IPC_FRAME_BYTES wr_io 0 w input
  | PeerAuth_DevDisabled => serve dispatch invalid MAX_IPC_FRAME_BYTES wr_io 0 w input
  end.
End Ipc.

(** ** The clients *)

(** The failures a call itself meets; the other variants are made by its callers. *)
Inductive CallError := CallError_Io | CallError_Serde.
Inductive GuestRpcError :=
| GuestRpcError_Io
| GuestRpcError_ConnectRejected (line : string)
| GuestRpcError_Serde
| GuestRpcError_Timeout (ms : Z).

(** Whether a call finishes within its deadline; one that does not may have
    reached the peer or not. *)
Inductive Fate := Fate_in_time | Fate_expired (delivered : bool).

Section Clients.
Context {Req Resp World : Type} {K : Codec Req Resp}.
(** The other end: the bytes it writes in response to the bytes it is sent. *)
Context (peer : World -> list Z -> list Z * World).

(** [SupervisorClient::call]; the line read is not capped. *)
Definition supervisor_call (connected : bool) (req : Req) (w : World)
    : result CallError Resp * World :=
  if negb connected then (Err CallError_Io, w)
  else
    match encode_req req with
    | None => (Err CallError_Serde, w)
    | Some body =>
        let '(out, w') := peer w (body ++ [10]) in
        let '(bytes, _) := read_until_newline (blen out + 1) out in
        match from_utf8 bytes with
        | None => (Err CallError_Io, w')
        | Some line => (ok_or (decode_resp (trim_end line)) CallError_Serde, w')
        end
    end.

(** [vsock_request_response]: [handshake] is what Firecracker answers to
    [CONNECT]; [max_frame] and [ceiling] are the configured caps. *)
Definition vsock_work (max_frame : Z) (connected : bool) (handshake : list Z) (req : Req) (w : World)
    : result GuestRpcError Resp * World :=
  if negb connected then (Err GuestRpcError_Io, w)
  else
    match read_capped_line max_frame handshake with
    | Err _ => (Err GuestRpcError_Io, w)
    | Ok (_, line, _) =>
        if negb (starts_with "OK " line) then (Err (GuestRpcError_ConnectRejected (trim_end line)), w)
        else
          match encode_req req with
          | None => (Err GuestRpcError_Serde, w)
          | Some body =>
              let '(out, w') := peer w (body ++ [10]) in
              match read_capped_line max_frame out with
              | Err _ => (Err GuestRpcError_Io, w')
              | Ok (_, line, _) => (ok_or (decode_resp (trim_end line)) GuestRpcError_Serde, w')
              end
          end
    end.
Definition vsock_request_response (max_frame ceiling : Z) (fate : Fate) (connected : bool)
    (handshake : list Z) (req : Req) (timeout_ms : Z) (w : World) : result GuestRpcError Resp * World :=
  let timeout_ms := clamp_timeout_ms timeout_ms ceiling in
  match fate with
  | Fate_in_time => vsock_work max_frame connected handshake req w
  | Fate_expired delivered =>
      (Err (GuestRpcError_Timeout timeout_ms),
       if delivered then snd (vsock_work max_frame connected handshake req w) else w)
  end.
End Clients.

(** ** Lines *)

Lemma read_line_frame limit l rest :
  10 ∉ l -> blen l < limit -> read_until_newline limit (l ++ 10 :: rest) = (l ++ [10], rest).
Proof.
  revert limit. induction l as [|b l IH]; intros limit Hn Hl; cbn [app read_until_newline].
  - rewrite blen_nil in Hl. rewrite (proj2 (Z.leb_gt limit 0)) by lia. done.
  - rewrite blen_cons in Hl. pose proof (blen_nonneg l).
    rewrite (proj2 (Z.leb_gt limit 0)) by lia.
    assert (b <> 10) as Hb by (intros ->; apply Hn; left). rewrite (proj2 (Z.eqb_neq b 10)) by done.
    rewrite IH; [done| |lia]. intros Hi. apply Hn. by right.
Qed.
Lemma read_line_long limit input :
  0 <= limit <= blen input -> 10 ∉ takeZ limit input ->
  exists rest, read_until_newline limit input = (takeZ limit input, rest).
Proof.
  revert limit. induction input as [|b r IH]; intros limit Hl Hn; cbn [read_until_newline takeZ] in *; [by eexists|].
  rewrite blen_cons in Hl. destruct (Z.leb_spec limit 0); [by eexists|].
  assert (b <> 10) as Hb by (intros ->; apply Hn; left). rewrite (proj2 (Z.eqb_neq b 10)) by done.
  destruct (IH (limit - 1)) as [rest ->]; [lia| |by eexists]. intros Hi. apply Hn. by right.
Qed.
Definition capped (cap : Z) : Prop := 0 <= cap < 2 ^ 64 - 1.
Lemma capped_wrap cap : capped cap -> (cap + 1) mod 2 ^ 64 = cap + 1.
Proof. intros H. unfold capped in H. apply Z.mod_small. lia. Qed.
Lemma utf8_frame l : utf8_valid l = true -> from_utf8 (l ++ [10]) = Some (string_of (l ++ [10])).
Proof. intros H. unfold from_utf8. by rewrite utf8_valid_app_ascii by (done || lia). Qed.
Lemma read_capped_frame cap l rest :
  capped cap -> 10 ∉ l -> utf8_valid l = true -> blen l + 1 <= cap ->
  read_capped_line cap (l ++ 10 :: rest) = Ok (blen l + 1, string_of (l ++ [10]), rest).
Proof.
  intros Hc Hn Hu Hl. unfold read_capped_line. rewrite capped_wrap by done.
  rewrite read_line_frame by (done || lia). rewrite utf8_frame by done. cbn [ok_or mbind result_bind].
  rewrite blen_app, blen_cons, blen_nil. by rewrite (proj2 (Z.ltb_ge cap _)) by lia.
Qed.
Lemma read_capped_nil cap : capped cap -> read_capped_line cap [] = Ok (0, "", []).
Proof.
  intros Hc. unfold read_capped_line. cbn [read_until_newline from_utf8 utf8_valid ok_or mbind result_bind].
  unfold capped in Hc. by rewrite (proj2 (Z.ltb_ge cap (blen []))) by (rewrite blen_nil; lia).
Qed.
Lemma trim_end_json l : json_line l -> trim_end (string_of (l ++ [10])) = string_of l.
Proof.
  intros (Hb & _ & _ & Hl). unfold trim_end. rewrite bytes_of_string_of_bytes
    by (apply is_bytes_app; split; [done|]; repeat constructor; unfold is_byte; lia).
  rewrite rev_app_distr. cbn [rev app]. f_equal. apply last_Some in Hl as [l' ->].
  rewrite rev_app_distr. cbn [rev app].
  change (skip_ws_rev (10 :: 125 :: rev l')) with (skip_ws_rev (125 :: rev l')). rewrite skip_ws_rev_head by lia. change (125 :: rev l') with (rev [125] ++ rev l').
  by rewrite <- rev_app_distr, rev_involutive.
Qed.

Section ServeProofs.
Context {Req Resp World : Type} {K : Codec Req Resp} {KL : CodecLaws Req Resp K}.
Context (dispatch : Req -> World -> Resp * World) (invalid unauthorized : string -> Resp).

(** The lines of a stream of bytes, each with its newline; the last one may lack it. *)
Fixpoint lines_of (input : list Z) : list (list Z) :=
  match input with
  | [] => []
  | b :: r =>
      if b =? 10 then [b] :: lines_of r
      else match lines_of r with [] => [[b]] | l :: ls => (b :: l) :: ls end
  end.
(** A line that can be read: UTF-8 within the cap. *)
Definition legible (cap : Z) (l : list Z) : Prop := utf8_valid l = true /\ blen l <= cap.
Definition frames (ls : list (list Z)) : list Z := concat ((fun l => l ++ [10]) <$> ls).
(** The specification of a conversation: each line is answered in turn, each
    answer sees the state the previous one left. *)
Fixpoint converse (w : World) (lines : list (list Z)) : list Resp * World :=
  match lines with
  | [] => ([], w)
  | l :: r =>
      let '(resp, w') := answer dispatch invalid w (trim_end (string_of l)) in
      let '(resps, w'') := converse w' r in (resp :: resps, w'')
  end.
Definition encoded (resps : list Resp) : list (list Z) := (fun p => default [] (encode_resp p)) <$> resps.

Lemma converse_length w lines : length (fst (converse w lines)) = length lines.
Proof.
  revert w. induction lines as [|l r IH]; intros w; cbn; [done|]. destruct (answer _ _ _ _) as [resp w'].
  specialize (IH w'). destruct (converse w' r). cbn in *. by f_equal.
Qed.
Lemma lines_of_nonnil input : input <> [] -> exists l ls, lines_of input = l :: ls.
Proof.
  destruct input as [|b r]; [done|]. intros _. cbn. destruct (b =? 10); [eauto|]. destruct (lines_of r); eauto.
Qed.
(** Reading a line with a limit yields the first line, or its beginning. *)
Lemma read_line_first limit input l rest :
  input <> [] -> 0 < limit -> read_until_newline limit input = (l, rest) ->
  l <> [] /\ blen l <= limit /\ (blen l < limit -> lines_of input = l :: lines_of rest)
  /\ exists more ls, lines_of input = (l ++ more) :: ls.
Proof.
  revert limit l. induction input as [|b r IH]; intros limit l Hne Hl; [done|]. cbn [read_until_newline lines_of].
  rewrite (proj2 (Z.leb_gt limit 0)) by lia. destruct (Z.eqb_spec b 10) as [->|Hb].
  { intros [= <- <-]. change (blen [10]) with 1. split_and!; [done|lia|done|]. by exists [], (lines_of r). }
  destruct (read_until_newline (limit - 1) r) as [l' rest'] eqn:E. intros [= <- <-]. rewrite blen_cons.
  destruct r as [|c r].
  { cbn in E. injection E as <- <-. rewrite blen_nil. split_and!; [done|lia|done|]. by exists [], []. }
  destruct (decide (limit = 1)) as [->|Hl1].
  { cbn in E. injection E as <- <-. rewrite blen_nil. split_and!; [done|lia|lia|].
    destruct (lines_of_nonnil (c :: r) ltac:(done)) as (x & ls & ->). by exists x, ls. }
  destruct (IH (limit - 1) l' ltac:(done) ltac:(lia) E) as (_ & Hlen & Hfirst & more & ls & Hm).
  split_and!; [done|lia| |].
  - intros Hlt. by rewrite Hfirst by lia.
  - rewrite Hm. by exists more, ls.
Qed.
(** What a capped read makes of the first line. *)
Lemma read_capped_first cap input : capped cap -> input <> [] ->
  match read_capped_line cap input with
  | Ok (n, line, rest) => exists l, n <> 0 /\ line = string_of l /\ legible cap l
      /\ lines_of input = l :: lines_of rest /\ (length rest < length input)%nat
  | Err _ => exists l ls, lines_of input = l :: ls /\ ~ legible cap l
  end.
Proof.
  intros Hc Hne. destruct (read_capped_line cap input) as [[[n line] rest]|e] eqn:E;
    [pose proof (read_capped_line_shorter _ _ _ _ _ E) as Hs|]; revert E; unfold read_capped_line;
    rewrite capped_wrap by done; destruct (read_until_newline (cap + 1) input) as [l r] eqn:Er;
    destruct (read_line_first (cap + 1) input l r Hne ltac:(unfold capped in Hc; lia) Er) as (Hl & Hb & Hf & more & ls & Hm);
    unfold from_utf8; destruct (utf8_valid l) eqn:Hu; cbn [ok_or mbind result_bind]; try done;
    destruct (Z.ltb_spec cap (blen l)) as [Hlt|Hge]; try done.
  - intros [= <- <- <-]. assert (0 < blen l) by (destruct l; [done|rewrite blen_cons; pose proof (blen_nonneg l); lia]).
    exists l. split_and!; [lia|done|done|apply Hf; lia|apply Hs; lia].
  - intros _. exists (l ++ more), ls. split; [done|]. intros [_ Hx]. rewrite blen_app in Hx. pose proof (blen_nonneg more). lia.
  - intros _. exists (l ++ more), ls. split; [done|]. intros [_ Hx]. rewrite blen_app in Hx. pose proof (blen_nonneg more). lia.
  - intros _. exists l, (lines_of r). split; [apply Hf; lia|]. intros [Hx _]. congruence.
Qed.

(** The outcome of a connection, from the lines that were answered. *)
Definition connection_outcome (cap : Z) (wr_io : nat -> option nat) (sent : nat) (w : World)
    (lines answered : list (list Z)) (r : result ServeError unit) (w' : World) (out : list Z) : Prop :=
  Forall (legible cap) answered /\ w' = snd (converse w answered) /\
  match r with
  | Ok _ => lines = answered /\ out = frames (encoded (fst (converse w answered)))
  | Err (ServeError_line _) =>
      (exists l rest, lines = answered ++ l :: rest /\ ~ legible cap l)
      /\ out = frames (encoded (fst (converse w answered)))
  | Err ServeError_write =>
      exists before l rest n resp, answered = before ++ [l] /\ lines = answered ++ rest
        /\ wr_io (sent + length before)%nat = Some n /\ last (fst (converse w answered)) = Some resp
        /\ out = frames (encoded (fst (converse w before))) ++ take n (default [] (encode_resp resp) ++ [10])
  | Err ServeError_serialize => False
  end.
Lemma outcome_cons cap wr_io sent w l lines answered r w' out resp b w1 :
  legible cap l -> answer dispatch invalid w (trim_end (string_of l)) = (resp, w1) -> encode_resp resp = Some b ->
  connection_outcome cap wr_io (S sent) w1 lines answered r w' out ->
  connection_outcome cap wr_io sent w (l :: lines) (l :: answered) r w' ((b ++ [10]) ++ out).
Proof.
  intros Hl Ha Hb (Hf & Hw & Hr).
  assert (forall ls, converse w (l :: ls) = (resp :: fst (converse w1 ls), snd (converse w1 ls))) as Hc.
  { intros ls. cbn. rewrite Ha. by destruct (converse w1 ls). }
  assert (forall resps, frames (encoded (resp :: resps)) = (b ++ [10]) ++ frames (encoded resps)) as He.
  { intros resps. unfold frames, encoded. cbn. by rewrite Hb. }
  split; [by constructor|]. rewrite Hc. cbn [fst snd]. split; [done|]. rewrite He.
  destruct r as [[]|[e| |]]; [..|done|].
  - destruct Hr as [-> ->]. done.
  - destruct Hr as [(x & rest & -> & Hx) ->]. split; [by exists x, rest|done].
  - destruct Hr as (before & x & rest & n & resp' & -> & -> & Hn & Hlast & ->).
    exists (l :: before), x, rest, n, resp'. rewrite Hc. cbn [fst length app]. rewrite He.
    split_and!; try done; [by rewrite Nat.add_succ_r|by rewrite last_cons, Hlast|by rewrite <- !app_assoc].
Qed.
Lemma serve_outcome cap wr_io sent w input : capped cap ->
  let '(r, w', out) := serve dispatch invalid cap wr_io sent w input in
  exists answered, connection_outcome cap wr_io sent w (lines_of input) answered r w' out.
Proof.
  intros Hc. revert sent w. induction input as [input IH] using (induction_ltof1 _ length).
  intros sent w. rewrite serve_eq. destruct input as [|b0 input0].
  { rewrite read_capped_nil by done. exists []. by split_and!. }
  set (input := b0 :: input0) in *. pose proof (read_capped_first cap input Hc ltac:(done)) as Hr.
  destruct (read_capped_line cap input) as [[[n line] rest]|e].
  2: { destruct Hr as (l & ls & Hl & Hx). exists []. split_and!; try done. exists l, ls. by rewrite Hl. }
  destruct Hr as (l & Hn & -> & Hleg & Hlines & Hlt). rewrite (proj2 (Z.eqb_neq n 0)) by done.
  destruct (answer dispatch invalid w (trim_end (string_of l))) as [resp w1] eqn:Ha.
  destruct (encode_resp_total resp) as [b Hb]. rewrite Hb, Hlines. destruct (wr_io sent) as [k|] eqn:Hw.
  - exists [l]. split; [by apply Forall_singleton|]. cbn [converse]. rewrite Ha. split; [done|].
    exists [], l, (lines_of rest), k, resp. cbn. rewrite Nat.add_0_r, Hb. by split_and!.
  - specialize (IH rest Hlt (S sent) w1). destruct (serve _ _ cap wr_io (S sent) w1 rest) as [[r w'] out].
    destruct IH as [answered Ho]. exists (l :: answered). by eapply outcome_cons.
Qed.

(** C28: A connection is a conversation in lockstep. Whatever bytes arrive and whichever writes
    fail, the serving loop terminates, and the lines it has answered are a prefix of the lines that
    arrived: one response line each, in order, each computed from the state the previous one left
    (a line that does not parse as a request is answered and changes nothing). The connection goes
    on to the end of the stream unless it meets a line that is over the cap or not UTF-8, which is
    not answered and changes nothing, or a write fails, when the last response is cut short. *)
Theorem serve_is_lockstep cap wr_io sent w input : capped cap ->
  let '(r, w', out) := serve dispatch invalid cap wr_io sent w input in
  exists answered, length (fst (converse w answered)) = length answered
    /\ connection_outcome cap wr_io sent w (lines_of input) answered r w' out.
Proof.
  intros Hc. pose proof (serve_outcome cap wr_io sent w input Hc) as H.
  destruct (serve _ _ cap wr_io sent w input) as [[r w'] out]. destruct H as [answered Ho].
  exists answered. split; [apply converse_length|done].
Qed.

(** A line longer than the cap never reaches the dispatcher: the connection ends with an error,
    the state is untouched, nothing is written, and at most one byte more than the cap is read. *)
Theorem oversized_line_is_refused cap wr_io sent w input :
  capped cap -> cap + 1 <= blen input -> 10 ∉ takeZ (cap + 1) input ->
  exists e, serve dispatch invalid cap wr_io sent w input = (Err (ServeError_line e), w, []).
Proof.
  intros Hc Hl Hn. rewrite serve_eq. unfold read_capped_line. rewrite capped_wrap by done.
  destruct (read_line_long (cap + 1) input) as [rest ->]; [unfold capped in Hc; lia|done|].
  destruct (from_utf8 _) as [line|]; cbn [ok_or mbind result_bind]; [|by eexists].
  rewrite blen_takeZ by (unfold capped in Hc; lia). rewrite (proj2 (Z.ltb_lt cap _)) by lia. by eexists.
Qed.

Lemma serve_one cap sent w q b :
  capped cap -> encode_req q = Some b -> blen b + 1 <= cap ->
  exists p, encode_resp (fst (dispatch q w)) = Some p /\
  serve dispatch invalid cap writes_pass sent w (b ++ [10]) = (Ok tt, snd (dispatch q w), p ++ [10]).
Proof.
  intros Hc Hq Hb. pose proof (req_line _ _ Hq) as Hj. pose proof Hj as (Hbytes & Hu & Hn & Hlast).
  destruct (encode_resp_total (fst (dispatch q w))) as [p Hp]. exists p. split; [done|].
  pose proof (blen_nonneg b). rewrite serve_eq, read_capped_frame, (proj2 (Z.eqb_neq _ 0)) by (done || lia).
  rewrite trim_end_json by done. unfold answer. rewrite (req_decodes _ _ Hq).
  destruct (dispatch q w) as [resp w'] eqn:Hd. cbn [fst snd writes_pass] in *.
  rewrite Hp, serve_eq, read_capped_nil by done. cbn. by rewrite app_nil_r.
Qed.
Lemma peer_unchanged auth peer wr_io w input expected :
  auth = PeerAuth_RequireUid expected -> peer <> expected ->
  ipc_handle_connection dispatch invalid unauthorized auth peer wr_io w input
  = let '(r, out) := write_one wr_io (unauthorized ("unauthorized peer uid " +:+ show_uint peer)) in (r, w, out).
Proof. intros -> Hp. unfold ipc_handle_connection. by rewrite (proj2 (Z.eqb_neq peer expected)). Qed.
(** A peer whose uid is not the required one gets one refusal and nothing else: whatever it sends
    is not read, the supervisor's state does not change, and the answer does not depend on either. *)
Theorem unauthorized_peer_is_refused expected peer wr_io w input w2 input2 :
  peer <> expected ->
  let handle := ipc_handle_connection dispatch invalid unauthorized (PeerAuth_RequireUid expected) peer wr_io in
  snd (fst (handle w input)) = w /\ snd (handle w input) = snd (handle w2 input2)
  /\ (wr_io 0%nat = None -> exists p,
        encode_resp (unauthorized ("unauthorized peer uid " +:+ show_uint peer)) = Some p
        /\ snd (handle w input) = p ++ [10]).
Proof.
  intros Hp handle. unfold handle. rewrite !(peer_unchanged _ peer _ _ _ expected) by done.
  unfold write_one. destruct (encode_resp_total (unauthorized ("unauthorized peer uid " +:+ show_uint peer))) as [p Hpe].
  rewrite Hpe. destruct (wr_io 0%nat); [by split_and!|]. split; [done|]. split; [done|].
  intros _. by exists p.
Qed.
End ServeProofs.

(** ** A remote call is a local one *)
Section Rpc.
Context {Req Resp World : Type} {K : Codec Req Resp} {KL : CodecLaws Req Resp K}.
Context (dispatch : Req -> World -> Resp * World) (invalid : string -> Resp).

(** The peer that serves one connection. *)
Definition served (cap : Z) (w : World) (input : list Z) : list Z * World :=
  let '(_, w', out) := serve dispatch invalid cap writes_pass 0 w input in (out, w').
(** A request and its response fit the caps of the two ends. *)
Definition fits (server_cap client_cap : Z) (q : Req) (w : World) : Prop :=
  (forall b, encode_req q = Some b -> blen b + 1 <= server_cap)
  /\ (forall p, encode_resp (fst (dispatch q w)) = Some p -> blen p + 1 <= client_cap).

Lemma resp_line_decodes p b : encode_resp p = Some b -> decode_resp (trim_end (string_of (b ++ [10]))) = Some p.
Proof. intros H. rewrite trim_end_json by (by eapply resp_line). by apply resp_decodes. Qed.
Lemma vsock_work_dispatches server_cap client_cap handshake q w n line rest :
  capped server_cap -> capped client_cap ->
  read_capped_line client_cap handshake = Ok (n, line, rest) -> starts_with "OK " line = true ->
  fits server_cap client_cap q w ->
  vsock_work (served server_cap) client_cap true handshake q w
  = (Ok (fst (dispatch q w)), snd (dispatch q w)).
Proof.
  intros Hs Hc Hh Hok [Hq Hp]. unfold vsock_work. cbn [negb]. rewrite Hh, Hok. cbn [negb].
  destruct (encode_req_total q) as [b Hb]. rewrite Hb. unfold served.
  destruct (serve_one dispatch invalid server_cap 0 w q b Hs Hb (Hq _ Hb)) as (p & Hpe & ->).
  pose proof (resp_line _ _ Hpe) as (_ & Hu & Hn & _).
  rewrite read_capped_frame by (done || by apply Hp). by rewrite (resp_line_decodes _ _ Hpe).
Qed.

(** Remote procedure calls refine direct ones.  Over a connection whose handshake succeeded, a
    call that finishes in time, whose request and response fit the caps, returns exactly the
    response the dispatcher computes on the remote state and leaves exactly the state it leaves;
    a call that expires has either not happened or happened completely. *)
Theorem rpc_refines_dispatch server_cap client_cap ceiling fate handshake q timeout w n line rest :
  capped server_cap -> capped client_cap ->
  read_capped_line client_cap handshake = Ok (n, line, rest) -> starts_with "OK " line = true ->
  fits server_cap client_cap q w ->
  let '(r, w') := vsock_request_response (served server_cap) client_cap ceiling fate true handshake q timeout w in
  match fate with
  | Fate_in_time => r = Ok (fst (dispatch q w)) /\ w' = snd (dispatch q w)
  | Fate_expired _ =>
      r = Err (GuestRpcError_Timeout (clamp_timeout_ms timeout ceiling)) /\ (w' = w \/ w' = snd (dispatch q w))
  end.
Proof.
  intros Hs Hc Hh Hok Hf. unfold vsock_request_response.
  rewrite (vsock_work_dispatches _ _ _ _ _ _ _ _ Hs Hc Hh Hok Hf). destruct fate as [|[]]; cbn; auto.
Qed.
Lemma supervisor_call_dispatches server_cap q w :
  capped server_cap -> (forall b, encode_req q = Some b -> blen b + 1 <= server_cap) ->
  supervisor_call (served server_cap) true q w = (Ok (fst (dispatch q w)), snd (dispatch q w)).
Proof.
  intros Hs Hq. unfold supervisor_call. cbn [negb]. destruct (encode_req_total q) as [b Hb]. rewrite Hb.
  unfold served. destruct (serve_one dispatch invalid server_cap 0 w q b Hs Hb (Hq _ Hb)) as (p & Hpe & ->).
  pose proof (resp_line _ _ Hpe) as (_ & Hu & Hn & _).
  rewrite read_line_frame; [|done|blen_lia]. rewrite utf8_frame by done. by rewrite (resp_line_decodes _ _ Hpe).
Qed.

(** The frame cap accepts its largest value, and then no call ever succeeds: with the cap set to
    [u64::MAX] the limit of the reader wraps to zero, nothing is read, and every call is rejected as
    if the handshake had been empty, without reaching the guest. *)
Theorem largest_cap_rejects_every_call (peer : World -> list Z -> list Z * World) ceiling handshake (q : Req) timeout w dflt :
  vsock_request_response peer (parse_positive_or U64_MAX (Some "18446744073709551615") dflt) ceiling Fate_in_time
    true handshake q timeout w = (Err (GuestRpcError_ConnectRejected ""), w).
Proof.
  assert (parse_positive_or U64_MAX (Some "18446744073709551615") dflt = U64_MAX) as -> by (by vm_compute).
  unfold vsock_request_response, vsock_work, read_capped_line. cbn [negb].
  assert ((U64_MAX + 1) mod 2 ^ 64 = 0) as -> by done.
  assert (read_until_newline 0 handshake = ([], handshake)) as -> by (by destruct handshake). done.
Qed.
End Rpc.

Lemma is_bytes_of s : is_bytes (bytes_of s).
Proof.
  induction s as [|c s IH]; cbn; constructor; [|done]. unfold is_byte. pose proof (byte_of_range c). lia.
Qed.

(** ** A toy codec

    A value of a countable type is its code in base two and a closing brace. *)
Section ToyCodec.
Context {Req Resp : Type} `{Countable Req} `{Countable Resp}.
Definition toy_text {T} `{Countable T} (x : T) : string := bits (encode x) +:+ "}".
Definition toy_untext {T} `{Countable T} (s : string) : option T := b ← strip_suffix "}" s; decode (unbits b).
Definition toy_codec : Codec Req Resp := {|
  encode_req := fun q => Some (bytes_of (toy_text q));
  decode_req := fun s => match toy_untext s with Some q => Ok q | None => Err "malformed" end;
  encode_resp := fun p => Some (bytes_of (toy_text p));
  decode_resp := toy_untext;
|}.
Lemma toy_untext_text {T} `{Countable T} (x : T) : toy_untext (toy_text x) = Some x.
Proof.
  unfold toy_untext, toy_text. rewrite (proj2 (strip_suffix_Some _ _ _) eq_refl). cbn [mbind option_bind].
  by rewrite unbits_bits, decode_encode.
Qed.
Lemma toy_text_line {T} `{Countable T} (x : T) : json_line (bytes_of (toy_text x)).
Proof.
  unfold toy_text. destruct (bits_plain (encode x)) as [Hn Ha]. rewrite bytes_of_app. change (bytes_of "}") with [125]. unfold json_line. split_and!.
  - apply is_bytes_app. split; [apply is_bytes_of|apply (is_bytes_of "}")].
  - apply utf8_valid_app_ascii; [lia|]. by apply utf8_valid_ascii.
  - rewrite elem_of_app. intros [Hi|Hi]; [|apply list_elem_of_singleton in Hi; lia].
    revert Hn Hi. generalize (bits (encode x)). intros s. clear.
    unfold contains_char. induction s as [|c s IH]; cbn [any_char bytes_of]; [by intros _ ?%elem_of_nil|].
    intros [Hc Hs]%orb_false_iff [Hi|Hi]%elem_of_cons; [|by apply IH].
    apply Ascii.eqb_neq in Hc. apply Hc. rewrite <- (char_of_byte_of c), <- Hi. done.
  - by rewrite last_snoc.
Qed.
Lemma toy_codec_laws : CodecLaws Req Resp toy_codec.
Proof.
  constructor; [by eexists|by eexists|..].
  - intros q b [= <-]. apply toy_text_line.
  - intros p b [= <-]. apply toy_text_line.
  - intros q b [= <-]. cbn. by rewrite string_of_bytes_of, toy_untext_text.
  - intros p b [= <-]. cbn. by rewrite string_of_bytes_of, toy_untext_text.
Qed.
End ToyCodec.

Module WireDemo.
#[local] Instance codecZ : Codec Z Z := toy_codec.
#[local] Instance codecZ_laws : CodecLaws Z Z codecZ := toy_codec_laws.
(** An accumulator that answers with its previous value. *)
Definition dispatch (q w : Z) : Z * Z := (w, w + q).
Definition invalid (s : string) : Z := -1.
Definition unauthorized (s : string) : Z := -2.
Definition line (q : Z) : list Z := bytes_of (toy_text q).
(** Three lines, one of them not a request, and then a line that is not UTF-8. *)
Definition stream : list Z := frames [line 3; [33]; line 4; [255]; line 6].
Lemma serve_is_lockstep_witness :
  exists answered, connection_outcome dispatch invalid 100 writes_pass 0 5 (lines_of stream) answered
    (Err (ServeError_line LineError_utf8)) 12 (frames [line 5; line (-1); line 8]).
Proof.
  pose proof (serve_is_lockstep dispatch invalid 100 writes_pass 0 5 stream ltac:(unfold capped; lia)) as H.
  assert (serve dispatch invalid 100 writes_pass 0 5 stream
    = (Err (ServeError_line LineError_utf8), 12, frames [line 5; line (-1); line 8])) as E
    by (vm_compute; reflexivity).
  rewrite E in H. destruct H as (answered & _ & Ho). exists answered. exact Ho.
Defined.
Lemma oversized_line_is_refused_witness :
  exists e, serve dispatch invalid 3 writes_pass 0 5 [48; 48; 48; 48; 48; 10] = (Err (ServeError_line e), 5, []).
Proof.
  apply (oversized_line_is_refused dispatch invalid 3 writes_pass 0 5 [48; 48; 48; 48; 48; 10]).
  - unfold capped. lia.
  - vm_compute. discriminate.
  - apply (bool_decide_unpack _). vm_compute. exact I.
Defined.
Lemma unauthorized_peer_is_refused_witness :
  snd (fst (ipc_handle_connection dispatch invalid unauthorized (PeerAuth_RequireUid 998) 1000 writes_pass 5
    (frames [line 3]))) = 5.
Proof.
  exact (proj1 (unauthorized_peer_is_refused dispatch invalid unauthorized 998 1000 writes_pass 5
    (frames [line 3]) 0 [] ltac:(lia))).
Defined.
Lemma rpc_refines_dispatch_witness :
  vsock_request_response (served dispatch invalid 100) 100 3600000 Fate_in_time true (bytes_of "OK 7" ++ [10]) 3 0 5
  = (Ok 5, 8).
Proof.
  assert (Hf : fits dispatch 100 100 3 5).
  { split; intros b Hb; apply (inj Some) in Hb as <-; vm_compute; discriminate. }
  pose proof (rpc_refines_dispatch dispatch invalid 100 100 3600000 Fate_in_time (bytes_of "OK 7" ++ [10]) 3 0 5
    5 (string_of (bytes_of "OK 7" ++ [10])) [] ltac:(unfold capped; lia) ltac:(unfold capped; lia)
    ltac:(vm_compute; reflexivity) ltac:(vm_compute; reflexivity) Hf) as H.
  destruct (vsock_request_response _ _ _ _ _ _ _ _ _) as [r w']. destruct H as [-> ->]. reflexivity.
Defined.
End WireDemo.
