(* ===== verification/GuestAgent.v ===== *)
(** * The guest agent ([crates/ne-guest-agent/src/linux_main.rs],
    [crates/ne-guest-agent/src/identity.rs], [crates/ne-protocol/src/guest.rs],
    and the guest calls of [crates/ne-supervisor/src/firecracker.rs])

    The agent inside a microVM: the request types, the bounded capture of a
    command's output, the file operations with their deadline, the identity reset
    of a fork, the dispatcher, and the connection handler over the serving loop
    of [Wire].  What the kernel decides (a spawned process, a deadline, a failing
    device) is the record [GuestEnv]. *)

From S2P Require Import Prelude Text Crypto Bytes GuestFiles Wire.

(** ** Messages ([guest.rs]) *)

Record RunCommandRequest := { rc_command : string; rc_args : list string; rc_timeout_ms : Z }.
Record WriteFileRequest := { wf_path : string; wf_content : list Z }.
Record ReadFileRequest := { rf_path : string; rf_max_bytes : Z }.
Record ResetIdentityRequest := { ri_hostname : string; ri_machine_id : string; ri_entropy_seed : list Z }.
Inductive GuestRequest :=
| GuestRequest_Ping
| GuestRequest_RunCommand (r : RunCommandRequest)
| GuestRequest_WriteFile (r : WriteFileRequest)
| GuestRequest_ReadFile (r : ReadFileRequest)
| GuestRequest_ResetIdentity (r : ResetIdentityRequest).
Record CommandCompleted := {
  cc_stdout : string; cc_stderr : string; cc_exit_code : Z; cc_elapsed_ms : Z; cc_truncated : bool }.
Record FileWritten := { fw_bytes_written : Z; fw_absolute_path : string }.
Record FileRead := { fr_content : list Z; fr_size_bytes : Z; fr_truncated : bool }.
Inductive GuestResponse :=
| GuestResponse_Pong (agent_version : string) (uptime_ms : Z)
| GuestResponse_CommandCompleted (c : CommandCompleted)
| GuestResponse_FileWritten (w : FileWritten)
| GuestResponse_FileRead (r : FileRead)
| GuestResponse_IdentityReset (hostname machine_id : string)
| GuestResponse_Error (kind : GuestErrorKind) (message : string).

(** ** State and environment *)

(** What requests change: files, the host name, the machine id and the seeds mixed
    into the random pool. *)
Record Guest := {
  g_fs : Fs;
  g_hostname : string;
  g_machine_id : string;
  g_seeds : list (list Z);
}.
Definition set_fs (fs : Fs) (g : Guest) : Guest :=
  {| g_fs := fs; g_hostname := g_hostname g; g_machine_id := g_machine_id g; g_seeds := g_seeds g |}.

(** A read from a pipe: some bytes, or an error. *)
Abbreviation Chunks := (list (result string (list Z))).
(** What becomes of a command that was started: its two streams up to end of file,
    its exit code ([None] after a signal), and whether it finished before the
    deadline. *)
Record Process := {
  p_stdout : Chunks; p_stderr : Chunks; p_status : result string (option Z);
  p_elapsed_ms : Z; p_in_time : bool }.
Inductive Spawned := Spawned_failed (e : string) | Spawned_no_pipes | Spawned_running (p : Process).
(** A blocking task: finished in time, never run (the join error of a cancelled
    task), or still running at the deadline and finishing later. *)
Inductive TaskFate := TaskFate_done | TaskFate_join_error (e : string) | TaskFate_late.
Record GuestEnv := {
  agent_version : string;
  uptime : Z;
  (** Starting a command, and the guest it leaves behind. *)
  spawn : RunCommandRequest -> Guest -> Spawned * Guest;
  umask : Z;
  write_io : WriteIo;
  tmp_suffix : string;
  write_fate : TaskFate;
  read_fate : TaskFate;
  (** [sethostname], the machine-id write, the write to the random device; a
      failed write leaves some text in the file, or some bytes in the pool. *)
  hostname_io : result string unit;
  machine_id_io : result (string * string) unit;
  entropy_io : result (string * list (list Z)) unit;
  (** [Display] of a file error, [Debug] of a string. *)
  show_file_error : FileError -> string;
  show_debug : string -> string;
}.

(** ** Commands *)

Definition MAX_CMD_OUTPUT_BYTES : Z := 1024 * 1024.
Definition MAX_GUEST_FRAME_BYTES : Z := 32 * 1024 * 1024.
Fixpoint read_capped_loop (chunks : Chunks) (cap : Z) (buf : list Z) (truncated : bool)
    : result string (list Z * bool) :=
  match chunks with
  | [] => Ok (buf, truncated)
  | Err e :: _ => Err e
  | Ok [] :: _ => Ok (buf, truncated)
  | Ok chunk :: rest =>
      let n := blen chunk in
      if blen buf <? cap then
        let take := Z.min (cap - blen buf) n in
        read_capped_loop rest cap (buf ++ takeZ take chunk) (if take <? n then true else truncated)
      else read_capped_loop rest cap buf true
  end.
Definition read_capped (chunks : Chunks) (cap : Z) : result string (list Z * bool) :=
  read_capped_loop chunks cap [] false.
Definition from_utf8_lossy (l : list Z) : string := string_of (utf8_lossy l).

(** The response once the two streams are read and the child has exited. *)
Definition completed (p : Process) : GuestResponse :=
  match read_capped (p_stdout p) MAX_CMD_OUTPUT_BYTES,
        read_capped (p_stderr p) MAX_CMD_OUTPUT_BYTES, p_status p with
  | Ok (out, out_truncated), Ok (err, err_truncated), Ok code =>
      GuestResponse_CommandCompleted
        {| cc_stdout := from_utf8_lossy out; cc_stderr := from_utf8_lossy err;
           cc_exit_code := default (-1) code; cc_elapsed_ms := p_elapsed_ms p;
           cc_truncated := out_truncated || err_truncated |}
  | Err e, _, _ => GuestResponse_Error GuestErrorKind_CommandFailed e
  | _, Err e, _ => GuestResponse_Error GuestErrorKind_CommandFailed e
  | _, _, Err e => GuestResponse_Error GuestErrorKind_CommandFailed e
  end.
Definition run_command (env : GuestEnv) (req : RunCommandRequest) (g : Guest) : GuestResponse * Guest :=
  let '(spawned, g') := spawn env req g in
  (match spawned with
   | Spawned_failed e => GuestResponse_Error GuestErrorKind_CommandFailed e
   | Spawned_no_pipes => GuestResponse_Error GuestErrorKind_Internal "failed to capture command stdio pipes"
   | Spawned_running p =>
       if negb (rc_timeout_ms req =? 0) && negb (p_in_time p)
       then GuestResponse_Error GuestErrorKind_Timeout
              ("command exceeded timeout " +:+ show_uint (rc_timeout_ms req) +:+ "ms")
       else completed p
   end, g').

(** ** Files *)

Definition JAIL_ROOT : path := ["workspace"].
Definition FILE_OP_TIMEOUT_MS : Z := 25000.
(** [Path::display] of an absolute path. *)
Definition show_path (p : path) : string := "/" +:+ join "/" p.
Definition write_file (env : GuestEnv) (req : WriteFileRequest) (g : Guest) : GuestResponse * Guest :=
  let fs := snd (create_dir_all (masked (umask env) 511) JAIL_ROOT (g_fs g)) in
  let bytes_written := blen (wf_content req) in
  let '(r, fs') := write_file_atomic (write_io env) (umask env) (tmp_suffix env) JAIL_ROOT
                     (wf_path req) (wf_content req) fs in
  match write_fate env with
  | TaskFate_done =>
      (match r with
       | Ok absolute_path =>
           GuestResponse_FileWritten
             {| fw_bytes_written := bytes_written; fw_absolute_path := show_path absolute_path |}
       | Err e => GuestResponse_Error (FileError_kind e) (show_file_error env e)
       end, set_fs fs' g)
  | TaskFate_join_error e =>
      (GuestResponse_Error GuestErrorKind_Internal ("write_file task panicked: " +:+ e), set_fs fs g)
  | TaskFate_late =>
      (GuestResponse_Error GuestErrorKind_Timeout
         ("write_file exceeded " +:+ show_uint FILE_OP_TIMEOUT_MS +:+ "ms"), set_fs fs' g)
  end.
Definition read_file (env : GuestEnv) (req : ReadFileRequest) (g : Guest) : GuestResponse :=
  match read_fate env with
  | TaskFate_done =>
      match read_file_capped (g_fs g) JAIL_ROOT (rf_path req) (rf_max_bytes req) with
      | Ok (content, size_bytes, truncated) =>
          GuestResponse_FileRead
            {| fr_content := content; fr_size_bytes := size_bytes; fr_truncated := truncated |}
      | Err e => GuestResponse_Error (FileError_kind e) (show_file_error env e)
      end
  | TaskFate_join_error e => GuestResponse_Error GuestErrorKind_Internal ("read_file task panicked: " +:+ e)
  | TaskFate_late =>
      GuestResponse_Error GuestErrorKind_Timeout
        ("read_file exceeded " +:+ show_uint FILE_OP_TIMEOUT_MS +:+ "ms")
  end.

(** ** Identity ([identity.rs]) *)

Definition MIN_ENTROPY_SEED_LEN : Z := 32.
Definition is_ascii_hexdigit (c : ascii) : bool :=
  is_ascii_digit c || in_class 97 102 c || in_class 65 70 c.
Definition validate_machine_id (env : GuestEnv) (id : string) : result string unit :=
  if (len id =? 32) && all_chars (fun c => is_ascii_hexdigit c && negb (is_ascii_uppercase c)) id
  then Ok tt else Err ("machine_id must be 32 lowercase hex chars, got " +:+ show_debug env id).
Definition validate_guest_hostname (env : GuestEnv) (h : string) : result string unit :=
  if negb (is_empty h) && (len h <=? 64) && all_chars (fun c => is_ascii_alphanumeric c || Ascii.eqb c "-") h
  then Ok tt else Err ("hostname must be 1..=64 of [a-zA-Z0-9-], got " +:+ show_debug env h).
Definition set_hostname (h : string) (g : Guest) : Guest :=
  {| g_fs := g_fs g; g_hostname := h; g_machine_id := g_machine_id g; g_seeds := g_seeds g |}.
Definition set_machine_id (text : string) (g : Guest) : Guest :=
  {| g_fs := g_fs g; g_hostname := g_hostname g; g_machine_id := text; g_seeds := g_seeds g |}.
Definition add_seeds (l : list (list Z)) (g : Guest) : Guest :=
  {| g_fs := g_fs g; g_hostname := g_hostname g; g_machine_id := g_machine_id g; g_seeds := g_seeds g ++ l |}.
Definition apply_hostname (env : GuestEnv) (h : string) : M Guest (GuestErrorKind * string) unit :=
  match hostname_io env with
  | Ok _ => modify (set_hostname h)
  | Err e => throw (GuestErrorKind_IoError, "sethostname: " +:+ e)
  end.
(** [write_text] of the machine id. *)
Definition write_machine_id (env : GuestEnv) (text : string) : M Guest (GuestErrorKind * string) unit :=
  match machine_id_io env with
  | Ok _ => modify (set_machine_id text)
  | Err (e, partial) => modify (set_machine_id partial) ;;; throw (GuestErrorKind_IoError, "write machine-id: " +:+ e)
  end.
(** The reseed after the write is best-effort. *)
Definition mix_entropy (env : GuestEnv) (seed : list Z) : M Guest (GuestErrorKind * string) unit :=
  match entropy_io env with
  | Ok _ => modify (add_seeds [seed])
  | Err (e, part) => modify (add_seeds part) ;;; throw (GuestErrorKind_IoError, "mix entropy: " +:+ e)
  end.
Definition identity_checks (env : GuestEnv) (req : ResetIdentityRequest) : result (GuestErrorKind * string) unit :=
  _ ← map_err (pair GuestErrorKind_InvalidRequest) (validate_machine_id env (ri_machine_id req));
  _ ← map_err (pair GuestErrorKind_InvalidRequest) (validate_guest_hostname env (ri_hostname req));
  if blen (ri_entropy_seed req) <? MIN_ENTROPY_SEED_LEN
  then Err (GuestErrorKind_InvalidRequest,
            "entropy_seed must be >= 32 bytes, got " +:+ show_uint (blen (ri_entropy_seed req)))
  else Ok tt.
Definition newline_text : string := String "010" EmptyString.
Definition reset_steps (env : GuestEnv) (req : ResetIdentityRequest) : M Guest (GuestErrorKind * string) unit :=
  lift (identity_checks env req) ;;;
  apply_hostname env (ri_hostname req) ;;;
  write_machine_id env (ri_machine_id req +:+ newline_text) ;;;
  mix_entropy env (ri_entropy_seed req).
Definition reset_identity (env : GuestEnv) (req : ResetIdentityRequest) (g : Guest) : GuestResponse * Guest :=
  match reset_steps env req g with
  | (Ok _, g') => (GuestResponse_IdentityReset (ri_hostname req) (ri_machine_id req), g')
  | (Err (kind, message), g') => (GuestResponse_Error kind message, g')
  end.

(** ** Dispatch *)

Definition guest_dispatch (env : GuestEnv) (req : GuestRequest) (g : Guest) : GuestResponse * Guest :=
  match req with
  | GuestRequest_Ping => (GuestResponse_Pong (agent_version env) (uptime env), g)
  | GuestRequest_RunCommand r => run_command env r g
  | GuestRequest_WriteFile r => write_file env r g
  | GuestRequest_ReadFile r => (read_file env r g, g)
  | GuestRequest_ResetIdentity r => reset_identity env r g
  end.
Definition guest_invalid (e : string) : GuestResponse := GuestResponse_Error GuestErrorKind_InvalidRequest e.

Section Agent.
Context {K : Codec GuestRequest GuestResponse}.
(** [handle_connection]. *)
Definition guest_handle_connection (env : GuestEnv) (wr_io : nat -> option nat) (g : Guest) (input : list Z)
    : (result ServeError unit * Guest) * list Z :=
  serve (guest_dispatch env) guest_invalid MAX_GUEST_FRAME_BYTES wr_io 0 g input.

(** ** The host's calls ([firecracker.rs]) *)

(** Everything one call depends on: the caps of the host, the deadline, the
    Firecracker handshake. *)
Record Call := {
  c_max_frame : Z; c_ceiling : Z; c_fate : Fate; c_connected : bool; c_handshake : list Z }.
(** The guest at the other end of the vsock. *)
Definition guest_peer (env : GuestEnv) (g : Guest) (input : list Z) : list Z * Guest :=
  let '(_, g', out) := guest_handle_connection env writes_pass g input in (out, g').
Definition guest_rpc (env : GuestEnv) (c : Call) (req : GuestRequest) (timeout_ms : Z) (g : Guest)
    : result GuestRpcError GuestResponse * Guest :=
  vsock_request_response (guest_peer env) (c_max_frame c) (c_ceiling c) (c_fate c) (c_connected c)
    (c_handshake c) req timeout_ms g.
Definition run_command_via_vsock (env : GuestEnv) (c : Call) (command : string) (args : list string)
    (timeout_ms : Z) : Guest -> result GuestRpcError GuestResponse * Guest :=
  guest_rpc env c (GuestRequest_RunCommand
    {| rc_command := command; rc_args := args; rc_timeout_ms := timeout_ms |}) timeout_ms.
Definition write_file_via_vsock (env : GuestEnv) (c : Call) (p : string) (content : list Z) (timeout_ms : Z)
    : Guest -> result GuestRpcError GuestResponse * Guest :=
  guest_rpc env c (GuestRequest_WriteFile {| wf_path := p; wf_content := content |}) timeout_ms.
Definition read_file_via_vsock (env : GuestEnv) (c : Call) (p : string) (max_bytes timeout_ms : Z)
    : Guest -> result GuestRpcError GuestResponse * Guest :=
  guest_rpc env c (GuestRequest_ReadFile {| rf_path := p; rf_max_bytes := max_bytes |}) timeout_ms.
Definition reset_identity_via_vsock (env : GuestEnv) (c : Call) (hostname machine_id : string)
    (seed : list Z) (timeout_ms : Z) : Guest -> result GuestRpcError GuestResponse * Guest :=
  guest_rpc env c (GuestRequest_ResetIdentity
    {| ri_hostname := hostname; ri_machine_id := machine_id; ri_entropy_seed := seed |}) timeout_ms.
(** [wait_for_guest_ready]: one [Ping] per turn until a [Pong] or the deadline.
    The list says, turn by turn, how the call goes and whether the deadline has
    passed after it; a loop that outlasts the list is [None]. *)
Fixpoint wait_for_guest_ready (env : GuestEnv) (turns : list (Call * bool)) (timeout_ms : Z) (g : Guest)
    : option (result GuestRpcError unit) * Guest :=
  match turns with
  | [] => (None, g)
  | (c, expired) :: rest =>
      let '(r, g') := guest_rpc env c GuestRequest_Ping 2000 g in
      match r with
      | Ok (GuestResponse_Pong _ _) => (Some (Ok tt), g')
      | _ => if expired : bool then (Some (Err (GuestRpcError_Timeout (Z.min timeout_ms U32_MAX))), g')
             else wait_for_guest_ready env rest timeout_ms g'
      end
  end.
End Agent.

(** ** Captured output *)

Lemma takeZ_app_ge n l k : blen l <= n -> takeZ n (l ++ k) = l ++ takeZ (n - blen l) k.
Proof.
  revert n. induction l as [|a l IH]; intros n Hn; [by rewrite blen_nil, Z.sub_0_r|].
  rewrite blen_cons in *. pose proof (blen_nonneg l). cbn [app takeZ].
  rewrite (proj2 (Z.leb_gt n 0)) by lia. rewrite IH by lia. do 3 f_equal. lia.
Qed.
Lemma takeZ_app_lt n l k : n <= blen l -> takeZ n (l ++ k) = takeZ n l.
Proof.
  revert n. induction l as [|a l IH]; intros n Hn.
  - rewrite blen_nil in Hn. destruct k; cbn; [done|]. by rewrite (proj2 (Z.leb_le n 0)).
  - rewrite blen_cons in Hn. cbn [app takeZ]. destruct (n <=? 0); [done|]. by rewrite IH by lia.
Qed.
Lemma read_capped_loop_spec cs tail cap buf t :
  Forall (fun c => c <> []) cs -> blen buf <= cap ->
  read_capped_loop ((Ok <$> cs) ++ tail) cap buf t
  = read_capped_loop tail cap (takeZ cap (buf ++ concat cs)) (t || (cap <? blen (buf ++ concat cs))).
Proof.
  intros Hcs. revert buf t. induction Hcs as [|c cs Hc _ IH]; intros buf t Hb.
  { cbn [fmap list_fmap app concat]. rewrite app_nil_r. destruct (takeZ_all cap buf Hb) as [-> _].
    by rewrite (proj2 (Z.ltb_ge cap (blen buf))), orb_false_r. }
  destruct c as [|x c]; [done|]. clear Hc. cbn [fmap list_fmap app concat read_capped_loop].
  set (c' := x :: c) in *. change (x :: c ++ concat cs) with (c' ++ concat cs).
  pose proof (blen_nonneg c'). pose proof (blen_nonneg (concat cs)).
  destruct (Z.ltb_spec (blen buf) cap) as [Hlt|Hge].
  - rewrite IH.
    2: { rewrite blen_app, blen_takeZ by lia. lia. }
    destruct (Z.leb_spec (blen c') (cap - blen buf)) as [Hfit|Hcut].
    + rewrite Z.min_r by lia. destruct (takeZ_all (blen c') c') as [-> _]; [lia|].
      by rewrite Z.ltb_irrefl, <- app_assoc.
    + rewrite Z.min_l by lia. rewrite (proj2 (Z.ltb_lt _ (blen c'))) by lia.
      assert (blen (buf ++ takeZ (cap - blen buf) c') = cap) as Hl by (rewrite blen_app, blen_takeZ; lia).
      rewrite (takeZ_app cap _ _ Hl). f_equal.
      * rewrite takeZ_app_ge by lia. by rewrite takeZ_app_lt by lia.
      * rewrite (proj2 (Z.ltb_lt cap (blen (buf ++ c' ++ concat cs)))); [by rewrite orb_true_r|].
        rewrite !blen_app. lia.
  - assert (blen buf = cap) as Hl by lia. rewrite IH by lia. rewrite !(takeZ_app cap buf _ Hl). f_equal.
    cbn [orb]. symmetry. apply orb_true_iff. right. apply Z.ltb_lt. rewrite !blen_app.
    unfold c' in *. rewrite blen_cons in *. pose proof (blen_nonneg c). lia.
Qed.
Lemma read_capped_spec cs cap :
  Forall (fun c => c <> []) cs -> 0 <= cap ->
  read_capped (Ok <$> cs) cap = Ok (takeZ cap (concat cs), cap <? blen (concat cs)).
Proof.
  intros Hcs Hc. unfold read_capped. rewrite <- (app_nil_r (Ok <$> cs)).
  by rewrite read_capped_loop_spec by (done || by rewrite blen_nil).
Qed.
Lemma read_capped_error cs e rest cap :
  Forall (fun c => c <> []) cs -> 0 <= cap -> read_capped ((Ok <$> cs) ++ Err e :: rest) cap = Err e.
Proof. intros Hcs Hc. unfold read_capped. by rewrite read_capped_loop_spec by (done || by rewrite blen_nil). Qed.

(** What a finished command reports does not depend on how its output was cut into reads: each
    stream is its first mebibyte, made valid UTF-8 and left alone when it was valid already; the
    truncation flag is set exactly when one of them was longer; the exit code is the process's, or
    -1 after a signal; with a timeout of zero the deadline is ignored. *)
Theorem command_output_exact env req g g' p out err code :
  spawn env req g = (Spawned_running p, g') ->
  p_stdout p = Ok <$> out -> p_stderr p = Ok <$> err -> p_status p = Ok code ->
  Forall (fun c => c <> []) out -> Forall (fun c => c <> []) err ->
  rc_timeout_ms req = 0 \/ p_in_time p = true ->
  exists c, guest_dispatch env (GuestRequest_RunCommand req) g = (GuestResponse_CommandCompleted c, g') /\
  let kept l := takeZ MAX_CMD_OUTPUT_BYTES (concat l) in
  cc_stdout c = string_of (utf8_lossy (kept out)) /\ cc_stderr c = string_of (utf8_lossy (kept err)) /\
  (forall l, utf8_valid (utf8_lossy (kept l)) = true) /\
  (forall l, utf8_valid (kept l) = true -> utf8_lossy (kept l) = kept l) /\
  cc_truncated c = (MAX_CMD_OUTPUT_BYTES <? blen (concat out)) || (MAX_CMD_OUTPUT_BYTES <? blen (concat err)) /\
  cc_exit_code c = match code with Some n => n | None => -1 end.
Proof.
  intros Hs Ho He Hst Hno Hne Ht. cbn [guest_dispatch]. unfold run_command. rewrite Hs.
  replace (negb (rc_timeout_ms req =? 0) && negb (p_in_time p)) with false
    by (destruct Ht as [->| ->]; [done|by rewrite andb_false_r]).
  unfold completed. rewrite Ho, He, Hst, !read_capped_spec by (done || unfold MAX_CMD_OUTPUT_BYTES; lia).
  eexists. split; [done|]. cbn. split_and!; try done.
  - intros l. apply utf8_lossy_valid.
  - intros l. apply utf8_lossy_id.
Qed.

(** ** Identity *)

(** The specification of an identity that may be applied. *)
Definition is_lower_hex (c : ascii) : Prop := 48 <= byte_of c <= 57 \/ 97 <= byte_of c <= 102.
Definition identity_valid (req : ResetIdentityRequest) : Prop :=
  (len (ri_machine_id req) = 32 /\ Forall is_lower_hex (String.list_ascii_of_string (ri_machine_id req))) /\
  (0 < len (ri_hostname req) <= 64 /\
   Forall (fun c => is_ascii_alphanumeric c = true \/ c = "-"%char) (String.list_ascii_of_string (ri_hostname req))) /\
  32 <= blen (ri_entropy_seed req).
Lemma all_chars_Forall (p : ascii -> bool) (P : ascii -> Prop) s :
  (forall c, p c = true <-> P c) -> all_chars p s = true <-> Forall P (String.list_ascii_of_string s).
Proof.
  intros Hp. induction s as [|c s IH]; cbn; [by split|].
  rewrite andb_true_iff, IH, Hp, Forall_cons. done.
Qed.
Lemma lower_hex_iff c : is_ascii_hexdigit c && negb (is_ascii_uppercase c) = true <-> is_lower_hex c.
Proof.
  unfold is_ascii_hexdigit, is_ascii_uppercase, is_ascii_digit, in_class, is_lower_hex.
  rewrite andb_true_iff, negb_true_iff, andb_false_iff, !orb_true_iff, !andb_true_iff, !Z.leb_le, !Z.leb_gt. lia.
Qed.
Lemma machine_id_ok env id :
  validate_machine_id env id = Ok tt <->
  len id = 32 /\ Forall is_lower_hex (String.list_ascii_of_string id).
Proof.
  unfold validate_machine_id. rewrite <- (all_chars_Forall _ _ _ lower_hex_iff), <- Z.eqb_eq.
  rewrite <- andb_true_iff. by destruct (_ && _).
Qed.
Lemma hostname_ok env h :
  validate_guest_hostname env h = Ok tt <->
  0 < len h <= 64 /\
  Forall (fun c => is_ascii_alphanumeric c = true \/ c = "-"%char) (String.list_ascii_of_string h).
Proof.
  unfold validate_guest_hostname.
  rewrite <- (all_chars_Forall (fun c => is_ascii_alphanumeric c || Ascii.eqb c "-"))
    by (intros c; by rewrite orb_true_iff, Ascii.eqb_eq).
  assert (0 < len h <= 64 <-> negb (is_empty h) && (len h <=? 64) = true) as ->.
  { rewrite andb_true_iff, Z.leb_le. destruct h; cbn [is_empty negb]; unfold len; cbn [String.length]; lia || done. }
  rewrite <- andb_true_iff. by destruct (_ && _).
Qed.
Lemma identity_checks_ok env req : identity_checks env req = Ok tt <-> identity_valid req.
Proof.
  unfold identity_valid. rewrite <- (machine_id_ok env), <- (hostname_ok env). unfold identity_checks.
  destruct (validate_machine_id env _) as [[]|e]; cbn; [|naive_solver].
  destruct (validate_guest_hostname env _) as [[]|e]; cbn; [|naive_solver].
  unfold MIN_ENTROPY_SEED_LEN. destruct (Z.ltb_spec (blen (ri_entropy_seed req)) 32); naive_solver lia.
Qed.
Lemma identity_checks_err env req k m : identity_checks env req = Err (k, m) -> k = GuestErrorKind_InvalidRequest.
Proof.
  unfold identity_checks. destruct (validate_machine_id env _); cbn; [|congruence].
  destruct (validate_guest_hostname env _); cbn; [|congruence]. case_match; congruence.
Qed.

(** The identity of a fork is reset completely or the caller is told.  A reset is acknowledged
    exactly when the machine id is 32 lowercase hexadecimal digits, the host name a label of 1 to 64
    characters, the seed at least 32 bytes, and the three writes succeed; the guest then has the new
    host name, machine id and seed.  A request that is refused as invalid changes nothing. *)
Theorem identity_reset_is_complete env req g :
  let '(resp, g') := guest_dispatch env (GuestRequest_ResetIdentity req) g in
  ((exists h m, resp = GuestResponse_IdentityReset h m) <->
     identity_valid req /\ hostname_io env = Ok tt /\ machine_id_io env = Ok tt /\ entropy_io env = Ok tt) /\
  (forall h m, resp = GuestResponse_IdentityReset h m ->
     h = ri_hostname req /\ m = ri_machine_id req /\
     g' = {| g_fs := g_fs g; g_hostname := h; g_machine_id := m +:+ newline_text;
             g_seeds := g_seeds g ++ [ri_entropy_seed req] |}) /\
  (~ identity_valid req <-> exists m, resp = GuestResponse_Error GuestErrorKind_InvalidRequest m) /\
  (~ identity_valid req -> g' = g).
Proof.
  cbn [guest_dispatch]. unfold reset_identity, reset_steps. unfold_m.
  pose proof (identity_checks_ok env req) as Hv.
  destruct (identity_checks env req) as [[]|[k m]] eqn:Hc.
  2: { assert (~ identity_valid req) as Hn by (intros H; by apply Hv in H).
       apply identity_checks_err in Hc as ->. cbn. naive_solver. }
  apply proj1 in Hv. specialize (Hv eq_refl).
  unfold apply_hostname, write_machine_id, mix_entropy.
  destruct (hostname_io env) as [[]|e1]; cbn; [|naive_solver].
  destruct (machine_id_io env) as [[]|[e2 p2]]; cbn; [|naive_solver].
  destruct (entropy_io env) as [[]|[e3 p3]]; cbn; naive_solver.
Qed.

(** ** Calls from the host *)

Section Calls.
Context {K : Codec GuestRequest GuestResponse} {KL : CodecLaws GuestRequest GuestResponse K}.
(** A call that reaches the guest and is answered in time. *)
Definition usable (c : Call) : Prop :=
  c_fate c = Fate_in_time /\ c_connected c = true /\ capped (c_max_frame c) /\
  exists n line rest, read_capped_line (c_max_frame c) (c_handshake c) = Ok (n, line, rest) /\
  starts_with "OK " line = true.
Definition call_fits (env : GuestEnv) (c : Call) (q : GuestRequest) (g : Guest) : Prop :=
  fits (guest_dispatch env) MAX_GUEST_FRAME_BYTES (c_max_frame c) q g.
Lemma guest_rpc_dispatches env c q t g :
  usable c -> call_fits env c q g ->
  guest_rpc env c q t g = (Ok (fst (guest_dispatch env q g)), snd (guest_dispatch env q g)).
Proof.
  intros (Hf & Hc & Hm & n & line & rest & Hh & Hok) Hfit. unfold guest_rpc, vsock_request_response.
  rewrite Hf, Hc. apply (vsock_work_dispatches (guest_dispatch env) guest_invalid MAX_GUEST_FRAME_BYTES
    (c_max_frame c) (c_handshake c) q g n line rest); done.
Qed.
Lemma write_file_written env req g w g' :
  write_file env req g = (GuestResponse_FileWritten w, g') ->
  exists p, write_file_atomic (write_io env) (umask env) (tmp_suffix env) JAIL_ROOT (wf_path req)
      (wf_content req) (snd (create_dir_all (masked (umask env) 511) JAIL_ROOT (g_fs g))) = (Ok p, g_fs g') /\
    w = {| fw_bytes_written := blen (wf_content req); fw_absolute_path := show_path p |}.
Proof.
  unfold write_file. destruct (write_file_atomic _ _ _ _ _ _ _) as [[p|e] fs']; destruct (write_fate env); try done.
  intros [= <- <-]. by exists p.
Qed.
Lemma create_dir_all_no_links u p fs q a t :
  q <> [] -> snd (create_dir_all u p fs) !! q = Some (Node_symlink a t) -> fs !! q = Some (Node_symlink a t).
Proof.
  destruct (create_dir_all u p fs) as [r fs'] eqn:E. unfold create_dir_all in E. apply create_dir_all_grows in E.
  cbn [snd]. intros Hq H. destruct q as [|x q]; [done|]. specialize (E (x :: q)). unfold node in E.
  destruct (fs !! (x :: q)) as [n|]; rewrite H in E.
  - destruct E as (n' & [= <-] & Hs). destruct n; try done. cbn in Hs. congruence.
  - destruct E as [|[m ?]]; congruence.
Qed.

(** Inside the guest: an acknowledged write is what a read of the same path finds. *)
Lemma guest_write_then_read env env' relative content max_bytes g w g' :
  read_fate env' = TaskFate_done -> 0 <= max_bytes ->
  (forall rel q a l, validate_relative_path relative = Ok rel ->
     g_fs g !! q = Some (Node_symlink a l) -> last q <> last rel) ->
  write_file env {| wf_path := relative; wf_content := content |} g = (GuestResponse_FileWritten w, g') ->
  let cap := if max_bytes =? 0 then DEFAULT_MAX_BYTES else max_bytes in
  fw_bytes_written w = blen content /\
  read_file env' {| rf_path := relative; rf_max_bytes := max_bytes |} g' =
    GuestResponse_FileRead
      {| fr_content := take (Z.to_nat cap) content; fr_size_bytes := blen content; fr_truncated := cap <? blen content |}.
Proof.
  intros Hd Hmax Hlinks Ew cap. apply write_file_written in Ew as (p & Hwr & ->). split; [done|].
  unfold read_file. rewrite Hd. cbn [rf_path rf_max_bytes wf_path wf_content] in *.
  pose proof (write_outcome (write_io env) (umask env) (tmp_suffix env) JAIL_ROOT relative content
    (snd (create_dir_all (masked (umask env) 511) JAIL_ROOT (g_fs g)))) as Ho. rewrite Hwr in Ho.
  destruct Ho as (rel & _ & _ & _ & name & Hv & Hp & Hlast & _).
  rewrite (write_then_read_file _ _ _ _ _ _ _ _ _ max_bytes Hwr Hmax); [done|].
  intros q a l Hq. assert (last p = last rel) as -> by (by rewrite Hp, last_app, Hlast).
  destruct (decide (q = [])) as [->|Hne]; [by rewrite Hlast|].
  apply (Hlinks rel q a l Hv). by apply create_dir_all_no_links in Hq.
Qed.

(** What the host writes is what the host reads.  Once a write over the guest channel is
    acknowledged, a later read of the same path over the channel, answered in time, returns the
    content up to the requested cap (10 MiB when none is given), the true size and whether it was cut,
    unless a link in the guest bears the name of the file. *)
Theorem remote_write_then_read env env' c c' relative content t t' max_bytes g w g' :
  usable c -> usable c' -> read_fate env' = TaskFate_done -> 0 <= max_bytes ->
  call_fits env c (GuestRequest_WriteFile {| wf_path := relative; wf_content := content |}) g ->
  call_fits env' c' (GuestRequest_ReadFile {| rf_path := relative; rf_max_bytes := max_bytes |}) g' ->
  (forall rel q a l, validate_relative_path relative = Ok rel ->
     g_fs g !! q = Some (Node_symlink a l) -> last q <> last rel) ->
  write_file_via_vsock env c relative content t g = (Ok (GuestResponse_FileWritten w), g') ->
  let cap := if max_bytes =? 0 then DEFAULT_MAX_BYTES else max_bytes in
  fw_bytes_written w = blen content /\
  read_file_via_vsock env' c' relative max_bytes t' g' =
    (Ok (GuestResponse_FileRead
       {| fr_content := take (Z.to_nat cap) content; fr_size_bytes := blen content;
          fr_truncated := cap <? blen content |}), g').
Proof.
  intros Hc Hc' Hd Hmax Hfit Hfit' Hlinks Hw cap. unfold write_file_via_vsock in Hw.
  rewrite guest_rpc_dispatches in Hw by done. cbn [guest_dispatch] in Hw.
  destruct (write_file env _ g) as [resp g1] eqn:Ew. cbn [fst snd] in Hw. injection Hw as -> <-.
  destruct (guest_write_then_read env env' relative content max_bytes g w g1) as [Hn Hr]; [done..|]. split; [done|].
  unfold read_file_via_vsock. rewrite guest_rpc_dispatches by done. cbn [guest_dispatch fst snd]. by rewrite Hr.
Qed.

(** A guest that has become reachable is found at the first turn where it is, whatever came before,
    as long as the deadline had not passed. *)
Lemma wait_for_guest_ready_ok env turns c e rest t g :
  Forall (fun '(c, expired) => c_connected c = false /\ c_fate c = Fate_in_time /\ expired = false) turns ->
  usable c -> call_fits env c GuestRequest_Ping g ->
  wait_for_guest_ready env (turns ++ (c, e) :: rest) t g = (Some (Ok tt), g).
Proof.
  intros Ht Hc Hf. induction Ht as [|[c' e'] turns (Hn & Hi & ->) _ IH]; cbn [app wait_for_guest_ready].
  - by rewrite guest_rpc_dispatches.
  - unfold guest_rpc, vsock_request_response, vsock_work. rewrite Hn, Hi. cbn [negb]. exact IH.
Qed.
End Calls.

(** ** Witnesses *)

Module AgentDemo.
(** Messages can be enumerated, so the enumeration codec of [Wire] applies. *)
Definition retract_dec {A B} `{EqDecision B} (f : A -> B) (f' : B -> A) (H : forall x, f' (f x) = x) : EqDecision A.
Proof. intros x y. destruct (decide (f x = f y)) as [E|E]; [left|right]; [by rewrite <- (H x), E, H|by intros ->]. Defined.
Definition kind_code (k : GuestErrorKind) : nat :=
  match k with
  | GuestErrorKind_InvalidRequest => 0 | GuestErrorKind_CommandFailed => 1 | GuestErrorKind_Timeout => 2
  | GuestErrorKind_Internal => 3 | GuestErrorKind_PathRejected => 4 | GuestErrorKind_FileNotFound => 5
  | GuestErrorKind_FileTooLarge => 6 | GuestErrorKind_IoError => 7
  end%nat.
Definition kind_of (n : nat) : GuestErrorKind :=
  match n with
  | 0 => GuestErrorKind_InvalidRequest | 1 => GuestErrorKind_CommandFailed | 2 => GuestErrorKind_Timeout
  | 3 => GuestErrorKind_Internal | 4 => GuestErrorKind_PathRejected | 5 => GuestErrorKind_FileNotFound
  | 6 => GuestErrorKind_FileTooLarge | _ => GuestErrorKind_IoError
  end%nat.
Lemma kind_of_code k : kind_of (kind_code k) = k.
Proof. by destruct k. Qed.
#[local] Instance kind_dec : EqDecision GuestErrorKind := retract_dec kind_code kind_of kind_of_code.
#[local] Instance kind_countable : Countable GuestErrorKind := inj_countable' kind_code kind_of kind_of_code.
Definition req_code (q : GuestRequest) : unit + (string * list string * Z) + (string * list Z) + (string * Z)
    + (string * string * list Z) :=
  match q with
  | GuestRequest_Ping => inl (inl (inl (inl tt)))
  | GuestRequest_RunCommand r => inl (inl (inl (inr (rc_command r, rc_args r, rc_timeout_ms r))))
  | GuestRequest_WriteFile r => inl (inl (inr (wf_path r, wf_content r)))
  | GuestRequest_ReadFile r => inl (inr (rf_path r, rf_max_bytes r))
  | GuestRequest_ResetIdentity r => inr (ri_hostname r, ri_machine_id r, ri_entropy_seed r)
  end.
Definition req_of (x : unit + (string * list string * Z) + (string * list Z) + (string * Z)
    + (string * string * list Z)) : GuestRequest :=
  match x with
  | inl (inl (inl (inl _))) => GuestRequest_Ping
  | inl (inl (inl (inr (c, a, t)))) =>
      GuestRequest_RunCommand {| rc_command := c; rc_args := a; rc_timeout_ms := t |}
  | inl (inl (inr (p, c))) => GuestRequest_WriteFile {| wf_path := p; wf_content := c |}
  | inl (inr (p, m)) => GuestRequest_ReadFile {| rf_path := p; rf_max_bytes := m |}
  | inr (h, m, s) => GuestRequest_ResetIdentity {| ri_hostname := h; ri_machine_id := m; ri_entropy_seed := s |}
  end.
Lemma req_of_code q : req_of (req_code q) = q.
Proof. by destruct q as [|[]|[]|[]|[]]. Qed.
#[local] Instance req_dec : EqDecision GuestRequest := retract_dec req_code req_of req_of_code.
#[local] Instance req_countable : Countable GuestRequest := inj_countable' req_code req_of req_of_code.
Definition resp_code (p : GuestResponse) : (string * Z) + (string * string * Z * Z * bool) + (Z * string)
    + (list Z * Z * bool) + (string * string) + (GuestErrorKind * string) :=
  match p with
  | GuestResponse_Pong v u => inl (inl (inl (inl (inl (v, u)))))
  | GuestResponse_CommandCompleted c => inl (inl (inl (inl (inr
      (cc_stdout c, cc_stderr c, cc_exit_code c, cc_elapsed_ms c, cc_truncated c)))))
  | GuestResponse_FileWritten w => inl (inl (inl (inr (fw_bytes_written w, fw_absolute_path w))))
  | GuestResponse_FileRead r => inl (inl (inr (fr_content r, fr_size_bytes r, fr_truncated r)))
  | GuestResponse_IdentityReset h m => inl (inr (h, m))
  | GuestResponse_Error k m => inr (k, m)
  end.
Definition resp_of (x : (string * Z) + (string * string * Z * Z * bool) + (Z * string)
    + (list Z * Z * bool) + (string * string) + (GuestErrorKind * string)) : GuestResponse :=
  match x with
  | inl (inl (inl (inl (inl (v, u))))) => GuestResponse_Pong v u
  | inl (inl (inl (inl (inr (o, e, c, t, b))))) => GuestResponse_CommandCompleted
      {| cc_stdout := o; cc_stderr := e; cc_exit_code := c; cc_elapsed_ms := t; cc_truncated := b |}
  | inl (inl (inl (inr (n, p)))) => GuestResponse_FileWritten {| fw_bytes_written := n; fw_absolute_path := p |}
  | inl (inl (inr (c, n, b))) => GuestResponse_FileRead {| fr_content := c; fr_size_bytes := n; fr_truncated := b |}
  | inl (inr (h, m)) => GuestResponse_IdentityReset h m
  | inr (k, m) => GuestResponse_Error k m
  end.
Lemma resp_of_code p : resp_of (resp_code p) = p.
Proof. by destruct p as [|[]|[]|[]| |]. Qed.
#[local] Instance resp_dec : EqDecision GuestResponse := retract_dec resp_code resp_of resp_of_code.
#[local] Instance resp_countable : Countable GuestResponse := inj_countable' resp_code resp_of resp_of_code.
#[export] Instance codec : Codec GuestRequest GuestResponse := toy_codec.
#[export] Instance codec_laws : CodecLaws GuestRequest GuestResponse codec := toy_codec_laws.

Definition guest0 : Guest := {| g_fs := FilesDemo.fs0; g_hostname := "src"; g_machine_id := ""; g_seeds := [] |}.
Definition hello : Process := {|
  p_stdout := [Ok [104; 105]; Ok [255]]; p_stderr := []; p_status := Ok None; p_elapsed_ms := 7;
  p_in_time := false |}.
Definition env0 : GuestEnv := {|
  agent_version := "0.1.0"; uptime := 42; spawn := fun _ g => (Spawned_running hello, g);
  umask := 18; write_io := FilesDemo.io; tmp_suffix := "0badcafe";
  write_fate := TaskFate_done; read_fate := TaskFate_done;
  hostname_io := Ok tt; machine_id_io := Ok tt; entropy_io := Ok tt;
  show_file_error := fun _ => ""; show_debug := fun s => s |}.
Definition call0 : Call := {|
  c_max_frame := 100000; c_ceiling := 3600000; c_fate := Fate_in_time; c_connected := true;
  c_handshake := bytes_of "OK 1073741824" ++ [10] |}.

Lemma command_output_exact_witness :
  exists c, guest_dispatch env0 (GuestRequest_RunCommand {| rc_command := "x"; rc_args := []; rc_timeout_ms := 0 |}) guest0
    = (GuestResponse_CommandCompleted c, guest0)
  /\ cc_stdout c = string_of [104; 105; 239; 191; 189] /\ cc_exit_code c = -1 /\ cc_truncated c = false.
Proof.
  destruct (command_output_exact env0 {| rc_command := "x"; rc_args := []; rc_timeout_ms := 0 |} guest0 guest0 hello
    [[104; 105]; [255]] [] None) as (c & Hd & Hout & _ & _ & _ & Htr & Hex).
  - reflexivity.
  - reflexivity.
  - reflexivity.
  - reflexivity.
  - repeat constructor; discriminate.
  - constructor.
  - left. reflexivity.
  - exists c. split; [exact Hd|]. rewrite Hout, Htr, Hex. split; [vm_compute; reflexivity|].
    split; [reflexivity|vm_compute; reflexivity].
Defined.
Definition write_q := GuestRequest_WriteFile {| wf_path := "a.txt"; wf_content := [1; 2; 3] |}.
Definition read_q := GuestRequest_ReadFile {| rf_path := "a.txt"; rf_max_bytes := 2 |}.
Definition guest1 : Guest := snd (guest_dispatch env0 write_q guest0).
Lemma usable0 : usable call0.
Proof. repeat (split; [done|]). do 3 eexists. split; [vm_compute; reflexivity|]. vm_compute. reflexivity. Qed.
Lemma fits0 q g b p :
  encode_req q = Some b -> encode_resp (fst (guest_dispatch env0 q g)) = Some p ->
  (blen b + 1 <=? MAX_GUEST_FRAME_BYTES) && (blen p + 1 <=? c_max_frame call0) = true -> call_fits env0 call0 q g.
Proof.
  intros Hb Hp H. apply andb_true_iff in H as [H1 H2]. apply Z.leb_le in H1, H2.
  split; intros x Hx; [rewrite Hb in Hx|rewrite Hp in Hx]; apply (inj Some) in Hx; by rewrite <- Hx.
Qed.
Lemma remote_write_then_read_witness :
  read_file_via_vsock env0 call0 "a.txt" 2 1000 guest1 =
    (Ok (GuestResponse_FileRead {| fr_content := [1; 2]; fr_size_bytes := 3; fr_truncated := true |}), guest1).
Proof.
  refine (proj2 (remote_write_then_read env0 env0 call0 call0 "a.txt" [1; 2; 3] 1000 1000 2 guest0
    {| fw_bytes_written := 3; fw_absolute_path := "/workspace/a.txt" |} guest1
    usable0 usable0 eq_refl _ _ _ _ _)).
  - lia.
  - eapply fits0; [vm_compute; reflexivity|vm_compute; reflexivity|vm_compute; reflexivity].
  - eapply fits0; [vm_compute; reflexivity|vm_compute; reflexivity|vm_compute; reflexivity].
  - intros rel q a l _ H. cbn [guest0 g_fs] in H. unfold FilesDemo.fs0 in H. exfalso.
    apply lookup_insert_Some in H as [[_ H]|[_ H]]; [discriminate|].
    apply lookup_insert_Some in H as [[_ H]|[_ H]]; [discriminate|].
    by rewrite lookup_empty in H.
  - vm_compute. reflexivity.
Defined.
End AgentDemo.
