(* ===== verification/Prog.v ===== *)
(** * Tasks that interleave

    The supervisor serves requests concurrently: an operation is a sequence of
    atomic actions on shared state with awaits between them, and the actions of
    different operations interleave.  [Prog W A] is such a sequence over a shared
    state [W]; [run] executes it alone, [sched_step] lets any number of tasks
    interleave, with new tasks arriving and the environment acting at any moment.

    [wp] proves an invariant for every interleaving, one task at a time.  A task
    owns a list of resources; the invariant [J w T] relates the shared state to
    the resources of all tasks.  Each action may assume the invariant for its own
    resources and arbitrary others, and must restore it by changing its own
    resources only. *)

From S2P Require Import Prelude.

Inductive Prog (W A : Type) : Type :=
| Ret (a : A)
| Step {B : Type} (f : W -> B * W) (k : B -> Prog W A).
Arguments Ret {W A} a.
Arguments Step {W A B} f k.

Fixpoint prog_bind {W A B} (p : Prog W A) (g : A -> Prog W B) : Prog W B :=
  match p with
  | Ret a => g a
  | Step f k => Step f (fun b => prog_bind (k b) g)
  end.
#[global] Instance Prog_ret {W} : MRet (Prog W) := fun A a => Ret a.
#[global] Instance Prog_bind {W} : MBind (Prog W) := fun A B g p => prog_bind p g.

(** One atomic action, one that only reads, one that only writes. *)
Definition act {W A} (f : W -> A * W) : Prog W A := Step f Ret.
Definition reads {W A} (f : W -> A) : Prog W A := act (fun w => (f w, w)).
Definition writes {W} (f : W -> W) : Prog W unit := act (fun w => (tt, f w)).

(** A task over a part of the state. *)
Fixpoint zoom {W S A} (view : W -> S) (update : S -> W -> W) (p : Prog S A) : Prog W A :=
  match p with
  | Ret a => Ret a
  | Step f k =>
      Step (fun w => let '(b, s) := f (view w) in (b, update s w)) (fun b => zoom view update (k b))
  end.

(** Execution without interference. *)
Fixpoint run {W A} (p : Prog W A) (w : W) : A * W :=
  match p with
  | Ret a => (a, w)
  | Step f k => let '(b, w') := f w in run (k b) w'
  end.

(** The first actions of a task, and what is left of it. *)
Fixpoint run_for {W A} (n : nat) (p : Prog W A) (w : W) : Prog W A * W :=
  match n, p with
  | S n, Step f k => let '(b, w') := f w in run_for n (k b) w'
  | _, _ => (p, w)
  end.

(** Fallible tasks: the early return of [?]. *)
Definition try_bind {W E A B} (p : Prog W (result E A)) (g : A -> Prog W (result E B)) : Prog W (result E B) :=
  r ← p; match r with Ok a => g a | Err e => Ret (Err e) end.
(** A function that answers with a value of one type, errors included. *)
Definition or_return {W E A} (p : Prog W (result E A)) (g : A -> Prog W E) : Prog W E :=
  r ← p; match r with Ok a => g a | Err e => Ret e end.
Notation "'let!' x ← p ; q" := (try_bind p (fun x => q))
  (at level 20, x pattern, p at level 100, q at level 200, only parsing) : rust_scope.
Notation "'let?' x ← p ; q" := (or_return p (fun x => q))
  (at level 20, x pattern, p at level 100, q at level 200, only parsing) : rust_scope.

Lemma run_bind {W A B} (p : Prog W A) (g : A -> Prog W B) w :
  run (p ≫= g) w = let '(a, w') := run p w in run (g a) w'.
Proof.
  revert w. induction p as [a|B' f k IH]; intros w; [done|]. cbn.
  destruct (f w) as [b w']. apply IH.
Qed.
Lemma run_zoom {W S A} (view : W -> S) update (p : Prog S A) w :
  (forall s w, view (update s w) = s) -> (forall s s' w, update s' (update s w) = update s' w) ->
  (forall w, update (view w) w = w) ->
  run (zoom view update p) w = let '(a, s) := run p (view w) in (a, update s w).
Proof.
  intros H1 H2 H3. revert w. induction p as [a|B f k IH]; intros w; cbn; [by rewrite H3|].
  destruct (f (view w)) as [b s]. rewrite IH, H1. destruct (run (k b) s) as [a s']. by rewrite H2.
Qed.

(** ** Scheduling *)

Section Schedule.
Context {W R : Type}.
(** A task may arrive, possibly taken out of the state; the environment may act. *)
Context (arrives : W -> Prog W R -> W -> Prop) (env : W -> W -> Prop).

Record Sys := { world : W; threads : list (Prog W R); replies : list R }.
Inductive sched_step : Sys -> Sys -> Prop :=
| sched_run w ts ts' B (f : W -> B * W) k b w' rs :
    f w = (b, w') ->
    sched_step {| world := w; threads := ts ++ Step f k :: ts'; replies := rs |}
      {| world := w'; threads := ts ++ k b :: ts'; replies := rs |}
| sched_reply w ts ts' r rs :
    sched_step {| world := w; threads := ts ++ Ret r :: ts'; replies := rs |}
      {| world := w; threads := ts ++ ts'; replies := r :: rs |}
| sched_arrive w p w' ts rs :
    arrives w p w' ->
    sched_step {| world := w; threads := ts; replies := rs |}
      {| world := w'; threads := p :: ts; replies := rs |}
| sched_env w w' ts rs :
    env w w' ->
    sched_step {| world := w; threads := ts; replies := rs |}
      {| world := w'; threads := ts; replies := rs |}.
Definition start (w : W) : Sys := {| world := w; threads := []; replies := [] |}.
Definition reaches (w : W) (x : Sys) : Prop := rtc sched_step (start w) x.

(** A task that runs alone from the current state is one of the schedules. *)
Lemma sched_runs p : forall w ts rs,
  rtc sched_step {| world := w; threads := p :: ts; replies := rs |}
    {| world := snd (run p w); threads := ts; replies := fst (run p w) :: rs |}.
Proof.
  induction p as [r|B f k IH]; intros w ts rs; cbn.
  - apply rtc_once. apply (sched_reply w []).
  - destruct (f w) as [b w'] eqn:E. eapply rtc_l; [by apply (sched_run w [])|]. apply IH.
Qed.
(** So is a task that makes a number of steps and is then left where it is. *)
Lemma sched_runs_for n : forall p w ts rs,
  rtc sched_step {| world := w; threads := p :: ts; replies := rs |}
    {| world := snd (run_for n p w); threads := fst (run_for n p w) :: ts; replies := rs |}.
Proof.
  induction n as [|n IH]; intros [r|B f k] w ts rs; cbn; try apply rtc_refl.
  destruct (f w) as [b w'] eqn:E. eapply rtc_l; [by apply (sched_run w [])|]. apply IH.
Qed.
End Schedule.

(** ** A logic of owned resources *)

Section Logic.
Context {W Res : Type} (J : W -> list Res -> Prop).
Context (J_perm : forall w T T', T ≡ₚ T' -> J w T -> J w T').

Fixpoint wp {A} (p : Prog W A) (t : list Res) (Q : A -> list Res -> Prop) : Prop :=
  match p with
  | Ret a => Q a t
  | Step f k => forall w rest, J w (t ++ rest) ->
      let '(b, w') := f w in exists t', J w' (t' ++ rest) /\ wp (k b) t' Q
  end.

Lemma wp_mono {A} (p : Prog W A) t (Q Q' : A -> list Res -> Prop) :
  (forall a t, Q a t -> Q' a t) -> wp p t Q -> wp p t Q'.
Proof.
  intros HQ. revert t. induction p as [a|B f k IH]; intros t; cbn; [apply HQ|].
  intros H w rest HJ. specialize (H w rest HJ). destruct (f w) as [b w'].
  destruct H as (t' & HJ' & H). exists t'. eauto.
Qed.
Lemma wp_bind {A B} (p : Prog W A) (g : A -> Prog W B) t Q :
  wp p t (fun a t' => wp (g a) t' Q) -> wp (p ≫= g) t Q.
Proof.
  revert t. induction p as [a|B' f k IH]; intros t; cbn; [done|].
  intros H w rest HJ. specialize (H w rest HJ). destruct (f w) as [b w'].
  destruct H as (t' & HJ' & H). exists t'. split; [done|]. by apply IH.
Qed.
Lemma wp_bind_inv {A B} (p : Prog W A) (g : A -> Prog W B) t Q :
  wp (p ≫= g) t Q -> wp p t (fun a t' => wp (g a) t' Q).
Proof.
  revert t. induction p as [a|B' f k IH]; intros t; cbn; [done|].
  intros H w rest HJ. specialize (H w rest HJ). destruct (f w) as [b w'].
  destruct H as (t' & HJ' & H). exists t'. split; [done|]. by apply IH.
Qed.
Lemma wp_zoom_bind {S A B} view update (p : Prog S A) (g : A -> Prog S B) t Q :
  wp (zoom view update p) t (fun a t' => wp (zoom view update (g a)) t' Q)
  <-> wp (zoom view update (p ≫= g)) t Q.
Proof.
  revert t. induction p as [a|B' f k IH]; intros t; cbn; [done|].
  split; intros H w rest HJ; specialize (H w rest HJ); destruct (f (view w)) as [b s];
    destruct H as (t' & HJ' & H); exists t'; (split; [done|]); by apply IH.
Qed.
(** Resources a task does not touch. *)
Lemma wp_frame {A} (p : Prog W A) t u Q :
  wp p t Q -> wp p (t ++ u) (fun a t' => exists t0, t' = t0 ++ u /\ Q a t0).
Proof.
  revert t. induction p as [a|B f k IH]; intros t; cbn; [by exists t|].
  intros H w rest HJ. rewrite <- app_assoc in HJ. specialize (H w (u ++ rest) HJ).
  destruct (f w) as [b w']. destruct H as (t' & HJ' & H). exists (t' ++ u).
  rewrite <- app_assoc. split; [done|]. by apply IH.
Qed.
(** Resources are a multiset. *)
Lemma wp_perm {A} (p : Prog W A) t t' Q :
  (forall a u u', u ≡ₚ u' -> Q a u -> Q a u') -> t ≡ₚ t' -> wp p t Q -> wp p t' Q.
Proof.
  intros HQ Ht. destruct p as [a|B f k]; cbn; [by apply HQ|].
  intros H w rest HJ. specialize (H w rest). destruct (f w) as [b w']. apply H.
  eapply J_perm; [|exact HJ]. by rewrite Ht.
Qed.

(** Resources [t] may stand for [t']. *)
Definition shift (t t' : list Res) : Prop := forall w T, J w (t ++ T) -> J w (t' ++ T).
Lemma shift_perm t t' : t ≡ₚ t' -> shift t t'.
Proof. intros E w T. apply J_perm. by rewrite E. Qed.
Lemma shift_trans t1 t2 t3 : shift t1 t2 -> shift t2 t3 -> shift t1 t3.
Proof. intros H1 H2 w T HJ. by apply H2, H1. Qed.
Lemma shift_app t t' u : shift t t' -> shift (t ++ u) (t' ++ u).
Proof. intros Hs w T HJ. rewrite <- app_assoc in *. by apply Hs. Qed.
Lemma wp_shift {A} (p : Prog W A) t t' Q :
  (forall a u u', shift u u' -> Q a u' -> Q a u) -> shift t t' -> wp p t' Q -> wp p t Q.
Proof.
  intros HQ Ht. destruct p as [a|B f k]; cbn; [by apply HQ|].
  intros H w rest HJ. by apply H, Ht.
Qed.

(** A task that ended owes and owns nothing. *)
Definition all_of {R} (Phi : R -> Prop) (r : R) (t : list Res) : Prop := shift t [] /\ Phi r.
(** Every task owns resources with which it keeps the invariant and ends with none. *)
Definition safe {R} (Phi : R -> Prop) (x : @Sys W R) : Prop :=
  Forall Phi (replies x) /\
  exists toks, Forall2 (fun p t => wp p t (all_of Phi)) (threads x) toks /\ J (world x) (concat toks).

Theorem adequacy {R} (arrives : W -> Prog W R -> W -> Prop) env (Phi : R -> Prop) w x :
  (forall w T p w', J w T -> arrives w p w' -> exists t, J w' (t ++ T) /\ wp p t (all_of Phi)) ->
  (forall w T w', J w T -> env w w' -> J w' T) ->
  J w [] -> reaches arrives env w x -> safe Phi x.
Proof.
  intros Harr Henv H0 Hr. unfold reaches in Hr.
  assert (safe Phi (start w)) as Hs by (split; [constructor|by exists []]).
  revert Hs. clear H0. induction Hr as [|x y z Hxy _ IH]; [done|]. intros [Hrs (toks & Hw & HJ)]. apply IH. clear IH.
  destruct Hxy as [w1 ts ts' B f k b w' rs E|w1 ts ts' r rs|w1 p w' ts rs Ha|w1 w' ts rs He]; cbn in *.
  - apply Forall2_app_inv_l in Hw as (t1 & t2 & H1 & H2 & ->).
    apply Forall2_cons_inv_l in H2 as (t & t3 & Hp & H3 & ->). split; [done|].
    assert (J w1 (t ++ concat t1 ++ concat t3)) as HJ1.
    { eapply J_perm; [|exact HJ]. rewrite concat_app. cbn. by rewrite !app_assoc, (Permutation_app_comm (concat t1) t). }
    cbn in Hp. specialize (Hp w1 _ HJ1). rewrite E in Hp. destruct Hp as (t' & HJ' & Hp).
    exists (t1 ++ t' :: t3). split; [by apply Forall2_app; [|constructor]|].
    eapply J_perm; [|exact HJ']. rewrite concat_app. cbn. by rewrite !app_assoc, (Permutation_app_comm t').
  - apply Forall2_app_inv_l in Hw as (t1 & t2 & H1 & H2 & ->).
    apply Forall2_cons_inv_l in H2 as (t & t3 & [Ht Hp] & H3 & ->). split; [by constructor|].
    exists (t1 ++ t3). split; [by apply Forall2_app|]. rewrite concat_app in *. apply (Ht w1). eapply J_perm; [|exact HJ]. cbn.
    by rewrite !app_assoc, (Permutation_app_comm t).
  - destruct (Harr _ _ _ _ HJ Ha) as (t & HJ' & Hp). split; [done|]. exists (t :: toks).
    split; [by constructor|done].
  - split; [done|]. exists toks. split; [done|]. by eapply Henv.
Qed.
End Logic.

(** A fact about the shared state alone, that every action of every task keeps. *)
Definition keeps {W} (I : W -> Prop) {A} (p : Prog W A) : Prop :=
  wp (fun w (_ : list unit) => I w) p [] (fun _ t => t = []).
