(* ===== verification/Firecracker.v ===== *)
(** * The Firecracker driver ([crates/ne-supervisor/src/firecracker.rs])

    Launching, restoring, snapshotting and terminating one jailed virtual machine.
    The host is the set of workspace trees (each the file system of one jailer
    chroot) and the running processes, both keyed by path; an operation is a
    [Prog] over the host, with one action per effect, so that several launches
    interleave.  Outcomes of system calls, the bytes Firecracker answers on its
    socket and the exit checks of the child are inputs ([SpawnIo], [LaunchIo],
    [ChildIo]).  The virtual machine monitor itself is another program: the guest
    it boots, and how a guest is frozen into and thawed from a snapshot, is the
    class [Hypervisor]. *)

From S2P Require Import Prelude Text Profile Fleet Capacity Json Crypto AuditChain Snapshot Network Bytes.
From S2P Require Import GuestFiles Image Wire GuestAgent Prog.

#[local] Obligation Tactic := idtac.

(** ** The control socket *)

Fixpoint take_word (l : list Z) : list Z * list Z :=
  match l with
  | [] => ([], [])
  | a :: r =>
      if (length (skip_ws l) <? length l)%nat then ([], l)
      else let '(w, rest) := take_word r in (a :: w, rest)
  end.
(** [str::split_whitespace]; every turn consumes a byte. *)
Fixpoint words (fuel : nat) (l : list Z) : list string :=
  match fuel with
  | O => []
  | S f =>
      match skip_ws l with
      | [] => []
      | l' => let '(w, rest) := take_word l' in string_of w :: words f rest
      end
  end.
Definition split_whitespace (s : string) : list string := words (S (String.length s)) (bytes_of s).

(** [AsyncBufReadExt::read_line], without a limit. *)
Definition read_line (input : list Z) : option (string * list Z) :=
  let '(bytes, rest) := read_until_newline (blen input + 1) input in
  s ← from_utf8 bytes; Some (s, rest).
Definition crlf : string := String "013" (String "010" EmptyString).
Definition lf : string := String "010" EmptyString.
Definition header_value (line : string) : option string :=
  strip_prefix "content-length:" (to_ascii_lowercase line).
Fixpoint read_headers (fuel : nat) (content_length : Z) (input : list Z) : option (Z * list Z) :=
  match fuel with
  | O => Some (content_length, input)
  | S f =>
      '(line, rest) ← read_line input;
      if is_empty line || String.eqb line crlf || String.eqb line lf then Some (content_length, rest)
      else
        let content_length :=
          match header_value line with
          | Some value => default 0 (parse_uint USIZE_MAX (trim value))
          | None => content_length
          end in
        read_headers f content_length rest
  end.
(** [read_http_head]: status, content length and the bytes that follow.  A line
    that is not the end consumes input, so the length of the input is enough fuel. *)
Definition read_http_head (input : list Z) : result string (Z * Z * list Z) :=
  '(status_line, rest) ← ok_or (read_line input) "stream did not contain valid UTF-8";
  status ← ok_or (s ← split_whitespace status_line !! 1%nat; parse_uint U16_MAX s) "malformed HTTP status line";
  '(content_length, rest) ← ok_or (read_headers (S (length rest)) 0 rest) "stream did not contain valid UTF-8";
  Ok (status, content_length, rest).

Definition parse_api_timeout_ms (raw : option string) : Z :=
  default 30000 (v ← raw; n ← parse_uint U64_MAX v; if 0 <? n then Some n else None).
Definition PER_MIB_MS : Z := 10.
(** Milliseconds; the [u64] sum wraps in a release build. *)
Definition scaled_api_timeout (fc_api_timeout_ms mem_size_mib : Z) : Z :=
  (fc_api_timeout_ms + mem_size_mib * PER_MIB_MS) mod 2 ^ 64.

(** ** Data *)

Record NetworkAttachment := { netns_path : path; tap_name : string }.
Record LaunchConfig := {
  lc_workspace_id : string;
  lc_verified_images : VerifiedImagePair;
  lc_rootfs_read_only : bool;
  lc_vcpu_count : Z;
  lc_mem_size_mib : Z;
  lc_guest_vsock_cid : Z;
  lc_kernel_boot_args : string;
  lc_firecracker_binary : path;
  lc_jailer_binary : path;
  lc_chroot_base : path;
  lc_jailer_uid : Z;
  lc_jailer_gid : Z;
  lc_network : option NetworkAttachment;
}.
Record Instance := {
  i_workspace_id : string;
  i_boot_id : string;
  i_firecracker_pid : Z;
  i_api_socket_host : path;
  i_vsock_host_socket : path;
  i_jailer_chroot : path;
  i_jailer_uid : Z;
  i_jailer_gid : Z;
  i_lifecycle_state : WorkspaceState;
  i_network_slot : option NetworkSlot;
  i_guest_vsock_cid : Z;
  i_vcpu_count : Z;
  i_mem_size_mib : Z;
  i_kernel_boot_args : string;
  i_kernel_sha256 : string;
  i_rootfs_sha256 : string;
  i_rootfs_read_only : bool;
}.
Inductive LaunchError :=
| LaunchError_Io (e : string)
| LaunchError_Image (e : ImageError)
| LaunchError_TerminationFailed (message : string)
| LaunchError_InvalidWorkspaceId (id : string)
| LaunchError_JailerExited
| LaunchError_ApiSocketTimeout (socket : path)
| LaunchError_NetworkedRestoreUnsupported
| LaunchError_ApiRequest (endpoint : string) (status : Z) (body : string).
(** [quote] is [Debug] of a string. *)
Definition LaunchError_to_string (quote : string -> string) (e : LaunchError) : string :=
  match e with
  | LaunchError_Io e => "io: " +:+ e
  | LaunchError_Image e => ImageError_to_string quote e
  | LaunchError_TerminationFailed m => m
  | LaunchError_InvalidWorkspaceId id =>
      "workspace_id " +:+ quote id +:+ " is not a valid jailer id ([a-zA-Z0-9-]{1,64})"
  | LaunchError_JailerExited => "jailer exited before Firecracker came up"
  | LaunchError_ApiSocketTimeout p => "timed out waiting for Firecracker API socket at " +:+ show_path p
  | LaunchError_NetworkedRestoreUnsupported => "networked snapshot restore is not supported in this build"
  | LaunchError_ApiRequest p s b =>
      "Firecracker API call to " +:+ p +:+ " failed: status " +:+ show_uint s +:+ ": " +:+ b
  end.

(** The request bodies. *)
Inductive ApiBody :=
| MachineConfig (vcpu_count mem_size_mib : Z)
| BootSource (kernel_image_path boot_args : string)
| Drive (drive_id path_on_host : string) (is_root_device is_read_only : bool)
| Vsock (guest_cid : Z) (uds_path : string)
| NetworkInterface (iface_id host_dev_name : string)
| Action (action_type : string)
| VmStatePatch (state : string)
| SnapshotCreateBody (snapshot_type snapshot_path mem_file_path : string)
| SnapshotLoadBody (snapshot_path backend_type backend_path : string) (enable_diff_snapshots resume_vm : bool).
Record ApiCall := { ac_method : string; ac_path : string; ac_body : ApiBody }.

(** ** The host *)

(** The monitor: the guest it boots from a chroot and the calls it accepted, the
    memory and state files of a snapshot, and the guest they restore to. *)
Class Hypervisor := {
  boot_guest : Fs -> list ApiCall -> Guest;
  freeze : Guest -> list Z * list Z;
  thaw : list Z -> list Z -> Guest;
}.
Class HypervisorLaws (H : Hypervisor) : Prop := {
  thaw_freeze g : thaw (fst (freeze g)) (snd (freeze g)) = g;
}.

(** A jailed process: its pid, the calls it accepted (newest first), its guest once
    started, and whether it is paused. *)
Record Vm := { vm_pid : Z; vm_calls : list ApiCall; vm_guest : option Guest; vm_paused : bool }.
(** Trees are keyed by workspace root and hold the files of the chroot; processes are
    keyed by chroot; [h_snapshots] are the snapshot directories; [h_unconfirmed] are the
    chroots given up while their process could not be confirmed dead. *)
Record Host := {
  h_trees : gmap (list string) Fs; h_vms : gmap (list string) Vm;
  h_snapshots : gmap (list string) SnapshotDir; h_unconfirmed : gset (list string) }.
Definition set_trees (t : gmap (list string) Fs) (h : Host) : Host :=
  {| h_trees := t; h_vms := h_vms h; h_snapshots := h_snapshots h; h_unconfirmed := h_unconfirmed h |}.
Definition set_vms (v : gmap (list string) Vm) (h : Host) : Host :=
  {| h_trees := h_trees h; h_vms := v; h_snapshots := h_snapshots h; h_unconfirmed := h_unconfirmed h |}.
Definition set_snapshots (s : gmap (list string) SnapshotDir) (h : Host) : Host :=
  {| h_trees := h_trees h; h_vms := h_vms h; h_snapshots := s; h_unconfirmed := h_unconfirmed h |}.
Definition set_guest (g : Guest) (v : Vm) : Vm :=
  {| vm_pid := vm_pid v; vm_calls := vm_calls v; vm_guest := Some g; vm_paused := vm_paused v |}.
Definition set_paused (b : bool) (v : Vm) : Vm :=
  {| vm_pid := vm_pid v; vm_calls := vm_calls v; vm_guest := vm_guest v; vm_paused := b |}.
Definition pids (h : Host) : gset Z := list_to_set (vm_pid <$> (map_to_list (h_vms h)).*2).

Definition root_of (chroot : path) : path := parent_of chroot.
Definition chroot_tree (chroot : path) (h : Host) : Fs := default ∅ (h_trees h !! root_of chroot).
Definition set_chroot_tree (chroot : path) (fs : Fs) (h : Host) : Host :=
  set_trees (alter (fun _ => fs) (root_of chroot) (h_trees h)) h.
(** The process exited and was reaped; the process was given up. *)
Definition reap (chroot : path) (h : Host) : Host := set_vms (delete chroot (h_vms h)) h.
Definition abandon (chroot : path) (h : Host) : Host :=
  {| h_trees := h_trees h; h_vms := h_vms h; h_snapshots := h_snapshots h;
     h_unconfirmed := {[ chroot ]} ∪ h_unconfirmed h |}.
(** [remove_dir_all] of a workspace root. *)
Definition remove_tree (root : path) (h : Host) : Host := set_trees (delete root (h_trees h)) h.

(** A file of the chroot, created or overwritten. *)
Definition write_path (p : path) (content : list Z) (fs : Fs) : Fs :=
  match locate fs p with Ok (d, name) => <[d ++ [name] := Node_file 420 content]> fs | Err _ => fs end.
Definition read_path (p : path) (fs : Fs) : option (list Z) :=
  match open_nofollow fs p with Ok (Node_file _ c) => Some c | _ => None end.
(** The bytes of a file of a snapshot directory. *)
Definition disk_file (p : path) (disk : gmap (list string) SnapshotDir) : option (list Z) :=
  d ← disk !! parent_of p;
  match last p with
  | Some "mem" => mem_file d
  | Some "vmstate" => vmstate_file d
  | _ => None
  end.
Definition snapshot_file (p : path) (h : Host) : option (list Z) := disk_file p (h_snapshots h).
Definition mem_in_chroot : path := ["snapshot"; "mem"].
Definition vmstate_in_chroot : path := ["snapshot"; "vmstate"].

Section Driver.
Context {H : Hypervisor} (quote : string -> string).

(** What an accepted call does to the monitor and its chroot. *)
Definition vm_apply (call : ApiCall) (fs : Fs) (v : Vm) : Vm * Fs :=
  let v := {| vm_pid := vm_pid v; vm_calls := call :: vm_calls v; vm_guest := vm_guest v;
              vm_paused := vm_paused v |} in
  match ac_body call with
  | Action "InstanceStart" => (set_guest (boot_guest fs (vm_calls v)) v, fs)
  | VmStatePatch state => (set_paused (String.eqb state "Paused") v, fs)
  | SnapshotCreateBody _ _ _ =>
      match vm_guest v with
      | Some g => (v, write_path vmstate_in_chroot (snd (freeze g)) (write_path mem_in_chroot (fst (freeze g)) fs))
      | None => (v, fs)
      end
  | SnapshotLoadBody _ _ _ _ _ =>
      match read_path mem_in_chroot fs, read_path vmstate_in_chroot fs with
      | Some m, Some s => (set_guest (thaw m s) v, fs)
      | _, _ => (v, fs)
      end
  | _ => (v, fs)
  end.

(** One exchange on the socket: whether the connection and the writes worked, the
    bytes read back before the deadline ([None]: the deadline passed), and whether the
    monitor carried the call out. *)
Record ApiIo := { api_connected : bool; api_reply : option (list Z); api_applied : bool }.
Definition api_outcome (io : ApiIo) (socket : path) (endpoint : string) : result LaunchError unit :=
  match api_reply io with
  | None => Err (LaunchError_ApiSocketTimeout socket)
  | Some reply =>
      if negb (api_connected io) then Err (LaunchError_Io "connect")
      else
        '(status, content_length, rest) ← map_err LaunchError_Io (read_http_head reply);
        if blen rest <? content_length then Err (LaunchError_Io "early eof")
        else if (200 <=? status) && (status <? 300) then Ok tt
        else Err (LaunchError_ApiRequest endpoint status (from_utf8_lossy (takeZ content_length rest)))
  end.
Definition api_request (io : ApiIo) (method : string) (socket : path) (endpoint : string) (body : ApiBody)
    : Prog Host (result LaunchError unit) :=
  act (fun h =>
    let chroot := parent_of (parent_of socket) in
    (api_outcome io socket endpoint,
     match api_applied io && api_connected io, h_vms h !! chroot with
     | true, Some v =>
         let '(v', fs) := vm_apply {| ac_method := method; ac_path := endpoint; ac_body := body |}
                            (chroot_tree chroot h) v in
         set_chroot_tree chroot fs (set_vms (<[chroot := v']> (h_vms h)) h)
     | _, _ => h
     end)).
Definition api_put (io : ApiIo) := api_request io "PUT".
Definition api_patch (io : ApiIo) := api_request io "PATCH".

(** ** Ending a child *)

(** [try_wait], [start_kill] and [wait] of the child; [child_exited] is whether
    [try_wait] found it gone. *)
Record ChildIo := {
  try_wait_io : result string bool; kill_io : result string unit; wait_io : result string unit }.
Definition retained : string := "; owned workspace tree retained".
Definition confirm_child_exit (io : ChildIo) (chroot : path) (context : string) (primary : LaunchError)
    : Prog Host (result LaunchError unit) :=
  let failed (what e : string) :=
    writes (abandon chroot) ;;;
    Ret (Err (LaunchError_TerminationFailed
      (context +:+ " failed: " +:+ LaunchError_to_string quote primary +:+ what +:+ e +:+ retained))) in
  match try_wait_io io with
  | Err e => failed "; checking child exit before cleanup failed: " e
  | Ok true => writes (reap chroot) ;;; Ret (Ok tt)
  | Ok false =>
      match kill_io io with
      | Err e => failed "; terminating child before cleanup failed: " e
      | Ok _ =>
          match wait_io io with
          | Err e => failed "; reaping child before cleanup failed: " e
          | Ok _ => writes (reap chroot) ;;; Ret (Ok tt)
          end
      end
  end.
(** [remove_dir_all] of a workspace root, with its outcome; a partial removal leaves the
    directory itself in place. *)
Definition remove_root (outcome : result string unit) (root : path) : Prog Host (result string unit) :=
  match outcome with
  | Ok _ => writes (remove_tree root) ;;; Ret (Ok tt)
  | Err e => Ret (Err e)
  end.
Definition cleanup_failed_child (io : ChildIo) (removed : result string unit) (chroot workspace_root : path)
    (context : string) (primary : LaunchError) : Prog Host LaunchError :=
  r ← confirm_child_exit io chroot context primary;
  match r with
  | Err termination => Ret termination
  | Ok _ =>
      c ← remove_root removed workspace_root;
      Ret (match c with
           | Ok _ => primary
           | Err cleanup =>
               LaunchError_Io (context +:+ " failed: " +:+ LaunchError_to_string quote primary
                 +:+ "; removing owned workspace tree: " +:+ cleanup)
           end)
  end.

(** ** Launch *)

Definition is_valid_jailer_id (id : string) : bool :=
  negb (is_empty id) && (len id <=? 64) && all_chars (fun c => is_ascii_alphanumeric c || Ascii.eqb c "-") id.

(** The failures of claiming a tree with causes outside the model. *)
Record ClaimIo := {
  ci_shared : result string unit; ci_root : result string unit; ci_chroot : result string unit;
  ci_removed : result string unit }.
(** [WorkspaceClaim::claim] on the host: creating the root is atomic and fails when it exists. *)
Definition claim_tree (io : ClaimIo) (chroot_base : path) (workspace_id : string)
    : Prog Host (result string WorkspaceClaim) :=
  let workspace_root := path_join (path_join chroot_base "firecracker") workspace_id in
  act (fun h =>
    match ci_shared io with
    | Err e => (Err e, h)
    | Ok _ =>
        match h_trees h !! workspace_root, ci_root io with
        | Some _, _ => (Err "File exists", h)
        | None, Err e => (Err e, h)
        | None, Ok _ =>
            let h' := set_trees (<[workspace_root := ∅]> (h_trees h)) h in
            match ci_chroot io with
            | Ok _ =>
                (Ok {| workspace_root := workspace_root; jailer_chroot := path_join workspace_root "root" |}, h')
            | Err primary =>
                match ci_removed io with
                | Ok _ => (Err primary, h)
                | Err cleanup =>
                    (Err ("creating claimed workspace chroot failed: " +:+ primary +:+ "; removing owned claim: "
                          +:+ cleanup), h')
                end
            end
        end
    end).

Inductive SocketPoll := SocketPoll_exited | SocketPoll_error (e : string) | SocketPoll_present
  | SocketPoll_absent (expired : bool).
(** [wait_for_socket]: one poll per turn; a loop that outlasts the list ends at the deadline. *)
Fixpoint wait_for_socket (polls : list SocketPoll) (socket : path) : result LaunchError unit :=
  match polls with
  | [] => Err (LaunchError_ApiSocketTimeout socket)
  | SocketPoll_exited :: _ => Err LaunchError_JailerExited
  | SocketPoll_error e :: _ => Err (LaunchError_Io e)
  | SocketPoll_present :: _ => Ok tt
  | SocketPoll_absent true :: _ => Err (LaunchError_ApiSocketTimeout socket)
  | SocketPoll_absent false :: rest => wait_for_socket rest socket
  end.

Record SpawnIo := {
  sp_claim : ClaimIo;
  sp_kernel : StageIo; sp_rootfs : StageIo; sp_rollback : bool;
  sp_spawn : result string unit; sp_has_pid : bool; sp_polls : list SocketPoll;
  sp_child : ChildIo; sp_removed : result string unit }.
Record JailedFirecracker := {
  jf_pid : Z; jf_api_socket_host : path; jf_vsock_host_socket : path; jf_jailer_chroot : path;
  jf_workspace_root : path; jf_kernel_in_chroot : path; jf_rootfs_in_chroot : path }.
(** The command line of the jailer. *)
Definition jailer_args (cfg : LaunchConfig) : list string :=
  ["--id"; lc_workspace_id cfg; "--exec-file"; show_path (lc_firecracker_binary cfg);
   "--uid"; show_uint (lc_jailer_uid cfg); "--gid"; show_uint (lc_jailer_gid cfg);
   "--chroot-base-dir"; show_path (lc_chroot_base cfg)]
  ++ match lc_network cfg with Some net => ["--netns"; show_path (netns_path net)] | None => [] end
  ++ ["--"; "--api-sock"; "/run/firecracker.socket"].
Definition stage_images (io : SpawnIo) (cfg : LaunchConfig) (chroot : path) : Prog Host (result ImageError unit) :=
  act (fun h =>
    let '(r, fs) := stage_verified_pair quote (sp_kernel io) (sp_rootfs io) (sp_rollback io)
                      (lc_verified_images cfg) ["vmlinux"] ["rootfs.img"] (lc_rootfs_read_only cfg)
                      (chroot_tree chroot h) in
    (r, set_chroot_tree chroot fs h)).
(** Starting the jailer gives a process with a fresh pid. *)
Definition spawn_jailer (io : SpawnIo) (chroot : path) : Prog Host (result string Z) :=
  act (fun h =>
    match sp_spawn io with
    | Err e => (Err e, h)
    | Ok _ =>
        let pid := fresh (pids h) in
        (Ok pid, set_vms (<[chroot := {| vm_pid := pid; vm_calls := []; vm_guest := None;
                                         vm_paused := false |}]> (h_vms h)) h)
    end).
(** The block whose error decides the clean-up. *)
Definition spawn_claimed (io : SpawnIo) (cfg : LaunchConfig) (claim : WorkspaceClaim)
    : Prog Host (result LaunchError JailedFirecracker) :=
  let chroot := jailer_chroot claim in
  staged ← stage_images io cfg chroot;
  match staged with
  | Err e => Ret (Err (LaunchError_Image e))
  | Ok _ =>
      let api_socket_host := chroot ++ ["run"; "firecracker.socket"] in
      spawned ← spawn_jailer io chroot;
      match spawned with
      | Err e => Ret (Err (LaunchError_Io e))
      | Ok pid =>
          if negb (sp_has_pid io)
          then writes (reap chroot) ;;; Ret (Err (LaunchError_Io "jailer child has no pid (already exited?)"))
          else
            match wait_for_socket (sp_polls io) api_socket_host with
            | Err e =>
                let! _ ← confirm_child_exit (sp_child io) chroot "jailer startup" e;
                Ret (Err e)
            | Ok _ =>
                Ret (Ok {| jf_pid := pid; jf_api_socket_host := api_socket_host;
                           jf_vsock_host_socket := chroot ++ ["vsock.sock"]; jf_jailer_chroot := chroot;
                           jf_workspace_root := workspace_root claim;
                           jf_kernel_in_chroot := chroot ++ ["vmlinux"];
                           jf_rootfs_in_chroot := chroot ++ ["rootfs.img"] |})
            end
      end
  end.
(** The clean-up of a claimed tree after a failure. *)
Definition after_claim (io : SpawnIo) (cfg : LaunchConfig) (claim : WorkspaceClaim)
    : Prog Host (result LaunchError JailedFirecracker) :=
  outcome ← spawn_claimed io cfg claim;
  match outcome with
  | Ok jailed => Ret (Ok jailed)
  | Err (LaunchError_TerminationFailed m) => Ret (Err (LaunchError_TerminationFailed m))
  | Err (LaunchError_Image e) =>
      c ← remove_root (sp_removed io) (workspace_root claim);
      Ret (Err (LaunchError_Image
        (match c with
         | Ok _ => e
         | Err cleanup => with_cleanup_failure quote e "removing failed workspace tree" cleanup
         end)))
  | Err other =>
      c ← remove_root (sp_removed io) (workspace_root claim);
      Ret (Err (match c with
        | Ok _ => other
        | Err cleanup =>
            LaunchError_Io ("launch failed after claiming workspace: " +:+ LaunchError_to_string quote other
              +:+ "; removing owned workspace tree: " +:+ cleanup)
        end))
  end.
Definition spawn_jailed_firecracker (io : SpawnIo) (cfg : LaunchConfig)
    : Prog Host (result LaunchError JailedFirecracker) :=
  if negb (is_valid_jailer_id (lc_workspace_id cfg))
  then Ret (Err (LaunchError_InvalidWorkspaceId (lc_workspace_id cfg)))
  else
    claimed ← claim_tree (sp_claim io) (lc_chroot_base cfg) (lc_workspace_id cfg);
    match claimed with
    | Err e => Ret (Err (LaunchError_Io e))
    | Ok claim => after_claim io cfg claim
    end.

Record LaunchIo := {
  li_spawn : SpawnIo; li_api : nat -> ApiIo; li_child : ChildIo; li_removed : result string unit; li_boot_id : string }.
Definition chroot_relative (p : path) : result LaunchError string :=
  ok_or (last p) (LaunchError_Io "non-utf8 path").
(** The configuration calls, in order; the next call is made only when the last one was
    answered with success. *)
Definition configure (io : nat -> ApiIo) (cfg : LaunchConfig) (jailed : JailedFirecracker)
    : Prog Host (result LaunchError unit) :=
  let socket := jf_api_socket_host jailed in
  let! _ ← api_put (io 0%nat) socket "/machine-config" (MachineConfig (lc_vcpu_count cfg) (lc_mem_size_mib cfg));
  let! kernel ← Ret (chroot_relative (jf_kernel_in_chroot jailed));
  let! _ ← api_put (io 1%nat) socket "/boot-source" (BootSource ("/" +:+ kernel) (lc_kernel_boot_args cfg));
  let! rootfs ← Ret (chroot_relative (jf_rootfs_in_chroot jailed));
  let! _ ← api_put (io 2%nat) socket "/drives/rootfs" (Drive "rootfs" ("/" +:+ rootfs) true (lc_rootfs_read_only cfg));
  let! _ ← (if negb (lc_guest_vsock_cid cfg =? 0)
            then api_put (io 3%nat) socket "/vsock" (Vsock (lc_guest_vsock_cid cfg) "/vsock.sock")
            else Ret (Ok tt));
  let! _ ← match lc_network cfg with
           | Some net => api_put (io 4%nat) socket "/network-interfaces/eth0" (NetworkInterface "eth0" (tap_name net))
           | None => Ret (Ok tt)
           end;
  api_put (io 5%nat) socket "/actions" (Action "InstanceStart").
Definition instance_of (cfg : LaunchConfig) (jailed : JailedFirecracker) (boot_id : string) : Instance :=
  let '(kernel_sha256, rootfs_sha256) := digests (lc_verified_images cfg) in
  {| i_workspace_id := lc_workspace_id cfg; i_boot_id := boot_id; i_firecracker_pid := jf_pid jailed;
     i_api_socket_host := jf_api_socket_host jailed; i_vsock_host_socket := jf_vsock_host_socket jailed;
     i_jailer_chroot := jf_jailer_chroot jailed; i_jailer_uid := lc_jailer_uid cfg;
     i_jailer_gid := lc_jailer_gid cfg; i_lifecycle_state := WorkspaceState_Running; i_network_slot := None;
     i_guest_vsock_cid := lc_guest_vsock_cid cfg; i_vcpu_count := lc_vcpu_count cfg;
     i_mem_size_mib := lc_mem_size_mib cfg; i_kernel_boot_args := lc_kernel_boot_args cfg;
     i_kernel_sha256 := kernel_sha256; i_rootfs_sha256 := rootfs_sha256;
     i_rootfs_read_only := lc_rootfs_read_only cfg |}.
Definition configure_or_cleanup (io : LaunchIo) (cfg : LaunchConfig) (jailed : JailedFirecracker)
    : Prog Host (result LaunchError Instance) :=
  configured ← configure (li_api io) cfg jailed;
  match configured with
  | Err primary =>
      e ← cleanup_failed_child (li_child io) (li_removed io) (jf_jailer_chroot jailed)
            (jf_workspace_root jailed) "Firecracker configuration" primary;
      Ret (Err e)
  | Ok _ => Ret (Ok (instance_of cfg jailed (li_boot_id io)))
  end.
Definition launch (io : LaunchIo) (cfg : LaunchConfig) : Prog Host (result LaunchError Instance) :=
  if negb (is_valid_jailer_id (lc_workspace_id cfg))
  then Ret (Err (LaunchError_InvalidWorkspaceId (lc_workspace_id cfg)))
  else
    let! jailed ← spawn_jailed_firecracker (li_spawn io) cfg;
    configure_or_cleanup io cfg jailed.

(** ** Restore *)

Record RestoreLaunchConfig := { rl_launch : LaunchConfig; rl_mem_source : path; rl_vmstate_source : path }.
Record RestoreIo := {
  ri_spawn : SpawnIo; ri_mkdir : result string unit; ri_copy_mem : result string unit;
  ri_copy_vmstate : result string unit; ri_chown : result string unit; ri_load : ApiIo;
  ri_child : ChildIo; ri_removed : result string unit; ri_boot_id : string }.
(** [create_dir_all] of the snapshot directory in a chroot: missing parents are created,
    the workspace tree included. *)
Definition make_snapshot_dir (io : result string unit) (chroot : path) : Prog Host (result LaunchError unit) :=
  act (fun h =>
    match io with
    | Err e => (Err (LaunchError_Io e), h)
    | Ok _ =>
        match create_dir_all 493 ["snapshot"] (chroot_tree chroot h) with
        | (Ok _, fs) => (Ok tt, set_trees (<[root_of chroot := fs]> (h_trees h)) h)
        | (Err e, fs) => (Err (LaunchError_Io (io_text e)), set_trees (<[root_of chroot := fs]> (h_trees h)) h)
        end
    end).
(** [tokio::fs::copy] of a snapshot file into a chroot. *)
Definition copy_in (io : result string unit) (source : path) (chroot destination : path)
    : Prog Host (result LaunchError unit) :=
  act (fun h =>
    match io, snapshot_file source h with
    | Err e, _ => (Err (LaunchError_Io e), h)
    | Ok _, None => (Err (LaunchError_Io "not found"), h)
    | Ok _, Some content =>
        (Ok tt, set_chroot_tree chroot (write_path destination content (chroot_tree chroot h)) h)
    end).
Definition stage_and_load (io : RestoreIo) (cfg : RestoreLaunchConfig) (jailed : JailedFirecracker)
    : Prog Host (result LaunchError unit) :=
  let chroot := jf_jailer_chroot jailed in
  let! _ ← make_snapshot_dir (ri_mkdir io) chroot;
  let! _ ← copy_in (ri_copy_mem io) (rl_mem_source cfg) chroot mem_in_chroot;
  let! _ ← copy_in (ri_copy_vmstate io) (rl_vmstate_source cfg) chroot vmstate_in_chroot;
  let! _ ← Ret (map_err LaunchError_Io (ri_chown io));
  api_put (ri_load io) (jf_api_socket_host jailed) "/snapshot/load"
    (SnapshotLoadBody "/snapshot/vmstate" "File" "/snapshot/mem" false true).
Definition load_or_cleanup (io : RestoreIo) (cfg : RestoreLaunchConfig) (jailed : JailedFirecracker)
    : Prog Host (result LaunchError Instance) :=
  staged ← stage_and_load io cfg jailed;
  match staged with
  | Ok _ => Ret (Ok (instance_of (rl_launch cfg) jailed (ri_boot_id io)))
  | Err e =>
      e' ← cleanup_failed_child (ri_child io) (ri_removed io) (jf_jailer_chroot jailed)
             (jf_workspace_root jailed) "snapshot restore" e;
      Ret (Err e')
  end.
Definition restore (io : RestoreIo) (cfg : RestoreLaunchConfig) : Prog Host (result LaunchError Instance) :=
  match lc_network (rl_launch cfg) with
  | Some _ => Ret (Err LaunchError_NetworkedRestoreUnsupported)
  | None =>
      let! jailed ← spawn_jailed_firecracker (ri_spawn io) (rl_launch cfg);
      load_or_cleanup io cfg jailed
  end.

(** ** Terminate *)

Record TerminateError := { te_instance : Instance; te_cause : string }.
Definition TerminateError_to_string (e : TerminateError) : string :=
  "termination not confirmed: " +:+ te_cause e.
Inductive TermPoll := TermPoll_exited | TermPoll_error (e : string) | TermPoll_running (expired : bool).
Record TerminateIo := { ti_polls : list TermPoll; ti_child : ChildIo; ti_removed : result string unit }.
(** The loop after [SIGTERM]: [Ok true] when the child was seen to exit, [Ok false] when
    the grace period ended; a loop that outlasts the list ends with the grace period. *)
Fixpoint await_exit (polls : list TermPoll) : result string bool :=
  match polls with
  | [] => Ok false
  | TermPoll_exited :: _ => Ok true
  | TermPoll_error e :: _ => Err e
  | TermPoll_running true :: _ => Ok false
  | TermPoll_running false :: rest => await_exit rest
  end.
Definition terminate (io : TerminateIo) (inst : Instance) : Prog Host (result TerminateError unit) :=
  let chroot := i_jailer_chroot inst in
  exited ← match await_exit (ti_polls io) with
           | Err e => writes (abandon chroot) ;;; Ret (Err e)
           | Ok true => writes (reap chroot) ;;; Ret (Ok tt)
           | Ok false =>
               r ← confirm_child_exit (ti_child io) chroot "workspace termination"
                     (LaunchError_Io "graceful termination timed out");
               Ret (map_err (LaunchError_to_string quote) r)
           end;
  match exited with
  | Err cause => Ret (Err {| te_instance := inst; te_cause := cause |})
  | Ok _ =>
      _ ← remove_root (ti_removed io) (root_of chroot);
      Ret (Ok tt)
  end.

(** ** Pause, resume and snapshot of a running machine *)

Definition pause_at (io : ApiIo) (api_socket : path) := api_patch io api_socket "/vm" (VmStatePatch "Paused").
Definition resume_at (io : ApiIo) (api_socket : path) := api_patch io api_socket "/vm" (VmStatePatch "Resumed").
Record SnapshotIo := { si_mkdir : result string unit; si_chown : result string unit; si_create : ApiIo }.
(** The paths of the memory and state files. *)
Definition snapshot_create_at (io : SnapshotIo) (api_socket chroot : path) : Prog Host (result LaunchError (path * path)) :=
  let! _ ← make_snapshot_dir (si_mkdir io) chroot;
  let! _ ← Ret (map_err LaunchError_Io (si_chown io));
  let! _ ← api_put (si_create io) api_socket "/snapshot/create"
             (SnapshotCreateBody "Full" "/snapshot/vmstate" "/snapshot/mem");
  Ret (Ok (chroot ++ mem_in_chroot, chroot ++ vmstate_in_chroot)).
(** [--version]: the exit status and the output, or a failure to run. *)
Definition firecracker_version (output : option (bool * list Z)) : string :=
  match output with
  | Some (true, stdout) =>
      match from_utf8_lossy stdout with
      | EmptyString => "unknown"
      | text => trim (default "" (head (split_on "010" text)))
      end
  | _ => "unknown"
  end.
End Driver.

(** ** One jail at a time

    What an operation may touch is one jail: its tree, its process and whether it
    was given up; the snapshot directories it only reads.  [jail_wp c p v Q] says that the actions of [p] leave everything
    outside jail [c] alone and lead from contents [v] to a result and contents that
    satisfy [Q], however the rest of the host changes between the actions, and that it acts
    only while the jail can have a tree. *)

Record Jail := {
  j_tree : option Fs; j_vm : option Vm; j_lost : bool; j_disk : gmap (list string) SnapshotDir }.
Definition jail_at (c : path) (h : Host) : Jail :=
  {| j_tree := h_trees h !! root_of c; j_vm := h_vms h !! c; j_lost := bool_decide (c ∈ h_unconfirmed h);
     j_disk := h_snapshots h |}.
Record agree_off (c : path) (h h' : Host) : Prop := {
  off_trees r : r <> root_of c -> h_trees h' !! r = h_trees h !! r;
  off_vms c' : c' <> c -> h_vms h' !! c' = h_vms h !! c';
  off_snapshots : h_snapshots h' = h_snapshots h;
  off_unconfirmed c' : c' <> c -> c' ∈ h_unconfirmed h' <-> c' ∈ h_unconfirmed h;
}.
#[global] Instance agree_off_preorder c : PreOrder (agree_off c).
Proof.
  split; [by split|]. intros x y z [A1 A2 A3 A4] [B1 B2 B3 B4]. split.
  - intros r Hr. by rewrite B1, A1.
  - intros c' Hc. by rewrite B2, A2.
  - congruence.
  - intros c' Hc. by rewrite B4, A4.
Qed.
Lemma agree_off_eq c h h' : agree_off c h h' -> jail_at c h = jail_at c h' -> h = h'.
Proof.
  intros [A1 A2 A3 A4] Hj. injection Hj as Ht Hv Hu Hd. destruct h as [t v s u], h' as [t' v' s' u']; cbn in *.
  f_equal.
  - apply map_eq. intros r. destruct (decide (r = root_of c)) as [->|Hne]; [done|by rewrite A1].
  - apply map_eq. intros r. destruct (decide (r = c)) as [->|Hne]; [done|by rewrite A2].
  - done.
  - apply set_eq. intros x. destruct (decide (x = c)) as [->|Hne]; [|by rewrite A4].
    by rewrite <- (bool_decide_eq_true (c ∈ u)), Hu, bool_decide_eq_true.
Qed.

(** [compat v x]: what [x] says about the contents of the jail is true of [v]. *)
Section JailLogic.
Context {X : Type} (compat : Jail -> X -> Prop) (c : path).
Fixpoint jail_wp {A} (p : Prog Host A) (x : X) (Q : A -> X -> Prop) : Prop :=
  match p with
  | Ret a => Q a x
  | Step f k => (exists v, compat v x /\ is_Some (j_tree v)) /\ forall h, compat (jail_at c h) x ->
      let '(b, h') := f h in
      agree_off c h h' /\ exists x', compat (jail_at c h') x' /\ jail_wp (k b) x' Q
  end.
Lemma jail_wp_mono {A} (p : Prog Host A) x (Q Q' : A -> X -> Prop) :
  (forall a x, Q a x -> Q' a x) -> jail_wp p x Q -> jail_wp p x Q'.
Proof.
  intros HQ. revert x. induction p as [a|B f k IH]; intros x; cbn; [apply HQ|].
  intros [Hs Hp]. split; [done|]. intros h Hh. specialize (Hp h Hh). destruct (f h). destruct Hp as (Ho & x' & Hx & Hp). eauto.
Qed.
Lemma jail_wp_bind {A B} (p : Prog Host A) (g : A -> Prog Host B) x Q :
  jail_wp p x (fun a x' => jail_wp (g a) x' Q) -> jail_wp (p ≫= g) x Q.
Proof.
  revert x. induction p as [a|B' f k IH]; intros x; cbn; [done|].
  intros [Hs Hp]. split; [done|]. intros h Hh. specialize (Hp h Hh). destruct (f h). destruct Hp as (Ho & x' & Hx & Hp). eauto.
Qed.
Lemma jail_wp_try {E A B} (p : Prog Host (result E A)) (g : A -> Prog Host (result E B)) x Q :
  jail_wp p x (fun r x' => match r with Ok a => jail_wp (g a) x' Q | Err e => Q (Err e) x' end) ->
  jail_wp (try_bind p g) x Q.
Proof. intros Hp. apply jail_wp_bind. eapply jail_wp_mono; [|exact Hp]. by intros [] x'. Qed.
Lemma jail_wp_run {A} (p : Prog Host A) x Q h :
  jail_wp p x Q -> compat (jail_at c h) x ->
  agree_off c h (run p h).2 /\ exists x', compat (jail_at c (run p h).2) x' /\ Q (run p h).1 x'.
Proof.
  revert x h. induction p as [a|B f k IH]; intros x h; cbn.
  - intros HQ Hx. split; [done|]. by exists x.
  - intros [_ Hp] Hh. specialize (Hp h Hh). destruct (f h) as [b h']. destruct Hp as (Ho & x' & Hx & Hp).
    destruct (IH b _ h' Hp Hx) as [Ho' HQ]. split; [by etrans|done].
Qed.
(** An action that turns contents [v] into [g v]. *)
Lemma jail_act {A} (f : Host -> A * Host) x (Q : A -> X -> Prop) :
  (exists v, compat v x /\ is_Some (j_tree v)) ->
  (forall h, compat (jail_at c h) x -> agree_off c h (f h).2 /\
     exists x', compat (jail_at c (f h).2) x' /\ Q (f h).1 x') ->
  jail_wp (act f) x Q.
Proof. intros Hs Hf. split; [done|]. intros h Hh. specialize (Hf h Hh). by destruct (f h). Qed.
End JailLogic.
Arguments jail_wp {X} compat c {A} p x Q.
(** Exact knowledge of the contents, and the little that other tasks and the guest cannot
    change: the phases of a jail's life. *)
Definition exactly (v x : Jail) : Prop := v = x.
Inductive Phase := Phase_claimed | Phase_running | Phase_gone | Phase_lost.
Definition in_phase (v : Jail) (x : Phase) : Prop :=
  match x with
  | Phase_claimed => is_Some (j_tree v) /\ j_vm v = None /\ j_lost v = false
  | Phase_running => is_Some (j_tree v) /\ j_lost v = false
  | Phase_gone => j_tree v = None /\ j_vm v = None /\ j_lost v = false
  | Phase_lost => is_Some (j_tree v) /\ j_lost v = true
  end.

(** The elementary actions. *)
Definition with_vm (o : option Vm) (v : Jail) : Jail := {| j_tree := j_tree v; j_vm := o; j_lost := j_lost v; j_disk := j_disk v |}.
Definition with_tree (o : option Fs) (v : Jail) : Jail := {| j_tree := o; j_vm := j_vm v; j_lost := j_lost v; j_disk := j_disk v |}.
Definition lost (v : Jail) : Jail := {| j_tree := j_tree v; j_vm := j_vm v; j_lost := true; j_disk := j_disk v |}.
Lemma off_set_vms c h m : (forall c', c' <> c -> m !! c' = h_vms h !! c') -> agree_off c h (set_vms m h).
Proof. intros Hm. by split. Qed.
Lemma off_set_trees c h m : (forall r, r <> root_of c -> m !! r = h_trees h !! r) -> agree_off c h (set_trees m h).
Proof. intros Hm. by split. Qed.
Lemma off_reap c h : agree_off c h (reap c h) /\ jail_at c (reap c h) = with_vm None (jail_at c h).
Proof.
  split.
  - apply off_set_vms. intros c' Hc. by apply lookup_delete_ne.
  - unfold jail_at, reap, with_vm. cbn. by rewrite lookup_delete_eq.
Qed.
Lemma off_abandon c h : agree_off c h (abandon c h) /\ jail_at c (abandon c h) = lost (jail_at c h).
Proof.
  split; [split; try done; intros c' Hc; cbn; set_solver|].
  unfold jail_at, abandon, lost. cbn. f_equal. apply bool_decide_eq_true. set_solver.
Qed.
Lemma off_remove_tree c h : agree_off c h (remove_tree (root_of c) h)
  /\ jail_at c (remove_tree (root_of c) h) = with_tree None (jail_at c h).
Proof.
  split.
  - apply off_set_trees. intros r Hr. by apply lookup_delete_ne.
  - unfold jail_at, remove_tree, with_tree. cbn. by rewrite lookup_delete_eq.
Qed.
Lemma off_set_chroot_tree c h fs : agree_off c h (set_chroot_tree c fs h)
  /\ jail_at c (set_chroot_tree c fs h) = with_tree ((fun _ => fs) <$> j_tree (jail_at c h)) (jail_at c h).
Proof.
  split.
  - apply off_set_trees. intros r Hr. by apply lookup_alter_ne.
  - unfold jail_at, set_chroot_tree, with_tree. cbn. by rewrite lookup_alter_eq.
Qed.
Lemma off_insert_vm c h v : agree_off c h (set_vms (<[c := v]> (h_vms h)) h)
  /\ jail_at c (set_vms (<[c := v]> (h_vms h)) h) = with_vm (Some v) (jail_at c h).
Proof.
  split.
  - apply off_set_vms. intros c' Hc. by apply lookup_insert_ne.
  - unfold jail_at, with_vm. cbn. by rewrite lookup_insert_eq.
Qed.
Lemma off_put_tree c h fs : is_Some (h_trees h !! root_of c) ->
  set_trees (<[root_of c := fs]> (h_trees h)) h = set_chroot_tree c fs h.
Proof. intros [fs0 H0]. unfold set_chroot_tree, set_trees. f_equal.
  apply map_eq. intros r. destruct (decide (r = root_of c)) as [->|Hne].
  - by rewrite lookup_insert_eq, lookup_alter_eq, H0.
  - by rewrite lookup_insert_ne, lookup_alter_ne by done.
Qed.

Section DriverSpecs.
Context {H : Hypervisor} (quote : string -> string).

Definition api_socket_of (c : path) : path := c ++ ["run"; "firecracker.socket"].
Lemma parent_snoc (p : path) x : parent_of (p ++ [x]) = p.
Proof. unfold parent_of. apply removelast_last. Qed.
Lemma socket_chroot c : parent_of (parent_of (api_socket_of c)) = c.
Proof. unfold api_socket_of. change (c ++ ["run"; "firecracker.socket"]) with (c ++ ["run"] ++ ["firecracker.socket"]).
  by rewrite app_assoc, !parent_snoc. Qed.

(** *** Ending a child *)

(** What a kind of knowledge must support: the child is reaped, given up, the tree removed. *)
Class Knowledge {X : Type} (compat : Jail -> X -> Prop) := {
  reaped : X -> X; abandoned : X -> X; removed_tree : X -> X; is_reaped : X -> Prop; has_tree : X -> Prop;
  tree_set : Fs -> X -> X; vm_set : Vm -> X -> X;
  reaped_compat v x : compat v x -> has_tree x -> compat (with_vm None v) (reaped x);
  abandoned_compat v x : compat v x -> has_tree x -> compat (lost v) (abandoned x);
  removed_compat v x : compat v x -> is_reaped x -> compat (with_tree None v) (removed_tree x);
  has_tree_possible x : has_tree x -> exists v, compat v x /\ is_Some (j_tree v);
  has_tree_compat v x : compat v x -> has_tree x -> is_Some (j_tree v);
  reaped_is_reaped x : has_tree x -> is_reaped (reaped x);
  reaped_has_tree x : has_tree x -> has_tree (reaped x);
  tree_set_compat v x fs : compat v x -> has_tree x -> compat (with_tree ((fun _ => fs) <$> j_tree v) v) (tree_set fs x);
  vm_set_compat v x vm : compat v x -> has_tree x -> compat (with_vm (Some vm) v) (vm_set vm x);
  tree_set_has_tree x fs : has_tree x -> has_tree (tree_set fs x);
  vm_set_has_tree x vm : has_tree x -> has_tree (vm_set vm x);
  tree_set_is_reaped x fs : is_reaped x -> is_reaped (tree_set fs x);
}.
Section Ending.
Context {X : Type} {compat : Jail -> X -> Prop} {K : Knowledge compat} (c : path).
Lemma jail_reap x (Q : unit -> X -> Prop) : has_tree x -> Q tt (reaped x) -> jail_wp compat c (writes (reap c)) x Q.
Proof.
  intros Ht HQ. apply jail_act; [by apply has_tree_possible|]. intros h Hh. cbn. destruct (off_reap c h) as [Ho ->]. split; [done|].
  eexists. split; [by apply reaped_compat|done].
Qed.
Lemma jail_abandon x (Q : unit -> X -> Prop) : has_tree x -> Q tt (abandoned x) -> jail_wp compat c (writes (abandon c)) x Q.
Proof.
  intros Ht HQ. apply jail_act; [by apply has_tree_possible|]. intros h Hh. cbn. destruct (off_abandon c h) as [Ho ->]. split; [done|].
  eexists. split; [by apply abandoned_compat|done].
Qed.
Lemma jail_confirm io context primary x Q :
  has_tree x -> Q (Ok tt) (reaped x) -> (forall m, Q (Err (LaunchError_TerminationFailed m)) (abandoned x)) ->
  jail_wp compat c (confirm_child_exit quote io c context primary) x Q.
Proof.
  intros Ht Hok Herr. unfold confirm_child_exit.
  destruct (try_wait_io io) as [[]|e]; [|destruct (kill_io io) as [[]|e]; [destruct (wait_io io) as [[]|e]|]|];
    apply jail_wp_bind; (apply jail_reap || apply jail_abandon); try done; apply Herr.
Qed.
Lemma jail_remove_root o x (Q : result string unit -> X -> Prop) :
  is_reaped x -> has_tree x -> match o with Ok _ => Q (Ok tt) (removed_tree x) | Err e => Q (Err e) x end ->
  jail_wp compat c (remove_root o (root_of c)) x Q.
Proof.
  intros Hr Ht HQ. destruct o as [[]|e]; [|done]. apply jail_wp_bind, jail_act; [by apply has_tree_possible|]. intros h Hh. cbn.
  destruct (off_remove_tree c h) as [Ho ->]. split; [done|]. eexists. split; [by apply removed_compat|done].
Qed.
(** After a failure the process is confirmed dead and the tree removed, or the jail is
    given up with its tree. *)
Definition cleaned (removed : result string unit) (x x' : X) (e : LaunchError) : Prop :=
  match e with
  | LaunchError_TerminationFailed _ => x' = abandoned x
  | _ => x' = match removed with Ok _ => removed_tree (reaped x) | Err _ => reaped x end
  end.
Definition terminated_cleanly (e : LaunchError) : Prop :=
  match e with LaunchError_TerminationFailed _ => False | _ => True end.
Lemma jail_cleanup io removed context primary x (Q : LaunchError -> X -> Prop) :
  has_tree x -> terminated_cleanly primary ->
  (forall e x', cleaned removed x x' e -> Q e x') ->
  jail_wp compat c (cleanup_failed_child quote io removed c (root_of c) context primary) x Q.
Proof.
  intros Ht Hp HQ. unfold cleanup_failed_child. apply jail_wp_bind, jail_confirm; [done| |intros m; by apply HQ].
  apply jail_wp_bind, jail_remove_root; [by apply reaped_is_reaped|by apply reaped_has_tree|].
  destruct removed as [[]|e]; apply HQ; [|done]. by destruct primary.
Qed.
Lemma jail_terminate io inst x (Q : result TerminateError unit -> X -> Prop) :
  i_jailer_chroot inst = c -> has_tree x ->
  (forall x', x' = match ti_removed io with Ok _ => removed_tree (reaped x) | Err _ => reaped x end -> Q (Ok tt) x') ->
  (forall cause, Q (Err {| te_instance := inst; te_cause := cause |}) (abandoned x)) ->
  jail_wp compat c (terminate quote io inst) x Q.
Proof.
  intros Hc Ht Hok Herr. unfold terminate. rewrite Hc. apply jail_wp_bind.
  assert (forall y, is_reaped y -> has_tree y -> y = reaped x ->
    jail_wp compat c (_ ← remove_root (ti_removed io) (root_of c); Ret (Ok tt)) y Q) as Hrest.
  { intros y Hy Hty ->. apply jail_wp_bind, jail_remove_root; [done|done|].
    destruct (ti_removed io) as [[]|e]; by apply Hok. }
  destruct (await_exit (ti_polls io)) as [[]|e]; apply jail_wp_bind.
  - apply jail_reap; [done|]. apply Hrest; [by apply reaped_is_reaped|by apply reaped_has_tree|done].
  - apply jail_confirm; [done| |].
    + apply Hrest; [by apply reaped_is_reaped|by apply reaped_has_tree|done].
    + intros m. apply Herr.
  - apply jail_abandon; [done|]. apply Herr.
Qed.

(** *** Building one *)

Lemma jail_api io method endpoint body x (Q : result LaunchError unit -> X -> Prop) :
  has_tree x ->
  (forall v, compat v x ->
     Q (api_outcome io (api_socket_of c) endpoint)
       (match api_applied io && api_connected io, j_vm v with
        | true, Some vm =>
            let '(vm', fs) := vm_apply {| ac_method := method; ac_path := endpoint; ac_body := body |}
                                (default ∅ (j_tree v)) vm in tree_set fs (vm_set vm' x)
        | _, _ => x
        end)) ->
  jail_wp compat c (api_request io method (api_socket_of c) endpoint body) x Q.
Proof.
  intros Ht HQ. apply jail_act; [by apply has_tree_possible|]. rewrite socket_chroot. intros h Hh. specialize (HQ _ Hh). cbn [fst snd].
  destruct (api_applied io && api_connected io); [|split; [done|by exists x]].
  change (h_vms h !! c) with (j_vm (jail_at c h)). destruct (j_vm (jail_at c h)) as [vm|]; [|split; [done|by exists x]].
  change (chroot_tree c h) with (default ∅ (j_tree (jail_at c h))).
  destruct (vm_apply _ _ vm) as [vm' fs']. destruct (off_insert_vm c h vm') as [Ho Hj].
  set (h1 := set_vms (<[c := vm']> (h_vms h)) h) in *. destruct (off_set_chroot_tree c h1 fs') as [Ho' Hj'].
  split; [by etrans|]. eexists. split; [|exact HQ]. rewrite Hj', Hj.
  apply tree_set_compat; [by apply vm_set_compat|by apply vm_set_has_tree].
Qed.
Lemma jail_stage io cfg x (Q : result ImageError unit -> X -> Prop) :
  has_tree x ->
  (forall v, compat v x ->
     let '(r, fs) := stage_verified_pair quote (sp_kernel io) (sp_rootfs io) (sp_rollback io)
       (lc_verified_images cfg) ["vmlinux"] ["rootfs.img"] (lc_rootfs_read_only cfg) (default ∅ (j_tree v)) in
     Q r (tree_set fs x)) ->
  jail_wp compat c (stage_images quote io cfg c) x Q.
Proof.
  intros Ht HQ. apply jail_act; [by apply has_tree_possible|]. intros h Hh. specialize (HQ _ Hh).
  change (chroot_tree c h) with (default ∅ (j_tree (jail_at c h))).
  destruct (stage_verified_pair _ _ _ _ _ _ _ _ _) as [r fs']. cbn [fst snd].
  destruct (off_set_chroot_tree c h fs') as [Ho ->]. split; [done|].
  eexists. split; [by apply tree_set_compat|done].
Qed.
Definition fresh_vm (pid : Z) : Vm := {| vm_pid := pid; vm_calls := []; vm_guest := None; vm_paused := false |}.
Lemma jail_spawn io x (Q : result string Z -> X -> Prop) :
  has_tree x ->
  match sp_spawn io with
  | Ok _ => forall pid, Q (Ok pid) (vm_set (fresh_vm pid) x)
  | Err e => Q (Err e) x
  end ->
  jail_wp compat c (spawn_jailer io c) x Q.
Proof.
  intros Ht HQ. apply jail_act; [by apply has_tree_possible|]. intros h Hh. destruct (sp_spawn io) as [[]|e]; [|split; [done|by exists x]]. cbn [fst snd].
  destruct (off_insert_vm c h (fresh_vm (fresh (pids h)))) as [Ho Hj]. split; [exact Ho|].
  eexists. split; [|apply HQ]. unfold fresh_vm in Hj at 1. rewrite Hj. by apply vm_set_compat.
Qed.
Lemma jail_mkdir io x (Q : result LaunchError unit -> X -> Prop) :
  has_tree x ->
  (forall v, compat v x ->
     match io with
     | Err e => Q (Err (LaunchError_Io e)) x
     | Ok _ =>
         match create_dir_all 493 ["snapshot"] (default ∅ (j_tree v)) with
         | (Ok _, fs) => Q (Ok tt) (tree_set fs x)
         | (Err e, fs) => Q (Err (LaunchError_Io (io_text e))) (tree_set fs x)
         end
     end) ->
  jail_wp compat c (make_snapshot_dir io c) x Q.
Proof.
  intros Ht HQ. apply jail_act; [by apply has_tree_possible|]. intros h Hh. specialize (HQ _ Hh).
  destruct io as [[]|e]; [|split; [done|by exists x]].
  change (chroot_tree c h) with (default ∅ (j_tree (jail_at c h))).
  pose proof (has_tree_compat _ _ Hh Ht) as Hs.
  destruct (create_dir_all 493 _ _) as [[u|e] fs]; cbn [fst snd]; rewrite off_put_tree by done; destruct (off_set_chroot_tree c h fs) as [Ho ->];
    (split; [done|]; eexists; split; [by apply tree_set_compat|done]).
Qed.
Lemma jail_copy_in io source destination x (Q : result LaunchError unit -> X -> Prop) :
  has_tree x ->
  (forall v, compat v x ->
     match io, disk_file source (j_disk v) with
     | Err e, _ => Q (Err (LaunchError_Io e)) x
     | Ok _, None => Q (Err (LaunchError_Io "not found")) x
     | Ok _, Some content => Q (Ok tt) (tree_set (write_path destination content (default ∅ (j_tree v))) x)
     end) ->
  jail_wp compat c (copy_in io source c destination) x Q.
Proof.
  intros Ht HQ. apply jail_act; [by apply has_tree_possible|]. intros h Hh. specialize (HQ _ Hh). unfold snapshot_file.
  destruct io as [[]|e]; [|split; [done|by exists x]].
  change (j_disk (jail_at c h)) with (h_snapshots h) in HQ.
  destruct (disk_file source (h_snapshots h)) as [content|]; [|split; [done|by exists x]]. cbn [fst snd].
  change (chroot_tree c h) with (default ∅ (j_tree (jail_at c h))).
  destruct (off_set_chroot_tree c h (write_path destination content (default ∅ (j_tree (jail_at c h))))) as [Ho ->].
  split; [done|]; eexists; split; [by apply tree_set_compat|done].
Qed.
End Ending.

#[global] Program Instance exact_knowledge : Knowledge exactly := {|
  reaped := with_vm None; abandoned := lost; removed_tree := with_tree None;
  is_reaped v := j_vm v = None /\ j_lost v = false; has_tree v := is_Some (j_tree v) /\ j_lost v = false;
  tree_set fs v := with_tree ((fun _ => fs) <$> j_tree v) v; vm_set vm := with_vm (Some vm) |}.
Solve Obligations with (unfold exactly; cbn; intros; subst; rewrite ?fmap_is_Some; intuition eauto).
#[global] Program Instance phase_knowledge : Knowledge in_phase := {|
  reaped _ := Phase_claimed; abandoned _ := Phase_lost; removed_tree _ := Phase_gone;
  is_reaped x := x = Phase_claimed; has_tree x := x = Phase_claimed \/ x = Phase_running;
  tree_set _ x := x; vm_set _ _ := Phase_running |}.
Next Obligation. intros v x Hv [->| ->]; cbn in *; tauto. Qed.
Next Obligation. intros v x Hv [->| ->]; cbn in *; tauto. Qed.
Next Obligation. intros v x Hv ->; cbn in *; tauto. Qed.
Next Obligation.
  intros x Hx. exists {| j_tree := Some ∅; j_vm := None; j_lost := false; j_disk := ∅ |}. destruct Hx as [->| ->]; cbn; eauto.
Qed.
Next Obligation. intros v x Hv [->| ->]; cbn in *; tauto. Qed.
Next Obligation. done. Qed.
Next Obligation. intros x _. by left. Qed.
Next Obligation. intros v x fs Hv [->| ->]; cbn in *; rewrite fmap_is_Some; tauto. Qed.
Next Obligation. intros v x vm Hv [->| ->]; cbn in *; tauto. Qed.
Next Obligation. done. Qed.
Next Obligation. intros x vm _. by right. Qed.
Next Obligation. done. Qed.

(** ** Launching *)

Definition root_for (cfg : LaunchConfig) : path :=
  path_join (path_join (lc_chroot_base cfg) "firecracker") (lc_workspace_id cfg).
Definition chroot_for (cfg : LaunchConfig) : path := path_join (root_for cfg) "root".
Lemma root_of_chroot cfg : root_of (chroot_for cfg) = root_for cfg.
Proof.
  unfold root_of, chroot_for, path_join at 1. change (starts_with "/" "root") with false. cbn iota.
  change (components "root") with ["root"]. apply parent_snoc.
Qed.
Definition claim_for (cfg : LaunchConfig) : WorkspaceClaim :=
  {| workspace_root := root_for cfg; jailer_chroot := chroot_for cfg |}.
Definition jailed_for (cfg : LaunchConfig) (pid : Z) : JailedFirecracker :=
  {| jf_pid := pid; jf_api_socket_host := api_socket_of (chroot_for cfg);
     jf_vsock_host_socket := chroot_for cfg ++ ["vsock.sock"]; jf_jailer_chroot := chroot_for cfg;
     jf_workspace_root := root_for cfg; jf_kernel_in_chroot := chroot_for cfg ++ ["vmlinux"];
     jf_rootfs_in_chroot := chroot_for cfg ++ ["rootfs.img"] |}.
Lemma wait_error polls socket e : wait_for_socket polls socket = Err e ->
  terminated_cleanly e /\ forall i, e <> LaunchError_Image i.
Proof. induction polls as [|[| | |[]] polls IH]; cbn; intros E; try injection E as <-; try done; by apply IH. Qed.

Section Building.
Context {X : Type} {compat : Jail -> X -> Prop} {K : Knowledge compat}.
Context (cfg : LaunchConfig).
Abbreviation c := (chroot_for cfg).
Lemma jail_spawn_claimed io x (Q : result LaunchError JailedFirecracker -> X -> Prop) :
  has_tree x -> is_reaped x ->
  (forall v fs pid, compat v x ->
     stage_verified_pair quote (sp_kernel io) (sp_rootfs io) (sp_rollback io) (lc_verified_images cfg)
       ["vmlinux"] ["rootfs.img"] (lc_rootfs_read_only cfg) (default ∅ (j_tree v)) = (Ok tt, fs) ->
     Q (Ok (jailed_for cfg pid)) (vm_set (fresh_vm pid) (tree_set fs x))) ->
  (forall m y, has_tree y -> Q (Err (LaunchError_TerminationFailed m)) (abandoned y)) ->
  (forall e y, is_reaped y -> has_tree y -> terminated_cleanly e -> Q (Err e) y) ->
  jail_wp compat c (spawn_claimed quote io cfg (claim_for cfg)) x Q.
Proof.
  intros Ht Hr Hok Hlost Herr. apply jail_wp_bind, jail_stage; [done|]. intros v Hv. specialize (Hok v).
  destruct (stage_verified_pair _ _ _ _ _ _ _ _ _) as [[[]|e] fs]; [|by apply Herr; [apply tree_set_is_reaped|apply tree_set_has_tree|]].
  apply jail_wp_bind, jail_spawn; [by apply tree_set_has_tree|].
  destruct (sp_spawn io) as [[]|e]; [|by apply Herr; [apply tree_set_is_reaped|apply tree_set_has_tree|]]. intros pid.
  assert (has_tree (vm_set (fresh_vm pid) (tree_set fs x))) by by apply vm_set_has_tree, tree_set_has_tree.
  destruct (sp_has_pid io); cbn [negb].
  2: { apply jail_wp_bind, jail_reap; [done|]. apply Herr; [by apply reaped_is_reaped|by apply reaped_has_tree|done]. }
  destruct (wait_for_socket _ _) as [[]|e] eqn:Ew; [by apply Hok|]. apply wait_error in Ew as [He _].
  apply jail_wp_try, jail_confirm; [done| |intros m; by apply Hlost].
  apply Herr; [by apply reaped_is_reaped|by apply reaped_has_tree|done].
Qed.
Lemma jail_after_claim io x (Q : result LaunchError JailedFirecracker -> X -> Prop) :
  has_tree x -> is_reaped x ->
  (forall v fs pid, compat v x ->
     stage_verified_pair quote (sp_kernel io) (sp_rootfs io) (sp_rollback io) (lc_verified_images cfg)
       ["vmlinux"] ["rootfs.img"] (lc_rootfs_read_only cfg) (default ∅ (j_tree v)) = (Ok tt, fs) ->
     Q (Ok (jailed_for cfg pid)) (vm_set (fresh_vm pid) (tree_set fs x))) ->
  (forall m y, has_tree y -> Q (Err (LaunchError_TerminationFailed m)) (abandoned y)) ->
  (forall e y, is_reaped y -> terminated_cleanly e ->
     Q (Err e) (match sp_removed io with Ok _ => removed_tree y | Err _ => y end)) ->
  jail_wp compat c (after_claim quote io cfg (claim_for cfg)) x Q.
Proof.
  intros Ht Hr Hok Hlost Herr. apply jail_wp_bind, jail_spawn_claimed; [done|done|exact Hok|exact Hlost|].
  intros e y Hy Hty He. cbn [workspace_root claim_for]. rewrite <- root_of_chroot.
  destruct e; try done; apply jail_wp_bind, jail_remove_root; try done;
    destruct (sp_removed io) as [[]|e']; by apply Herr.
Qed.
End Building.

(** *** The configuration calls *)

Definition put (endpoint : string) (body : ApiBody) : ApiCall :=
  {| ac_method := "PUT"; ac_path := endpoint; ac_body := body |}.
(** What a launch tells the monitor, in order. *)
Definition config_calls (cfg : LaunchConfig) : list ApiCall :=
  [put "/machine-config" (MachineConfig (lc_vcpu_count cfg) (lc_mem_size_mib cfg));
   put "/boot-source" (BootSource "/vmlinux" (lc_kernel_boot_args cfg));
   put "/drives/rootfs" (Drive "rootfs" "/rootfs.img" true (lc_rootfs_read_only cfg))]
  ++ (if lc_guest_vsock_cid cfg =? 0 then [] else [put "/vsock" (Vsock (lc_guest_vsock_cid cfg) "/vsock.sock")])
  ++ match lc_network cfg with
     | Some net => [put "/network-interfaces/eth0" (NetworkInterface "eth0" (tap_name net))]
     | None => []
     end
  ++ [put "/actions" (Action "InstanceStart")].
(** The monitor answers with success only what it carried out. *)
Definition honest (io : ApiIo) : Prop :=
  forall socket endpoint, api_outcome io socket endpoint = Ok tt -> api_applied io = true.
Lemma api_ok_connected io socket endpoint : api_outcome io socket endpoint = Ok tt -> api_connected io = true.
Proof. unfold api_outcome. destruct (api_reply io); [|done]. by destruct (api_connected io). Qed.
Lemma api_error_cleanly io socket endpoint e : api_outcome io socket endpoint = Err e -> terminated_cleanly e.
Proof.
  unfold api_outcome. destruct (api_reply io) as [r|]; [|by intros [= <-]].
  destruct (negb _); [by intros [= <-]|]. destruct (read_http_head r) as [[[s n] rest]|]; cbn; [|by intros [= <-]].
  destruct (_ <? _); [by intros [= <-]|]. destruct (_ && _); [done|by intros [= <-]].
Qed.
Section Exact.
Context (disk : gmap (list string) SnapshotDir).
Definition at_work (fs : Fs) (vm : Vm) : Jail :=
  {| j_tree := Some fs; j_vm := Some vm; j_lost := false; j_disk := disk |}.
(** One call on a jail at work. *)
Lemma exact_api io method c endpoint body fs vm (Q : result LaunchError unit -> Jail -> Prop) :
  honest io ->
  (api_outcome io (api_socket_of c) endpoint = Ok tt ->
     let '(vm', fs') := vm_apply {| ac_method := method; ac_path := endpoint; ac_body := body |} fs vm in
     Q (Ok tt) (at_work fs' vm')) ->
  (forall e vm' fs', terminated_cleanly e -> Q (Err e) (at_work fs' vm')) ->
  jail_wp exactly c (api_request io method (api_socket_of c) endpoint body) (at_work fs vm) Q.
Proof.
  intros Hh Hok Herr. apply jail_api; [cbn; eauto|]. intros v Hv. unfold exactly in Hv. subst v. cbn [j_vm j_tree at_work default]. unfold id.
  destruct (vm_apply _ fs vm) as [vm' fs']. destruct (api_outcome io _ endpoint) as [[]|e] eqn:Eo.
  - rewrite (Hh _ _ Eo), (api_ok_connected _ _ _ Eo). by apply Hok.
  - apply api_error_cleanly in Eo. destruct (_ && _); by apply Herr.
Qed.
Lemma phase_api io method c endpoint body (Q : result LaunchError unit -> Phase -> Prop) :
  Q (Ok tt) Phase_running -> (forall e, terminated_cleanly e -> Q (Err e) Phase_running) ->
  jail_wp in_phase c (api_request io method (api_socket_of c) endpoint body) Phase_running Q.
Proof.
  intros Hok Herr. apply jail_api; [by right|]. intros v Hv.
  assert ((match api_applied io && api_connected io, j_vm v with
        | true, Some vm =>
            let '(vm', fs) := vm_apply {| ac_method := method; ac_path := endpoint; ac_body := body |}
                                (default ∅ (j_tree v)) vm in tree_set fs (vm_set vm' Phase_running)
        | _, _ => Phase_running
        end) = Phase_running) as ->.
  { destruct (_ && _), (j_vm v); try done. by destruct (vm_apply _ _ _). }
  destruct (api_outcome _ _ _) as [[]|e] eqn:Eo; [done|]. apply Herr. by eapply api_error_cleanly.
Qed.
Definition started (cfg : LaunchConfig) (fs : Fs) (pid : Z) : Vm :=
  {| vm_pid := pid; vm_calls := rev (config_calls cfg); vm_guest := Some (boot_guest fs (rev (config_calls cfg)));
     vm_paused := false |}.
Lemma exact_configure io cfg pid fs (Q : result LaunchError unit -> Jail -> Prop) :
  (forall i, honest (io i)) ->
  Q (Ok tt) (at_work fs (started cfg fs pid)) ->
  (forall e vm' fs', terminated_cleanly e -> Q (Err e) (at_work fs' vm')) ->
  jail_wp exactly (chroot_for cfg) (configure io cfg (jailed_for cfg pid)) (at_work fs (fresh_vm pid)) Q.
Proof.
  intros Hh Hok Herr. unfold configure, api_put. cbn [jf_api_socket_host jf_kernel_in_chroot jf_rootfs_in_chroot jailed_for].
  unfold chroot_relative. rewrite !last_snoc. cbn [ok_or].
  apply jail_wp_try, exact_api; [done|intros _|exact Herr].
  apply jail_wp_try. cbn [jail_wp]. apply jail_wp_try, exact_api; [done|intros _|exact Herr].
  apply jail_wp_try. cbn [jail_wp]. apply jail_wp_try, exact_api; [done|intros _|exact Herr].
  unfold started, config_calls in Hok.
  apply jail_wp_try. destruct (lc_guest_vsock_cid cfg =? 0); cbn [negb jail_wp].
  - apply jail_wp_try. destruct (lc_network cfg); cbn [jail_wp].
    + apply exact_api; [done|intros _|exact Herr]. apply exact_api; [done|intros _; exact Hok|exact Herr].
    + apply exact_api; [done|intros _; exact Hok|exact Herr].
  - apply exact_api; [done|intros _|exact Herr]. apply jail_wp_try. destruct (lc_network cfg); cbn [jail_wp].
    + apply exact_api; [done|intros _|exact Herr]. apply exact_api; [done|intros _; exact Hok|exact Herr].
    + apply exact_api; [done|intros _; exact Hok|exact Herr].
Qed.
Lemma phase_configure io cfg pid (Q : result LaunchError unit -> Phase -> Prop) :
  Q (Ok tt) Phase_running -> (forall e, terminated_cleanly e -> Q (Err e) Phase_running) ->
  jail_wp in_phase (chroot_for cfg) (configure io cfg (jailed_for cfg pid)) Phase_running Q.
Proof.
  intros Hok Herr. unfold configure, api_put. cbn [jf_api_socket_host jf_kernel_in_chroot jf_rootfs_in_chroot jailed_for].
  unfold chroot_relative. rewrite !last_snoc. cbn [ok_or].
  apply jail_wp_try, phase_api; [|exact Herr].
  apply jail_wp_try. cbn [jail_wp]. apply jail_wp_try, phase_api; [|exact Herr].
  apply jail_wp_try. cbn [jail_wp]. apply jail_wp_try, phase_api; [|exact Herr].
  apply jail_wp_try. destruct (negb _); [apply phase_api; [|exact Herr]|cbn [jail_wp]];
  (apply jail_wp_try; destruct (lc_network cfg); [apply phase_api; [|exact Herr]|cbn [jail_wp]]);
  (apply phase_api; [exact Hok|exact Herr]).
Qed.

(** *** The whole operation *)

(** The chroot with exactly the two images in it, as their verified handles yield them. *)
Definition image_tree (io : SpawnIo) (cfg : LaunchConfig) : Fs :=
  let pair := lc_verified_images cfg in
  <[["rootfs.img"] := Node_file (if lc_rootfs_read_only cfg then 256 else 384)
                        (handle_bytes (sp_rootfs io) (vp_rootfs pair))]>
    {[ ["vmlinux"] := Node_file 256 (handle_bytes (sp_kernel io) (vp_kernel pair)) ]}.
Lemma stage_fresh io cfg u fs :
  stage_verified_pair quote (sp_kernel io) (sp_rootfs io) (sp_rollback io) (lc_verified_images cfg)
    ["vmlinux"] ["rootfs.img"] (lc_rootfs_read_only cfg) ∅ = (Ok u, fs) -> fs = image_tree io cfg.
Proof.
  intros E. pose proof (staging_outcome quote (sp_kernel io) (sp_rootfs io) (sp_rollback io) (lc_verified_images cfg)
    ["vmlinux"] ["rootfs.img"] (lc_rootfs_read_only cfg) ∅) as Hs. rewrite E in Hs.
  destruct Hs as (d & n & d' & n' & [= <- <-] & [= <- <-] & _ & _ & _ & ->). done.
Qed.
Definition is_ok {E A} (r : result E A) : Prop := match r with Ok _ => True | Err _ => False end.
Definition fresh_jail : Jail := {| j_tree := Some ∅; j_vm := None; j_lost := false; j_disk := disk |}.
(** What a started operation leaves in its jail; [removed] are the outcomes of removing
    the tree after a failure. *)
Definition jail_outcome {A} (removed : list (result string unit)) (success : A -> Jail -> Prop)
    (r : result LaunchError A) (v : Jail) : Prop :=
  match r with
  | Ok a => success a v
  | Err (LaunchError_TerminationFailed _) => is_Some (j_tree v) /\ j_lost v = true
  | Err _ => j_vm v = None /\ j_lost v = false /\ (Forall is_ok removed -> j_tree v = None)
  end.
Lemma outcome_error {A} removed (success : A -> Jail -> Prop) e v :
  terminated_cleanly e -> j_vm v = None -> j_lost v = false -> (Forall is_ok removed -> j_tree v = None) ->
  jail_outcome removed success (Err e) v.
Proof. by destruct e. Qed.
Lemma outcome_cleaned {A} removed removed' (success : A -> Jail -> Prop) e fs vm v :
  removed' ∈ removed -> cleaned (compat:=exactly) removed' (at_work fs vm) v e -> jail_outcome removed success (Err e) v.
Proof.
  intros Hin Hc. destruct e; cbn in Hc; subst v; cbn; try done;
    (split; [by destruct removed'|split; [by destruct removed'|]]; rewrite Forall_forall; intros Hall;
     specialize (Hall _ Hin); by destruct removed').
Qed.
Lemma exact_after_claim io cfg removed (success : Instance -> Jail -> Prop)
    (g : JailedFirecracker -> Prog Host (result LaunchError Instance)) :
  sp_removed io ∈ removed ->
  (forall pid, jail_wp exactly (chroot_for cfg) (g (jailed_for cfg pid)) (at_work (image_tree io cfg) (fresh_vm pid))
     (jail_outcome removed success)) ->
  jail_wp exactly (chroot_for cfg) (try_bind (after_claim quote io cfg (claim_for cfg)) g) fresh_jail
    (jail_outcome removed success).
Proof.
  intros Hin Hg. apply jail_wp_try, jail_after_claim; [cbn; eauto|done| | |].
  - intros v fs pid Hv Hs. unfold exactly in Hv. subst v. apply stage_fresh in Hs as ->. apply Hg.
  - intros m y [Ht _]. by split.
  - intros e y [Hv Hl] He. apply outcome_error; try done; destruct (sp_removed io); try done.
    rewrite Forall_forall. intros Hall. by specialize (Hall _ Hin).
Qed.
Definition launched (io : LaunchIo) (cfg : LaunchConfig) (inst : Instance) (v : Jail) : Prop :=
  exists pid, inst = instance_of cfg (jailed_for cfg pid) (li_boot_id io)
    /\ v = at_work (image_tree (li_spawn io) cfg) (started cfg (image_tree (li_spawn io) cfg) pid).
Definition launch_removals (io : LaunchIo) : list (result string unit) := [sp_removed (li_spawn io); li_removed io].
Lemma exact_launch io cfg :
  (forall i, honest (li_api io i)) ->
  jail_wp exactly (chroot_for cfg)
    (try_bind (after_claim quote (li_spawn io) cfg (claim_for cfg)) (configure_or_cleanup quote io cfg)) fresh_jail
    (jail_outcome (launch_removals io) (launched io cfg)).
Proof.
  intros Hh. apply exact_after_claim; [set_solver|]. intros pid. unfold configure_or_cleanup.
  apply jail_wp_bind, exact_configure; [done|by exists pid|]. intros e vm fs He.
  cbn [jf_jailer_chroot jf_workspace_root jailed_for]. rewrite <- root_of_chroot.
  apply jail_wp_bind, jail_cleanup; [cbn; eauto|done|]. intros e' v' Hc.
  eapply outcome_cleaned; [|exact Hc]. set_solver.
Qed.

(** The tree of a restored machine before it is loaded. *)
Definition restored_tree (io : SpawnIo) (cfg : LaunchConfig) (mem vmstate : list Z) : Fs :=
  <[["snapshot"; "vmstate"] := Node_file 420 vmstate]> (<[["snapshot"; "mem"] := Node_file 420 mem]>
    (<[["snapshot"] := Node_dir 493]> (image_tree io cfg))).
Lemma mkdir_image_tree io cfg :
  create_dir_all 493 ["snapshot"] (image_tree io cfg) = (Ok tt, <[["snapshot"] := Node_dir 493]> (image_tree io cfg)).
Proof. unfold image_tree. by destruct (lc_rootfs_read_only cfg). Qed.
Lemma write_restored io cfg mem vmstate :
  write_path vmstate_in_chroot vmstate (write_path mem_in_chroot mem (<[["snapshot"] := Node_dir 493]> (image_tree io cfg)))
  = restored_tree io cfg mem vmstate.
Proof. unfold restored_tree, image_tree. by destruct (lc_rootfs_read_only cfg). Qed.
Lemma read_restored io cfg mem vmstate :
  read_path mem_in_chroot (restored_tree io cfg mem vmstate) = Some mem
  /\ read_path vmstate_in_chroot (restored_tree io cfg mem vmstate) = Some vmstate.
Proof. unfold restored_tree, image_tree. by destruct (lc_rootfs_read_only cfg). Qed.
Definition load_call : ApiCall :=
  put "/snapshot/load" (SnapshotLoadBody "/snapshot/vmstate" "File" "/snapshot/mem" false true).
Definition restored (io : RestoreIo) (cfg : RestoreLaunchConfig) (inst : Instance) (v : Jail) : Prop :=
  exists pid mem vmstate, inst = instance_of (rl_launch cfg) (jailed_for (rl_launch cfg) pid) (ri_boot_id io)
    /\ disk_file (rl_mem_source cfg) disk = Some mem /\ disk_file (rl_vmstate_source cfg) disk = Some vmstate
    /\ v = at_work (restored_tree (ri_spawn io) (rl_launch cfg) mem vmstate)
             {| vm_pid := pid; vm_calls := [load_call]; vm_guest := Some (thaw mem vmstate); vm_paused := false |}.
Definition restore_removals (io : RestoreIo) : list (result string unit) := [sp_removed (ri_spawn io); ri_removed io].
Lemma exact_copy_in io c source destination fs vm (Q : result LaunchError unit -> Jail -> Prop) :
  (forall content, disk_file source disk = Some content -> Q (Ok tt) (at_work (write_path destination content fs) vm)) ->
  (forall e fs vm, terminated_cleanly e -> Q (Err e) (at_work fs vm)) ->
  jail_wp exactly c (copy_in io source c destination) (at_work fs vm) Q.
Proof.
  intros Hok Herr. apply jail_copy_in; [cbn; eauto|]. intros v Hv. unfold exactly in Hv. subst v.
  change (j_disk (at_work fs vm)) with disk. destruct io; [|by apply Herr].
  destruct (disk_file source disk) as [content|]; [exact (Hok content eq_refl)|exact (Herr (LaunchError_Io "not found") fs vm I)].
Qed.
Lemma exact_stage_and_load io cfg pid (Q : result LaunchError unit -> Jail -> Prop) :
  honest (ri_load io) ->
  (forall v, restored io cfg (instance_of (rl_launch cfg) (jailed_for (rl_launch cfg) pid) (ri_boot_id io)) v ->
     Q (Ok tt) v) ->
  (forall e fs vm, terminated_cleanly e -> Q (Err e) (at_work fs vm)) ->
  jail_wp exactly (chroot_for (rl_launch cfg)) (stage_and_load io cfg (jailed_for (rl_launch cfg) pid))
    (at_work (image_tree (ri_spawn io) (rl_launch cfg)) (fresh_vm pid)) Q.
Proof.
  intros Hh Hok Herr. unfold stage_and_load. cbn [jf_jailer_chroot jf_api_socket_host jailed_for].
  apply jail_wp_try, jail_mkdir; [cbn; eauto|]. intros v Hv. unfold exactly in Hv. subst v.
  destruct (ri_mkdir io); [|by apply Herr]. cbn [at_work j_tree default]. unfold id. rewrite mkdir_image_tree.
  apply jail_wp_try, exact_copy_in; [|exact Herr]. intros mem Em.
  apply jail_wp_try, exact_copy_in; [|exact Herr]. intros st Es. rewrite write_restored.
  apply jail_wp_try. destruct (ri_chown io); cbn [map_err jail_wp]; [|by apply Herr].
  apply exact_api; [done|intros _|by intros; apply Herr]. cbn [vm_apply ac_body].
  destruct (read_restored (ri_spawn io) (rl_launch cfg) mem st) as [-> ->]. apply Hok. by exists pid, mem, st.
Qed.
Lemma exact_restore io cfg :
  honest (ri_load io) ->
  jail_wp exactly (chroot_for (rl_launch cfg))
    (try_bind (after_claim quote (ri_spawn io) (rl_launch cfg) (claim_for (rl_launch cfg))) (load_or_cleanup quote io cfg))
    fresh_jail (jail_outcome (restore_removals io) (restored io cfg)).
Proof.
  intros Hh. apply exact_after_claim; [set_solver|]. intros pid. unfold load_or_cleanup.
  apply jail_wp_bind, exact_stage_and_load; [done|by intros v|]. intros e fs vm He.
  cbn [jf_jailer_chroot jf_workspace_root jailed_for]. rewrite <- root_of_chroot.
  apply jail_wp_bind, jail_cleanup; [cbn; eauto|done|]. intros e' v' Hc.
  eapply outcome_cleaned; [|exact Hc]. set_solver.
Qed.
End Exact.

(** *** The same operations by phases *)

Definition phase_outcome {A} (success : A -> Prop) (r : result LaunchError A) (x : Phase) : Prop :=
  match r with
  | Ok a => success a /\ x = Phase_running
  | Err (LaunchError_TerminationFailed _) => x = Phase_lost
  | Err _ => x = Phase_claimed \/ x = Phase_gone
  end.
Lemma phase_error {A} (success : A -> Prop) e x :
  terminated_cleanly e -> x = Phase_claimed \/ x = Phase_gone -> phase_outcome success (Err e) x.
Proof. by destruct e. Qed.
Lemma phase_cleanup {A} (success : A -> Prop) io removed cfg context primary :
  terminated_cleanly primary ->
  jail_wp in_phase (chroot_for cfg)
    (e ← cleanup_failed_child quote io removed (chroot_for cfg) (root_for cfg) context primary; Ret (Err e))
    Phase_running (phase_outcome success).
Proof.
  intros Hp. rewrite <- root_of_chroot. apply jail_wp_bind, jail_cleanup; [by right|done|].
  intros e x Hc. destruct e; cbn in *; destruct removed; subst; auto.
Qed.
Lemma phase_after_claim {A} (success : A -> Prop) io cfg (g : JailedFirecracker -> Prog Host (result LaunchError A)) :
  (forall pid, jail_wp in_phase (chroot_for cfg) (g (jailed_for cfg pid)) Phase_running (phase_outcome success)) ->
  jail_wp in_phase (chroot_for cfg) (try_bind (after_claim quote io cfg (claim_for cfg)) g) Phase_claimed
    (phase_outcome success).
Proof.
  intros Hg. apply jail_wp_try, jail_after_claim; [by left|done|by intros; apply Hg|done|].
  intros e y Hy He. apply phase_error; [done|]. destruct (sp_removed io); auto.
Qed.
Lemma phase_launch io cfg :
  jail_wp in_phase (chroot_for cfg)
    (try_bind (after_claim quote (li_spawn io) cfg (claim_for cfg)) (configure_or_cleanup quote io cfg)) Phase_claimed
    (phase_outcome (fun inst => exists pid, inst = instance_of cfg (jailed_for cfg pid) (li_boot_id io))).
Proof.
  apply phase_after_claim. intros pid. apply jail_wp_bind, phase_configure; [split; [by exists pid|done]|].
  intros e He. by apply phase_cleanup.
Qed.
Lemma phase_mkdir io c (Q : result LaunchError unit -> Phase -> Prop) :
  Q (Ok tt) Phase_running -> (forall e, terminated_cleanly e -> Q (Err e) Phase_running) ->
  jail_wp in_phase c (make_snapshot_dir io c) Phase_running Q.
Proof.
  intros Hok Herr. apply jail_mkdir; [by right|]. intros v _. destruct io; [|by apply Herr].
  destruct (create_dir_all 493 _ _) as [[]]; [done|by apply Herr].
Qed.
Lemma phase_copy_in io c source destination (Q : result LaunchError unit -> Phase -> Prop) :
  Q (Ok tt) Phase_running -> (forall e, terminated_cleanly e -> Q (Err e) Phase_running) ->
  jail_wp in_phase c (copy_in io source c destination) Phase_running Q.
Proof.
  intros Hok Herr. apply jail_copy_in; [by right|]. intros v _. destruct io; [|by apply Herr].
  destruct (disk_file _ _); [exact Hok|by apply Herr].
Qed.
Lemma phase_restore io cfg :
  jail_wp in_phase (chroot_for (rl_launch cfg))
    (try_bind (after_claim quote (ri_spawn io) (rl_launch cfg) (claim_for (rl_launch cfg))) (load_or_cleanup quote io cfg))
    Phase_claimed
    (phase_outcome (fun inst => exists pid,
       inst = instance_of (rl_launch cfg) (jailed_for (rl_launch cfg) pid) (ri_boot_id io))).
Proof.
  apply phase_after_claim. intros pid. unfold load_or_cleanup, stage_and_load.
  cbn [jf_jailer_chroot jf_api_socket_host jf_workspace_root jailed_for].
  assert (forall e, terminated_cleanly e -> jail_wp in_phase (chroot_for (rl_launch cfg))
    (e' ← cleanup_failed_child quote (ri_child io) (ri_removed io) (chroot_for (rl_launch cfg))
        (root_for (rl_launch cfg)) "snapshot restore" e; Ret (Err e')) Phase_running
    (phase_outcome (fun inst => exists pid,
       inst = instance_of (rl_launch cfg) (jailed_for (rl_launch cfg) pid) (ri_boot_id io)))) as Herr
    by (intros; by apply phase_cleanup).
  apply jail_wp_bind, jail_wp_try, phase_mkdir; [|exact Herr].
  apply jail_wp_try, phase_copy_in; [|exact Herr]. apply jail_wp_try, phase_copy_in; [|exact Herr].
  apply jail_wp_try. destruct (ri_chown io); cbn [map_err jail_wp]; [|by apply Herr].
  apply phase_api; [|exact Herr]. split; [by exists pid|done].
Qed.
Lemma phase_snapshot_create io c :
  jail_wp in_phase c (snapshot_create_at io (api_socket_of c) c) Phase_running
    (fun r x => x = Phase_running /\ match r with Ok p => p = (c ++ mem_in_chroot, c ++ vmstate_in_chroot) | Err _ => True end).
Proof.
  apply jail_wp_try, phase_mkdir; [|by intros; split]. apply jail_wp_try.
  destruct (si_chown io); cbn [map_err jail_wp]; [|by split]. apply jail_wp_try, phase_api; [|by intros; split].
  by split.
Qed.

(** *** Claiming *)

Lemma claim_step io cfg h :
  let '(r, h') := run (claim_tree io (lc_chroot_base cfg) (lc_workspace_id cfg)) h in
  agree_off (chroot_for cfg) h h' /\
  match r with
  | Ok claim => claim = claim_for cfg /\ h_trees h !! root_for cfg = None
      /\ jail_at (chroot_for cfg) h' = with_tree (Some ∅) (jail_at (chroot_for cfg) h)
  | Err _ => h' = h \/ (~ is_ok (ci_removed io) /\ h_trees h !! root_for cfg = None
                        /\ h' = set_trees (<[root_for cfg := ∅]> (h_trees h)) h)
  end.
Proof.
  unfold claim_tree, act. cbn [run]. fold (root_for cfg). fold (chroot_for cfg). destruct (ci_shared io); [|by split; [|left]].
  destruct (h_trees h !! root_for cfg) eqn:Eh; [by split; [|left]|]. destruct (ci_root io); [|by split; [|left]].
  assert (agree_off (chroot_for cfg) h (set_trees (<[root_for cfg := ∅]> (h_trees h)) h)) as Ho.
  { apply off_set_trees. rewrite root_of_chroot. intros r Hr. by apply lookup_insert_ne. }
  destruct (ci_chroot io).
  - split; [done|]. split; [done|]. split; [done|]. unfold jail_at, with_tree. cbn [set_trees h_trees h_vms h_unconfirmed h_snapshots j_vm j_lost j_disk].
    by rewrite root_of_chroot, lookup_insert_eq.
  - destruct (ci_removed io); [by split; [|left]|]. split; [done|]. right. split_and!; [by intros []|done|done].
Qed.

(** *** Alone on the host *)

(** Every process and every jail that was given up has its tree. *)
Definition populated (h : Host) : Prop :=
  forall c, is_Some (h_vms h !! c) \/ c ∈ h_unconfirmed h -> is_Some (h_trees h !! root_of c).
Lemma run_claimed {A} io cfg (g : JailedFirecracker -> Prog Host (result LaunchError A)) h :
  is_valid_jailer_id (lc_workspace_id cfg) = true ->
  run (try_bind (spawn_jailed_firecracker quote io cfg) g) h =
  let '(claimed, h1) := run (claim_tree (sp_claim io) (lc_chroot_base cfg) (lc_workspace_id cfg)) h in
  match claimed with
  | Ok claim => run (try_bind (after_claim quote io cfg claim) g) h1
  | Err e => (Err (LaunchError_Io e), h1)
  end.
Proof.
  intros Hv. unfold try_bind, spawn_jailed_firecracker. rewrite Hv. cbn [negb]. rewrite !run_bind.
  destruct (run (claim_tree _ _ _) h) as [[claim|e] h1]; [|done]. by rewrite run_bind.
Qed.
(** What is left of the host after an operation that may start a machine. *)
Definition host_outcome {A} (c : path) (removed : list (result string unit)) (success : A -> Jail -> Prop)
    (h : Host) (r : result LaunchError A) (h' : Host) : Prop :=
  agree_off c h h' /\
  match r with
  | Ok a => h_trees h !! root_of c = None /\ success a (jail_at c h')
  | Err (LaunchError_TerminationFailed _) => c ∈ h_unconfirmed h' /\ is_Some (h_trees h' !! root_of c)
  | Err _ => h' = h \/ (~ Forall is_ok removed /\ h_trees h !! root_of c = None
                        /\ exists fs, h' = set_trees (<[root_of c := fs]> (h_trees h)) h)
  end.
Lemma empty_jail h c : populated h -> h_trees h !! root_of c = None ->
  h_vms h !! c = None /\ bool_decide (c ∈ h_unconfirmed h) = false.
Proof.
  intros Hp Ht. split.
  - destruct (h_vms h !! c) eqn:E; [|done]. destruct (Hp c); [by left|congruence].
  - apply bool_decide_eq_false. intros Hin. destruct (Hp c); [by right|congruence].
Qed.
Lemma unwound c h h' :
  agree_off c h h' -> h_trees h !! root_of c = None -> h_vms h !! c = None ->
  bool_decide (c ∈ h_unconfirmed h) = false -> h_vms h' !! c = None -> bool_decide (c ∈ h_unconfirmed h') = false ->
  match h_trees h' !! root_of c with
  | None => h' = h
  | Some fs => h' = set_trees (<[root_of c := fs]> (h_trees h)) h
  end.
Proof.
  intros Ho Ht Hv Hu Hv' Hu'. destruct (h_trees h' !! root_of c) as [fs|] eqn:Ht'; symmetry; apply (agree_off_eq c).
  - destruct Ho as [A1 A2 A3 A4]. split; try done. intros r Hr. cbn. rewrite lookup_insert_ne by done. by apply A1.
  - unfold jail_at. cbn [set_trees h_trees h_vms h_unconfirmed h_snapshots].
    by rewrite lookup_insert_eq, Ht', Hv, Hv', Hu, Hu', (off_snapshots _ _ _ Ho).
  - done.
  - unfold jail_at. by rewrite Ht, Ht', Hv, Hv', Hu, Hu', (off_snapshots _ _ _ Ho).
Qed.
Lemma outcome_on_host {A} io cfg removed (success : A -> Jail -> Prop)
    (g : JailedFirecracker -> Prog Host (result LaunchError A)) h :
  is_valid_jailer_id (lc_workspace_id cfg) = true -> populated h ->
  jail_wp exactly (chroot_for cfg) (try_bind (after_claim quote io cfg (claim_for cfg)) g)
    (fresh_jail (h_snapshots h)) (jail_outcome removed success) ->
  let '(r, h') := run (try_bind (spawn_jailed_firecracker quote io cfg) g) h in
  host_outcome (chroot_for cfg) (ci_removed (sp_claim io) :: removed) success h r h'.
Proof.
  intros Hv Hp Hw. rewrite run_claimed by done. pose proof (claim_step (sp_claim io) cfg h) as Hc.
  destruct (run (claim_tree _ _ _) h) as [[claim|e] h1].
  2: { destruct Hc as [Ho He]. split; [done|]. destruct He as [->|(Hr & Ht & ->)]; [by left|right].
    rewrite root_of_chroot, Forall_cons. split; [by intros []|]. eauto. }
  destruct Hc as (Ho & -> & Ht & Hj). rewrite <- root_of_chroot in Ht. destruct (empty_jail _ _ Hp Ht) as [Hvm Hu].
  destruct (jail_wp_run exactly _ _ _ _ h1 Hw) as (Ho' & v & Hv' & HQ).
  { unfold exactly. rewrite Hj. unfold with_tree, jail_at. cbn [j_vm j_lost j_disk]. by rewrite Hvm, Hu. }
  destruct (run _ h1) as [r h']. cbn [fst snd] in *. unfold exactly in Hv'. subst v.
  assert (agree_off (chroot_for cfg) h h') as Hoo by by etrans.
  split; [done|]. destruct r as [a|e]; [done|].
  destruct e; cbn [jail_outcome jail_at j_tree j_vm j_lost] in HQ.
  all: try (destruct HQ as [HT HL]; apply bool_decide_eq_true in HL; done).
  all: destruct HQ as (HQ1 & HQ2 & HQ3); pose proof (unwound _ _ _ Hoo Ht Hvm Hu HQ1 HQ2) as Hun.
  all: destruct (h_trees h' !! root_of _) as [fs|]; [right|by left]; rewrite Forall_cons.
  all: split; [intros [_ Hr]; by specialize (HQ3 Hr)|]; eauto.
Qed.

Definition all_removals (io : LaunchIo) : list (result string unit) :=
  [ci_removed (sp_claim (li_spawn io)); sp_removed (li_spawn io); li_removed io].
Lemma launch_outcome io cfg h :
  populated h -> (forall i, honest (li_api io i)) ->
  let '(r, h') := run (launch quote io cfg) h in
  host_outcome (chroot_for cfg) (all_removals io) (launched (h_snapshots h) io cfg) h r h'.
Proof.
  intros Hp Hh. unfold launch. destruct (is_valid_jailer_id _) eqn:Hv; [|cbn; split; [done|by left]]. cbn [negb].
  apply outcome_on_host; [done|done|]. by apply exact_launch.
Qed.
(** What the jail of a machine holds of the images that were asked for: unless an image file of
    the store was rewritten in place while it was held open, the bytes the machine boots from hash
    to the requested digests. *)
Definition boots_requested `{C : Crypto} (kernel rootfs : string) (io : SpawnIo) (inst : Instance) (v : Jail) : Prop :=
  i_kernel_sha256 inst = kernel /\ i_rootfs_sha256 inst = rootfs /\
  exists fs k r mode, j_tree v = Some fs
    /\ node fs ["vmlinux"] = Some (Node_file 256 k) /\ node fs ["rootfs.img"] = Some (Node_file mode r)
    /\ (rewritten (sp_kernel io) = None -> hex_encode (sha256 k) = kernel)
    /\ (rewritten (sp_rootfs io) = None -> hex_encode (sha256 r) = rootfs).
Lemma launched_boots_requested `{C : Crypto} rio rio' store kernel rootfs disk io cfg inst v :
  resolve_pair rio rio' store kernel rootfs = Ok (lc_verified_images cfg) ->
  launched disk io cfg inst v -> boots_requested kernel rootfs (li_spawn io) inst v.
Proof.
  intros Hr (pid & -> & ->). unfold resolve_pair in Hr.
  apply bind_ok in Hr as (fk & Hk & Hr). apply bind_ok in Hr as (fr & Hf & [= Hp]).
  apply resolve_image_sound in Hk as (_ & Hdk & _ & _ & Hhk & _).
  apply resolve_image_sound in Hf as (_ & Hdr & _ & _ & Hhr & _).
  unfold boots_requested, instance_of, digests. rewrite <- Hp. cbn [vp_kernel vp_rootfs i_kernel_sha256 i_rootfs_sha256].
  split; [done|]. split; [done|]. unfold image_tree. rewrite <- Hp. cbn [vp_kernel vp_rootfs].
  do 4 eexists. split; [reflexivity|]. cbn [node].
  rewrite lookup_insert_ne, lookup_insert_eq by done. split; [apply lookup_insert_eq|]. split; [done|].
  unfold handle_bytes. by split; intros ->.
Qed.

Definition all_restore_removals (io : RestoreIo) : list (result string unit) :=
  [ci_removed (sp_claim (ri_spawn io)); sp_removed (ri_spawn io); ri_removed io].
(** C18: The same for a restore: it touches one jail only, and on success the jail is new and its
    one process runs the guest that the memory and state files of the snapshot hold. A failure
    leaves the whole host as before; or, when a removal failed, the operation's own tree with no
    process in it; or a process that could not be confirmed dead, recorded and with its tree. *)
Theorem restore_is_all_or_nothing io cfg h :
  populated h -> honest (ri_load io) ->
  let '(r, h') := run (restore quote io cfg) h in
  host_outcome (chroot_for (rl_launch cfg)) (all_restore_removals io) (restored (h_snapshots h) io cfg) h r h'.
Proof.
  intros Hp Hh. unfold restore. destruct (lc_network _); [split; [done|by left]|].
  destruct (is_valid_jailer_id (lc_workspace_id (rl_launch cfg))) eqn:Hv.
  - apply outcome_on_host; [done|done|]. by apply exact_restore.
  - unfold try_bind, spawn_jailed_firecracker. rewrite Hv. cbn. split; [done|by left].
Qed.
(** C21: Termination reports success only for a process that is gone; otherwise it hands the
    instance back, and the process stays on record with its tree.  No other jail is touched. *)
Theorem terminate_confirms_the_exit io inst h :
  let c := i_jailer_chroot inst in
  is_Some (h_trees h !! root_of c) -> c ∉ h_unconfirmed h ->
  let '(r, h') := run (terminate quote io inst) h in
  agree_off c h h' /\
  match r with
  | Ok _ => h_vms h' !! c = None /\ c ∉ h_unconfirmed h' /\ (is_ok (ti_removed io) -> h_trees h' !! root_of c = None)
  | Err e => te_instance e = inst /\ c ∈ h_unconfirmed h' /\ h_trees h' = h_trees h /\ h_vms h' = h_vms h
  end.
Proof.
  cbn zeta. intros Ht Hu. set (c := i_jailer_chroot inst) in *.
  assert (jail_wp exactly c (terminate quote io inst) (jail_at c h) (fun r v =>
    match r with
    | Ok _ => j_vm v = None /\ j_lost v = false /\ (is_ok (ti_removed io) -> j_tree v = None)
    | Err e => te_instance e = inst /\ v = lost (jail_at c h)
    end)) as Hw.
  { apply jail_terminate; [done| | |done].
    - split; [done|]. by apply bool_decide_eq_false.
    - assert (bool_decide (c ∈ h_unconfirmed h) = false) by by apply bool_decide_eq_false.
      intros x' ->. by destruct (ti_removed io). }
  destruct (jail_wp_run exactly _ _ _ _ h Hw eq_refl) as (Ho & v & Hv & HQ). unfold exactly in Hv. subst v.
  destruct (run _ h) as [r h']. cbn [fst snd] in *. split; [done|]. destruct r as [[]|e].
  - destruct HQ as (H1 & H2 & H3). apply bool_decide_eq_false in H2. done.
  - destruct HQ as [He Hl]. injection Hl as Hlt Hlv Hll _. apply bool_decide_eq_true in Hll. split_and!; try done.
    + apply map_eq. intros r. destruct (decide (r = root_of c)) as [->|Hne]; [done|by apply Ho].
    + apply map_eq. intros c'. destruct (decide (c' = c)) as [->|Hne]; [done|by apply Ho].
Qed.
End DriverSpecs.


(** ** Concrete hosts *)

Module FirecrackerDemo.
(** A monitor whose snapshot is a code of its guest. *)
Definition node_code (n : Node) : Z + (Z * list Z) + (bool * list string) :=
  match n with
  | Node_dir m => inl (inl m) | Node_file m c => inl (inr (m, c)) | Node_symlink a t => inr (a, t)
  end.
Definition node_of (n : Z + (Z * list Z) + (bool * list string)) : Node :=
  match n with
  | inl (inl m) => Node_dir m | inl (inr (m, c)) => Node_file m c | inr (a, t) => Node_symlink a t
  end.
Lemma node_of_code n : node_of (node_code n) = n.
Proof. by destruct n. Qed.
#[local] Instance node_eq_dec : EqDecision Node.
Proof. solve_decision. Defined.
#[local] Instance node_countable : Countable Node := inj_countable' node_code node_of node_of_code.
Definition guest_code (g : Guest) : list (list string * Node) * string * string * list (list Z) :=
  (map_to_list (g_fs g), g_hostname g, g_machine_id g, g_seeds g).
Definition guest_of (x : list (list string * Node) * string * string * list (list Z)) : Guest :=
  {| g_fs := list_to_map x.1.1.1; g_hostname := x.1.1.2; g_machine_id := x.1.2; g_seeds := x.2 |}.
Lemma guest_of_code g : guest_of (guest_code g) = g.
Proof. unfold guest_of, guest_code. cbn. rewrite list_to_map_to_list. by destruct g. Qed.
#[global] Instance toy_hypervisor : Hypervisor := {|
  boot_guest fs calls :=
    {| g_fs := {[ [] := Node_dir 493; ["workspace"] := Node_dir 493 ]}; g_hostname := "guest"; g_machine_id := "";
       g_seeds := [] |};
  freeze g := ([Zpos (encode (guest_code g))], [0]);
  thaw mem _ :=
    match mem with
    | [Zpos p] =>
        match decode p with
        | Some x => guest_of x
        | None => {| g_fs := ∅; g_hostname := ""; g_machine_id := ""; g_seeds := [] |}
        end
    | _ => {| g_fs := ∅; g_hostname := ""; g_machine_id := ""; g_seeds := [] |}
    end |}.
#[global] Instance toy_hypervisor_laws : HypervisorLaws toy_hypervisor.
Proof. split. intros g. cbn. rewrite decode_encode. apply guest_of_code. Qed.

Definition ok_reply : list Z := bytes_of ("HTTP/1.1 204 No Content" +:+ crlf +:+ crlf).
Definition good_api : ApiIo := {| api_connected := true; api_reply := Some ok_reply; api_applied := true |}.
Definition good_child : ChildIo := {| try_wait_io := Ok true; kill_io := Ok tt; wait_io := Ok tt |}.
Definition good_stage : StageIo :=
  {| stage_umask := 18; rewind_ok := true; rewritten := None; copy_ok := true; copied := []; cleanup_ok := true |}.
Definition good_spawn : SpawnIo :=
  {| sp_claim := {| ci_shared := Ok tt; ci_root := Ok tt; ci_chroot := Ok tt; ci_removed := Ok tt |};
     sp_kernel := good_stage; sp_rootfs := good_stage; sp_rollback := true; sp_spawn := Ok tt;
     sp_has_pid := true; sp_polls := [SocketPoll_absent false; SocketPoll_present]; sp_child := good_child;
     sp_removed := Ok tt |}.
Definition good_launch : LaunchIo :=
  {| li_spawn := good_spawn; li_api := fun _ => good_api; li_child := good_child; li_removed := Ok tt; li_boot_id := "b1" |}.
Definition images0 : VerifiedImagePair :=
  {| vp_kernel := {| vi_kind := ImageKind_Kernel; vi_digest := "k"; vi_content := [1; 2] |};
     vp_rootfs := {| vi_kind := ImageKind_Rootfs; vi_digest := "r"; vi_content := [3; 4] |} |}.
Definition config0 : LaunchConfig :=
  {| lc_workspace_id := "w1"; lc_verified_images := images0; lc_rootfs_read_only := true; lc_vcpu_count := 1;
     lc_mem_size_mib := 128; lc_guest_vsock_cid := 3; lc_kernel_boot_args := "quiet";
     lc_firecracker_binary := ["bin"; "firecracker"]; lc_jailer_binary := ["bin"; "jailer"];
     lc_chroot_base := ["srv"]; lc_jailer_uid := 1; lc_jailer_gid := 1; lc_network := None |}.
Definition disk0 : gmap (list string) SnapshotDir :=
  {[ ["snapshots"; "s1"] := {| mem_file := Some [7]; vmstate_file := Some [8]; manifest_file := None |} ]}.
Definition empty_host : Host := {| h_trees := ∅; h_vms := ∅; h_snapshots := disk0; h_unconfirmed := ∅ |}.
Lemma good_api_is_honest : honest good_api.
Proof. done. Qed.
Lemma empty_host_is_populated : populated empty_host.
Proof. intros c [Hc|Hc]; cbn in Hc; [by rewrite lookup_empty in Hc; destruct Hc|set_solver]. Qed.

(** A store with one kernel and one root file system, and a launch of the pair. *)
#[local] Existing Instances toy_crypto toy_crypto_laws.
Definition kernel0 : list Z := replicate 64 97.
Definition rootfs0 : list Z := replicate 64 98.
Definition kernel_digest : string := hex_encode (sha256 kernel0).
Definition rootfs_digest : string := hex_encode (sha256 rootfs0).
Definition store0 : Fs :=
  list_to_map
    [(["store"], Node_dir 493); (["store"; "kernels"], Node_dir 493); (["store"; "rootfs"], Node_dir 493);
     (["store"; "kernels"; kernel_digest], Node_dir 493);
     (["store"; "kernels"; kernel_digest; "vmlinux"], Node_file 256 kernel0);
     (["store"; "rootfs"; rootfs_digest], Node_dir 493);
     (["store"; "rootfs"; rootfs_digest; "rootfs.img"], Node_file 256 rootfs0)].
Definition quiet_store : ResolveIo :=
  {| at_root := store0; at_lstat := store0; at_canonical := store0; at_open := store0;
     read_io := Ok tt; rewind_io := Ok tt |}.
Definition stored_images : VerifiedImagePair :=
  {| vp_kernel := {| vi_kind := ImageKind_Kernel; vi_digest := kernel_digest; vi_content := kernel0 |};
     vp_rootfs := {| vi_kind := ImageKind_Rootfs; vi_digest := rootfs_digest; vi_content := rootfs0 |} |}.
Definition stored_config : LaunchConfig :=
  {| lc_workspace_id := "w1"; lc_verified_images := stored_images; lc_rootfs_read_only := true; lc_vcpu_count := 1;
     lc_mem_size_mib := 128; lc_guest_vsock_cid := 3; lc_kernel_boot_args := "quiet";
     lc_firecracker_binary := ["bin"; "firecracker"]; lc_jailer_binary := ["bin"; "jailer"];
     lc_chroot_base := ["srv"]; lc_jailer_uid := 1; lc_jailer_gid := 1; lc_network := None |}.
Definition good_restore : RestoreIo :=
  {| ri_spawn := good_spawn; ri_mkdir := Ok tt; ri_copy_mem := Ok tt; ri_copy_vmstate := Ok tt; ri_chown := Ok tt;
     ri_load := good_api; ri_child := good_child; ri_removed := Ok tt; ri_boot_id := "b2" |}.
Definition restore0 : RestoreLaunchConfig :=
  {| rl_launch := config0; rl_mem_source := ["snapshots"; "s1"; "mem"]; rl_vmstate_source := ["snapshots"; "s1"; "vmstate"] |}.
Lemma restore_is_all_or_nothing_witness :
  is_ok (run (restore (fun s => s) good_restore restore0) empty_host).1 /\
  let '(r, h') := run (restore (fun s => s) good_restore restore0) empty_host in
  host_outcome (chroot_for config0) (all_restore_removals good_restore) (restored disk0 good_restore restore0) empty_host r h'.
Proof.
  split; [vm_compute; exact I|].
  exact (restore_is_all_or_nothing (fun s => s) good_restore restore0 empty_host empty_host_is_populated
           good_api_is_honest).
Defined.
Definition inst0 : Instance := instance_of config0 (jailed_for config0 0) "b1".
Definition running_host : Host :=
  {| h_trees := {[ root_for config0 := image_tree good_spawn config0 ]};
     h_vms := {[ chroot_for config0 := fresh_vm 0 ]}; h_snapshots := ∅; h_unconfirmed := ∅ |}.
Definition stubborn : TerminateIo :=
  {| ti_polls := [TermPoll_running false; TermPoll_running true];
     ti_child := {| try_wait_io := Ok false; kill_io := Ok tt; wait_io := Ok tt |}; ti_removed := Ok tt |}.
Lemma terminate_confirms_the_exit_witness :
  (run (terminate (fun s => s) stubborn inst0) running_host).1 = Ok tt /\
  let '(r, h') := run (terminate (fun s => s) stubborn inst0) running_host in
  agree_off (chroot_for config0) running_host h' /\
  match r with
  | Ok _ => h_vms h' !! chroot_for config0 = None /\ chroot_for config0 ∉ h_unconfirmed h'
      /\ (is_ok (Ok (E:=string) tt) -> h_trees h' !! root_of (chroot_for config0) = None)
  | Err e => te_instance e = inst0 /\ chroot_for config0 ∈ h_unconfirmed h' /\ h_trees h' = h_trees running_host
      /\ h_vms h' = h_vms running_host
  end.
Proof.
  split; [vm_compute; reflexivity|].
  apply (terminate_confirms_the_exit (fun s => s) stubborn inst0 running_host).
  - exists (image_tree good_spawn config0). vm_compute. reflexivity.
  - apply not_elem_of_empty.
Defined.
End FirecrackerDemo.
