(* ===== verification/Pool.v ===== *)
(** * The warm pool ([crates/ne-supervisor/src/pool.rs])

    Ready members in a FIFO under an async lock, a lock-free counter of
    provisions in flight, and the RAII permit that couples a counter slot with
    a ledger reservation.  Whether the process of a launched machine could be
    confirmed dead ([firecracker::terminate]), whether a runtime is available
    and whether the lifecycle tracker accepts cleanup work are inputs of the
    operations that depend on them. *)

From S2P Require Import Prelude Text Profile Fleet Capacity Image Firecracker.

Record WarmPoolConfig := {
  tier_name : string;
  base_snapshot_id : string;
  target_size : Z;
  max_in_flight : Z;
}.

Record ProvisionPermit := {
  permit_capacity : option PoolCapacityReservation;
  permit_cpu_millicores : Z;
  permit_memory_bytes : Z;
  released : bool;
}.
Record PoolMember := {
  member_instance : option Instance;
  member_guard : option ReadyPoolCapacityGuard;
}.
Inductive PoolCompletionError :=
| PoolCompletionError_DimensionMismatch
| PoolCompletionError_MissingPermit
| PoolCompletionError_Capacity (e : CapacityError).
Record RejectedPoolProvision := {
  rejected_instance : option Instance;
  rejected_permit : option ProvisionPermit;
  rejected_error : PoolCompletionError;
}.
Record WarmPool := { cfg : WarmPoolConfig; members : list PoolMember; in_flight : Z }.

Definition WarmPool_new (c : WarmPoolConfig) : WarmPool :=
  {| cfg := c; members := []; in_flight := 0 |}.
Definition set_members (m : list PoolMember) (p : WarmPool) : WarmPool :=
  {| cfg := cfg p; members := m; in_flight := in_flight p |}.
Definition set_in_flight (n : Z) (p : WarmPool) : WarmPool :=
  {| cfg := cfg p; members := members p; in_flight := n |}.

Definition refill_deficit (target available in_flight max_in_flight : Z) : Z :=
  let want := saturating_sub target (available + in_flight) in
  let cap := saturating_sub max_in_flight in_flight in
  Z.min want cap.

(** ** Reserving provisions

    [reserve_provisions] holds the members lock throughout, but permits can be
    released meanwhile: it reads the counters first and adds to the counter
    after the ledger has answered. *)
Definition deficit_now (p : WarmPool) : Z :=
  refill_deficit (target_size (cfg p)) (list_len (members p)) (in_flight p)
    (max_in_flight (cfg p)).
Definition permit_of (cpu_millicores memory_bytes : Z) (capacity : PoolCapacityReservation)
    : ProvisionPermit :=
  {| permit_capacity := Some capacity; permit_cpu_millicores := cpu_millicores;
     permit_memory_bytes := memory_bytes; released := false |}.
(** The [fetch_add] loop: one slot and one permit per reservation. *)
Definition admit_reservations (cpu_millicores memory_bytes : Z)
    (reservations : list PoolCapacityReservation) (p : WarmPool)
    : list ProvisionPermit * WarmPool :=
  (permit_of cpu_millicores memory_bytes <$> reservations,
   set_in_flight (in_flight p + list_len reservations) p).

Definition reserve_provisions (cpu_millicores memory_bytes : Z) (p : WarmPool) (l : CapacityLedger)
    : result CapacityError (list ProvisionPermit) * WarmPool * CapacityLedger :=
  let n := deficit_now p in
  match reserve_pool_batch n cpu_millicores memory_bytes l with
  | (Err e, l') => (Err e, p, l')
  | (Ok reservations, l') =>
      let '(permits, p') := admit_reservations cpu_millicores memory_bytes reservations p in
      (Ok permits, p', l')
  end.

(** ** Permits *)

Definition permit_release (permit : ProvisionPermit) (p : WarmPool) : ProvisionPermit * WarmPool :=
  if released permit then (permit, p)
  else ({| permit_capacity := permit_capacity permit;
           permit_cpu_millicores := permit_cpu_millicores permit;
           permit_memory_bytes := permit_memory_bytes permit; released := true |},
        set_in_flight (in_flight p - 1) p).
Definition permit_fail_closed (permit : ProvisionPermit) (l : CapacityLedger) : CapacityLedger :=
  match permit_capacity permit with Some _ => fault_ledger l | None => l end.
(** [Drop]: the counter first, then the fields (the ledger reservation). *)
Definition permit_drop (permit : ProvisionPermit) (p : WarmPool) (l : CapacityLedger)
    : WarmPool * CapacityLedger :=
  let '(permit', p') := permit_release permit p in
  (p', match permit_capacity permit' with
       | Some c => snd (release_entry (pr_entry_id c) l)
       | None => l
       end).

(** ** Completing a provision *)

(** The part of [complete_provision] before the member is pushed. *)
Definition complete_ready (member : Instance) (permit : ProvisionPermit) (l : CapacityLedger)
    : result RejectedPoolProvision (PoolMember * ProvisionPermit) * CapacityLedger :=
  let reject e := {| rejected_instance := Some member; rejected_permit := Some permit;
                     rejected_error := e |} in
  match capacity_dimensions (i_vcpu_count member) (i_mem_size_mib member) with
  | Err _ => (Err (reject PoolCompletionError_DimensionMismatch), l)
  | Ok (cpu_millicores, memory_bytes) =>
      if negb (cpu_millicores =? permit_cpu_millicores permit)
         || negb (memory_bytes =? permit_memory_bytes permit)
      then (Err (reject PoolCompletionError_DimensionMismatch), l)
      else
        match permit_capacity permit with
        | None => (Err (reject PoolCompletionError_MissingPermit), l)
        | Some capacity =>
            match ready_in_place capacity l with
            | (Err e, l') => (Err (reject (PoolCompletionError_Capacity e)), l')
            | (Ok (_, guard), l') =>
                (Ok ({| member_instance := Some member; member_guard := Some guard |},
                     {| permit_capacity := None;
                        permit_cpu_millicores := permit_cpu_millicores permit;
                        permit_memory_bytes := permit_memory_bytes permit;
                        released := released permit |}), l')
            end
        end
  end.
Definition push_back (m : PoolMember) (p : WarmPool) : WarmPool :=
  set_members (members p ++ [m]) p.
Definition complete_provision (member : Instance) (permit : ProvisionPermit)
    (p : WarmPool) (l : CapacityLedger)
    : result RejectedPoolProvision unit * WarmPool * CapacityLedger :=
  match complete_ready member permit l with
  | (Err r, l') => (Err r, p, l')
  | (Ok (m, permit'), l') =>
      let p' := push_back m p in
      let '(permit'', p'') := permit_release permit' p' in
      let '(p3, l'') := permit_drop permit'' p'' l' in
      (Ok tt, p3, l'')
  end.

(** ** Taking members out *)

Definition pop (p : WarmPool) : option PoolMember * WarmPool :=
  match members p with
  | [] => (None, p)
  | m :: rest => (Some m, set_members rest p)
  end.
Definition drain (p : WarmPool) : list PoolMember * WarmPool := (members p, set_members [] p).
Definition counts (p : WarmPool) : Z * Z := (list_len (members p), in_flight p).

Definition take_parts (m : PoolMember) : option (Instance * ReadyPoolCapacityGuard) * PoolMember :=
  match member_instance m with
  | None => (None, m)
  | Some i =>
      match member_guard m with
      | None => (None, {| member_instance := None; member_guard := None |})
      | Some g => (Some (i, g), {| member_instance := None; member_guard := None |})
      end
  end.

(** Confirmed termination releases the entry; an unconfirmed one faults the
    ledger and forgets the guard, so the entry stays accounted.  A member or
    rejection whose instance is already gone drops its remaining fields. *)
Definition settle_guard (terminated : bool) (entry : option CapacityEntryId) (l : CapacityLedger)
    : CapacityLedger :=
  if terminated then snd (release_entry entry l) else fault_ledger l.
Definition member_teardown (terminated : bool) (m : PoolMember) (l : CapacityLedger)
    : CapacityLedger :=
  match member_instance m, member_guard m with
  | None, Some g => snd (release_entry (rp_entry_id g) l)
  | Some _, Some g => settle_guard terminated (rp_entry_id g) l
  | _, None => l
  end.
(** [Drop for PoolMember]: [cleanup] is whether [begin_cleanup] gave a permit,
    [runtime] whether a fallback runtime could be built when none is current. *)
Definition member_drop (current_runtime cleanup runtime terminated : bool) (m : PoolMember)
    (l : CapacityLedger) : CapacityLedger :=
  match member_instance m, member_guard m with
  | None, Some g => snd (release_entry (rp_entry_id g) l)
  | _, None => l
  | Some _, Some g =>
      if negb cleanup then l
      else if current_runtime then settle_guard terminated (rp_entry_id g) l
      else if runtime then settle_guard terminated (rp_entry_id g) l
      else l
  end.

Definition rejected_settle (terminated : bool) (permit : ProvisionPermit) (p : WarmPool)
    (l : CapacityLedger) : WarmPool * CapacityLedger :=
  if terminated then permit_drop permit p l else (p, permit_fail_closed permit l).
Definition rejected_teardown (terminated : bool) (r : RejectedPoolProvision) (p : WarmPool)
    (l : CapacityLedger) : WarmPool * CapacityLedger :=
  match rejected_instance r, rejected_permit r with
  | Some _, Some permit => rejected_settle terminated permit p l
  | None, Some permit => permit_drop permit p l
  | _, None => (p, l)
  end.
Definition rejected_drop (current_runtime cleanup terminated : bool) (r : RejectedPoolProvision)
    (p : WarmPool) (l : CapacityLedger) : WarmPool * CapacityLedger :=
  match rejected_instance r, rejected_permit r with
  | Some _, Some permit =>
      if current_runtime
      then if cleanup then rejected_settle terminated permit p l else (p, l)
      else (p, permit_fail_closed permit l)
  | None, Some permit => permit_drop permit p l
  | _, None => (p, l)
  end.

(** ** The pool under concurrency

    The permits alive in provisioning tasks, by the stage the task is in, and
    the refill that currently holds the members lock (with the deficit it
    read).  [leaked] counts permits that were forgotten because their child
    process could not be confirmed dead. *)
Inductive Flight :=
| Flight_booting (permit : ProvisionPermit)
| Flight_ready (m : PoolMember) (permit : ProvisionPermit)
| Flight_stowed (permit : ProvisionPermit)
| Flight_rejected (i : Instance) (permit : ProvisionPermit).
Record PoolSystem := {
  pool : WarmPool;
  pool_ledger : CapacityLedger;
  flights : list Flight;
  refill : option Z;
  leaked : nat;
}.
Definition flight_permit (f : Flight) : ProvisionPermit :=
  match f with
  | Flight_booting p | Flight_ready _ p | Flight_stowed p | Flight_rejected _ p => p
  end.
Definition stowed (f : Flight) : bool := match f with Flight_stowed _ => true | _ => false end.

Inductive pool_step : PoolSystem -> PoolSystem -> Prop :=
| ps_refill_begin p l fs k :
    pool_step {| pool := p; pool_ledger := l; flights := fs; refill := None; leaked := k |}
      {| pool := p; pool_ledger := l; flights := fs; refill := Some (deficit_now p); leaked := k |}
| ps_refill_commit p l fs n k c m gs l' permits p' :
    reserve_pool_batch n c m l = (Ok gs, l') -> admit_reservations c m gs p = (permits, p') ->
    pool_step {| pool := p; pool_ledger := l; flights := fs; refill := Some n; leaked := k |}
      {| pool := p'; pool_ledger := l'; flights := (Flight_booting <$> permits) ++ fs;
         refill := None; leaked := k |}
| ps_refill_error p l fs n k c m e l' :
    reserve_pool_batch n c m l = (Err e, l') ->
    pool_step {| pool := p; pool_ledger := l; flights := fs; refill := Some n; leaked := k |}
      {| pool := p; pool_ledger := l'; flights := fs; refill := None; leaked := k |}
| ps_booted p l permit fs rf k i m permit' l' :
    complete_ready i permit l = (Ok (m, permit'), l') ->
    pool_step
      {| pool := p; pool_ledger := l; flights := Flight_booting permit :: fs; refill := rf; leaked := k |}
      {| pool := p; pool_ledger := l'; flights := Flight_ready m permit' :: fs; refill := rf; leaked := k |}
| ps_rejected p l permit fs rf k i r l' :
    complete_ready i permit l = (Err r, l') ->
    pool_step
      {| pool := p; pool_ledger := l; flights := Flight_booting permit :: fs; refill := rf; leaked := k |}
      {| pool := p; pool_ledger := l'; flights := Flight_rejected i permit :: fs; refill := rf; leaked := k |}
| ps_push p l m permit fs k :
    pool_step
      {| pool := p; pool_ledger := l; flights := Flight_ready m permit :: fs; refill := None; leaked := k |}
      {| pool := push_back m p; pool_ledger := l; flights := Flight_stowed permit :: fs; refill := None; leaked := k |}
| ps_drop p l f fs rf k p' l' :
    permit_drop (flight_permit f) p l = (p', l') ->
    pool_step {| pool := p; pool_ledger := l; flights := f :: fs; refill := rf; leaked := k |}
      {| pool := p'; pool_ledger := l'; flights := fs; refill := rf; leaked := k |}
| ps_forget p l i permit fs rf k :
    pool_step
      {| pool := p; pool_ledger := l; flights := Flight_rejected i permit :: fs; refill := rf; leaked := k |}
      {| pool := p; pool_ledger := permit_fail_closed permit l; flights := fs; refill := rf; leaked := S k |}
| ps_pop p l fs k o p' :
    pop p = (o, p') ->
    pool_step {| pool := p; pool_ledger := l; flights := fs; refill := None; leaked := k |}
      {| pool := p'; pool_ledger := l; flights := fs; refill := None; leaked := k |}
| ps_drain p l fs k ms p' :
    drain p = (ms, p') ->
    pool_step {| pool := p; pool_ledger := l; flights := fs; refill := None; leaked := k |}
      {| pool := p'; pool_ledger := l; flights := fs; refill := None; leaked := k |}
| ps_ledger p l l' fs rf k :
    pool_step {| pool := p; pool_ledger := l; flights := fs; refill := rf; leaked := k |}
      {| pool := p; pool_ledger := l'; flights := fs; refill := rf; leaked := k |}
| ps_schedule p l fs fs' rf k :
    fs ≡ₚ fs' ->
    pool_step {| pool := p; pool_ledger := l; flights := fs; refill := rf; leaked := k |}
      {| pool := p; pool_ledger := l; flights := fs'; refill := rf; leaked := k |}.
Definition pool_init (c : WarmPoolConfig) (l : CapacityLedger) : PoolSystem :=
  {| pool := WarmPool_new c; pool_ledger := l; flights := []; refill := None; leaked := 0 |}.

Definition unstowed (fs : list Flight) : Z := sumZ (fun f => b2z (negb (stowed f))) fs.
Definition pending (x : PoolSystem) : Z := default 0 (refill x).

Record pool_inv (c : WarmPoolConfig) (x : PoolSystem) : Prop := {
  pi_cfg : cfg (pool x) = c;
  pi_unreleased : Forall (fun f => released (flight_permit f) = false) (flights x);
  pi_in_flight : in_flight (pool x) = list_len (flights x) + Z.of_nat (leaked x);
  pi_pending : 0 <= pending x;
  pi_cap : in_flight (pool x) + pending x <= max_in_flight c;
  pi_target :
    list_len (members (pool x)) + unstowed (flights x) + Z.of_nat (leaked x) + pending x
    <= target_size c;
}.

Lemma reserve_pool_loop_length n c m : forall s gs s',
  reserve_pool_loop n c m s = (Ok gs, s') -> length gs = n.
Proof.
  induction n as [|n IH]; intros s gs s'; cbn; unfold mbind, M_bind, mret, M_ret.
  { by intros [= <- _]. }
  destruct (reserve_pool_one c m s) as [[g|] s1]; [|done].
  destruct (reserve_pool_loop n c m s1) as [[rs|] s2] eqn:E; [|done].
  intros [= <- _]. cbn. f_equal. eauto.
Qed.
Lemma reserve_pool_batch_length n c m l gs l' :
  0 <= n -> reserve_pool_batch n c m l = (Ok gs, l') -> list_len gs <= n.
Proof.
  intros Hn. unfold reserve_pool_batch, with_lock, list_len.
  destruct (poisoned l); [done|]. unfold ensure_healthy. unfold_m.
  destruct (cs_faulted (locked l)); [done|]. cbn.
  destruct (entry_count (locked l)) as [u|]; [|done]. cbn.
  destruct (try_into USIZE_MAX _) as [ceil|]; [|done]. cbn.
  destruct (checked_sub ceil u) as [room|] eqn:Er; [|done]. cbn. reflect_Z.
  destruct (Z.eqb_spec (Z.min n (ceil - u)) 0); [intros [= <- _]; cbn; lia|].
  destruct (try_into U64_MAX _); [|done]. cbn. destruct (checked_add U64_MAX _ _); [|done]. cbn.
  destruct (preflight_revision_range z (locked l)) as [[[]|] s1]; [|done].
  destruct (reserve_pool_loop _ c m s1) as [[rs|] s2] eqn:E; [|done].
  apply reserve_pool_loop_length in E. intros [= <- _]. lia.
Qed.

Lemma sumZ_app {A} (f : A -> Z) a b : sumZ f (a ++ b) = sumZ f a + sumZ f b.
Proof. unfold sumZ. induction a; cbn; lia. Qed.
Lemma sumZ_perm {A} (f : A -> Z) a b : a ≡ₚ b -> sumZ f a = sumZ f b.
Proof. unfold sumZ. induction 1; cbn; lia. Qed.
Lemma unstowed_le fs : 0 <= unstowed fs <= list_len fs.
Proof.
  unfold unstowed, sumZ, list_len. induction fs as [|f fs IH]; cbn -[Z.of_nat]; [lia|].
  destruct (stowed f); cbn -[Z.of_nat]; lia.
Qed.
Lemma unstowed_cons f fs : unstowed (f :: fs) = b2z (negb (stowed f)) + unstowed fs.
Proof. done. Qed.
Lemma list_len_cons {A} (x : A) l : list_len (x :: l) = 1 + list_len l.
Proof. unfold list_len. cbn -[Z.of_nat]. lia. Qed.
Lemma list_len_app {A} (a b : list A) : list_len (a ++ b) = list_len a + list_len b.
Proof. unfold list_len. rewrite length_app. lia. Qed.
Lemma list_len_nonneg {A} (a : list A) : 0 <= list_len a.
Proof. unfold list_len. lia. Qed.
Arguments list_len : simpl never.
Arguments unstowed : simpl never.
#[local] Hint Rewrite @list_len_cons unstowed_cons @list_len_app : enclave_eq.

Lemma deficit_bounds p :
  0 <= deficit_now p
  /\ (deficit_now p = 0
      \/ list_len (members p) + in_flight p + deficit_now p <= target_size (cfg p)
         /\ in_flight p + deficit_now p <= max_in_flight (cfg p)).
Proof. unfold deficit_now, refill_deficit, saturating_sub. lia. Qed.

Lemma booting_flights c m gs :
  let fs := Flight_booting <$> (permit_of c m <$> gs) in
  unstowed fs = list_len gs /\ list_len fs = list_len gs
  /\ Forall (fun f => released (flight_permit f) = false) fs.
Proof.
  cbn zeta. induction gs as [|g gs (IH1 & IH2 & IH3)]; cbn -[Z.of_nat]; [by repeat split|].
  autorewrite with enclave_eq. cbn. split_and!; [lia|lia|by constructor].
Qed.
Lemma complete_ready_released i permit l m permit' l' :
  complete_ready i permit l = (Ok (m, permit'), l') -> released permit' = released permit.
Proof.
  unfold complete_ready. destruct (capacity_dimensions _ _) as [[]|]; [|done].
  destruct (_ || _); [done|]. destruct (permit_capacity permit); [|done].
  destruct (ready_in_place _ l) as [[[]|] ?]; [|done]. by intros [= _ <- _].
Qed.

Lemma pool_inv_step c x y : pool_step x y -> pool_inv c x -> pool_inv c y.
Proof.
  intros Hs [Hc Hu Hi Hp Hm Ht]. destruct Hs; cbn in *; unfold pending in *; cbn in *.
  - pose proof (deficit_bounds p) as (? & Hd). rewrite Hc in Hd. pose proof (unstowed_le fs).
    constructor; unfold pending; cbn; try done; lia.
  - unfold admit_reservations in H0. simplify_eq. apply reserve_pool_batch_length in H; [|done].
    pose proof (booting_flights c0 m gs) as (Hb1 & Hb2 & Hb3). cbn zeta in *.
    pose proof (list_len_nonneg gs).
    constructor; unfold pending; cbn; autorewrite with enclave_eq; try done; try lia.
    + by apply Forall_app.
    + unfold unstowed in *. rewrite sumZ_app. lia.
  - constructor; unfold pending; cbn; try done; lia.
  - apply Forall_cons in Hu as [Hr Hu]. apply complete_ready_released in H. cbn in *.
    autorewrite with enclave_eq in *. cbn in *.
    constructor; unfold pending; cbn; autorewrite with enclave_eq; cbn; try done; try lia.
    constructor; [cbn; congruence|done].
  - apply Forall_cons in Hu as [Hr Hu]. autorewrite with enclave_eq in *. cbn in *.
    constructor; unfold pending; cbn; autorewrite with enclave_eq; cbn; try done; try lia.
    by constructor.
  - apply Forall_cons in Hu as [Hr Hu]. autorewrite with enclave_eq in *. cbn in *.
    constructor; unfold pending; cbn; autorewrite with enclave_eq; cbn; try done; try lia.
    + by constructor.
    + unfold list_len at 2. cbn. lia.
  - apply Forall_cons in Hu as [Hr Hu]. autorewrite with enclave_eq in *.
    unfold permit_drop, permit_release in H. rewrite Hr in H. simplify_eq. cbn in *.
    assert (0 <= b2z (negb (stowed f))) by (unfold b2z; case_match; lia).
    constructor; unfold pending; cbn; try done; lia.
  - apply Forall_cons in Hu as [Hr Hu]. autorewrite with enclave_eq in *. cbn in *.
    constructor; unfold pending; cbn -[Z.of_nat]; try done; lia.
  - unfold pop in H. destruct (members p) eqn:E; simplify_eq; constructor; unfold pending; cbn;
      rewrite ?E in *; autorewrite with enclave_eq in *; try done; lia.
  - unfold drain in H. simplify_eq. pose proof (list_len_nonneg (members p)).
    constructor; unfold pending; cbn; try done. change (list_len []) with 0. lia.
  - by constructor.
  - constructor; unfold pending; cbn; try done.
    + by rewrite <- H.
    + unfold list_len in *. by rewrite <- H.
    + unfold unstowed in *. by rewrite <- (sumZ_perm _ _ _ H).
Qed.

(** However refills, completions, pops, failures and drops interleave, the in-flight counter
    equals the number of permits not yet dropped, never exceeds the configured in-flight limit, and
    the ready members together with the provisions still to be stowed never exceed the target size,
    although a completed provision is pushed before its slot is given back. *)
Theorem pool_never_overfills c l x :
  0 <= target_size c -> 0 <= max_in_flight c -> rtc pool_step (pool_init c l) x ->
  in_flight (pool x) = list_len (flights x) + Z.of_nat (leaked x)
  /\ 0 <= in_flight (pool x) <= max_in_flight c
  /\ list_len (members (pool x)) + unstowed (flights x) <= target_size c.
Proof.
  intros Ht Hm Hr. assert (pool_inv c x) as [Hc Hu Hi Hp Hcap Htar].
  { assert (pool_inv c (pool_init c l)) as H0.
    { constructor; unfold pending; cbn; try done; change (@list_len PoolMember []) with 0;
        change (unstowed []) with 0; lia. }
    clear Ht Hm. induction Hr; eauto using pool_inv_step. }
  pose proof (list_len_nonneg (flights x)). split_and!; try done; lia.
Qed.
Definition demo_pool_config : WarmPoolConfig :=
  {| tier_name := "small"; base_snapshot_id := "base"; target_size := 3; max_in_flight := 2 |}.
Lemma pool_never_overfills_witness :
  exists x, rtc pool_step (pool_init demo_pool_config (CapacityLedger_new 8)) x
    /\ in_flight (pool x) = 2 /\ list_len (members (pool x)) + unstowed (flights x) <= 3.
Proof.
  eexists. split.
  { eapply rtc_l; [apply ps_refill_begin|].
    eapply rtc_l; [eapply (ps_refill_commit _ _ _ _ _ 1000 1048576);
      [vm_compute; reflexivity|vm_compute; reflexivity]|].
    apply rtc_refl. }
  split; [vm_compute; reflexivity|].
  refine (proj2 (proj2 (pool_never_overfills demo_pool_config (CapacityLedger_new 8) _ _ _ _)));
    [vm_compute; discriminate|vm_compute; discriminate|].
  eapply rtc_l; [apply ps_refill_begin|].
  eapply rtc_l; [eapply (ps_refill_commit _ _ _ _ _ 1000 1048576);
    [vm_compute; reflexivity|vm_compute; reflexivity]|].
  apply rtc_refl.
Defined.

(** Completing a provision either stows the launched instance at the back of the pool, with its
    ledger entry promoted from reserved to ready and its in-flight slot returned, or changes neither
    the pool nor any entry and hands back the instance together with the permit that still accounts
    for it. *)
Theorem complete_provision_outcomes i permit p l r p' l' :
  wf (locked l) -> released permit = false ->
  complete_provision i permit p l = (r, p', l') ->
  match r with
  | Ok _ =>
      exists e, permit_capacity permit = Some {| pr_entry_id := Some e |}
        /\ i_vcpu_count i * 1000 = permit_cpu_millicores permit
        /\ i_mem_size_mib i * 1048576 = permit_memory_bytes permit
        /\ members p' = members p ++ [{| member_instance := Some i;
                                         member_guard := Some {| rp_entry_id := Some e |} |}]
        /\ in_flight p' = in_flight p - 1
        /\ entry_of (locked l) e = Some (inr PoolCapacityState_Reserved)
        /\ forall j, entry_of (locked l') j
             = upd (entry_of (locked l)) e (Some (inr PoolCapacityState_Ready)) j
  | Err rj =>
      p' = p /\ quiet l l' /\ rejected_instance rj = Some i /\ rejected_permit rj = Some permit
  end.
Proof.
  intros Hwf Hrel. unfold complete_provision, complete_ready.
  destruct (capacity_dimensions _ _) as [[cpu mem]|] eqn:Ed;
    [|intros [= <- <- <-]; split_and!; try done; by left].
  destruct (negb _ || negb _) eqn:Em; [intros [= <- <- <-]; split_and!; try done; by left|].
  destruct (permit_capacity permit) as [g|] eqn:Eg;
    [|intros [= <- <- <-]; split_and!; try done; by left].
  destruct (ready_in_place g l) as [[[g' k]|] l1] eqn:Er;
    apply ready_in_place_cases in Er; try done; [|intros [= <- <- <-]; by split_and!].
  destruct Er as (e & Hg & _ & -> & _ & He & Hj). cbn. unfold permit_release. cbn. rewrite Hrel.
  intros [= <- <- <-]. exists e. destruct g as [o]. cbn in Hg. subst o.
  apply orb_false_elim in Em as [E1 E2]. apply negb_false_iff in E1, E2. reflect_Z. subst.
  unfold capacity_dimensions, mbind, result_bind in Ed.
  destruct (checked_mul U64_MAX (i_vcpu_count i) 1000) eqn:E1; [|done].
  destruct (checked_mul U64_MAX (i_mem_size_mib i) _) eqn:E2; [|done]. cbn in Ed.
  apply checked_mul_Some in E1 as [-> _], E2 as [-> _]. simplify_eq. split_and!; done.
Qed.
(** A machine of two processors and one mebibyte. *)
Definition demo_config : LaunchConfig :=
  {| lc_workspace_id := "vm"; lc_verified_images := FirecrackerDemo.images0; lc_rootfs_read_only := true;
     lc_vcpu_count := 2; lc_mem_size_mib := 1; lc_guest_vsock_cid := 3; lc_kernel_boot_args := "";
     lc_firecracker_binary := []; lc_jailer_binary := []; lc_chroot_base := []; lc_jailer_uid := 1;
     lc_jailer_gid := 1; lc_network := None |}.
Definition demo_instance : Instance := instance_of demo_config (jailed_for demo_config 7) "b".
Lemma complete_provision_outcomes_witness :
  exists e p' l',
    let l := snd (reserve_pool_batch 1 2000 1048576 (CapacityLedger_new 1)) in
    complete_provision demo_instance
      (permit_of 2000 1048576 {| pr_entry_id := Some (CapacityEntryId_Pool 0) |})
      (set_in_flight 1 (WarmPool_new demo_pool_config)) l = (Ok tt, p', l')
    /\ in_flight p' = 0 /\ entry_of (locked l) e = Some (inr PoolCapacityState_Reserved).
Proof.
  destruct (reserve_pool_batch 1 2000 1048576 (CapacityLedger_new 1)) as [[gs|] l] eqn:El;
    [|vm_compute in El; discriminate].
  pose proof (reserve_pool_batch_cases (CapacityLedger_new 1) 1 2000 1048576 _ _
    (wf_new 1 ltac:(by unfold in_range, U32_MAX)) ltac:(lia) ltac:(by unfold in_range, U64_MAX)
    ltac:(by unfold in_range, U64_MAX) El) as (_ & _ & _ & Hwf & _).
  destruct (complete_provision demo_instance
      (permit_of 2000 1048576 {| pr_entry_id := Some (CapacityEntryId_Pool 0) |})
      (set_in_flight 1 (WarmPool_new demo_pool_config)) l) as [[r p'] l'] eqn:Ec.
  pose proof (complete_provision_outcomes _ (permit_of 2000 1048576
    {| pr_entry_id := Some (CapacityEntryId_Pool 0) |}) _ _ _ _ _ Hwf eq_refl Ec) as H.
  destruct r as [[]|rj]; [|vm_compute in El; injection El as ? <-; vm_compute in Ec; discriminate].
  destruct H as (e & _ & _ & _ & _ & Hi & He & _). exists e, p', l'. cbn [snd].
  split; [exact Ec|]. split; [exact Hi|exact He].
Defined.

(** A slot whose child process could not be confirmed dead is never reused: when termination
    fails, or no cleanup can be scheduled, tearing down or dropping a pool member or a rejected
    provision keeps every ledger entry. *)
Theorem unconfirmed_child_keeps_its_entry current cleanup runtime m r p l j :
  is_Some (member_instance m) -> is_Some (rejected_instance r) ->
  let kept l' := entry_of (locked l') j = entry_of (locked l) j in
  kept (member_teardown false m l)
  /\ kept (member_drop current cleanup runtime false m l)
  /\ kept (member_drop current false runtime true m l)
  /\ kept (snd (rejected_teardown false r p l))
  /\ kept (snd (rejected_drop current cleanup false r p l))
  /\ kept (snd (rejected_drop current false true r p l)).
Proof.
  intros [i Hi] [i' Hr]. cbn zeta.
  assert (entry_of (locked (fault_ledger l)) j = entry_of (locked l) j) as Hf.
  { unfold fault_ledger. destruct (poisoned l); [done|]. by destruct j. }
  unfold member_teardown, member_drop, rejected_teardown, rejected_drop, rejected_settle,
    settle_guard, permit_fail_closed. rewrite Hi, Hr.
  destruct (member_guard m), (rejected_permit r) as [permit|]; cbn;
    try destruct (permit_capacity permit); destruct current, cleanup, runtime; cbn; by split_and!.
Qed.
Lemma unconfirmed_child_keeps_its_entry_witness :
  let i := demo_instance in
  let l := snd (reserve_pool_batch 1 2000 1048576 (CapacityLedger_new 1)) in
  entry_of (locked (member_teardown false
    {| member_instance := Some i; member_guard := Some {| rp_entry_id := Some (CapacityEntryId_Pool 0) |} |} l))
    (CapacityEntryId_Pool 0) = Some (inr PoolCapacityState_Reserved).
Proof.
  cbv zeta. etransitivity; [|vm_compute; reflexivity].
  refine (proj1 (unconfirmed_child_keeps_its_entry true true true _
    {| rejected_instance := Some demo_instance;
       rejected_permit := None; rejected_error := PoolCompletionError_MissingPermit |}
    (WarmPool_new demo_pool_config) _ _ _ _)); eexists; reflexivity.
Defined.
