(* ===== verification/AttestParse.v ===== *)
(** * Attestation structures ([crates/ne-attestation/src])

    The firmware report ([snp_report.rs]), the TPM quote ([tpm_attest.rs]), the
    public area of the attestation key ([azure_ak_rsa_modulus] in [lib.rs]) and
    the Azure blob ([snp_source.rs]).  Each parser is shown to accept exactly the
    encodings of its structure. *)

From S2P Require Import Prelude Text Crypto Bytes.

(** ** The firmware report ([snp_report.rs]) *)
Module SnpReport.
Definition REPORT_SIZE : Z := 1184.
Definition SIGNED_LEN : Z := REPORT_SIZE - 512.

Record ReportFields := {
  version : Z;
  guest_policy : Z;
  sig_algo : Z;
  report_data : list Z;
  measurement : list Z;
  report_id : list Z;
  reported_tcb : Z;
  chip_id : list Z;
}.

Definition parse (buf : list Z) : option ReportFields :=
  if negb (blen buf =? REPORT_SIZE) then None
  else
    let int_at (o n : Z) := le_int <$> get_range buf o (o + n) in
    let arr_at (o n : Z) := get_range buf o (o + n) in
    v ← int_at 0 4;
    gp ← int_at 8 8;
    sa ← int_at 52 4;
    rd ← arr_at 80 64;
    me ← arr_at 144 48;
    ri ← arr_at 320 32;
    tc ← int_at 384 8;
    ch ← arr_at 416 64;
    Some {| version := v; guest_policy := gp; sig_algo := sa; report_data := rd;
            measurement := me; report_id := ri; reported_tcb := tc; chip_id := ch |}.

Definition signed_bytes (buf : list Z) : option (list Z) :=
  if blen buf =? REPORT_SIZE then get_range buf 0 SIGNED_LEN else None.
Definition signature (buf : list Z) : option (list Z) :=
  if negb (blen buf =? REPORT_SIZE) then None else get_range buf SIGNED_LEN REPORT_SIZE.
End SnpReport.

(** ** TPM quotes ([tpm_attest.rs]) *)
Module TpmAttest.
Definition TPM_GENERATED_VALUE : Z := 4283712327.
Definition TPM_ST_ATTEST_QUOTE : Z := 32792.
Record TpmAttest := { magic : Z; attest_type : Z; extra_data : list Z }.

Definition parse_tpm2b_attest (msg : list Z) : option TpmAttest :=
  body ← (if (6 <=? blen msg)
             && bool_decide (be_int <$> get_range msg 2 6 = Some TPM_GENERATED_VALUE)
          then get_from msg 2 else Some msg);
  if blen body <? 8 then None
  else
    magic ← be_int <$> get_range body 0 4;
    if negb (magic =? TPM_GENERATED_VALUE) then None
    else
      attest_type ← be_int <$> get_range body 4 6;
      qs_len ← be_int <$> get_range body 6 8;
      qs_end ← checked_add USIZE_MAX 8 qs_len;
      let ed_off := qs_end in
      if blen body <? ed_off + 2 then None
      else
        ed_len ← be_int <$> get_range body ed_off (ed_off + 2);
        let ed_start := ed_off + 2 in
        ed_end ← checked_add USIZE_MAX ed_start ed_len;
        extra_data ← get_range body ed_start ed_end;
        Some {| magic := magic; attest_type := attest_type; extra_data := extra_data |}.
End TpmAttest.

(** ** The Azure AK public area ([azure_ak_rsa_modulus]) *)
Module TpmPublic.
Definition TPM_ALG_RSA : Z := 1.
Definition TPM_ALG_NULL : Z := 16.
Definition TPM_ALG_RSASSA : Z := 20.
Definition TPM_ALG_SHA256 : Z := 11.
Inductive AttestationParseError := AttestationParseError_mk.

(** The readers advance a shared offset. *)
Definition read_bytes (input : list Z) (n : Z) : M Z AttestationParseError (list Z) :=
  offset ← get;
  e ← lift (ok_or (checked_add USIZE_MAX offset n) AttestationParseError_mk);
  bytes ← lift (ok_or (get_range input offset e) AttestationParseError_mk);
  put e ;;; mret bytes.
Definition read_u16 (input : list Z) : M Z AttestationParseError Z :=
  b ← read_bytes input 2; mret (be_int b).
Definition read_u32 (input : list Z) : M Z AttestationParseError Z :=
  b ← read_bytes input 4; mret (be_int b).
Definition reject_unless (ok : bool) : M Z AttestationParseError unit :=
  fail_if (negb ok) with AttestationParseError_mk.

Definition parse_body (body : list Z) : M Z AttestationParseError (list Z) :=
  alg ← read_u16 body;
  reject_unless (alg =? TPM_ALG_RSA) ;;;
  _name_alg ← read_u16 body;
  _object_attributes ← read_u32 body;
  auth_policy_len ← read_u16 body;
  _auth_policy ← read_bytes body auth_policy_len;
  sym ← read_u16 body;
  reject_unless (sym =? TPM_ALG_NULL) ;;;
  scheme ← read_u16 body;
  reject_unless (scheme =? TPM_ALG_RSASSA) ;;;
  hash ← read_u16 body;
  reject_unless (hash =? TPM_ALG_SHA256) ;;;
  bits ← read_u16 body;
  reject_unless (bits =? 2048) ;;;
  exponent ← read_u32 body;
  reject_unless ((exponent =? 0) || (exponent =? 65537)) ;;;
  mlen ← read_u16 body;
  reject_unless (mlen =? 256) ;;;
  modulus ← read_bytes body 256;
  offset ← get;
  reject_unless (offset =? blen body) ;;;
  mret modulus.
Definition azure_ak_rsa_modulus (ak_pub_tpm2b : list Z) : result AttestationParseError (list Z) :=
  l ← ok_or (get_range ak_pub_tpm2b 0 2) AttestationParseError_mk;
  let declared_len := be_int l in
  body ← ok_or (get_from ak_pub_tpm2b 2) AttestationParseError_mk;
  if negb (blen body =? declared_len) then Err AttestationParseError_mk
  else fst (parse_body body 0).

(** [strip_tpmt_signature_header]. *)
Definition strip_tpmt_signature_header (sig : list Z) : list Z :=
  if (6 <=? blen sig)
     && bool_decide (get_range sig 0 2 = Some [0; 20])
     && bool_decide (get_range sig 2 4 = Some [0; 11]) then
    match be_int <$> get_range sig 4 6 with
    | Some inner_len =>
        if 6 + inner_len <=? blen sig then default sig (get_range sig 6 (6 + inner_len)) else sig
    | None => sig
    end
  else sig.

(** [ak_pub_attributes_look_like_quoting_key]: [restricted] and [sign]. *)
Definition ak_pub_attributes_look_like_quoting_key (ak_pub_tpm2b : list Z) : bool :=
  match get_range ak_pub_tpm2b 6 10 with
  | None => false
  | Some attrs_slice =>
      let attrs := be_int attrs_slice in
      let mask := Z.lor (Z.shiftl 1 16) (Z.shiftl 1 10) in
      Z.land attrs mask =? mask
  end.
End TpmPublic.

(** ** The Azure HCLA blob ([snp_source.rs]) *)
Module Hcla.
Definition AZURE_HCLA_HEADER_LEN : Z := 32.
Definition AZURE_HCL_IGVM_OFF : Z := AZURE_HCLA_HEADER_LEN + SnpReport.REPORT_SIZE.
Definition AZURE_HCL_VAR_DATA_OFF : Z := AZURE_HCL_IGVM_OFF + 20.
Definition extract_snp_report (hcla_blob : list Z) : option (list Z) :=
  let start := AZURE_HCLA_HEADER_LEN in
  e ← checked_add USIZE_MAX start SnpReport.REPORT_SIZE;
  get_range hcla_blob start e.
Definition hcl_report_type (hcla_blob : list Z) : option Z :=
  let off := AZURE_HCL_IGVM_OFF + 8 in
  le_int <$> get_range hcla_blob off (off + 4).
Definition extract_var_data (hcla_blob : list Z) : option (list Z) :=
  let sz_off := AZURE_HCL_IGVM_OFF + 16 in
  size ← le_int <$> get_range hcla_blob sz_off (sz_off + 4);
  e ← checked_add USIZE_MAX AZURE_HCL_VAR_DATA_OFF size;
  if size =? 0 then None else get_range hcla_blob AZURE_HCL_VAR_DATA_OFF e.
(** [decode_exitinfo2]: firmware and VMM error halves. *)
Definition decode_exitinfo2 (exitinfo2 : Z) : Z * Z :=
  (Z.land exitinfo2 4294967295, Z.shiftr exitinfo2 32).
End Hcla.
(** ** The firmware report *)

(** A report laid out field by field, with the bytes between them. *)
Definition report_body (f : SnpReport.ReportFields) (g1 g2 g3 g4 g5 g6 g7 : list Z) : list Z :=
  le_bytes 4 (SnpReport.version f) ++ g1 ++ le_bytes 8 (SnpReport.guest_policy f) ++ g2 ++
  le_bytes 4 (SnpReport.sig_algo f) ++ g3 ++ SnpReport.report_data f ++ SnpReport.measurement f ++
  g4 ++ SnpReport.report_id f ++ g5 ++ le_bytes 8 (SnpReport.reported_tcb f) ++ g6 ++
  SnpReport.chip_id f ++ g7.
(** The sizes of the fields and of the gaps. *)
Definition report_sizes (f : SnpReport.ReportFields) (g1 g2 g3 g4 g5 g6 g7 sig : list Z) : Prop :=
  in_range U32_MAX (SnpReport.version f) /\ in_range U64_MAX (SnpReport.guest_policy f) /\
  in_range U32_MAX (SnpReport.sig_algo f) /\ blen (SnpReport.report_data f) = 64 /\
  blen (SnpReport.measurement f) = 48 /\ blen (SnpReport.report_id f) = 32 /\
  in_range U64_MAX (SnpReport.reported_tcb f) /\ blen (SnpReport.chip_id f) = 64 /\
  blen g1 = 4 /\ blen g2 = 36 /\ blen g3 = 24 /\ blen g4 = 128 /\ blen g5 = 32 /\ blen g6 = 24 /\
  blen g7 = 192 /\ blen sig = 512.

Lemma signed_bytes_parse b1 b2 s :
  SnpReport.signed_bytes b1 = Some s -> SnpReport.signed_bytes b2 = Some s ->
  SnpReport.parse b1 = SnpReport.parse b2.
Proof.
  unfold SnpReport.signed_bytes, SnpReport.parse.
  destruct (Z.eqb_spec (blen b1) SnpReport.REPORT_SIZE) as [Hb1|]; [|done].
  destruct (Z.eqb_spec (blen b2) SnpReport.REPORT_SIZE) as [Hb2|]; [|done]. cbn [negb].
  rewrite !get_range_Some. intros (_ & _ & p1 & s1 & -> & Hp1 & Hs) (_ & _ & p2 & s2 & -> & Hp2 & _).
  unfold blen in Hp1, Hp2. destruct p1, p2; try done. cbn [app].
  unfold SnpReport.SIGNED_LEN, SnpReport.REPORT_SIZE in *.
  by rewrite !(get_range_prefix s) by lia.
Qed.

(** The report fields sit at the offsets of the firmware ABI, and every one of
    them is covered by the firmware signature.  A report laid out field by field
    parses back to those fields, its signed region is everything before the
    512-byte signature; and two reports with the same signed region parse to the
    same fields, whatever their signature bytes. *)
Theorem report_layout f g1 g2 g3 g4 g5 g6 g7 sig :
  report_sizes f g1 g2 g3 g4 g5 g6 g7 sig ->
  let body := report_body f g1 g2 g3 g4 g5 g6 g7 in
  SnpReport.parse (body ++ sig) = Some f /\
  SnpReport.signed_bytes (body ++ sig) = Some body /\
  SnpReport.signature (body ++ sig) = Some sig /\
  forall b1 b2 s, SnpReport.signed_bytes b1 = Some s -> SnpReport.signed_bytes b2 = Some s ->
    SnpReport.parse b1 = SnpReport.parse b2.
Proof.
  intros (Hv & Hgp & Hsa & Hrd & Hme & Hri & Htc & Hch & H1 & H2 & H3 & H4 & H5 & H6 & H7 & Hs) body.
  assert (Hb : blen body = 672) by (unfold body, report_body; blen_lia).
  assert (Hl : blen (body ++ sig) = SnpReport.REPORT_SIZE) by (rewrite blen_app; unfold SnpReport.REPORT_SIZE; lia).
  split; [|split; [|split]].
  - unfold SnpReport.parse. rewrite Hl, Z.eqb_refl. cbn [negb].
    rewrite !(get_range_prefix body) by lia. unfold body, report_body. slices.
    cbn [fmap option_fmap option_map mbind option_bind].
    rewrite !le_int_u32, !le_int_u64 by done. by destruct f.
  - unfold SnpReport.signed_bytes. rewrite Hl, Z.eqb_refl. by apply get_range_head.
  - unfold SnpReport.signature. rewrite Hl, Z.eqb_refl. cbn [negb].
    rewrite get_range_skip by (unfold SnpReport.SIGNED_LEN, SnpReport.REPORT_SIZE; lia).
    unfold SnpReport.SIGNED_LEN, SnpReport.REPORT_SIZE. rewrite Hb. by apply get_range_full.
  - apply signed_bytes_parse.
Qed.

(** ** TPM structures *)

(** A quote body: signer name [qs], qualifying data [ed], and what follows. *)
Definition quote_body (attest_type : Z) (qs ed rest : list Z) : list Z :=
  be_bytes 4 TpmAttest.TPM_GENERATED_VALUE ++ be_bytes 2 attest_type ++
  be_bytes 2 (blen qs) ++ qs ++ be_bytes 2 (blen ed) ++ ed ++ rest.

Lemma be_int_magic : be_int (be_bytes 4 TpmAttest.TPM_GENERATED_VALUE) = TpmAttest.TPM_GENERATED_VALUE.
Proof. done. Qed.
(** The prefix test tells the two wire forms apart. *)
Lemma raw_body_not_prefixed t qs ed rest :
  be_int <$> get_range (quote_body t qs ed rest) 2 6 <> Some TpmAttest.TPM_GENERATED_VALUE.
Proof.
  unfold quote_body. set (tail := be_bytes 2 (blen qs) ++ _).
  change (be_bytes 4 TpmAttest.TPM_GENERATED_VALUE) with ([255; 84] ++ [67; 71]).
  rewrite <- app_assoc, (get_range_skip [255; 84]) by blen_lia.
  rewrite (app_assoc [67; 71]), get_range_head by blen_lia.
  cbn [fmap option_fmap option_map]. intros H. apply (inj Some) in H. revert H. unfold be_int.
  rewrite rev_app_distr. unfold be_bytes. rewrite rev_involutive.
  cbn [le_bytes app rev le_int foldr]. pose proof (Z.mod_pos_bound t 256).
  pose proof (Z.mod_pos_bound (t / 256) 256). unfold TpmAttest.TPM_GENERATED_VALUE. lia.
Qed.
Lemma parse_quote_body t qs ed rest :
  in_range U16_MAX t -> in_range U16_MAX (blen qs) -> in_range U16_MAX (blen ed) ->
  forall size, blen size = 2 \/ size = [] ->
  TpmAttest.parse_tpm2b_attest (size ++ quote_body t qs ed rest) =
    Some {| TpmAttest.magic := TpmAttest.TPM_GENERATED_VALUE; TpmAttest.attest_type := t;
            TpmAttest.extra_data := ed |}.
Proof.
  intros Ht Hqs Hed size Hsize. unfold TpmAttest.parse_tpm2b_attest.
  set (q := quote_body t qs ed rest).
  assert (Hm : get_range q 0 4 = Some (be_bytes 4 TpmAttest.TPM_GENERATED_VALUE))
    by (unfold q, quote_body; by rewrite get_range_head).
  assert (Hq : blen q = 10 + blen qs + blen ed + blen rest) by (unfold q, quote_body; blen_lia).
  pose proof (blen_nonneg qs). pose proof (blen_nonneg ed). pose proof (blen_nonneg rest).
  assert (Hbody : (if (6 <=? blen (size ++ q)) &&
      bool_decide (be_int <$> get_range (size ++ q) 2 6 = Some TpmAttest.TPM_GENERATED_VALUE)
    then get_from (size ++ q) 2 else Some (size ++ q)) = Some q).
  { destruct Hsize as [Hs| ->].
    - rewrite get_range_skip, Hs by lia. change (2 - 2) with 0. change (6 - 2) with 4. rewrite Hm.
      rewrite (proj2 (Z.leb_le _ _)) by (rewrite blen_app; lia). apply get_from_Some. by exists size.
    - cbn [app]. by rewrite (bool_decide_false _ (raw_body_not_prefixed t qs ed rest)), andb_false_r. }
  rewrite Hbody. cbn [mbind option_bind]. rewrite (proj2 (Z.ltb_ge _ 8)) by lia.
  unfold in_range, U16_MAX in *.
  assert (get_range q 4 6 = Some (be_bytes 2 t)) as -> by (unfold q, quote_body; slices; done).
  assert (get_range q 6 8 = Some (be_bytes 2 (blen qs))) as -> by (unfold q, quote_body; slices; done).
  rewrite Hm. cbn [fmap option_fmap option_map mbind option_bind]. rewrite be_int_magic, Z.eqb_refl.
  cbn [negb]. rewrite !be_int_u16 by done.
  assert (Hadd : forall a b, a + b <= 200000 -> checked_add USIZE_MAX a b = Some (a + b)).
  { intros a b Hab. apply checked_add_Some. unfold USIZE_MAX, U64_MAX. lia. }
  rewrite (Hadd 8) by lia. cbn [mbind option_bind]. rewrite (proj2 (Z.ltb_ge _ _)) by lia.
  assert (get_range q (8 + blen qs) (8 + blen qs + 2) = Some (be_bytes 2 (blen ed))) as ->
    by (unfold q, quote_body; slices; done).
  cbn [fmap option_fmap option_map mbind option_bind]. rewrite be_int_u16, Hadd by (done || lia).
  cbn [mbind option_bind].
  assert (get_range q (8 + blen qs + 2) (8 + blen qs + 2 + blen ed) = Some ed) as ->
    by (unfold q, quote_body; slices; done).
  done.
Qed.
Lemma parse_quote_inv msg a :
  is_bytes msg -> TpmAttest.parse_tpm2b_attest msg = Some a ->
  exists size t qs ed rest, (blen size = 2 \/ size = []) /\ msg = size ++ quote_body t qs ed rest /\
    in_range U16_MAX t /\ in_range U16_MAX (blen qs) /\ in_range U16_MAX (blen ed) /\
    a = {| TpmAttest.magic := TpmAttest.TPM_GENERATED_VALUE; TpmAttest.attest_type := t;
           TpmAttest.extra_data := ed |}.
Proof.
  intros Hb H. unfold TpmAttest.parse_tpm2b_attest in H.
  apply bind_Some in H as (body & Hbody & H).
  assert (exists size, (blen size = 2 \/ size = []) /\ msg = size ++ body) as (size & Hsize & ->).
  { destruct (_ && _); [|injection Hbody as <-; by exists []; auto].
    apply get_from_Some in Hbody as (p & -> & Hp). exists p. auto. }
  clear Hbody. apply is_bytes_app in Hb as [_ Hb].
  destruct (Z.ltb_spec (blen body) 8); [done|].
  apply bind_Some in H as (magic & Hm & H). apply fmap_Some in Hm as (m & Hm & ->).
  destruct (Z.eqb_spec (be_int m) TpmAttest.TPM_GENERATED_VALUE) as [Em|]; [|done]. cbn [negb] in H.
  apply bind_Some in H as (ty & Ht & H). apply fmap_Some in Ht as (t & Ht & ->).
  apply bind_Some in H as (ql & Hq & H). apply fmap_Some in Hq as (q & Hq & ->).
  apply bind_Some in H as (qe & Hqe & H). apply checked_add_Some in Hqe as [-> _].
  destruct (Z.ltb_spec (blen body) (8 + be_int q + 2)); [done|].
  apply bind_Some in H as (el & He & H). apply fmap_Some in He as (e & He & ->).
  apply bind_Some in H as (ee & Hee & H). apply checked_add_Some in Hee as [-> _].
  apply bind_Some in H as (ed & Hed & H). injection H as <-.
  apply (get_range_at [] body) in Hm as (r1 & -> & Hm); [|done].
  apply get_range_at in Ht as (r2 & -> & Ht); [|lia].
  rewrite app_assoc in Hq. apply get_range_at in Hq as (r3 & -> & Hq); [|blen_lia].
  apply is_bytes_app in Hb as [Hbm Hb]. apply is_bytes_app in Hb as [Hbt Hb].
  apply is_bytes_app in Hb as [Hbq Hb].
  pose proof (be_int_u16_range t Hbt ltac:(lia)) as Rt. pose proof (be_int_u16_range q Hbq ltac:(lia)) as Rq.
  assert (exists qs r4, r3 = qs ++ r4 /\ blen qs = be_int q) as (qs & r4 & -> & Hqs).
  { exists (take (Z.to_nat (be_int q)) r3), (drop (Z.to_nat (be_int q)) r3).
    rewrite take_drop. split; [done|]. unfold blen, in_range in *. rewrite length_take.
    rewrite !length_app in *. lia. }
  rewrite !app_assoc in He. apply get_range_at in He as (r5 & -> & He); [|blen_lia].
  apply is_bytes_app in Hb as [Hbqs Hb]. apply is_bytes_app in Hb as [Hbe Hb].
  pose proof (be_int_u16_range e Hbe ltac:(lia)) as Re.
  rewrite !app_assoc in Hed. apply get_range_at in Hed as (r6 & -> & Hed); [|blen_lia].
  exists size, (be_int t), qs, ed, r6. split; [done|].
  assert (Hel : blen ed = be_int e) by lia. rewrite <- Hqs in Rq. rewrite <- Hel in Re.
  split; [|by rewrite Em]. f_equal. unfold quote_body. rewrite <- Em, Hqs, Hel.
  by rewrite !be_bytes_be_int by (done || lia).
Qed.

(** The quote parser accepts exactly the TPM attestation structures, with or
    without the outer size.  A byte string parses to [a] if and only if it is the
    magic, a type, a length-prefixed signer name, a length-prefixed [extraData]
    and a tail, optionally behind two more bytes; [a] holds that type and that
    [extraData]. *)
Theorem quote_parser_exact msg a :
  is_bytes msg ->
  TpmAttest.parse_tpm2b_attest msg = Some a <->
  exists size t qs ed rest, (blen size = 2 \/ size = []) /\ msg = size ++ quote_body t qs ed rest /\
    in_range U16_MAX t /\ in_range U16_MAX (blen qs) /\ in_range U16_MAX (blen ed) /\
    a = {| TpmAttest.magic := TpmAttest.TPM_GENERATED_VALUE; TpmAttest.attest_type := t;
           TpmAttest.extra_data := ed |}.
Proof.
  intros Hb. split; [by apply parse_quote_inv|].
  intros (size & t & qs & ed & rest & Hs & -> & Ht & Hq & He & ->). by apply parse_quote_body.
Qed.

(** An RSA-2048 RSASSA-SHA256 public area. *)
Definition ak_public (name_alg attributes : Z) (policy : list Z) (exponent : Z) (modulus : list Z) : list Z :=
  be_bytes 2 TpmPublic.TPM_ALG_RSA ++ be_bytes 2 name_alg ++ be_bytes 4 attributes ++
  be_bytes 2 (blen policy) ++ policy ++ be_bytes 2 TpmPublic.TPM_ALG_NULL ++
  be_bytes 2 TpmPublic.TPM_ALG_RSASSA ++ be_bytes 2 TpmPublic.TPM_ALG_SHA256 ++ be_bytes 2 2048 ++
  be_bytes 4 exponent ++ be_bytes 2 256 ++ modulus.

(** Reading at the end of what was consumed. *)
Lemma read_bytes_inv c rest n off x off' :
  TpmPublic.read_bytes (c ++ rest) n off = (Ok x, off') -> blen c = off ->
  exists rest', rest = x ++ rest' /\ blen x = n /\ off' = blen (c ++ x).
Proof.
  unfold TpmPublic.read_bytes. unfold_m. intros H Hc.
  destruct (checked_add USIZE_MAX off n) eqn:E1; [|done]. cbn in H.
  destruct (get_range (c ++ rest) off z) eqn:E2; [|done]. cbn in H. simplify_eq.
  apply checked_add_Some in E1 as [-> _]. apply get_range_at in E2 as (r & -> & Hx); [|done].
  exists r. split; [done|]. rewrite blen_app. lia.
Qed.
Lemma read_bytes_app c x rest n off :
  blen c = off -> blen x = n -> off + n <= U32_MAX ->
  TpmPublic.read_bytes (c ++ x ++ rest) n off = (Ok x, off + n).
Proof.
  intros Hc Hx Hle. assert (Hadd : checked_add USIZE_MAX off n = Some (off + n)).
  { apply checked_add_Some. unfold USIZE_MAX, U64_MAX, U32_MAX in *. lia. }
  unfold TpmPublic.read_bytes. unfold_m. rewrite Hadd. cbn. rewrite get_range_app by lia. done.
Qed.
Lemma M_bind_Ok {S Er A B} (m : M S Er A) (f : A -> M S Er B) s b s' :
  (m ≫= f) s = (Ok b, s') <-> exists a s1, m s = (Ok a, s1) /\ f a s1 = (Ok b, s').
Proof. unfold mbind, M_bind. destruct (m s) as [[a|e] s1]; naive_solver. Qed.
Lemma read_ok body n off x :
  get_range body off (off + n) = Some x -> off + n <= U32_MAX ->
  TpmPublic.read_bytes body n off = (Ok x, off + n).
Proof.
  intros H Hle. assert (Hadd : checked_add USIZE_MAX off n = Some (off + n)).
  { apply checked_add_Some. unfold USIZE_MAX, U64_MAX, U32_MAX in *. lia. }
  unfold TpmPublic.read_bytes. unfold_m. rewrite Hadd. cbn. by rewrite H.
Qed.
Lemma read_u16_ok body off v :
  get_range body off (off + 2) = Some (be_bytes 2 v) -> off + 2 <= U32_MAX -> in_range U16_MAX v ->
  TpmPublic.read_u16 body off = (Ok v, off + 2).
Proof. intros H Hle Hv. unfold TpmPublic.read_u16, mbind, M_bind. by rewrite (read_ok _ _ _ _ H Hle), be_int_u16. Qed.
Lemma read_u32_ok body off v :
  get_range body off (off + 4) = Some (be_bytes 4 v) -> off + 4 <= U32_MAX -> in_range U32_MAX v ->
  TpmPublic.read_u32 body off = (Ok v, off + 4).
Proof.
  intros H Hle Hv. unfold TpmPublic.read_u32, mbind, M_bind. rewrite (read_ok _ _ _ _ H Hle).
  rewrite be_int_be_bytes; [done|]. unfold in_range, U32_MAX in Hv.
  change (256 ^ Z.of_nat 4) with 4294967296. lia.
Qed.
Lemma read_u16_inv c rest off v off' :
  TpmPublic.read_u16 (c ++ rest) off = (Ok v, off') -> blen c = off -> is_bytes rest ->
  exists rest', rest = be_bytes 2 v ++ rest' /\ in_range U16_MAX v /\ off' = off + 2 /\ is_bytes rest'.
Proof.
  unfold TpmPublic.read_u16. rewrite M_bind_Ok. intros (x & s1 & H & [= <- <-]) Hc Hr.
  apply read_bytes_inv in H as (r & -> & Hx & ->); [|done]. apply is_bytes_app in Hr as [Hbx Hr].
  exists r. rewrite (be_bytes_be_int x 2) by done. split; [done|].
  split; [by apply be_int_u16_range|]. by rewrite blen_app, Hc, Hx.
Qed.
Lemma read_u32_inv c rest off v off' :
  TpmPublic.read_u32 (c ++ rest) off = (Ok v, off') -> blen c = off -> is_bytes rest ->
  exists rest', rest = be_bytes 4 v ++ rest' /\ in_range U32_MAX v /\ off' = off + 4 /\ is_bytes rest'.
Proof.
  unfold TpmPublic.read_u32. rewrite M_bind_Ok. intros (x & s1 & H & [= <- <-]) Hc Hr.
  apply read_bytes_inv in H as (r & -> & Hx & ->); [|done]. apply is_bytes_app in Hr as [Hbx Hr].
  exists r. rewrite (be_bytes_be_int x 4) by done. split; [done|].
  apply be_int_range in Hbx. rewrite Hx in Hbx. change (256 ^ 4) with 4294967296 in Hbx.
  unfold in_range, U32_MAX. split; [lia|]. by rewrite blen_app, Hc, Hx.
Qed.
Lemma reject_unless_inv b off u off' :
  TpmPublic.reject_unless b off = (Ok u, off') -> b = true /\ off' = off.
Proof. unfold TpmPublic.reject_unless. destruct b; cbn; unfold_m; naive_solver. Qed.

(** Undo one reader: what it consumed moves to the left of the cursor. *)
Ltac read_inv H :=
  let v := fresh "v" in let s := fresh "s" in let Hr := fresh "Hr" in
  apply M_bind_Ok in H as (v & s & Hr & H);
  lazymatch type of Hr with
  | TpmPublic.reject_unless _ _ = _ => apply reject_unless_inv in Hr as [Hr ->]
  | TpmPublic.read_u16 _ _ = _ =>
      apply read_u16_inv in Hr as (? & -> & ? & -> & ?); [|blen_lia|done]; rewrite app_assoc in H
  | TpmPublic.read_u32 _ _ = _ =>
      apply read_u32_inv in Hr as (? & -> & ? & -> & ?); [|blen_lia|done]; rewrite app_assoc in H
  end.
Lemma parse_body_inv body m off :
  is_bytes body -> TpmPublic.parse_body body 0 = (Ok m, off) ->
  exists name_alg attributes policy exponent,
    in_range U16_MAX name_alg /\ in_range U32_MAX attributes /\ in_range U16_MAX (blen policy) /\
    (exponent = 0 \/ exponent = 65537) /\ blen m = 256 /\
    body = ak_public name_alg attributes policy exponent m.
Proof.
  intros Hb H. unfold TpmPublic.parse_body in H. change body with ([] ++ body) in H.
  do 5 read_inv H. apply M_bind_Ok in H as (policy & s' & Hp & H).
  apply read_bytes_inv in Hp as (r & -> & Hpl & ->); [|blen_lia]. rewrite app_assoc in H.
  match goal with H : is_bytes (policy ++ r) |- _ => apply is_bytes_app in H as [_ ?] end.
  do 12 read_inv H. apply M_bind_Ok in H as (md & s'' & Hm & H).
  apply read_bytes_inv in Hm as (r2 & -> & Hml & ->); [|blen_lia].
  unfold get in H. apply M_bind_Ok in H as (o & s3 & [= <- <-] & H).
  read_inv H. injection H as <- _. reflect_Z. subst.
  match goal with H : (_ || _) = true |- _ => apply orb_true_iff in H; rewrite !Z.eqb_eq in H end.
  assert (r2 = []) as ->. { destruct r2 as [|b r2]; [done|]. pose proof (blen_nonneg r2). blen_lia. }
  exists v1, v2, policy, v12. do 5 (split; [done|]). by rewrite app_nil_r.
Qed.
Lemma blen_ak_public na at_ policy ex m :
  blen (ak_public na at_ policy ex m) = 24 + blen policy + blen m.
Proof. unfold ak_public. blen_lia. Qed.
(** Run one reader at a known place. *)
Ltac read_run :=
  unfold mbind at 1; unfold M_bind at 1;
  first
    [ erewrite read_u16_ok;
        [|unfold ak_public; slices; reflexivity|unfold U32_MAX; lia
         |first [assumption|unfold in_range, U16_MAX; by vm_compute]]
    | erewrite read_u32_ok;
        [|unfold ak_public; slices; reflexivity|unfold U32_MAX; lia|assumption]
    | match goal with |- context [TpmPublic.reject_unless ?b _] =>
        replace b with true by (symmetry; (apply Z.eqb_eq; blen_lia) || done) end;
      unfold TpmPublic.reject_unless at 1; cbn [negb]; unfold mret at 1; unfold M_ret at 1 ].
Lemma parse_ak_public na at_ policy ex m :
  in_range U16_MAX na -> in_range U32_MAX at_ -> in_range U16_MAX (blen policy) ->
  ex = 0 \/ ex = 65537 -> blen m = 256 ->
  fst (TpmPublic.parse_body (ak_public na at_ policy ex m) 0) = Ok m.
Proof.
  intros Hna Hat Hpol Hex Hm. pose proof Hpol as Hpol'. unfold in_range, U16_MAX in Hpol'.
  assert (Hexr : in_range U32_MAX ex) by (unfold in_range, U32_MAX; lia).
  assert (Hexb : ((ex =? 0) || (ex =? 65537)) = true) by (destruct Hex as [-> | ->]; done).
  unfold TpmPublic.parse_body. do 5 read_run.
  unfold mbind at 1; unfold M_bind at 1.
  rewrite (read_ok _ _ _ policy) by first [unfold ak_public; slices; done | unfold U32_MAX; lia].
  do 9 read_run. rewrite Hexb. do 3 read_run.
  unfold mbind at 1; unfold M_bind at 1.
  rewrite (read_ok _ _ _ m) by first [unfold ak_public; rewrite <- (app_nil_r m); slices; rewrite ?app_nil_r; done | unfold U32_MAX; lia].
  unfold mbind at 1; unfold M_bind at 1; unfold get at 1. rewrite blen_ak_public, Hm. read_run. done.
Qed.

(** The AK parser accepts exactly one public area, with nothing behind it.  A
    byte string yields the modulus [m] if and only if it is the length-prefixed
    encoding of an unencrypted RSA-2048 RSASSA-SHA256 key with the default
    exponent and that modulus. *)
Theorem ak_parser_exact x m :
  is_bytes x ->
  TpmPublic.azure_ak_rsa_modulus x = Ok m <->
  exists name_alg attributes policy exponent,
    in_range U16_MAX name_alg /\ in_range U32_MAX attributes /\ in_range U16_MAX (blen policy) /\
    (exponent = 0 \/ exponent = 65537) /\ blen m = 256 /\ 280 + blen policy <= U16_MAX /\
    let area := ak_public name_alg attributes policy exponent m in x = be_bytes 2 (blen area) ++ area.
Proof.
  intros Hb. unfold TpmPublic.azure_ak_rsa_modulus. split.
  - rewrite bind_ok. intros (l & Hl & H). rewrite ok_or_ok in Hl. rewrite bind_ok in H.
    destruct H as (body & Hbody & H). rewrite ok_or_ok in Hbody.
    apply get_from_Some in Hbody as (p & -> & Hp). rewrite <- (app_nil_r p), <- app_assoc in Hl.
    rewrite app_nil_l in Hl. rewrite get_range_head in Hl by done. injection Hl as <-.
    apply is_bytes_app in Hb as [Hbp Hbb].
    destruct (Z.eqb_spec (blen body) (be_int p)) as [Hlen|]; [|done]. cbn [negb] in H.
    destruct (TpmPublic.parse_body body 0) as [r off] eqn:E. cbn in H. subst r.
    apply parse_body_inv in E as (na & at_ & pol & ex & H1 & H2 & H3 & H4 & H5 & ->); [|done].
    exists na, at_, pol, ex. do 5 (split; [done|]). pose proof (be_int_u16_range p Hbp Hp) as Hr.
    rewrite <- Hlen, blen_ak_public, H5 in Hr. split; [unfold in_range in Hr; lia|].
    cbn zeta. by rewrite Hlen, be_bytes_be_int.
  - intros (na & at_ & pol & ex & H1 & H2 & H3 & H4 & H5 & H6 & ->).
    rewrite get_range_head by blen_lia. cbn [ok_or mbind result_bind].
    assert (get_from (be_bytes 2 (blen (ak_public na at_ pol ex m)) ++ ak_public na at_ pol ex m) 2
            = Some (ak_public na at_ pol ex m)) as ->.
    { apply get_from_Some. eexists. split; [done|]. blen_lia. }
    cbn [ok_or mbind result_bind]. rewrite be_int_u16, Z.eqb_refl; [by apply parse_ak_public|].
    rewrite blen_ak_public. pose proof (blen_nonneg pol). unfold in_range. lia.
Qed.

(** Concrete structures. *)
Module ParseDemo.
Definition fields (rd : list Z) : SnpReport.ReportFields :=
  {| SnpReport.version := 2; SnpReport.guest_policy := 196608; SnpReport.sig_algo := 1;
     SnpReport.report_data := rd; SnpReport.measurement := replicate 48 1;
     SnpReport.report_id := replicate 32 2; SnpReport.reported_tcb := 7;
     SnpReport.chip_id := replicate 64 3 |}.
Definition body (rd : list Z) : list Z :=
  report_body (fields rd) (replicate 4 0) (replicate 36 0) (replicate 24 0) (replicate 128 0)
    (replicate 32 0) (replicate 24 0) (replicate 192 0).
Definition ak_pub : list Z :=
  let area := ak_public 11 327794 [] 0 (replicate 256 7) in be_bytes 2 (blen area) ++ area.
Lemma report_layout_witness :
  report_sizes (fields (replicate 64 1)) (replicate 4 0) (replicate 36 0) (replicate 24 0) (replicate 128 0)
    (replicate 32 0) (replicate 24 0) (replicate 192 0) (replicate 512 0) /\
  SnpReport.parse (body (replicate 64 1) ++ replicate 512 0) = Some (fields (replicate 64 1)).
Proof.
  assert (H : report_sizes (fields (replicate 64 1)) (replicate 4 0) (replicate 36 0) (replicate 24 0)
    (replicate 128 0) (replicate 32 0) (replicate 24 0) (replicate 192 0) (replicate 512 0)).
  { unfold report_sizes, in_range. cbn [fields SnpReport.version SnpReport.guest_policy SnpReport.sig_algo
      SnpReport.report_data SnpReport.measurement SnpReport.report_id SnpReport.reported_tcb SnpReport.chip_id].
    rewrite !blen_replicate. unfold U32_MAX, U64_MAX. lia. }
  split; [exact H|]. exact (proj1 (report_layout _ _ _ _ _ _ _ _ _ H)).
Defined.
Lemma quote_parser_exact_witness :
  is_bytes [255; 84; 67; 71; 128; 24; 0; 0; 0; 1; 9] /\
  exists size t qs ed rest, (blen size = 2 \/ size = []) /\
    [255; 84; 67; 71; 128; 24; 0; 0; 0; 1; 9] = size ++ quote_body t qs ed rest.
Proof.
  assert (H : is_bytes [255; 84; 67; 71; 128; 24; 0; 0; 0; 1; 9]).
  { repeat constructor; unfold is_byte; lia. }
  split; [exact H|].
  destruct (proj1 (quote_parser_exact _ {| TpmAttest.magic := TpmAttest.TPM_GENERATED_VALUE;
    TpmAttest.attest_type := 32792; TpmAttest.extra_data := [9] |} H) ltac:(vm_compute; reflexivity))
    as (size & t & qs & ed & rest & Hs & Hm & _).
  exists size, t, qs, ed, rest. exact (conj Hs Hm).
Defined.
Lemma ak_pub_bytes : is_bytes ak_pub.
Proof. apply (bool_decide_unpack (is_bytes ak_pub)). vm_compute. exact I. Qed.
Lemma ak_parser_exact_witness :
  TpmPublic.azure_ak_rsa_modulus ak_pub = Ok (replicate 256 7) /\
  exists na at_ pol ex, ak_pub = be_bytes 2 (blen (ak_public na at_ pol ex (replicate 256 7)))
                                  ++ ak_public na at_ pol ex (replicate 256 7).
Proof.
  assert (H : TpmPublic.azure_ak_rsa_modulus ak_pub = Ok (replicate 256 7)) by (vm_compute; reflexivity).
  split; [exact H|]. destruct (proj1 (ak_parser_exact _ _ ak_pub_bytes) H) as (na & at_ & pol & ex & _ & _ & _ & _ & _ & _ & Hx).
  exists na, at_, pol, ex. exact Hx.
Defined.
End ParseDemo.
