(* ===== verification/Attestation.v ===== *)
(** * Attestation evidence ([crates/ne-attestation/src])

    The certificate chain of a firmware report ([vcek.rs]), and the evidence
    envelope with its providers and its verifier ([lib.rs], [snp_source.rs]).
    X.509 decoding, RSA, ECDSA and the JWK reader come from third-party crates
    and are the class [AttestEnv]; [AttestDemo] instantiates it. *)

From S2P Require Import Prelude Text Json Crypto Bytes AttestParse.

(** ** Third-party primitives *)

(** What the source reads of a decoded X.509 certificate. *)
Record Certificate := {
  spki_oid : string;
  subject_public_key : option (list Z);
  signature_oid : string;
}.
Class AttestEnv := {
  RsaKey : Type;
  EcKey : Type;
  PssSignature : Type;
  EcSignature : Type;
  certificate_from_der : list Z -> option Certificate;
  rsa_from_pkcs1_der : list Z -> option RsaKey;
  p384_from_sec1_bytes : list Z -> option EcKey;
  pss_signature_from : list Z -> option PssSignature;
  p384_signature_from_der : list Z -> option EcSignature;
  p384_signature_from_slice : list Z -> option EcSignature;
  pss_verify : RsaKey -> list Z -> PssSignature -> bool;
  p384_verify : EcKey -> list Z -> EcSignature -> bool;
  (** [RsaPublicKey::new(modulus, 65537)], [pkcs1v15::Signature::try_from] and
      [verify], in this order, all succeed. *)
  pkcs1v15_verify : list Z -> list Z -> list Z -> bool;
  sha512 : list Z -> list Z;
  (** The [kid] and [n] of each key of a JWK set. *)
  jwk_set_from_slice : list Z -> option (list (option string * string));
  b64url_decode : string -> option (list Z);
}.

(** ** The certificate chain ([vcek.rs]) *)
Module Vcek.
Section Vcek.
Context {E : AttestEnv}.

Definition OID_SPKI_RSA : string := "1.2.840.113549.1.1.1".
Definition OID_SIG_RSASSA_PSS : string := "1.2.840.113549.1.1.10".
Definition OID_SIG_ECDSA_SHA384 : string := "1.2.840.10045.4.3.3".

Inductive VcekError :=
| VcekError_MalformedCert | VcekError_BadChain | VcekError_BadSignature | VcekError_Network.
Inductive PubKey := PubKey_Rsa (k : RsaKey) | PubKey_EcP384 (k : EcKey).
Record AmdRootCert := { verifying_key : PubKey }.

(** [len = (len << 8) | byte], [n] times from [idx]. *)
Fixpoint der_len_bytes (buf : list Z) (n : nat) (idx len : Z) : option Z :=
  match n with
  | O => Some len
  | S n => b ← get_byte buf idx; der_len_bytes buf n (idx + 1) (Z.lor (Z.shiftl len 8) b)
  end.
Definition der_len (buf : list Z) (idx : Z) : option (Z * Z) :=
  first ← get_byte buf idx;
  if first <? 128 then Some (first, idx + 1)
  else
    let n := Z.land first 127 in
    if (n =? 0) || (4 <? n) then None
    else len ← der_len_bytes buf (Z.to_nat n) (idx + 1) 0; Some (len, idx + 1 + n).

(** One turn of the splitting loop at [p]: the certificate there and the next
    position. *)
Definition split_step (blob : list Z) (p : Z) : option (list Z * Z) :=
  tag ← get_byte blob p;
  if negb (tag =? 48) then None
  else
    '(len, cs) ← der_len blob (p + 1);
    e ← checked_add USIZE_MAX cs len;
    slice ← get_range blob p e;
    Some (slice, e).
(** The loop [while p < blob.len()]; [Err tt] is a run that outlasts its fuel. *)
Fixpoint split_loop (fuel : nat) (blob : list Z) (p : Z) (out : list (list Z))
    : result unit (option (list (list Z))) :=
  if negb (p <? blen blob) then Ok (Some out)
  else
    match fuel with
    | O => Err tt
    | S f =>
        match split_step blob p with
        | None => Ok None
        | Some (slice, e) => split_loop f blob e (out ++ [slice])
        end
    end.
Definition split_concat_der (blob : list Z) : option (list (list Z)) :=
  match split_loop (length blob) blob 0 [] with Ok r => r | Err _ => None end.

Definition cert_tbs_and_sig (cert_der : list Z) : option (list Z * list Z) :=
  t0 ← get_byte cert_der 0;
  if negb (t0 =? 48) then None
  else
    '(_, outer_cs) ← der_len cert_der 1;
    outer ← get_from cert_der outer_cs;
    t1 ← get_byte outer 0;
    if negb (t1 =? 48) then None
    else
      '(tbs_len, tbs_cs) ← der_len outer 1;
      tbs_end ← checked_add USIZE_MAX tbs_cs tbs_len;
      tbs ← get_range outer 0 tbs_end;
      let p := tbs_end in
      t2 ← get_byte outer p;
      if negb (t2 =? 48) then None
      else
        '(sa_len, sa_cs) ← der_len outer (p + 1);
        p ← checked_add USIZE_MAX sa_cs sa_len;
        t3 ← get_byte outer p;
        if negb (t3 =? 3) then None
        else
          '(sv_len, sv_cs) ← der_len outer (p + 1);
          sv_end ← checked_add USIZE_MAX sv_cs sv_len;
          bitstring ← get_range outer sv_cs sv_end;
          unused_bits ← get_byte bitstring 0;
          if negb (unused_bits =? 0) then None
          else sig ← get_from bitstring 1; Some (tbs, sig).

Definition cert_pubkey (cert_der : list Z) : result VcekError PubKey :=
  cert ← ok_or (certificate_from_der cert_der) VcekError_MalformedCert;
  key_bytes ← ok_or (subject_public_key cert) VcekError_MalformedCert;
  if String.eqb (spki_oid cert) OID_SPKI_RSA then
    rsa_pub ← ok_or (rsa_from_pkcs1_der key_bytes) VcekError_MalformedCert;
    Ok (PubKey_Rsa rsa_pub)
  else
    vk ← ok_or (p384_from_sec1_bytes key_bytes) VcekError_MalformedCert;
    Ok (PubKey_EcP384 vk).
Definition from_der (ark_der : list Z) : result VcekError AmdRootCert :=
  k ← cert_pubkey ark_der; Ok {| verifying_key := k |}.

Definition verify_cert_signature (cert_der : list Z) (issuer : PubKey) : result VcekError unit :=
  '(tbs, sig_bytes) ← ok_or (cert_tbs_and_sig cert_der) VcekError_MalformedCert;
  cert ← ok_or (certificate_from_der cert_der) VcekError_MalformedCert;
  let sig_alg := signature_oid cert in
  if String.eqb sig_alg OID_SIG_RSASSA_PSS then
    match issuer with
    | PubKey_EcP384 _ => Err VcekError_BadChain
    | PubKey_Rsa vk =>
        signature ← ok_or (pss_signature_from sig_bytes) VcekError_MalformedCert;
        if pss_verify vk tbs signature then Ok tt else Err VcekError_BadChain
    end
  else if String.eqb sig_alg OID_SIG_ECDSA_SHA384 then
    match issuer with
    | PubKey_Rsa _ => Err VcekError_BadChain
    | PubKey_EcP384 vk =>
        signature ← ok_or (p384_signature_from_der sig_bytes) VcekError_MalformedCert;
        if p384_verify vk tbs signature then Ok tt else Err VcekError_BadChain
    end
  else Err VcekError_MalformedCert.

(** A 72-byte little-endian half of the report signature as a 48-byte
    big-endian scalar. *)
Definition amd_le_field_to_be48 (field72 : list Z) : option (list Z) :=
  if negb (blen field72 =? 72) then None else Some (drop 24 (rev field72)).
Definition amd_sig_to_p384 (sig : list Z) : option EcSignature :=
  tail ← get_range sig 144 512;
  if existsb (fun b => negb (b =? 0)) tail then None
  else
    r72 ← get_range sig 0 72;
    s72 ← get_range sig 72 144;
    r48 ← amd_le_field_to_be48 r72;
    s48 ← amd_le_field_to_be48 s72;
    p384_signature_from_slice (r48 ++ s48).

(** Every certificate is signed by the next one, the last one by the root. *)
Fixpoint walk_chain (certs : list (list Z)) (root : AmdRootCert) : result VcekError unit :=
  match certs with
  | [] => Ok tt
  | cert_der :: rest =>
      issuer_vk ← match rest with
                  | issuer :: _ => cert_pubkey issuer
                  | [] => Ok (verifying_key root)
                  end;
      _ ← verify_cert_signature cert_der issuer_vk;
      walk_chain rest root
  end.
Definition verify_report (report vcek_chain_der : list Z) (root : AmdRootCert)
    : result VcekError unit :=
  signed ← ok_or (SnpReport.signed_bytes report) VcekError_MalformedCert;
  sig_field ← ok_or (SnpReport.signature report) VcekError_MalformedCert;
  certs ← ok_or (split_concat_der vcek_chain_der) VcekError_MalformedCert;
  leaf ← ok_or (head certs) VcekError_BadChain;
  leaf_pubkey ← cert_pubkey leaf;
  _ ← walk_chain certs root;
  match leaf_pubkey with
  | PubKey_Rsa _ => Err VcekError_BadSignature
  | PubKey_EcP384 vcek_vk =>
      signature ← ok_or (amd_sig_to_p384 sig_field) VcekError_BadSignature;
      if p384_verify vcek_vk signed signature then Ok tt else Err VcekError_BadSignature
  end.

(** *** Fetching the chain *)

(** [VcekCache::get]: the cache is asked first, a fetched chain is kept.  The
    fetcher is an argument, so that a call can be counted. *)
Abbreviation CacheMap := (gmap (list Z * Z) (list Z)).
Definition cache_get (fetch : list Z -> Z -> result VcekError (list Z)) (chip_id : list Z) (tcb : Z)
    : M CacheMap VcekError (list Z) :=
  guard ← get;
  match guard !! (chip_id, tcb) with
  | Some v => mret v
  | None =>
      v ← lift (fetch chip_id tcb);
      put (<[(chip_id, tcb) := v]> guard) ;;; mret v
  end.

Definition hex_digit (d : Z) : string := String (char_of (if d <? 10 then 48 + d else 87 + d)) "".
Definition hex_byte (b : Z) : string := hex_digit (b / 16) +:+ hex_digit (b mod 16).
(** [KdsVcekFetcher::vcek_url]. *)
Definition vcek_url (base_url : string) (chip_id : list Z) (tcb : Z) : string :=
  let hex := foldr (fun b s => hex_byte b +:+ s) "" chip_id in
  let bl_spl := Z.land tcb 255 in
  let tee_spl := Z.land (Z.shiftr tcb 8) 255 in
  let snp_spl := Z.land (Z.shiftr tcb 48) 255 in
  let ucode_spl := Z.land (Z.shiftr tcb 56) 255 in
  base_url +:+ "/" +:+ hex +:+ "?blSPL=" +:+ show_uint bl_spl +:+ "&teeSPL=" +:+ show_uint tee_spl
    +:+ "&snpSPL=" +:+ show_uint snp_spl +:+ "&ucodeSPL=" +:+ show_uint ucode_spl.
End Vcek.
End Vcek.

(** ** The evidence envelope ([lib.rs]) *)

Inductive ProviderType := ProviderType_Software | ProviderType_SevSnp.
#[global] Instance ProviderType_eq_dec : EqDecision ProviderType.
Proof. solve_decision. Defined.
(** The [snake_case] name of a provider. *)
Definition ProviderType_to_string (t : ProviderType) : string :=
  match t with ProviderType_Software => "software" | ProviderType_SevSnp => "sev_snp" end.

(** [Nonce::new]: 16 to 64 bytes. *)
Definition Nonce_new (bytes : list Z) : option (list Z) :=
  if (16 <=? blen bytes) && (blen bytes <=? 64) then Some bytes else None.

Record EvidenceRequest := {
  req_workspace_id : string;
  req_measurement : list Z;
  req_nonce : list Z;
}.
Inductive EvidenceProof :=
| Proof_Software (signature signer_pubkey : list Z)
| Proof_SevSnp (report vcek_cert_chain : list Z)
| Proof_SevSnpAzure (report vcek_cert_chain var_data ak_pub_tpm2b quote_msg quote_sig : list Z).
Record Evidence := {
  provider_type : ProviderType;
  workspace_id : string;
  measurement : list Z;
  nonce : list Z;
  issued_at : Z;
  report_data : list Z;
  proof : EvidenceProof;
}.

(** [serialize] and [deserialize] of [u64_str]: canonical decimal text. *)
Definition u64_str_serialize (v : Z) : string := show_uint v.
Definition u64_str_deserialize (s : string) : option Z :=
  v ← parse_uint U64_MAX s;
  if String.eqb (show_uint v) s then Some v else None.

Inductive AttestationError :=
| AttestationError_CanonicalEncode
| AttestationError_Sign
| AttestationError_ReportFetch
| AttestationError_ReportFetchIoctl (errno fw_error vmm_error : Z)
| AttestationError_VcekFetch
| AttestationError_ReportFetchShellout (stderr : string).

Inductive FailReason :=
| FailReason_ProviderTypeNotAccepted
| FailReason_NonceMismatch
| FailReason_MeasurementMismatch
| FailReason_Stale
| FailReason_BadSignature
| FailReason_MalformedProof
| FailReason_UntrustedSigner
| FailReason_ProviderProofMismatch
| FailReason_ReportDataMismatch
| FailReason_BadCertChain
| FailReason_PolicyMismatch
| FailReason_TpmQuoteInvalid.
Inductive VerifyOutcome := VerifyOutcome_Verified | VerifyOutcome_Failed (reason : FailReason).

Section Evidence.
Context {C : Crypto} {E : AttestEnv} {Value : Type} {J : JsonVec Value}.

Definition canonical_report_data (provider_type : ProviderType) (req : EvidenceRequest)
    (issued_at : Z) : list Z :=
  let map : list (string * Field Value) := [] in
  let map := btree_insert "ctx" (Field_string "ne-enclave-attestation-v1") map in
  let map := btree_insert "provider_type" (Field_string (ProviderType_to_string provider_type)) map in
  let map := btree_insert "workspace_id" (Field_string (req_workspace_id req)) map in
  let map := btree_insert "measurement" (Field_string (hex_encode (req_measurement req))) map in
  let map := btree_insert "nonce" (Field_string (hex_encode (req_nonce req))) map in
  let map := btree_insert "issued_at" (Field_number issued_at) map in
  default [] (to_vec map).

(** [SoftwareProvider::generate]. *)
Definition software_generate (signing_key : SigningKey) (req : EvidenceRequest) (issued_at : Z)
    : result AttestationError Evidence :=
  let report_data := canonical_report_data ProviderType_Software req issued_at in
  if bool_decide (report_data = []) then Err AttestationError_CanonicalEncode
  else
    let signature := sign signing_key report_data in
    Ok {| provider_type := ProviderType_Software;
          workspace_id := req_workspace_id req;
          measurement := req_measurement req;
          nonce := req_nonce req;
          issued_at := issued_at;
          report_data := report_data;
          proof := Proof_Software signature (vk_to_bytes (Crypto.verifying_key signing_key)) |}.

(** A firmware report with the chip and TCB its certificate is keyed by. *)
Record SnpReport := { snp_report : list Z; snp_chip_id : list Z; snp_tcb : Z }.
(** The [/dev/sev-guest] source: the request succeeds with a 4000-byte
    response, or fails with an errno and [exitinfo2]. *)
Definition get_report (ioctl : list Z -> result (Z * Z) (list Z)) (report_data : list Z)
    : result AttestationError SnpReport :=
  data ← map_err (fun '(errno, exitinfo2) =>
             let '(fw, vmm) := Hcla.decode_exitinfo2 exitinfo2 in
             AttestationError_ReportFetchIoctl errno fw vmm) (ioctl report_data);
  report ← ok_or (get_range data 0 SnpReport.REPORT_SIZE) AttestationError_ReportFetch;
  parsed ← ok_or (SnpReport.parse report) AttestationError_ReportFetch;
  Ok {| snp_report := report; snp_chip_id := SnpReport.chip_id parsed;
        snp_tcb := SnpReport.reported_tcb parsed |}.
(** [SevSnpProvider::generate] without an Azure source. *)
Definition sev_snp_generate (source : list Z -> result AttestationError SnpReport)
    (vcek : list Z -> Z -> result Vcek.VcekError (list Z)) (req : EvidenceRequest) (issued_at : Z)
    : result AttestationError Evidence :=
  let report_data := canonical_report_data ProviderType_SevSnp req issued_at in
  if bool_decide (report_data = []) then Err AttestationError_CanonicalEncode
  else
    snp ← source (sha512 report_data);
    vcek_cert_chain ← map_err (fun _ => AttestationError_VcekFetch)
                        (vcek (snp_chip_id snp) (snp_tcb snp));
    Ok {| provider_type := ProviderType_SevSnp;
          workspace_id := req_workspace_id req;
          measurement := req_measurement req;
          nonce := req_nonce req;
          issued_at := issued_at;
          report_data := report_data;
          proof := Proof_SevSnp (snp_report snp) vcek_cert_chain |}.

(** The vTPM commands of the Azure source, each with its output or its trimmed
    standard error. *)
Record Tpm2 := {
  tpm2_nvread : result string (list Z);
  tpm2_readpublic : result string (list Z);
  tpm2_quote : list Z -> result string (list Z * list Z);
}.
Record AzureEvidence := {
  az_snp : SnpReport;
  az_var_data : list Z;
  az_ak_pub_tpm2b : list Z;
  az_quote_msg : list Z;
  az_quote_sig : list Z;
}.
Definition get_azure_evidence (tpm : Tpm2) (qualifying_data : list Z)
    : result AttestationError AzureEvidence :=
  blob ← map_err AttestationError_ReportFetchShellout (tpm2_nvread tpm);
  report ← ok_or (Hcla.extract_snp_report blob) AttestationError_ReportFetch;
  var_data ← ok_or (Hcla.extract_var_data blob) AttestationError_ReportFetch;
  parsed ← ok_or (SnpReport.parse report) AttestationError_ReportFetch;
  let snp := {| snp_report := report; snp_chip_id := SnpReport.chip_id parsed;
                snp_tcb := SnpReport.reported_tcb parsed |} in
  ak_pub_tpm2b ← map_err AttestationError_ReportFetchShellout (tpm2_readpublic tpm);
  '(quote_msg, quote_sig) ← map_err AttestationError_ReportFetchShellout
                              (tpm2_quote tpm qualifying_data);
  Ok {| az_snp := snp; az_var_data := var_data; az_ak_pub_tpm2b := ak_pub_tpm2b;
        az_quote_msg := quote_msg; az_quote_sig := quote_sig |}.
(** [AzureVtpmReportSource::open]: the two pre-flight checks. *)
Definition azure_open (tpm : Tpm2) : result string unit :=
  blob ← tpm2_nvread tpm;
  if bool_decide (Hcla.extract_snp_report blob = None)
  then Err "HCLA blob too short to hold a 1184-byte SNP report"
  else
    ak_pub ← tpm2_readpublic tpm;
    if negb (TpmPublic.ak_pub_attributes_look_like_quoting_key ak_pub)
    then Err "AK handle is not a restricted|sign rsassa quoting key" else Ok tt.
Definition generate_azure (tpm : Tpm2) (vcek : list Z -> Z -> result Vcek.VcekError (list Z))
    (req : EvidenceRequest) (issued_at : Z) : result AttestationError Evidence :=
  let report_data := canonical_report_data ProviderType_SevSnp req issued_at in
  if bool_decide (report_data = []) then Err AttestationError_CanonicalEncode
  else
    let qd := sha256 report_data in
    az ← get_azure_evidence tpm qd;
    vcek_cert_chain ← map_err (fun _ => AttestationError_VcekFetch)
                        (vcek (snp_chip_id (az_snp az)) (snp_tcb (az_snp az)));
    Ok {| provider_type := ProviderType_SevSnp;
          workspace_id := req_workspace_id req;
          measurement := req_measurement req;
          nonce := req_nonce req;
          issued_at := issued_at;
          report_data := report_data;
          proof := Proof_SevSnpAzure (snp_report (az_snp az)) vcek_cert_chain (az_var_data az)
                     (az_ak_pub_tpm2b az) (az_quote_msg az) (az_quote_sig az) |}.

(** *** Verification *)

Inductive TrustAnchor :=
| TrustAnchor_Software (expected_signer : VerifyingKey)
| TrustAnchor_SevSnp (amd_product_root : Vcek.AmdRootCert)
    (expected_host_cvm_meas : option (list Z)) (min_tcb guest_policy : Z).
Record VerifyParams := {
  expected_nonce : list Z;
  expected_measurement : option (list Z);
  accept_provider_types : list ProviderType;
  (** Whole seconds. *)
  freshness : Z;
  now : Z;
  trust_anchor : TrustAnchor;
}.

Definition I64_MIN : Z := -9223372036854775808.
Definition I64_MAX : Z := 9223372036854775807.
Definition i64_saturating_sub (a b : Z) : Z := Z.max I64_MIN (Z.min I64_MAX (a - b)).
Definition i64_saturating_abs (a : Z) : Z := if a =? I64_MIN then I64_MAX else Z.abs a.

(** The modulus of the key named [HCLAkPub] in the HCL variable data. *)
Definition ak_modulus_from_jwk (var_data : list Z) : option (list Z) :=
  set ← jwk_set_from_slice var_data;
  ak ← List.find (fun k => bool_decide (fst k = Some "HCLAkPub")) set;
  b64url_decode (snd ak).
Definition sha256_matches_report_data (var_data report_data_first32 : list Z) : bool :=
  if blen report_data_first32 <? 32 then false
  else bool_decide (sha256 var_data = default [] (get_range report_data_first32 0 32)).
Definition verify_ak_rsassa_sha256 (modulus_be msg sig : list Z) : bool :=
  pkcs1v15_verify modulus_be msg (TpmPublic.strip_tpmt_signature_header sig).

(** [if bad { return Failed(reason) }]. *)
Definition reject_if (bad : bool) (reason : FailReason) : result FailReason unit :=
  if bad then Err reason else Ok tt.
(** The reference-value pins, after the chain is known to be good. *)
Definition check_pins (fields : SnpReport.ReportFields) (expected_host_cvm_meas : option (list Z))
    (min_tcb guest_policy : Z) : result FailReason unit :=
  _ ← reject_if (SnpReport.reported_tcb fields <? min_tcb) FailReason_PolicyMismatch;
  _ ← reject_if (negb (Z.land (SnpReport.guest_policy fields) guest_policy =? guest_policy))
        FailReason_PolicyMismatch;
  match expected_host_cvm_meas with
  | Some expected =>
      reject_if (bool_decide (SnpReport.measurement fields <> expected)) FailReason_MeasurementMismatch
  | None => Ok tt
  end.
Definition chain_error (e : Vcek.VcekError) : FailReason :=
  match e with Vcek.VcekError_BadSignature => FailReason_BadSignature | _ => FailReason_BadCertChain end.

Definition verify_software (ev : Evidence) (params : VerifyParams) (signature signer_pubkey : list Z)
    : result FailReason unit :=
  _ ← reject_if (bool_decide (provider_type ev <> ProviderType_Software))
        FailReason_ProviderProofMismatch;
  match trust_anchor params with
  | TrustAnchor_Software expected_signer =>
      _ ← reject_if (bool_decide (signer_pubkey <> vk_to_bytes expected_signer))
            FailReason_UntrustedSigner;
      reject_if (negb (verify_strict expected_signer (report_data ev) signature))
        FailReason_BadSignature
  | _ => Err FailReason_ProviderProofMismatch
  end.
Definition verify_sev_snp (ev : Evidence) (params : VerifyParams) (report vcek_cert_chain : list Z)
    : result FailReason unit :=
  _ ← reject_if (bool_decide (provider_type ev <> ProviderType_SevSnp))
        FailReason_ProviderProofMismatch;
  match trust_anchor params with
  | TrustAnchor_SevSnp amd_product_root expected_host_cvm_meas min_tcb guest_policy =>
      fields ← ok_or (SnpReport.parse report) FailReason_MalformedProof;
      _ ← reject_if (bool_decide (sha512 (report_data ev) <> SnpReport.report_data fields))
            FailReason_ReportDataMismatch;
      _ ← map_err chain_error (Vcek.verify_report report vcek_cert_chain amd_product_root);
      check_pins fields expected_host_cvm_meas min_tcb guest_policy
  | _ => Err FailReason_ProviderProofMismatch
  end.
Definition verify_sev_snp_azure (ev : Evidence) (params : VerifyParams)
    (report vcek_cert_chain var_data ak_pub_tpm2b quote_msg quote_sig : list Z)
    : result FailReason unit :=
  _ ← reject_if (bool_decide (provider_type ev <> ProviderType_SevSnp))
        FailReason_ProviderProofMismatch;
  match trust_anchor params with
  | TrustAnchor_SevSnp amd_product_root expected_host_cvm_meas min_tcb guest_policy =>
      fields ← ok_or (SnpReport.parse report) FailReason_MalformedProof;
      _ ← reject_if (negb (sha256_matches_report_data var_data (SnpReport.report_data fields)))
            FailReason_ReportDataMismatch;
      _ ← reject_if (existsb (fun b => negb (b =? 0)) (drop 32 (SnpReport.report_data fields)))
            FailReason_MalformedProof;
      _ ← map_err chain_error (Vcek.verify_report report vcek_cert_chain amd_product_root);
      _ ← check_pins fields expected_host_cvm_meas min_tcb guest_policy;
      var_data_modulus ← ok_or (ak_modulus_from_jwk var_data) FailReason_MalformedProof;
      tpm2b_modulus ← map_err (fun _ => FailReason_MalformedProof)
                        (TpmPublic.azure_ak_rsa_modulus ak_pub_tpm2b);
      _ ← reject_if (bool_decide (var_data_modulus <> tpm2b_modulus)) FailReason_ReportDataMismatch;
      attest ← ok_or (TpmAttest.parse_tpm2b_attest quote_msg) FailReason_TpmQuoteInvalid;
      _ ← reject_if (bool_decide (TpmAttest.extra_data attest <> sha256 (report_data ev)))
            FailReason_TpmQuoteInvalid;
      reject_if (negb (verify_ak_rsassa_sha256 tpm2b_modulus quote_msg quote_sig))
        FailReason_TpmQuoteInvalid
  | _ => Err FailReason_ProviderProofMismatch
  end.

Definition verify_checks (ev : Evidence) (params : VerifyParams) : result FailReason unit :=
  _ ← reject_if (negb (bool_decide (provider_type ev ∈ accept_provider_types params)))
        FailReason_ProviderTypeNotAccepted;
  _ ← reject_if (bool_decide (nonce ev <> expected_nonce params)) FailReason_NonceMismatch;
  _ ← match expected_measurement params with
      | Some m => reject_if (bool_decide (measurement ev <> m)) FailReason_MeasurementMismatch
      | None => Ok tt
      end;
  let freshness := default I64_MAX (try_into I64_MAX (freshness params)) in
  _ ← reject_if (freshness <? i64_saturating_abs (i64_saturating_sub (now params) (issued_at ev)))
        FailReason_Stale;
  n ← ok_or (Nonce_new (nonce ev)) FailReason_MalformedProof;
  let recomputed :=
    canonical_report_data (provider_type ev)
      {| req_workspace_id := workspace_id ev; req_measurement := measurement ev; req_nonce := n |}
      (issued_at ev) in
  _ ← reject_if (bool_decide (recomputed <> report_data ev)) FailReason_BadSignature;
  match proof ev with
  | Proof_Software signature signer_pubkey => verify_software ev params signature signer_pubkey
  | Proof_SevSnp report chain => verify_sev_snp ev params report chain
  | Proof_SevSnpAzure report chain var_data ak_pub quote_msg quote_sig =>
      verify_sev_snp_azure ev params report chain var_data ak_pub quote_msg quote_sig
  end.
Definition verify (ev : Evidence) (params : VerifyParams) : VerifyOutcome :=
  match verify_checks ev params with
  | Ok _ => VerifyOutcome_Verified
  | Err reason => VerifyOutcome_Failed reason
  end.
End Evidence.

Definition software_provider_allowed (dev_mode allow_software_env : bool) : bool :=
  dev_mode || allow_software_env.

(** ** DER *)

Lemma shift_or_byte a b : 0 <= a -> is_byte b -> Z.lor (Z.shiftl a 8) b = a * 256 + b.
Proof.
  intros Ha Hb. unfold is_byte in Hb. rewrite Z.shiftl_mul_pow2 by lia. change (2 ^ 8) with 256.
  assert (Hl : Z.land (a * 256) b = 0); [|pose proof (Z.add_lor_land (a * 256) b); lia]. apply Z.bits_inj'. intros i Hi.
  rewrite Z.land_spec, Z.bits_0. change 256 with (2 ^ 8). rewrite Z.mul_pow2_bits by lia.
  destruct (Z.lt_ge_cases i 8); [by rewrite Z.testbit_neg_r by lia|].
  replace (Z.testbit b i) with false; [by rewrite andb_false_r|]. symmetry.
  apply Z.bits_above_log2; [lia|]. destruct (Z.eq_dec b 0) as [->|]; [cbn; lia|].
  apply Z.log2_lt_pow2; [lia|]. apply Z.lt_le_trans with 256; [lia|]. change 256 with (2 ^ 8).
  apply Z.pow_le_mono_r; lia.
Qed.

(** The length octets [h] of a value of [n] bytes. *)
Definition der_header (h : list Z) (n : Z) : Prop :=
  (0 <= n < 128 /\ h = [n]) \/
  exists k, (1 <= k <= 4)%nat /\ 0 <= n < 256 ^ Z.of_nat k /\ h = (128 + Z.of_nat k) :: be_bytes k n.
(** One certificate: a SEQUENCE tag, its length, its contents. *)
Definition der_sequence (c : list Z) : Prop :=
  exists h body, der_header h (blen body) /\ c = 48 :: h ++ body.

Lemma be_int_fold x acc : fold_left (fun a b => a * 256 + b) x acc = acc * 256 ^ blen x + be_int x.
Proof.
  revert acc. induction x as [|b x IH]; intros acc; cbn [fold_left].
  - unfold be_int. cbn. rewrite blen_nil. change (256 ^ 0) with 1. lia.
  - rewrite IH. unfold be_int at 2. cbn [rev]. unfold le_int. rewrite foldr_app. cbn [foldr].
    assert (Hf : forall l z, foldr (fun b acc => b + 256 * acc) z l = le_int l + 256 ^ blen l * z).
    { clear. induction l as [|c l IH]; intros z; cbn [foldr le_int].
      - rewrite blen_nil. change (256 ^ 0) with 1. lia.
      - rewrite IH. fold (le_int l). rewrite blen_cons, Z.pow_add_r by (pose proof (blen_nonneg l); lia).
        change (256 ^ 1) with 256. lia. }
    rewrite Hf. fold (be_int x). unfold be_int. rewrite blen_cons, Z.pow_add_r by (pose proof (blen_nonneg x); lia).
    change (256 ^ 1) with 256. assert (blen (rev x) = blen x) as -> by (unfold blen; by rewrite length_rev). lia.
Qed.
Lemma der_len_bytes_iff p rest n acc v :
  is_bytes rest -> 0 <= acc ->
  Vcek.der_len_bytes (p ++ rest) n (blen p) acc = Some v <->
  exists x rest', rest = x ++ rest' /\ length x = n /\ v = fold_left (fun a b => a * 256 + b) x acc.
Proof.
  revert p rest acc. induction n as [|n IH]; intros p rest acc Hb Hacc; cbn [Vcek.der_len_bytes].
  - split; [intros [= <-]; by exists [], rest|]. intros (x & r & -> & Hx & ->). by destruct x.
  - rewrite bind_Some. setoid_rewrite get_byte_at. split.
    + intros (b & (r & ->) & H). apply Forall_cons in Hb as [Hb Hr].
      rewrite shift_or_byte in H by done.
      replace (blen p + 1) with (blen (p ++ [b])) in H by blen_lia.
      change (b :: r) with ([b] ++ r) in H. rewrite app_assoc in H.
      unfold is_byte in Hb. apply IH in H as (x & r' & -> & Hx & ->); [|done|lia].
      exists (b :: x), r'. cbn. by rewrite Hx.
    + intros (x & r & -> & Hx & ->). destruct x as [|b x]; [done|]. injection Hx as Hx.
      exists b. split; [by exists (x ++ r)|]. apply Forall_cons in Hb as [Hb Hr].
      rewrite shift_or_byte by done. replace (blen p + 1) with (blen (p ++ [b])) by blen_lia.
      change ((b :: x) ++ r) with ([b] ++ (x ++ r)). rewrite app_assoc. unfold is_byte in Hb.
      apply IH; [done|lia|]. by exists x, r.
Qed.
Lemma land_127 b : 128 <= b < 256 -> Z.land b 127 = b - 128.
Proof.
  intros Hb. change 127 with (Z.ones 7). rewrite Z.land_ones by lia. change (2 ^ 7) with 128.
  replace b with (b - 128 + 1 * 128) at 1 by lia. rewrite Z.mod_add by lia. apply Z.mod_small. lia.
Qed.
Lemma der_len_iff p rest len cs :
  is_bytes rest ->
  Vcek.der_len (p ++ rest) (blen p) = Some (len, cs) <->
  exists h rest', rest = h ++ rest' /\ der_header h len /\ cs = blen p + blen h.
Proof.
  intros Hb. unfold Vcek.der_len. rewrite bind_Some. setoid_rewrite get_byte_at. split.
  - intros (b & (r & ->) & H). apply Forall_cons in Hb as [Hb Hr]. unfold is_byte in Hb.
    destruct (Z.ltb_spec b 128).
    + injection H as <- <-. exists [b], r. split; [done|]. split; [|blen_lia]. left. split; [lia|done].
    + rewrite land_127 in H by lia.
      destruct (Z.eqb_spec (b - 128) 0), (Z.ltb_spec 4 (b - 128)); try done. cbn [orb] in H.
      apply bind_Some in H as (v & Hv & H). injection H as <- <-.
      replace (blen p + 1) with (blen (p ++ [b])) in Hv by blen_lia.
      change (b :: r) with ([b] ++ r) in Hv. rewrite app_assoc in Hv.
      apply der_len_bytes_iff in Hv as (x & r' & -> & Hx & ->); [|done|lia].
      apply is_bytes_app in Hr as [Hbx _]. rewrite be_int_fold, Z.mul_0_l, Z.add_0_l.
      assert (Hxl : blen x = b - 128) by (unfold blen; lia).
      exists (b :: x), r'. split; [done|]. split; [|blen_lia]. right. exists (Z.to_nat (b - 128)).
      pose proof (be_int_range x Hbx) as Hrg. rewrite Z2Nat.id by lia. split; [lia|].
      split; [by rewrite <- Hxl|]. rewrite be_bytes_be_int by (done || lia). f_equal. lia.
  - intros (h & r & -> & [[Hn ->]|(k & Hk & Hn & ->)] & ->).
    + exists len. split; [by exists r|]. rewrite (proj2 (Z.ltb_lt _ _)) by lia. done.
    + exists (128 + Z.of_nat k). split; [by exists (be_bytes k len ++ r)|].
      rewrite (proj2 (Z.ltb_ge _ _)) by lia. rewrite land_127 by lia.
      replace (128 + Z.of_nat k - 128) with (Z.of_nat k) by lia.
      rewrite (proj2 (Z.eqb_neq (Z.of_nat k) 0)), (proj2 (Z.ltb_ge 4 _)) by lia. cbn [orb].
      apply bind_Some. exists len. rewrite Nat2Z.id. split; [|do 2 f_equal; blen_lia].
      replace (blen p + 1) with (blen (p ++ [128 + Z.of_nat k])) by blen_lia.
      change (((128 + Z.of_nat k) :: be_bytes k len) ++ r) with ([128 + Z.of_nat k] ++ (be_bytes k len ++ r)).
      rewrite app_assoc. change (((128 + Z.of_nat k) :: be_bytes k len) ++ r) with ([128 + Z.of_nat k] ++ (be_bytes k len ++ r)) in Hb.
      apply is_bytes_app in Hb as [_ Hb]. apply der_len_bytes_iff; [done|lia|]. exists (be_bytes k len), r.
      split; [done|]. split; [unfold be_bytes; by rewrite length_rev, length_le_bytes|].
      by rewrite be_int_fold, Z.mul_0_l, Z.add_0_l, be_int_be_bytes.
Qed.
Lemma der_header_length h n : der_header h n -> 1 <= blen h <= 5 /\ 0 <= n.
Proof. intros [[? ->]|(k & ? & ? & ->)]; blen_lia. Qed.
Lemma split_step_iff p rest c e :
  is_bytes rest -> blen (p ++ rest) <= U32_MAX ->
  Vcek.split_step (p ++ rest) (blen p) = Some (c, e) <->
  exists rest', rest = c ++ rest' /\ der_sequence c /\ e = blen p + blen c.
Proof.
  intros Hb Hmax. unfold Vcek.split_step. rewrite bind_Some. setoid_rewrite get_byte_at. split.
  - intros (t & (r & ->) & H). destruct (Z.eqb_spec t 48) as [->|]; [|done]. cbn [negb] in H.
    apply bind_Some in H as ([len cs] & Hl & H). apply bind_Some in H as (e' & He & H).
    apply bind_Some in H as (s & Hs & H). injection H as <- <-.
    apply checked_add_Some in He as [-> _].
    replace (blen p + 1) with (blen (p ++ [48])) in Hl by blen_lia.
    change (48 :: r) with ([48] ++ r) in Hl. rewrite app_assoc in Hl.
    apply Forall_cons in Hb as [_ Hb]. apply der_len_iff in Hl as (h & r' & -> & Hh & ->); [|done].
    apply get_range_at in Hs as (r2 & Hr2 & Hs); [|done].
    exists r2. split; [done|]. split; [|lia]. pose proof (der_header_length _ _ Hh).
    exists h, (take (Z.to_nat len) r').
    assert (Hlen : blen s = 1 + blen h + len) by blen_lia.
    assert (Hr' : length r' = (length s - 1 - length h + length r2)%nat).
    { apply (f_equal length) in Hr2. cbn in Hr2. rewrite !length_app in Hr2. unfold blen in *. lia. }
    assert (Hcut : blen (take (Z.to_nat len) r') = len).
    { unfold blen in *. rewrite length_take. lia. }
    split; [by rewrite Hcut|].
    rewrite <- (take_drop (Z.to_nat len) r') in Hr2. rewrite app_comm_cons, app_assoc in Hr2.
    apply app_inj_1 in Hr2 as [<- _]; [done|]. unfold blen in *. cbn. rewrite !length_app. cbn. lia.
  - intros (r & -> & (h & body & Hh & ->) & ->). exists 48. split; [by eexists|]. cbn [Z.eqb Pos.eqb negb].
    pose proof (der_header_length _ _ Hh) as [Hhl Hbl]. pose proof (blen_nonneg r). pose proof (blen_nonneg p).
    apply bind_Some. exists (blen body, blen p + 1 + blen h). split.
    + replace (blen p + 1) with (blen (p ++ [48])) by blen_lia.
      change ((48 :: h ++ body) ++ r) with ([48] ++ ((h ++ body) ++ r)). rewrite app_assoc.
      change ((48 :: h ++ body) ++ r) with ([48] ++ ((h ++ body) ++ r)) in Hb.
      apply is_bytes_app in Hb as [_ Hb]. apply der_len_iff; [done|]. exists h, (body ++ r).
      by rewrite app_assoc.
    + apply bind_Some. exists (blen p + 1 + blen h + blen body). split.
      { apply checked_add_Some. split; [done|]. unfold USIZE_MAX, U64_MAX, U32_MAX in *. blen_lia. }
      apply bind_Some. exists (48 :: h ++ body). split; [|do 2 f_equal; blen_lia].
      apply get_range_app; [done|]. blen_lia.
Qed.
Lemma der_sequence_nonempty c : der_sequence c -> exists b r, c = b :: r.
Proof. intros (h & body & _ & ->). by exists 48, (h ++ body). Qed.
Lemma split_loop_spec fuel p rest out :
  is_bytes rest -> blen (p ++ rest) <= U32_MAX -> (length rest <= fuel)%nat ->
  exists r, Vcek.split_loop fuel (p ++ rest) (blen p) out = Ok r /\
    forall certs, r = Some certs <->
      exists cs, certs = out ++ cs /\ concat cs = rest /\ Forall der_sequence cs.
Proof.
  revert p rest out. induction fuel as [|f IH]; intros p rest out Hb Hmax Hf;
    (destruct rest as [|b0 rest0]; [|set (rest := b0 :: rest0) in *]).
  1, 3: exists (Some out); cbn [Vcek.split_loop]; rewrite app_nil_r, Z.ltb_irrefl; split; [done|];
    intros certs; split;
    [intros [= <-]; exists []; by rewrite app_nil_r
    |intros (cs & -> & Hcat & Hcs); destruct Hcs as [|c cs Hc]; [by rewrite app_nil_r|];
     apply der_sequence_nonempty in Hc as (? & ? & ->); done].
  { cbn in Hf. lia. }
  cbn [Vcek.split_loop].
  assert (Hlt : (blen p <? blen (p ++ rest)) = true).
  { apply Z.ltb_lt. unfold rest. pose proof (blen_nonneg rest0). blen_lia. }
  rewrite Hlt. cbn [negb]. destruct (Vcek.split_step (p ++ rest) (blen p)) as [[c e]|] eqn:Hstep.
  - apply split_step_iff in Hstep as Hs; [|done|done]. destruct Hs as (r' & Hr & Hc & ->).
    pose proof Hb as Hb'. rewrite Hr in Hb', Hf. apply is_bytes_app in Hb' as [_ Hb'].
    apply der_sequence_nonempty in Hc as Hne. destruct Hne as (b1 & c1 & Ec).
    destruct (IH (p ++ c) r' (out ++ [c])) as (r & Hrun & Hspec).
    + done.
    + by rewrite <- app_assoc, <- Hr.
    + rewrite length_app in Hf. rewrite Ec in Hf. cbn in Hf. lia.
    + exists r. rewrite <- app_assoc, <- Hr, blen_app in Hrun. split; [done|]. intros certs. rewrite Hspec.
      split.
      * intros (cs & -> & <- & Hcs). exists (c :: cs). rewrite <- app_assoc. split; [done|].
        split; [by rewrite Hr|]. by constructor.
      * intros (cs & -> & Hcat & Hcs). destruct Hcs as [|c2 cs Hc2 Hcs]; [done|].
        cbn [concat] in Hcat. assert (Hstep2 : Vcek.split_step (p ++ rest) (blen p) = Some (c2, blen p + blen c2)).
        { apply split_step_iff; [done|done|]. exists (concat cs). split; [by symmetry|done]. }
        rewrite Hstep in Hstep2. injection Hstep2 as <- _. rewrite Hr in Hcat. apply app_inv_head in Hcat.
        exists cs. by rewrite <- app_assoc.
  - exists None. split; [done|]. intros certs. split; [done|].
    intros (cs & -> & Hcat & Hcs). exfalso. destruct Hcs as [|c cs Hc Hcs]; [done|].
    assert (Vcek.split_step (p ++ rest) (blen p) = Some (c, blen p + blen c)); [|congruence].
    apply split_step_iff; [done|done|]. exists (concat cs). done.
Qed.

(** Splitting the certificate chain terminates and is exact.  The loop over a
    byte string never needs more turns than there are bytes, and it returns a list
    of certificates if and only if the input is the concatenation of those
    certificates, each one a complete DER sequence (short or long length form),
    with nothing left over. *)
Theorem der_split_exact blob :
  is_bytes blob -> blen blob <= U32_MAX ->
  (exists r, Vcek.split_loop (length blob) blob 0 [] = Ok r) /\
  forall certs, Vcek.split_concat_der blob = Some certs <->
    concat certs = blob /\ Forall der_sequence certs.
Proof.
  intros Hb Hmax. destruct (split_loop_spec (length blob) [] blob [] Hb Hmax (Nat.le_refl _)) as (r & Hrun & Hspec).
  rewrite blen_nil in Hrun. cbn [app] in Hrun. split; [by exists r|].
  intros certs. unfold Vcek.split_concat_der. rewrite Hrun, Hspec. split.
  - by intros (cs & -> & ?).
  - intros H. by exists certs.
Qed.

(** ** The chain of trust *)
Section Chain.
Context {E : AttestEnv}.

(** [certs] is a chain up to the key [root]: each certificate's signature
    verifies under the key of the next one, the last one's under [root]. *)
Inductive signed_chain (root : Vcek.PubKey) : list (list Z) -> Prop :=
| signed_root c :
    Vcek.verify_cert_signature c root = Ok tt -> signed_chain root [c]
| signed_next c issuer rest k :
    Vcek.cert_pubkey issuer = Ok k -> Vcek.verify_cert_signature c k = Ok tt ->
    signed_chain root (issuer :: rest) -> signed_chain root (c :: issuer :: rest).
Lemma walk_chain_iff certs root :
  certs <> [] ->
  Vcek.walk_chain certs root = Ok tt <-> signed_chain (Vcek.verifying_key root) certs.
Proof.
  induction certs as [|c [|i rest] IH]; [done|intros _..].
  - cbn [Vcek.walk_chain mbind result_bind]. rewrite bind_unit_ok. split; [intros [? _]; by constructor|].
    inversion 1; subst; done.
  - cbn [Vcek.walk_chain]. fold (Vcek.walk_chain (i :: rest) root). rewrite bind_ok. setoid_rewrite bind_unit_ok.
    split.
    + intros (k & Hk & Hc & Hr). apply signed_next with k; [done|done|]. by apply IH.
    + inversion 1; subst. eexists. split; [done|]. split; [done|]. by apply IH.
Qed.

(** What a trusted report is: its chain leads to the root, and the leaf's
    ECDSA key signed its signed region. *)
Definition report_trusted (report chain : list Z) (root : Vcek.PubKey) : Prop :=
  exists signed sig_field certs leaf vk signature,
    SnpReport.signed_bytes report = Some signed /\
    SnpReport.signature report = Some sig_field /\
    Vcek.split_concat_der chain = Some certs /\ head certs = Some leaf /\
    signed_chain root certs /\ Vcek.cert_pubkey leaf = Ok (Vcek.PubKey_EcP384 vk) /\
    Vcek.amd_sig_to_p384 sig_field = Some signature /\ p384_verify vk signed signature = true.

Lemma if_ok (b : bool) {Er} (e : Er) : (if b then Ok tt else Err e) = Ok tt <-> b = true.
Proof. destruct b; naive_solver. Qed.
Lemma verify_report_iff report chain root :
  Vcek.verify_report report chain root = Ok tt <->
  report_trusted report chain (Vcek.verifying_key root).
Proof.
  unfold Vcek.verify_report, report_trusted. split.
  - intros H. apply bind_ok in H as (signed & Hs & H). apply bind_ok in H as (sg & Hg & H).
    apply bind_ok in H as (certs & Hc & H). apply bind_ok in H as (leaf & Hl & H).
    apply bind_ok in H as (k & Hk & H). apply bind_unit_ok in H as (Hw & H).
    apply ok_or_ok in Hs, Hg, Hc, Hl. apply walk_chain_iff in Hw; [|by destruct certs].
    destruct k as [|vk]; [done|]. apply bind_ok in H as (sig & Hsig & H).
    rewrite ok_or_ok in Hsig. rewrite if_ok in H. by exists signed, sg, certs, leaf, vk, sig.
  - intros (signed & sg & certs & leaf & vk & sig & -> & -> & -> & Hl & Hw & Hk & Hsig & H).
    apply walk_chain_iff in Hw; [|by destruct certs].
    cbn [ok_or mbind result_bind]. rewrite Hl. cbn [ok_or mbind result_bind].
    rewrite Hk. cbn [ok_or mbind result_bind]. rewrite Hw. cbn [mbind result_bind].
    rewrite Hsig. cbn [ok_or mbind result_bind]. by rewrite H.
Qed.
End Chain.

(** ** What accepted evidence means *)
Section Trust.
Context {C : Crypto} {E : AttestEnv} {Value : Type} {J : JsonVec Value}.

(** The reference values: a TCB floor, required policy bits, an optional pin on
    the launch digest. *)
Definition pins_met (fields : SnpReport.ReportFields) (meas : option (list Z)) (min_tcb policy : Z) : Prop :=
  min_tcb <= SnpReport.reported_tcb fields /\
  (forall i, 0 <= i -> Z.testbit policy i = true -> Z.testbit (SnpReport.guest_policy fields) i = true) /\
  match meas with Some m => SnpReport.measurement fields = m | None => True end.

(** The proof speaks for the report data under the caller's anchor. *)
Inductive proof_trusted (ev : Evidence) : TrustAnchor -> EvidenceProof -> Prop :=
| trusted_software vk sig :
    provider_type ev = ProviderType_Software ->
    verify_strict vk (report_data ev) sig = true ->
    proof_trusted ev (TrustAnchor_Software vk) (Proof_Software sig (vk_to_bytes vk))
| trusted_sev_snp root meas min_tcb policy report chain fields :
    provider_type ev = ProviderType_SevSnp ->
    SnpReport.parse report = Some fields ->
    SnpReport.report_data fields = sha512 (report_data ev) ->
    report_trusted report chain (Vcek.verifying_key root) ->
    pins_met fields meas min_tcb policy ->
    proof_trusted ev (TrustAnchor_SevSnp root meas min_tcb policy) (Proof_SevSnp report chain)
| trusted_azure root meas min_tcb policy report chain var_data ak_pub quote_msg quote_sig
    fields modulus attest :
    provider_type ev = ProviderType_SevSnp ->
    SnpReport.parse report = Some fields ->
    SnpReport.report_data fields = sha256 var_data ++ replicate 32 0 ->
    report_trusted report chain (Vcek.verifying_key root) ->
    pins_met fields meas min_tcb policy ->
    ak_modulus_from_jwk var_data = Some modulus ->
    TpmPublic.azure_ak_rsa_modulus ak_pub = Ok modulus ->
    TpmAttest.parse_tpm2b_attest quote_msg = Some attest ->
    TpmAttest.extra_data attest = sha256 (report_data ev) ->
    pkcs1v15_verify modulus quote_msg (TpmPublic.strip_tpmt_signature_header quote_sig) = true ->
    proof_trusted ev (TrustAnchor_SevSnp root meas min_tcb policy)
      (Proof_SevSnpAzure report chain var_data ak_pub quote_msg quote_sig).

(** The age is within the window; a window that does not fit a signed 64-bit number of seconds is
    clamped to the largest one, which no age exceeds. *)
Definition within_window (f n t : Z) : Prop := I64_MAX <= f \/ Z.abs (n - t) <= f.
Record trusted (ev : Evidence) (params : VerifyParams) : Prop := {
  trusted_type : provider_type ev ∈ accept_provider_types params;
  trusted_nonce : nonce ev = expected_nonce params;
  trusted_nonce_length : 16 <= blen (nonce ev) <= 64;
  trusted_measurement : match expected_measurement params with
                        | Some m => measurement ev = m | None => True end;
  trusted_fresh : within_window (freshness params) (now params) (issued_at ev);
  trusted_report_data :
    report_data ev =
      canonical_report_data (provider_type ev)
        {| req_workspace_id := workspace_id ev; req_measurement := measurement ev;
           req_nonce := nonce ev |} (issued_at ev);
  trusted_proof : proof_trusted ev (trust_anchor params) (proof ev);
}.

Lemma reject_if_ok b r : reject_if b r = Ok tt <-> b = false.
Proof. destruct b; naive_solver. Qed.
Lemma land_mask_iff a b : 0 <= b -> Z.land a b = b <->
  forall i, 0 <= i -> Z.testbit b i = true -> Z.testbit a i = true.
Proof.
  intros Hb. split.
  - intros H i Hi Hbi. rewrite <- H, Z.land_spec in Hbi. by apply andb_true_iff in Hbi as [? _].
  - intros H. apply Z.bits_inj'. intros i Hi. rewrite Z.land_spec. specialize (H i Hi).
    destruct (Z.testbit b i); [by rewrite H|by rewrite andb_false_r].
Qed.
Lemma check_pins_iff fields meas min_tcb policy :
  0 <= policy -> check_pins fields meas min_tcb policy = Ok tt <-> pins_met fields meas min_tcb policy.
Proof.
  intros Hp. unfold check_pins, pins_met. rewrite !bind_unit_ok, !reject_if_ok, Z.ltb_ge.
  rewrite negb_false_iff, Z.eqb_eq, land_mask_iff by done.
  destruct meas; [|tauto]. rewrite reject_if_ok, bool_decide_eq_false. 
  split; intros (? & ? & H); (split; [done|]; split; [done|]); [by apply dec_stable|tauto].
Qed.
Lemma fresh_iff f n t :
  0 <= f <= U64_MAX -> I64_MIN <= n <= I64_MAX -> I64_MIN <= t <= I64_MAX ->
  (default I64_MAX (try_into I64_MAX f) <? i64_saturating_abs (i64_saturating_sub n t)) = false <->
  within_window f n t.
Proof.
  intros Hf Hn Ht. assert (default I64_MAX (try_into I64_MAX f) = Z.min I64_MAX f) as ->.
  { destruct (try_into I64_MAX f) as [x|] eqn:Ef.
    - apply try_into_Some in Ef as [-> ?]. cbn. lia.
    - destruct (Z.le_gt_cases I64_MAX f); [cbn; lia|]. exfalso.
      rewrite (proj2 (try_into_Some I64_MAX f f)) in Ef by (split; [done|lia]). done. }
  unfold within_window. rewrite Z.ltb_ge. unfold i64_saturating_abs, i64_saturating_sub, I64_MIN, I64_MAX in *.
  destruct (Z.eqb_spec (Z.max (-9223372036854775808) (Z.min 9223372036854775807 (n - t))) (-9223372036854775808)); split; lia.
Qed.
Lemma zero_tail_iff rd d : blen rd = 64 ->
  get_range rd 0 32 = Some d -> existsb (fun b => negb (b =? 0)) (drop 32 rd) = false <-> rd = d ++ replicate 32 0.
Proof.
  intros Hl Hg. apply get_range_Some in Hg as (_ & _ & p & s & -> & Hp & Hd).
  destruct p; [cbn [app] in *|rewrite blen_cons in Hp; pose proof (blen_nonneg p); lia].
  assert (Hd' : length d = 32%nat) by (unfold blen in Hd; lia).
  assert (Hs : length s = 32%nat) by (unfold blen in Hl; rewrite length_app in Hl; lia).
  rewrite drop_app_length' by done. split.
  - intros H. f_equal. rewrite <- Hs. clear -H. induction s as [|b s IH]; [done|]. cbn in *.
    apply orb_false_iff in H as [Hb H]. apply negb_false_iff, Z.eqb_eq in Hb as ->. f_equal. by apply IH.
  - intros H%app_inv_head. rewrite H. done.
Qed.
Lemma sha256_matches_iff v rd :
  blen rd = 64 -> sha256_matches_report_data v rd = true <-> get_range rd 0 32 = Some (sha256 v).
Proof.
  intros Hl. unfold sha256_matches_report_data. rewrite Hl. change (64 <? 32) with false. cbn match.
  rewrite bool_decide_eq_true. assert (is_Some (get_range rd 0 32)) as [x Hx].
  { unfold get_range. rewrite Hl. cbn. by eexists. }
  rewrite Hx. cbn. naive_solver.
Qed.
Lemma parse_report_data_length report fields :
  SnpReport.parse report = Some fields -> blen (SnpReport.report_data fields) = 64.
Proof.
  unfold SnpReport.parse. destruct (negb _); [done|]. cbn zeta. intros H.
  repeat (apply bind_Some in H as (? & ? & H)). injection H as <-. cbn.
  match goal with H : get_range report 80 _ = Some ?x |- blen ?x = _ => apply get_range_length in H; lia end.
Qed.
Lemma dec_false_iff {A} `{EqDecision A} (x y : A) : bool_decide (x <> y) = false <-> x = y.
Proof. rewrite bool_decide_eq_false. split; [by apply dec_stable|tauto]. Qed.
Lemma chain_ok_iff report chain root :
  map_err chain_error (Vcek.verify_report report chain root) = Ok tt <->
  report_trusted report chain (Vcek.verifying_key root).
Proof. rewrite map_err_ok. apply verify_report_iff. Qed.

(** The required policy bits are a [u64]. *)
Definition anchor_ok (a : TrustAnchor) : Prop :=
  match a with TrustAnchor_SevSnp _ _ _ policy => 0 <= policy | _ => True end.
Lemma verify_software_iff ev params sig pk :
  verify_software ev params sig pk = Ok tt <->
  proof_trusted ev (trust_anchor params) (Proof_Software sig pk).
Proof.
  unfold verify_software. rewrite bind_unit_ok, reject_if_ok, dec_false_iff. split.
  - intros [Ht H]. destruct (trust_anchor params) as [vk|]; [|done].
    rewrite bind_unit_ok, !reject_if_ok, dec_false_iff, negb_false_iff in H. destruct H as [-> H].
    by constructor.
  - inversion 1 as [vk s Ht Hv Ha| |]; subst. split; [done|].
    by rewrite bind_unit_ok, !reject_if_ok, dec_false_iff, negb_false_iff.
Qed.
Lemma verify_sev_snp_iff ev params report chain :
  anchor_ok (trust_anchor params) ->
  verify_sev_snp ev params report chain = Ok tt <->
  proof_trusted ev (trust_anchor params) (Proof_SevSnp report chain).
Proof.
  intros Hok. unfold verify_sev_snp. rewrite bind_unit_ok, reject_if_ok, dec_false_iff. split.
  - intros [Ht H]. destruct (trust_anchor params) as [|root meas tcb gp]; [done|].
    apply bind_ok in H as (fields & Hp & H). apply ok_or_ok in Hp.
    rewrite !bind_unit_ok, reject_if_ok, dec_false_iff, chain_ok_iff, check_pins_iff in H by done.
    destruct H as (Hd & Hc & Hpins). by apply trusted_sev_snp with fields.
  - inversion 1 as [|root meas tcb gp r c fields Ht Hp Hd Hc Hpins Ha|]; subst.
    rewrite <- Ha in Hok. split; [done|]. rewrite Hp. cbn [ok_or mbind result_bind].
    rewrite !bind_unit_ok, reject_if_ok, dec_false_iff, chain_ok_iff, check_pins_iff by done. done.
Qed.
Lemma verify_azure_iff ev params report chain var ak msg sig :
  anchor_ok (trust_anchor params) ->
  verify_sev_snp_azure ev params report chain var ak msg sig = Ok tt <->
  proof_trusted ev (trust_anchor params) (Proof_SevSnpAzure report chain var ak msg sig).
Proof.
  intros Hok. unfold verify_sev_snp_azure. rewrite bind_unit_ok, reject_if_ok, dec_false_iff. split.
  - intros [Ht H]. destruct (trust_anchor params) as [|root meas tcb gp]; [done|].
    apply bind_ok in H as (fields & Hp & H). apply ok_or_ok in Hp.
    pose proof (parse_report_data_length _ _ Hp) as Hl.
    rewrite !bind_unit_ok, !reject_if_ok, negb_false_iff, sha256_matches_iff, chain_ok_iff,
      check_pins_iff in H by done.
    destruct H as (Hv & Hz & Hc & Hpins & H). rewrite (zero_tail_iff _ _ Hl Hv) in Hz.
    apply bind_ok in H as (m & Hm & H). apply ok_or_ok in Hm.
    apply bind_ok in H as (m' & Hm' & H). apply map_err_ok in Hm'.
    rewrite bind_unit_ok, reject_if_ok, dec_false_iff in H. destruct H as [<- H].
    apply bind_ok in H as (a & Ha & H). apply ok_or_ok in Ha.
    rewrite bind_unit_ok, !reject_if_ok, dec_false_iff, negb_false_iff in H. destruct H as [Hx Hsig].
    by apply trusted_azure with fields m a.
  - inversion 1 as [| |root meas tcb gp r c v k q s fields m a Ht Hp Hd Hc Hpins Hm Hm' Ha Hx Hsig Han]; subst.
    rewrite <- Han in Hok. split; [done|]. rewrite Hp. cbn [ok_or mbind result_bind].
    pose proof (parse_report_data_length _ _ Hp) as Hl.
    assert (Hsha : get_range (SnpReport.report_data fields) 0 32 = Some (sha256 var)).
    { rewrite Hd. apply get_range_head; [done|]. rewrite Hd, blen_app, blen_replicate in Hl. lia. }
    rewrite !bind_unit_ok, !reject_if_ok, negb_false_iff, sha256_matches_iff, chain_ok_iff,
      check_pins_iff by done. rewrite (zero_tail_iff _ _ Hl Hsha). do 4 (split; [done|]).
    rewrite Hm. cbn [ok_or mbind result_bind]. rewrite Hm'. cbn [map_err mbind result_bind].
    rewrite bind_unit_ok, reject_if_ok, dec_false_iff. split; [done|].
    rewrite Ha. cbn [ok_or mbind result_bind].
    by rewrite bind_unit_ok, !reject_if_ok, dec_false_iff, negb_false_iff.
Qed.

(** Fields as the machine holds them. *)
Record params_ok (ev : Evidence) (params : VerifyParams) : Prop := {
  freshness_ok : 0 <= freshness params <= U64_MAX;
  now_ok : I64_MIN <= now params <= I64_MAX;
  issued_ok : I64_MIN <= issued_at ev <= I64_MAX;
  anchor_is_ok : anchor_ok (trust_anchor params);
}.
Lemma verify_iff_trusted' ev params :
  params_ok ev params -> verify ev params = VerifyOutcome_Verified <-> trusted ev params.
Proof.
  intros [Hf Hn Hi Hok]. trans (verify_checks ev params = Ok tt).
  { unfold verify. destruct (verify_checks ev params) as [[]|]; naive_solver. }
  unfold verify_checks.
  rewrite !bind_unit_ok, !reject_if_ok, negb_false_iff, bool_decide_eq_true, dec_false_iff, fresh_iff by done.
  assert (Hm : (match expected_measurement params with
     | Some m => reject_if (bool_decide (measurement ev <> m)) FailReason_MeasurementMismatch
     | None => Ok tt end = Ok tt) <->
    match expected_measurement params with Some m => measurement ev = m | None => True end).
  { destruct (expected_measurement params); [|done]. by rewrite reject_if_ok, dec_false_iff. }
  rewrite Hm. rewrite bind_ok. setoid_rewrite ok_or_ok. setoid_rewrite bind_unit_ok.
  setoid_rewrite reject_if_ok. setoid_rewrite dec_false_iff.
  assert (Hpf : match proof ev with
     | Proof_Software s k => verify_software ev params s k
     | Proof_SevSnp r c => verify_sev_snp ev params r c
     | Proof_SevSnpAzure r c v a q s => verify_sev_snp_azure ev params r c v a q s
     end = Ok tt <-> proof_trusted ev (trust_anchor params) (proof ev)).
  { destruct (proof ev); [apply verify_software_iff|by apply verify_sev_snp_iff|by apply verify_azure_iff]. }
  setoid_rewrite Hpf. unfold Nonce_new. split.
  - intros (H1 & H2 & H3 & H4 & n & Hnn & H5 & H6).
    destruct (Z.leb_spec 16 (blen (nonce ev))), (Z.leb_spec (blen (nonce ev)) 64); try done.
    injection Hnn as <-. by constructor.
  - intros [H1 H2 H3 H4 H5 H6 H7]. do 4 (split; [done|]). exists (nonce ev).
    by rewrite (proj2 (Z.leb_le 16 _)), (proj2 (Z.leb_le _ 64)) by lia.
Qed.
(** C11: The verifier implements its specification.  For any evidence and policy,
    [verify] answers [Verified] if and only if the evidence is [trusted]: an
    accepted provider type, the expected nonce of 16 to 64 bytes, the pinned
    measurement, an age within the freshness window in exact arithmetic (any age when the
    window is beyond the signed 64-bit seconds it is clamped to), report
    data that is the canonical encoding of the envelope's own fields, and a proof
    that speaks for this report data under the caller's anchor and no other (an
    Ed25519 signature by the pinned key; or a firmware report with the digest of
    the report data, a certificate chain to the pinned AMD root, and the policy
    pins; or the same with the attestation key bound by the report and a quote
    signed by it over the digest). The signed structure may be of any TPM attestation
    type: the constant for a quote is documented as asserted, and is not looked at. *)
Theorem verify_iff_trusted ev params :
  params_ok ev params -> verify ev params = VerifyOutcome_Verified <-> trusted ev params.
Proof. apply verify_iff_trusted'. Qed.
End Trust.

(** ** Evidence speaks for one request *)
Section Binding.
Context {C : Crypto} {L : CryptoLaws C} {E : AttestEnv} {Value : Type} {J : JsonVec Value}
  {JL : JsonVecLaws Value J}.

(** The members in key order. *)
Definition canonical_members (t : ProviderType) (r : EvidenceRequest) (i : Z) : list (string * Field Value) :=
  [("ctx", Field_string "ne-enclave-attestation-v1"); ("issued_at", Field_number i);
   ("measurement", Field_string (hex_encode (req_measurement r)));
   ("nonce", Field_string (hex_encode (req_nonce r)));
   ("provider_type", Field_string (ProviderType_to_string t));
   ("workspace_id", Field_string (req_workspace_id r))].
Lemma canonical_eq t r i : canonical_report_data t r i = default [] (to_vec (canonical_members t r i)).
Proof. reflexivity. Qed.
Lemma canonical_inj t1 r1 i1 t2 r2 i2 :
  is_bytes (req_measurement r1) -> is_bytes (req_nonce r1) ->
  is_bytes (req_measurement r2) -> is_bytes (req_nonce r2) ->
  canonical_report_data t1 r1 i1 = canonical_report_data t2 r2 i2 ->
  t1 = t2 /\ r1 = r2 /\ i1 = i2.
Proof.
  intros Hm1 Hn1 Hm2 Hn2. rewrite !canonical_eq.
  destruct (to_vec_total (canonical_members t1 r1 i1)) as [x1 H1].
  destruct (to_vec_total (canonical_members t2 r2 i2)) as [x2 H2]. rewrite H1, H2.
  cbn [default from_option id]. intros <-. pose proof (to_vec_inj _ _ _ H1 H2) as Ho.
  injection Ho as Hi Hm Hn Ht Hw. apply hex_inj in Hm, Hn; [|done..].
  destruct r1, r2; cbn in *; subst. split; [|done]. by destruct t1, t2.
Qed.

(** The measurement and the nonce are byte strings. *)
Definition evidence_bytes (ev : Evidence) : Prop := is_bytes (measurement ev) /\ is_bytes (nonce ev).
(** The two proofs rest on the same signed object. *)
Definition same_attestation (ev1 ev2 : Evidence) : Prop :=
  match proof ev1, proof ev2 with
  | Proof_Software _ _, Proof_Software _ _ => report_data ev1 = report_data ev2
  | Proof_SevSnp r1 _, Proof_SevSnp r2 _ => SnpReport.signed_bytes r1 = SnpReport.signed_bytes r2
  | Proof_SevSnpAzure _ _ _ _ q1 _, Proof_SevSnpAzure _ _ _ _ q2 _ => q1 = q2
  | _, _ => False
  end.
Definition sha512_collision : Prop := exists a b, a <> b /\ sha512 a = sha512 b.

Lemma same_attestation_report_data ev1 ev2 p1 p2 :
  proof_trusted ev1 (trust_anchor p1) (proof ev1) -> proof_trusted ev2 (trust_anchor p2) (proof ev2) ->
  same_attestation ev1 ev2 ->
  report_data ev1 = report_data ev2 \/ sha512_collision \/ sha256_collision.
Proof.
  intros H1 H2. unfold same_attestation.
  destruct H1 as [|root1 meas1 tcb1 gp1 r1 c1 f1 Ht1 Hp1 Hd1 Hr1 _|
    root1 meas1 tcb1 gp1 r1 c1 v1 k1 q1 s1 f1 m1 a1 _ _ _ _ _ _ _ Ha1 Hx1 _];
  destruct H2 as [|root2 meas2 tcb2 gp2 r2 c2 f2 Ht2 Hp2 Hd2 Hr2 _|
    root2 meas2 tcb2 gp2 r2 c2 v2 k2 q2 s2 f2 m2 a2 _ _ _ _ _ _ _ Ha2 Hx2 _]; try done.
  - by left.
  - intros Hs. destruct (decide (report_data ev1 = report_data ev2)); [by left|]. right. left.
    exists (report_data ev1), (report_data ev2). split; [done|]. rewrite <- Hd1, <- Hd2. f_equal.
    destruct Hr1 as (s & _ & _ & _ & _ & _ & Hs1 & _). assert (SnpReport.parse r1 = SnpReport.parse r2); [|congruence].
    assert (Hgen : forall b1 b2 s, SnpReport.signed_bytes b1 = Some s -> SnpReport.signed_bytes b2 = Some s ->
      SnpReport.parse b1 = SnpReport.parse b2) by (intros; by eapply signed_bytes_parse).
    apply (Hgen _ _ s); [done|congruence].
  - intros <-. destruct (decide (report_data ev1 = report_data ev2)); [by left|]. right. right.
    exists (report_data ev1), (report_data ev2). split; [done|]. congruence.
Qed.

(** C31: An attestation cannot be moved to another request.  If two pieces of
    evidence verify, each under its own policy, and rest on the same signed
    object (the same signed report data, the same signed region of a firmware
    report, or the same TPM quote), then they name the same provider type,
    workspace, measurement, nonce and issue time, or SHA-256 or SHA-512 has a
    collision. *)
Theorem evidence_binds_request ev1 ev2 p1 p2 :
  params_ok ev1 p1 -> params_ok ev2 p2 -> evidence_bytes ev1 -> evidence_bytes ev2 ->
  verify ev1 p1 = VerifyOutcome_Verified -> verify ev2 p2 = VerifyOutcome_Verified ->
  same_attestation ev1 ev2 ->
  (provider_type ev1 = provider_type ev2 /\ workspace_id ev1 = workspace_id ev2 /\
   measurement ev1 = measurement ev2 /\ nonce ev1 = nonce ev2 /\ issued_at ev1 = issued_at ev2)
  \/ sha512_collision \/ sha256_collision.
Proof.
  intros Hp1 Hp2 [Hm1 Hn1] [Hm2 Hn2] Hv1 Hv2 Hsame.
  apply verify_iff_trusted' in Hv1, Hv2; [|done..].
  destruct (same_attestation_report_data ev1 ev2 p1 p2 (trusted_proof _ _ Hv1) (trusted_proof _ _ Hv2) Hsame)
    as [Heq|]; [left|by right].
  rewrite (trusted_report_data _ _ Hv1), (trusted_report_data _ _ Hv2) in Heq.
  apply canonical_inj in Heq as (-> & Hr & ->); [|done..]. by injection Hr as -> -> ->.
Qed.
End Binding.

(** ** Providers *)
Section Providers.
Context {C : Crypto} {L : CryptoLaws C} {E : AttestEnv} {Value : Type} {J : JsonVec Value}
  {JL : JsonVecLaws Value J}.

Lemma canonical_nonempty t r i : canonical_report_data t r i <> [].
Proof.
  unfold canonical_report_data. match goal with |- default [] (to_vec ?o) <> [] => set (m := o) end.
  destruct (to_vec m) as [x|] eqn:H.
  - cbn. intros ->. by apply to_vec_nonempty in H.
  - destruct (to_vec_total m) as [x Hx]. congruence.
Qed.
(** A policy that expects this request, issued within the window. *)
Record params_match (req : EvidenceRequest) (t : ProviderType) (issued_at : Z) (params : VerifyParams) : Prop := {
  match_type : t ∈ accept_provider_types params;
  match_nonce : req_nonce req = expected_nonce params;
  match_nonce_length : 16 <= blen (req_nonce req) <= 64;
  match_measurement : match expected_measurement params with
                      | Some m => req_measurement req = m | None => True end;
  match_fresh : Z.abs (now params - issued_at) <= freshness params;
  match_freshness : 0 <= freshness params <= U64_MAX;
  match_now : I64_MIN <= now params <= I64_MAX;
  match_issued : I64_MIN <= issued_at <= I64_MAX;
  match_anchor : anchor_ok (trust_anchor params);
}.
Lemma generated_verifies req t issued_at params pf :
  params_match req t issued_at params ->
  let ev := {| provider_type := t; workspace_id := req_workspace_id req;
               measurement := req_measurement req; nonce := req_nonce req; issued_at := issued_at;
               report_data := canonical_report_data t req issued_at; proof := pf |} in
  proof_trusted ev (trust_anchor params) pf -> verify ev params = VerifyOutcome_Verified.
Proof.
  intros [] ev Hpf. apply verify_iff_trusted'; [by constructor|]. constructor; try done. by right.
Qed.

(** Evidence from the system's own providers verifies.  The software provider
    always produces evidence, and a verifier that pins its key and expects the
    request accepts it.  Evidence of the firmware provider is accepted when the
    firmware stamped the digest it was given into a report whose chain leads to
    the pinned root and that meets the pins. *)
Theorem generated_evidence_verifies req issued_at params :
  (forall sk, params_match req ProviderType_Software issued_at params ->
     trust_anchor params = TrustAnchor_Software (Crypto.verifying_key sk) ->
     exists ev, software_generate sk req issued_at = Ok ev /\ verify ev params = VerifyOutcome_Verified) /\
  (forall source vcek root meas min_tcb policy ev,
     params_match req ProviderType_SevSnp issued_at params ->
     trust_anchor params = TrustAnchor_SevSnp root meas min_tcb policy ->
     (forall d snp, source d = Ok snp -> exists fields, SnpReport.parse (snp_report snp) = Some fields /\
        SnpReport.report_data fields = d /\ pins_met fields meas min_tcb policy /\
        forall chain, vcek (snp_chip_id snp) (snp_tcb snp) = Ok chain ->
          report_trusted (snp_report snp) chain (Vcek.verifying_key root)) ->
     sev_snp_generate source vcek req issued_at = Ok ev -> verify ev params = VerifyOutcome_Verified).
Proof.
  split.
  - intros sk Hm Ha. unfold software_generate. rewrite bool_decide_false by apply canonical_nonempty.
    eexists. split; [done|]. apply generated_verifies; [done|]. rewrite Ha. constructor; [done|].
    apply sign_verifies.
  - intros source vcek root meas tcb gp ev Hm Ha Hsrc. unfold sev_snp_generate.
    rewrite bool_decide_false by apply canonical_nonempty. intros H.
    apply bind_ok in H as (snp & Hs & H). apply bind_ok in H as (chain & Hc & H).
    apply map_err_ok in Hc. injection H as <-. destruct (Hsrc _ _ Hs) as (fields & Hp & Hd & Hpins & Hch).
    apply generated_verifies; [done|]. rewrite Ha. apply trusted_sev_snp with fields; auto.
Qed.
End Providers.

(** ** What the verifier does not look at *)
Section Gaps.
Context {C : Crypto} {E : AttestEnv} {Value : Type} {J : JsonVec Value}.

Definition with_proof (ev : Evidence) (pf : EvidenceProof) : Evidence :=
  {| provider_type := provider_type ev; workspace_id := workspace_id ev;
     measurement := measurement ev; nonce := nonce ev; issued_at := issued_at ev;
     report_data := report_data ev; proof := pf |}.
(** The type of the attestation structure is not checked.  Evidence that
    verifies with a quote of type [t1] also verifies when the quote is replaced by
    a structure of any other type with the same [extraData], as soon as the same
    key signed it. *)
Theorem quote_type_is_not_checked ev params report chain var ak qs ed rest sig1 sig2 t1 t2 modulus :
  params_ok ev params ->
  proof ev = Proof_SevSnpAzure report chain var ak (quote_body t1 qs ed rest) sig1 ->
  in_range U16_MAX t1 -> in_range U16_MAX t2 -> in_range U16_MAX (blen qs) -> in_range U16_MAX (blen ed) ->
  TpmPublic.azure_ak_rsa_modulus ak = Ok modulus ->
  pkcs1v15_verify modulus (quote_body t2 qs ed rest) (TpmPublic.strip_tpmt_signature_header sig2) = true ->
  verify ev params = VerifyOutcome_Verified ->
  verify (with_proof ev (Proof_SevSnpAzure report chain var ak (quote_body t2 qs ed rest) sig2)) params
    = VerifyOutcome_Verified.
Proof.
  intros Hok Hpf Ht1 Ht2 Hqs Hed Hak Hsig Hv. apply verify_iff_trusted' in Hv; [|done].
  apply verify_iff_trusted'; [destruct Hok; by constructor|].
  destruct Hv as [H1 H2 H3 H4 H5 H6 H7]. constructor; try done. rewrite Hpf in H7.
  inversion H7 as [| |root meas tcb gp r c v k q s fields m a Ht Hp Hd Hc Hpins Hm Hm' Ha Hx Hs Han]; subst.
  pose proof (parse_quote_body t1 qs ed rest Ht1 Hqs Hed [] (or_intror eq_refl)) as Hq1.
  pose proof (parse_quote_body t2 qs ed rest Ht2 Hqs Hed [] (or_intror eq_refl)) as Hq2.
  cbn [app] in Hq1, Hq2. rewrite Hq1 in Ha. injection Ha as <-. rewrite Hak in Hm'. injection Hm' as ->.
  cbn [with_proof proof]. eapply trusted_azure; eauto.
Qed.

(** The padding of the report signature is not checked.  Each half of the
    512-byte signature field is 48 significant bytes and 24 padding bytes; any
    padding gives the same ECDSA signature. *)
Theorem signature_padding_is_ignored r s p1 p2 :
  blen r = 48 -> blen s = 48 -> blen p1 = 24 -> blen p2 = 24 ->
  Vcek.amd_sig_to_p384 (r ++ p1 ++ s ++ p2 ++ replicate 368 0) =
  p384_signature_from_slice (rev r ++ rev s).
Proof.
  intros Hr Hs H1 H2. unfold Vcek.amd_sig_to_p384.
  assert (Hhalf : forall x p, blen x = 48 -> blen p = 24 -> Vcek.amd_le_field_to_be48 (x ++ p) = Some (rev x)).
  { intros x p Hx Hp. unfold Vcek.amd_le_field_to_be48. rewrite blen_app, Hx, Hp. cbn.
    rewrite rev_app_distr. rewrite drop_app_length'; [done|]. rewrite length_rev. unfold blen in Hp. lia. }
  assert (get_range (r ++ p1 ++ s ++ p2 ++ replicate 368 0) 144 512 = Some (replicate 368 0)) as ->.
  { do 4 (rewrite get_range_skip by blen_lia). apply get_range_Some. split; [lia|]. split; [lia|].
    exists [], []. rewrite app_nil_r. split; [done|]. blen_lia. }
  cbn [mbind option_bind]. assert (existsb (fun b => negb (b =? 0)) (replicate 368 0) = false) as -> by done.
  assert (get_range (r ++ p1 ++ s ++ p2 ++ replicate 368 0) 0 72 = Some (r ++ p1)) as ->.
  { rewrite app_assoc. apply get_range_head; [done|]. blen_lia. }
  assert (get_range (r ++ p1 ++ s ++ p2 ++ replicate 368 0) 72 144 = Some (s ++ p2)) as ->.
  { rewrite app_assoc, (app_assoc s). apply get_range_app; blen_lia. }
  cbn [mbind option_bind]. by rewrite !Hhalf.
Qed.
End Gaps.

(** A 64-bit pin has one spelling on the wire.  Serialising a [u64] and reading
    it back gives the same number, and the reader accepts a text only if it is the
    one the serialiser writes. *)
Theorem u64_str_canonical s v :
  u64_str_deserialize s = Some v <-> in_range U64_MAX v /\ s = u64_str_serialize v.
Proof.
  unfold u64_str_deserialize, u64_str_serialize. rewrite bind_Some. split.
  - intros (x & Hx & H). destruct (String.eqb_spec (show_uint x) s); [|done]. injection H as <-.
    split; [|done]. by apply parse_uint_range in Hx.
  - intros [Hv ->]. exists v. rewrite String.eqb_refl. split; [|done]. unfold in_range in Hv. apply parse_show_uint; lia.
Qed.

(** ** A toy environment

    A key is one byte, a signature is the last byte of its encoding: the key plus
    the sum of the message.  A certificate is [48 9 (48 1 key) (48 0) (3 2 0 sig)]. *)
Module AttestDemo.
Definition toy_sig (k : Z) (m : list Z) : Z := (k + byte_sum m) mod 256.
Definition toy_env : AttestEnv := {|
  RsaKey := Z; EcKey := Z; PssSignature := list Z; EcSignature := list Z;
  certificate_from_der := fun d =>
    Some {| spki_oid := "1.2.840.10045.2.1"; subject_public_key := (fun k => [k]) <$> d !! 4%nat;
            signature_oid := "1.2.840.10045.4.3.3" |};
  rsa_from_pkcs1_der := fun l => head l;
  p384_from_sec1_bytes := fun l => head l;
  pss_signature_from := fun l => Some l;
  p384_signature_from_der := fun l => Some l;
  p384_signature_from_slice := fun l => Some l;
  pss_verify := fun k m s => bool_decide (last s = Some (toy_sig k m));
  p384_verify := fun k m s => bool_decide (last s = Some (toy_sig k m));
  pkcs1v15_verify := fun n m s => bool_decide (s = [toy_sig (byte_sum n) m]);
  sha512 := fun m => replicate 64 (byte_sum m mod 256);
  jwk_set_from_slice := fun _ => Some [(None, "x"); (Some "HCLAkPub", "k")];
  b64url_decode := fun _ => Some (replicate 256 7);
|}.
Import ParseDemo.
#[local] Existing Instances toy_crypto toy_crypto_laws toy_env toy_vec toy_vec_laws.

Definition toy_cert (issuer k : Z) : list Z :=
  let tbs := [48; 1; k] in [48; 9] ++ tbs ++ [48; 0] ++ [3; 2; 0; toy_sig issuer tbs].
(** Root key 5, intermediate key 6, chip key 9. *)
Definition chain : list Z := toy_cert 6 9 ++ toy_cert 5 6.
Definition root : Vcek.AmdRootCert := {| Vcek.verifying_key := Vcek.PubKey_EcP384 5 |}.

Definition sig_field (rd : list Z) : list Z :=
  replicate 72 0 ++ [toy_sig 9 (body rd)] ++ replicate 71 0 ++ replicate 368 0.
Definition report (rd : list Z) : list Z := body rd ++ sig_field rd.

Definition req : EvidenceRequest :=
  {| req_workspace_id := "w1"; req_measurement := replicate 32 4; req_nonce := replicate 16 8 |}.
Definition rd : list Z := canonical_report_data ProviderType_SevSnp req 1000.
Definition params : VerifyParams :=
  {| expected_nonce := replicate 16 8; expected_measurement := None;
     accept_provider_types := [ProviderType_SevSnp]; freshness := 300; now := 1100;
     trust_anchor := TrustAnchor_SevSnp root (Some (replicate 48 1)) 7 131072 |}.
Definition envelope (pf : EvidenceProof) : Evidence :=
  {| provider_type := ProviderType_SevSnp; workspace_id := "w1"; measurement := replicate 32 4;
     nonce := replicate 16 8; issued_at := 1000; report_data := rd; proof := pf |}.
Definition snp_evidence : Evidence := envelope (Proof_SevSnp (report (sha512 rd)) chain).

(** The same signed region with other padding in its signature field. *)
Definition padded_report (rd : list Z) : list Z :=
  body rd ++ replicate 48 0 ++ replicate 24 255 ++ [toy_sig 9 (body rd)] ++ replicate 71 0 ++ replicate 368 0.
Definition snp_evidence' : Evidence := envelope (Proof_SevSnp (padded_report (sha512 rd)) chain).

Definition var_data : list Z := replicate 32 6.
Definition quote (t : Z) : list Z := quote_body t [1; 2] (sha256 rd) [].
Definition quote_sig (t : Z) : list Z := [toy_sig (byte_sum (replicate 256 7)) (quote t)].
Definition azure_proof (t : Z) : EvidenceProof :=
  Proof_SevSnpAzure (report (sha256 var_data ++ replicate 32 0)) chain var_data ak_pub (quote t) (quote_sig t).

Lemma params_are_ok pf : params_ok (envelope pf) params.
Proof. constructor; cbn; unfold I64_MIN, I64_MAX, U64_MAX; lia. Qed.

Lemma der_split_exact_witness :
  Vcek.split_concat_der chain = Some [toy_cert 6 9; toy_cert 5 6] /\
  concat [toy_cert 6 9; toy_cert 5 6] = chain /\ Forall der_sequence [toy_cert 6 9; toy_cert 5 6].
Proof.
  assert (H : Vcek.split_concat_der chain = Some [toy_cert 6 9; toy_cert 5 6]) by (vm_compute; reflexivity).
  split; [exact H|].
  assert (Hb : is_bytes chain) by (apply (bool_decide_unpack (is_bytes chain)); vm_compute; exact I).
  exact (proj1 (proj2 (der_split_exact chain Hb ltac:(vm_compute; discriminate)) _) H).
Defined.
Lemma verify_iff_trusted_witness :
  verify snp_evidence params = VerifyOutcome_Verified /\ trusted snp_evidence params.
Proof.
  assert (H : verify snp_evidence params = VerifyOutcome_Verified) by (vm_compute; reflexivity).
  split; [exact H|]. exact (proj1 (verify_iff_trusted snp_evidence params (params_are_ok _)) H).
Defined.
Lemma evidence_binds_request_witness :
  snp_evidence <> snp_evidence' /\
  (workspace_id snp_evidence = workspace_id snp_evidence' \/ sha512_collision \/ sha256_collision).
Proof.
  split; [intros H; apply (f_equal proof) in H; vm_compute in H; discriminate|].
  assert (H : verify snp_evidence params = VerifyOutcome_Verified) by (vm_compute; reflexivity).
  assert (H' : verify snp_evidence' params = VerifyOutcome_Verified) by (vm_compute; reflexivity).
  assert (Hb : forall pf, evidence_bytes (envelope pf))
    by (intros pf; split; [apply (is_bytes_replicate 32)|apply (is_bytes_replicate 16)]; unfold is_byte; lia).
  destruct (evidence_binds_request snp_evidence snp_evidence' params params (params_are_ok _)
    (params_are_ok _) (Hb _) (Hb _) H H' ltac:(vm_compute; reflexivity)) as [Hsame|Hc]; [left|right; exact Hc].
  exact (proj1 (proj2 Hsame)).
Defined.
Lemma quote_type_is_not_checked_witness :
  verify (envelope (azure_proof 32792)) params = VerifyOutcome_Verified /\
  verify (envelope (azure_proof 32791)) params = VerifyOutcome_Verified.
Proof.
  assert (H : verify (envelope (azure_proof 32792)) params = VerifyOutcome_Verified) by (vm_compute; reflexivity).
  split; [exact H|].
  apply (quote_type_is_not_checked (envelope (azure_proof 32792)) params
    (report (sha256 var_data ++ replicate 32 0)) chain var_data ak_pub [1; 2] (sha256 rd) []
    (quote_sig 32792) (quote_sig 32791) 32792 32791 (replicate 256 7));
  [apply params_are_ok|reflexivity|unfold in_range, U16_MAX; lia|unfold in_range, U16_MAX; lia
  |vm_compute; split; discriminate|vm_compute; split; discriminate
  |vm_compute; reflexivity|vm_compute; reflexivity|exact H].
Defined.
Lemma signature_padding_is_ignored_witness :
  Vcek.amd_sig_to_p384 (replicate 48 1 ++ replicate 24 255 ++ replicate 48 2 ++ replicate 24 0 ++ replicate 368 0)
  = p384_signature_from_slice (replicate 48 1 ++ replicate 48 2).
Proof. apply (signature_padding_is_ignored (replicate 48 1) (replicate 48 2)); reflexivity. Defined.
Definition software_params : VerifyParams :=
  {| expected_nonce := replicate 16 8; expected_measurement := Some (replicate 32 4);
     accept_provider_types := [ProviderType_Software]; freshness := 300; now := 1100;
     trust_anchor := TrustAnchor_Software (Crypto.verifying_key 77) |}.
Lemma generated_evidence_verifies_witness :
  exists ev, software_generate 77 req 1000 = Ok ev /\ verify ev software_params = VerifyOutcome_Verified.
Proof.
  apply (proj1 (generated_evidence_verifies req 1000 software_params)); [|reflexivity].
  constructor; cbn; unfold I64_MIN, I64_MAX, U64_MAX; try lia; try reflexivity; [by left|vm_compute; split; discriminate].
Defined.
End AttestDemo.
