(* ===== verification/Seal.v ===== *)
(** * Sealed snapshots ([crates/ne-seal/src], [crates/ne-supervisor/src/seal.rs])

    The encrypted container ([crypto.rs]), the wrapped key ([kek.rs],
    [key_release.rs]), the attestation gate ([gate.rs]), the signed envelope
    ([types.rs]), sealing and unsealing a snapshot directory
    ([orchestration.rs]), the client of the key-release service
    ([key_release_cp.rs]) and the supervisor's facade.  AES-GCM and HKDF are the
    class [Aead]; random bytes are arguments.  The readers and writers of the
    source are in-memory buffers here, as at every call site, so they do not
    fail. *)

From S2P Require Import Prelude Text Json Crypto Bytes AttestParse Attestation AuditChain Snapshot.
From Equations Require Import Equations.

(** ** Third-party primitives *)

Class Aead := {
  gcm_encrypt : list Z -> list Z -> list Z -> list Z -> option (list Z);
  gcm_decrypt : list Z -> list Z -> list Z -> list Z -> option (list Z);
  (** HKDF-SHA256 of the signing key, expanded to 32 bytes. *)
  hkdf : forall {C : Crypto}, SigningKey -> list Z -> list Z;
}.

(** Arguments are key, nonce, associated data and text. *)
Class AeadLaws (A : Aead) : Prop := {
  gcm_open k n ad m c : gcm_encrypt k n ad m = Some c -> gcm_decrypt k n ad c = Some m;
  gcm_seal k n ad m : blen m <= 1048576 -> is_Some (gcm_encrypt k n ad m);
  gcm_tag k n ad c m : gcm_decrypt k n ad c = Some m -> blen c = blen m + 16;
}.

(** A [serde_json::Value]; the members of an object are in key order. *)
Inductive Json :=
| Json_null
| Json_number (n : Z)
| Json_string (s : string)
| Json_array (l : list Json)
| Json_object (l : list (string * Json)).

Inductive KekProvider := KekProvider_SoftwareFallback | KekProvider_ControlPlane.
#[global] Instance KekProvider_eq_dec : EqDecision KekProvider.
Proof. solve_decision. Defined.

Inductive ControlPlaneError :=
| ControlPlaneError_Configuration (m : string)
| ControlPlaneError_Denied (code : string)
| ControlPlaneError_Transport (m : string)
| ControlPlaneError_Unauthorized
| ControlPlaneError_Conflict
| ControlPlaneError_BadResponse (m : string)
| ControlPlaneError_ResponseTooLarge
| ControlPlaneError_Unconfigured.
Inductive SealError :=
| SealError_Serde
| SealError_Io
| SealError_Base64
| SealError_BadCrypto (m : string)
| SealError_UnsupportedVersion (got supported : Z)
| SealError_UntrustedSigner
| SealError_SignatureMismatch
| SealError_BindingMismatch
| SealError_AttestationGateDenied (r : FailReason)
| SealError_UnsupportedKekProvider (k : KekProvider)
| SealError_CiphertextCorrupt
| SealError_NotImplemented
| SealError_SevSnpPolicy (m : string)
| SealError_ControlPlaneRelease (e : ControlPlaneError).

(** ** The container ([crypto.rs]) *)
Section Container.
Context {A : Aead}.

Definition AD_DOMAIN : list Z := bytes_of "ne-enclave-sealed-artifact-v1".
Definition FILE_MAGIC : list Z := bytes_of "NESEAL01".
Definition CHUNK_SIZE : Z := 1048576.

Definition ad_for (snapshot_id manifest_hash : list Z) (index : Z) : list Z :=
  AD_DOMAIN ++ snapshot_id ++ manifest_hash ++ le_bytes 8 index.

(** [read_exact] on a buffer: the bytes and the rest. *)
Definition read_exact (n : Z) (reader : list Z) : option (list Z * list Z) :=
  if n <=? blen reader then Some (takeZ n reader, dropZ n reader) else None.
Definition read_exact_u32_be (reader : list Z) : result SealError (Z * list Z) :=
  '(buf, rest) ← ok_or (read_exact 4 reader) SealError_CiphertextCorrupt;
  Ok (be_int buf, rest).
(** [read_fill]: up to a whole chunk. *)
Definition read_fill (reader : list Z) : list Z * list Z :=
  (takeZ CHUNK_SIZE reader, dropZ CHUNK_SIZE reader).

Definition write_record (key sid mh : list Z) (nonce : list Z) (index : Z) (pt : list Z)
    : result SealError (list Z) :=
  ct ← ok_or (gcm_encrypt key nonce (ad_for sid mh index) pt) SealError_CiphertextCorrupt;
  len ← ok_or (try_into U32_MAX (blen pt)) (SealError_BadCrypto "record length");
  Ok (nonce ++ be_bytes 4 len ++ ct).

Lemma dropZ_shorter n reader : 0 < n -> reader <> [] -> (length (dropZ n reader) < length reader)%nat.
Proof.
  intros Hn H. pose proof (takeZ_dropZ n reader) as Hl. apply (f_equal length) in Hl.
  rewrite length_app in Hl. pose proof (blen_takeZ n reader ltac:(lia)) as Ht.
  unfold blen in Ht. destruct reader; [done|]. cbn [length] in *. lia.
Qed.
(** The records of the data from [index] on, and the end record.  [rng] gives the
    nonce of each record. *)
Equations? encrypt_loop (rng : Z -> list Z) (key sid mh : list Z) (reader : list Z) (index : Z)
    : result SealError (list Z) by wf (length reader) lt :=
encrypt_loop rng key sid mh [] index := write_record key sid mh (rng index) index [];
encrypt_loop rng key sid mh (b :: r) index :=
  rec ← write_record key sid mh (rng index) index (fst (read_fill (b :: r)));
  next ← ok_or (checked_add U64_MAX index 1) (SealError_BadCrypto "chunk overflow");
  rest ← encrypt_loop rng key sid mh (snd (read_fill (b :: r))) next;
  Ok (rec ++ rest).
Proof. by apply (dropZ_shorter CHUNK_SIZE (b :: r)). Qed.
Definition encrypt_stream (rng : Z -> list Z) (reader dek : list Z) (snapshot_id manifest_hash : string)
    : result SealError (list Z) :=
  records ← encrypt_loop rng dek (bytes_of snapshot_id) (bytes_of manifest_hash) reader 0;
  Ok (FILE_MAGIC ++ be_bytes 4 CHUNK_SIZE ++ records).

(** One record as it lies in the file: nonce, length and ciphertext with its tag.
    A length above the chunk size is refused before anything is read. *)
Definition read_record (reader : list Z) : result SealError (list Z * Z * list Z * list Z) :=
  '(nonce, r1) ← ok_or (read_exact 12 reader) SealError_CiphertextCorrupt;
  '(len, r2) ← read_exact_u32_be r1;
  if negb (len =? 0) && (CHUNK_SIZE <? len) then Err SealError_CiphertextCorrupt
  else
    '(ct, r3) ← ok_or (read_exact (len + 16) r2) SealError_CiphertextCorrupt;
    Ok (nonce, len, ct, r3).
Lemma read_exact_length n reader x rest :
  read_exact n reader = Some (x, rest) -> 0 <= n -> reader = x ++ rest /\ blen x = n.
Proof.
  unfold read_exact, blen. destruct (Z.leb_spec n (Z.of_nat (length reader))); [|done].
  intros [= <- <-] Hn. rewrite takeZ_dropZ. split; [done|]. fold (blen (takeZ n reader)).
  rewrite blen_takeZ by done. unfold blen. lia.
Qed.
Lemma read_record_shorter reader nonce len ct rest :
  read_record reader = Ok (nonce, len, ct, rest) -> (length rest < length reader)%nat.
Proof.
  unfold read_record, read_exact_u32_be. intros H.
  apply bind_ok in H as ([n r1] & H1%ok_or_ok & H). apply read_exact_length in H1 as [-> H1]; [|lia].
  apply bind_ok in H as ([l r2] & H2 & H). apply bind_ok in H2 as ([b r] & H2%ok_or_ok & [= <- <-]).
  apply read_exact_length in H2 as [-> H2]; [|lia]. destruct (_ && _); [done|].
  apply bind_ok in H as ([c r3] & H3%ok_or_ok & [= <- <- <- <-]). unfold read_exact in H3.
  destruct (_ <=? _); [|done]. injection H3 as <- <-.
  pose proof (f_equal length (takeZ_dropZ (be_int b + 16) r)) as Hl. rewrite length_app in Hl.
  rewrite !length_app. unfold blen in H1. lia.
Qed.
(** Open record after record, each under the index it must have. *)
Equations? decrypt_loop (key sid mh : list Z) (reader : list Z) (expected_index : Z)
    : result SealError (list Z) by wf (length reader) lt :=
decrypt_loop key sid mh reader expected_index with inspect (read_record reader) := {
  | exist _ (Err e) _ => Err e;
  | exist _ (Ok (nonce, len, ct, rest)) H =>
      pt ← ok_or (gcm_decrypt key nonce (ad_for sid mh expected_index) ct) SealError_CiphertextCorrupt;
      if len =? 0 then Ok []
      else
        next ← ok_or (checked_add U64_MAX expected_index 1) (SealError_BadCrypto "chunk overflow");
        out ← decrypt_loop key sid mh rest next;
        Ok (pt ++ out) }.
Proof. by eapply read_record_shorter. Qed.
Definition decrypt_stream (reader dek : list Z) (snapshot_id manifest_hash : string)
    : result SealError (list Z) :=
  '(magic, r1) ← ok_or (read_exact 8 reader) SealError_Io;
  if bool_decide (magic <> FILE_MAGIC) then Err SealError_CiphertextCorrupt
  else
    '(_chunk_size, r2) ← read_exact_u32_be r1;
    decrypt_loop dek (bytes_of snapshot_id) (bytes_of manifest_hash) r2 0.
End Container.

(** ** The envelope ([types.rs]) *)

Definition SEAL_VERSION : Z := 1.
Definition SEAL_DOMAIN_TAG : string := "ne-enclave-seal-v1".
Definition POLICY_DOMAIN_TAG : string := "ne-enclave-sealing-policy-v1".

Inductive SealingTrustAnchor :=
| SealingTrustAnchor_Software (expected_signer : list Z)
| SealingTrustAnchor_SevSnp (amd_product_root_der : list Z) (expected_host_cvm_meas : option (list Z))
    (min_tcb guest_policy : Z).
Record SealingPolicy := {
  sp_accept_provider_types : list ProviderType;
  sp_freshness_seconds : Z;
  sp_trust_anchor : SealingTrustAnchor;
  sp_expected_measurement : option (list Z);
}.
Record DekEnvelope := {
  kek_provider : KekProvider;
  wrapped_dek : list Z;
  wrap_nonce : list Z;
}.
Record SealEnvelope := {
  seal_version : Z;
  seal_snapshot_id : string;
  attestation_policy_id : option string;
  policy : SealingPolicy;
  dek_envelope : DekEnvelope;
  seal_manifest_sha256 : string;
  seal_signer_pubkey_b64 : string;
  seal_signature_b64 : string;
}.

Section Values.
Context {C : Crypto}.
(** [serde_json::to_value] of the data model. *)
Definition provider_types_value (l : list ProviderType) : Json :=
  Json_array ((fun t => Json_string (ProviderType_to_string t)) <$> l).
Definition measurement_value (m : option (list Z)) : Json :=
  match m with None => Json_null | Some b => Json_array (Json_number <$> b) end.
Definition trust_anchor_value (a : SealingTrustAnchor) : Json :=
  match a with
  | SealingTrustAnchor_Software signer =>
      Json_object [("expected_signer", Json_string (b64_encode signer)); ("kind", Json_string "software")]
  | SealingTrustAnchor_SevSnp der meas min_tcb guest_policy =>
      Json_object
        [("amd_product_root_der", Json_string (b64_encode der));
         ("expected_host_cvm_meas",
          match meas with None => Json_null | Some m => Json_string (b64_encode m) end);
         ("guest_policy", Json_string (u64_str_serialize guest_policy));
         ("kind", Json_string "sev_snp");
         ("min_tcb", Json_string (u64_str_serialize min_tcb))]
  end.
Definition policy_value (p : SealingPolicy) : Json :=
  Json_object
    [("accept_provider_types", provider_types_value (sp_accept_provider_types p));
     ("expected_measurement", measurement_value (sp_expected_measurement p));
     ("freshness_seconds", Json_number (sp_freshness_seconds p));
     ("trust_anchor", trust_anchor_value (sp_trust_anchor p))].
Definition KekProvider_to_string (k : KekProvider) : string :=
  match k with
  | KekProvider_SoftwareFallback => "software_fallback"
  | KekProvider_ControlPlane => "control_plane"
  end.
Definition dek_envelope_value (e : DekEnvelope) : Json :=
  Json_object
    [("kek_provider", Json_string (KekProvider_to_string (kek_provider e)));
     ("wrap_nonce", Json_string (b64_encode (wrap_nonce e)));
     ("wrapped_dek", Json_string (b64_encode (wrapped_dek e)))].
Definition seal_to_value (s : SealEnvelope) : list (string * Field Json) :=
  [ ("seal_version", Field_number (seal_version s));
    ("snapshot_id", Field_string (seal_snapshot_id s));
    ("attestation_policy_id", Field_option (attestation_policy_id s));
    ("policy", Field_value (policy_value (policy s)));
    ("dek_envelope", Field_value (dek_envelope_value (dek_envelope s)));
    ("manifest_canonical_sha256", Field_string (seal_manifest_sha256 s));
    ("signer_pubkey_b64", Field_string (seal_signer_pubkey_b64 s));
    ("signature_b64", Field_string (seal_signature_b64 s)) ].
End Values.

Section Seal.
Context {C : Crypto} {E : AttestEnv} {A : Aead} {J : JsonVec Json} {V : JsonVec unit}.

Definition seal_canonical_bytes (s : SealEnvelope) : option (list Z) :=
  to_vec (canonicalize SEAL_DOMAIN_TAG (seal_to_value s)).

(** ** The wrapped key ([kek.rs]) *)

Definition WRAP_DOMAIN : list Z := bytes_of "ne-enclave-dek-wrap-v1".
Definition KEK_INFO : list Z := bytes_of "ne-enclave-seal-kek-v1".
Definition policy_canonical_bytes (p : SealingPolicy) : list Z :=
  let map : list (string * Field Json) := [] in
  let map := btree_insert "ctx" (Field_string POLICY_DOMAIN_TAG) map in
  let map := btree_insert "accept_provider_types"
               (Field_value (provider_types_value (sp_accept_provider_types p))) map in
  let map := btree_insert "freshness_seconds" (Field_number (sp_freshness_seconds p)) map in
  let map := btree_insert "trust_anchor" (Field_value (trust_anchor_value (sp_trust_anchor p))) map in
  let map := btree_insert "expected_measurement"
               (Field_value (measurement_value (sp_expected_measurement p))) map in
  default [] (to_vec map).
Definition derive_kek (signing_key : SigningKey) : list Z := hkdf signing_key KEK_INFO.
Definition policy_hash (p : SealingPolicy) : list Z := sha256 (policy_canonical_bytes p).
Definition dek_wrap_associated_data (snapshot_id manifest_hash : string) (p : SealingPolicy) : list Z :=
  WRAP_DOMAIN ++ bytes_of snapshot_id ++ bytes_of manifest_hash ++ policy_hash p.
Definition wrap_dek_with_nonce (dek kek nonce : list Z) (snapshot_id manifest_hash : string)
    (p : SealingPolicy) : result SealError (list Z) :=
  ok_or (gcm_encrypt kek nonce (dek_wrap_associated_data snapshot_id manifest_hash p) dek)
    SealError_CiphertextCorrupt.
Definition wrap_dek (nonce dek kek : list Z) (provider : KekProvider) (snapshot_id manifest_hash : string)
    (p : SealingPolicy) : result SealError DekEnvelope :=
  ct ← wrap_dek_with_nonce dek kek nonce snapshot_id manifest_hash p;
  Ok {| kek_provider := provider; wrapped_dek := ct; wrap_nonce := nonce |}.
Definition unwrap_dek (env : DekEnvelope) (kek : list Z) (snapshot_id manifest_hash : string)
    (p : SealingPolicy) : result SealError (list Z) :=
  nonce ← ok_or (to_array 12 (wrap_nonce env)) (SealError_BadCrypto "wrap nonce not 12 bytes");
  pt ← ok_or (gcm_decrypt kek nonce (dek_wrap_associated_data snapshot_id manifest_hash p) (wrapped_dek env))
         SealError_CiphertextCorrupt;
  ok_or (to_array 32 pt) (SealError_BadCrypto "unwrapped dek not 32 bytes").

(** ** The gate ([gate.rs]) *)

Definition outcome_to_result (o : VerifyOutcome) : result SealError unit :=
  match o with
  | VerifyOutcome_Verified => Ok tt
  | VerifyOutcome_Failed reason => Err (SealError_AttestationGateDenied reason)
  end.
(** The borrowed trust anchor of a policy. *)
Definition policy_anchor (p : SealingPolicy) : result SealError TrustAnchor :=
  match sp_trust_anchor p with
  | SealingTrustAnchor_Software expected_signer =>
      vk ← ok_or (vk_from_bytes expected_signer) (SealError_BadCrypto "bad expected_signer");
      Ok (TrustAnchor_Software vk)
  | SealingTrustAnchor_SevSnp der meas min_tcb guest_policy =>
      root ← map_err (fun _ => SealError_SevSnpPolicy "ARK parse") (Vcek.from_der der);
      meas ← match meas with
             | Some bytes =>
                 m ← ok_or (to_array 48 bytes)
                       (SealError_SevSnpPolicy "expected_host_cvm_meas not 48 bytes");
                 Ok (Some m)
             | None => Ok None
             end;
      Ok (TrustAnchor_SevSnp root meas min_tcb guest_policy)
  end.
Definition policy_params (p : SealingPolicy) (anchor : TrustAnchor) (nonce : list Z) (now : Z) : VerifyParams :=
  {| expected_nonce := nonce; expected_measurement := sp_expected_measurement p;
     accept_provider_types := sp_accept_provider_types p; freshness := sp_freshness_seconds p;
     now := now; trust_anchor := anchor |}.
Definition verify_against_policy (p : SealingPolicy) (evidence : Evidence) (nonce : list Z) (now : Z)
    : result SealError unit :=
  anchor ← policy_anchor p;
  outcome_to_result (verify evidence (policy_params p anchor nonce now)).

(** ** Key release ([key_release.rs]) *)

Definition software_kek_allowed (dev_mode allow_software_env : bool) : bool :=
  dev_mode || allow_software_env.
(** [SoftwareFallbackKeyRelease::resolve_dek], with the derived key. *)
Definition resolve_dek (kek : list Z) (seal : SealEnvelope) : result SealError (list Z) :=
  if bool_decide (kek_provider (dek_envelope seal) <> KekProvider_SoftwareFallback)
  then Err (SealError_UnsupportedKekProvider (kek_provider (dek_envelope seal)))
  else unwrap_dek (dek_envelope seal) kek (seal_snapshot_id seal) (seal_manifest_sha256 seal) (policy seal).

(** ** Signing and binding ([orchestration.rs]) *)

Definition with_signature (s : SealEnvelope) (pubkey signature : string) : SealEnvelope :=
  {| seal_version := seal_version s; seal_snapshot_id := seal_snapshot_id s;
     attestation_policy_id := attestation_policy_id s; policy := policy s;
     dek_envelope := dek_envelope s; seal_manifest_sha256 := seal_manifest_sha256 s;
     seal_signer_pubkey_b64 := pubkey; seal_signature_b64 := signature |}.
Definition sign_seal (s : SealEnvelope) (signer : SigningKey) : result SealError SealEnvelope :=
  let s := with_signature s (b64_encode (vk_to_bytes (Crypto.verifying_key signer))) (seal_signature_b64 s) in
  bytes ← ok_or (seal_canonical_bytes s) SealError_Serde;
  Ok (with_signature s (seal_signer_pubkey_b64 s) (b64_encode (sign signer bytes))).
Definition verify_seal_pinned (s : SealEnvelope) (host_vk : VerifyingKey) : result SealError unit :=
  if negb (seal_version s =? SEAL_VERSION)
  then Err (SealError_UnsupportedVersion (seal_version s) SEAL_VERSION)
  else
    pk_bytes ← ok_or (b64_decode (seal_signer_pubkey_b64 s)) (SealError_BadCrypto "seal signer pubkey");
    arr ← ok_or (to_array 32 pk_bytes) (SealError_BadCrypto "seal signer pubkey not 32 bytes");
    embedded ← ok_or (vk_from_bytes arr) (SealError_BadCrypto "seal signer pubkey");
    if bool_decide (vk_to_bytes embedded <> vk_to_bytes host_vk) then Err SealError_UntrustedSigner
    else
      sig_bytes ← ok_or (b64_decode (seal_signature_b64 s)) (SealError_BadCrypto "seal signature");
      sig_arr ← ok_or (to_array 64 sig_bytes) (SealError_BadCrypto "seal signature not 64 bytes");
      bytes ← ok_or (seal_canonical_bytes s) SealError_Serde;
      if verify_strict host_vk bytes sig_arr then Ok tt else Err SealError_SignatureMismatch.
Definition evaluate_gate (s : SealEnvelope) (evidence : Evidence) (nonce : list Z) (now : Z)
    : result SealError unit :=
  verify_against_policy (policy s) evidence nonce now.
End Seal.

Section Orchestration.
Context {C : Crypto} {E : AttestEnv} {A : Aead} {J : JsonVec Json} {V : JsonVec unit} {MJ : ManifestJson}.

Definition manifest_canonical_sha256 (m : SnapshotManifest) : result SealError string :=
  bytes ← ok_or (manifest_canonical_bytes m) (SealError_BadCrypto "manifest canonical bytes");
  Ok (hex_encode (sha256 bytes)).
Definition check_binding (s : SealEnvelope) (m : SnapshotManifest) : result SealError unit :=
  if negb (String.eqb (seal_snapshot_id s) (snapshot_id m)) then Err SealError_BindingMismatch
  else
    h ← manifest_canonical_sha256 m;
    if negb (String.eqb (seal_manifest_sha256 s) h) then Err SealError_BindingMismatch else Ok tt.
Definition parse_snapshot_manifest (bytes : list Z) : result SealError SnapshotManifest :=
  version ← ok_or (parse_envelope bytes) SealError_Serde;
  if negb (version =? MANIFEST_VERSION) then Err (SealError_UnsupportedVersion version MANIFEST_VERSION)
  else ok_or (parse_strict bytes) SealError_Serde.

(** The text of [seal.json]. *)
Class SealJson := {
  seal_to_vec_pretty : SealEnvelope -> option (list Z);
  seal_from_slice : list Z -> option SealEnvelope;
}.
Class SealJsonLaws (SJ : SealJson) : Prop := {
  seal_pretty_total s : is_Some (seal_to_vec_pretty s);
  seal_pretty_parses s b : seal_to_vec_pretty s = Some b -> seal_from_slice b = Some s;
}.
Context {SJ : SealJson}.

(** A snapshot directory; [None] is a file that is missing or unreadable. *)
Record SealDir := {
  f_mem : option (list Z);
  f_vmstate : option (list Z);
  f_manifest : option (list Z);
  f_sealed_mem : option (list Z);
  f_sealed_vmstate : option (list Z);
  f_seal_json : option (list Z);
}.
Definition set_sealed_mem (b : list Z) (d : SealDir) : SealDir :=
  {| f_mem := f_mem d; f_vmstate := f_vmstate d; f_manifest := f_manifest d; f_sealed_mem := Some b;
     f_sealed_vmstate := f_sealed_vmstate d; f_seal_json := f_seal_json d |}.
Definition set_sealed_vmstate (b : list Z) (d : SealDir) : SealDir :=
  {| f_mem := f_mem d; f_vmstate := f_vmstate d; f_manifest := f_manifest d;
     f_sealed_mem := f_sealed_mem d; f_sealed_vmstate := Some b; f_seal_json := f_seal_json d |}.
Definition set_seal_json (b : list Z) (d : SealDir) : SealDir :=
  {| f_mem := f_mem d; f_vmstate := f_vmstate d; f_manifest := f_manifest d;
     f_sealed_mem := f_sealed_mem d; f_sealed_vmstate := f_sealed_vmstate d; f_seal_json := Some b |}.

(** The random bytes of one sealing: the key, the record nonces of the two files
    and the wrap nonce. *)
Record SealRandom := { r_dek : list Z; r_mem : Z -> list Z; r_vmstate : Z -> list Z; r_wrap : list Z }.
(** The wrap call of the key-release service. *)
Definition CpWrap : Type := list Z -> string -> string -> string -> SealingPolicy -> result SealError (list Z * list Z).

(** [seal_one_file]; [write_ok] is the outcome of the write. *)
Definition seal_one_file (rng : Z -> list Z) (src : option (list Z)) (dek : list Z)
    (snapshot_id manifest_hash : string) (write_ok : bool) : result SealError (list Z) :=
  pt ← ok_or src SealError_Io;
  ct ← encrypt_stream rng pt dek snapshot_id manifest_hash;
  if write_ok then Ok ct else Err SealError_Io.
Definition wrap_for (rnd : SealRandom) (m : SnapshotManifest) (mh : string) (signing_key : SigningKey)
    (p : SealingPolicy) (provider : KekProvider) (cp : option CpWrap) : result SealError DekEnvelope :=
  match provider with
  | KekProvider_ControlPlane =>
      cp ← ok_or cp (SealError_ControlPlaneRelease ControlPlaneError_Unconfigured);
      '(wrapped, nonce) ← cp (r_dek rnd) (created_from_workspace_id m) (snapshot_id m) mh p;
      Ok {| kek_provider := KekProvider_ControlPlane; wrapped_dek := wrapped; wrap_nonce := nonce |}
  | KekProvider_SoftwareFallback =>
      wrap_dek (r_wrap rnd) (r_dek rnd) (derive_kek signing_key) KekProvider_SoftwareFallback
        (snapshot_id m) mh p
  end.
Definition seal_artifacts (rnd : SealRandom) (write_ok : nat -> bool) (m : SnapshotManifest)
    (signing_key : SigningKey) (p : SealingPolicy) (provider : KekProvider) (cp : option CpWrap)
    : M SealDir SealError SealEnvelope :=
  mh ← lift (manifest_canonical_sha256 m);
  dir ← get;
  ct_mem ← lift (seal_one_file (r_mem rnd) (f_mem dir) (r_dek rnd) (snapshot_id m) mh (write_ok 0%nat));
  modify (set_sealed_mem ct_mem) ;;;
  ct_vm ← lift (seal_one_file (r_vmstate rnd) (f_vmstate dir) (r_dek rnd) (snapshot_id m) mh (write_ok 1%nat));
  modify (set_sealed_vmstate ct_vm) ;;;
  env ← lift (wrap_for rnd m mh signing_key p provider cp);
  seal ← lift (sign_seal
    {| seal_version := SEAL_VERSION; seal_snapshot_id := snapshot_id m; attestation_policy_id := None;
       policy := p; dek_envelope := env; seal_manifest_sha256 := mh;
       seal_signer_pubkey_b64 := ""; seal_signature_b64 := "" |} signing_key);
  json ← lift (ok_or (seal_to_vec_pretty seal) SealError_Serde);
  fail_if (negb (write_ok 2%nat)) with SealError_Io ;;;
  modify (set_seal_json json) ;;;
  mret seal.

(** The output files of an unsealing. *)
Record Outputs := { out_mem : option (list Z); out_vmstate : option (list Z) }.
(** The key-release callbacks and the evidence provider. *)
Record Release := {
  sw_release : option (SealEnvelope -> result SealError (list Z));
  cp_release : option (SealEnvelope -> Evidence -> result SealError (list Z));
  generate : EvidenceRequest -> Z -> result AttestationError Evidence;
}.
(** Steps 1 to 3: the pinned manifest, the pinned seal, and that they belong
    together. *)
Definition load_seal (dir : SealDir) (host_vk : VerifyingKey) : result SealError (SnapshotManifest * SealEnvelope) :=
  manifest_bytes ← ok_or (f_manifest dir) SealError_Io;
  manifest ← parse_snapshot_manifest manifest_bytes;
  _ ← map_err (fun _ => SealError_SignatureMismatch) (verify_manifest_signature_pinned manifest host_vk);
  seal_bytes ← ok_or (f_seal_json dir) SealError_Io;
  seal ← ok_or (seal_from_slice seal_bytes) SealError_Serde;
  _ ← verify_seal_pinned seal host_vk;
  _ ← check_binding seal manifest;
  Ok (manifest, seal).
(** Steps 4 and 5: fresh evidence, the gate, the key. *)
Definition release_dek (rel : Release) (seal : SealEnvelope) (nonce : list Z) (workspace_id : string)
    (measurement : list Z) (now : Z) : result SealError (list Z) :=
  nonce ← ok_or (Nonce_new nonce) (SealError_BadCrypto "nonce gen");
  evidence ← map_err (fun _ => SealError_AttestationGateDenied FailReason_BadSignature)
    (generate rel {| Attestation.req_workspace_id := workspace_id; req_measurement := measurement; req_nonce := nonce |} now);
  match kek_provider (dek_envelope seal) with
  | KekProvider_SoftwareFallback =>
      sw ← ok_or (sw_release rel) (SealError_ControlPlaneRelease ControlPlaneError_Unconfigured);
      _ ← evaluate_gate seal evidence nonce now;
      sw seal
  | KekProvider_ControlPlane =>
      _ ← evaluate_gate seal evidence nonce now;
      cp ← ok_or (cp_release rel) (SealError_ControlPlaneRelease ControlPlaneError_Unconfigured);
      cp seal evidence
  end.
Definition set_out_mem (b : list Z) (o : Outputs) : Outputs := {| out_mem := Some b; out_vmstate := out_vmstate o |}.
Definition set_out_vmstate (b : list Z) (o : Outputs) : Outputs := {| out_mem := out_mem o; out_vmstate := Some b |}.
Definition unseal_artifacts (dir : SealDir) (host_vk : VerifyingKey) (rel : Release) (nonce : list Z)
    (workspace_id : string) (measurement : list Z) (now : Z) (write_ok : nat -> bool)
    : M Outputs SealError unit :=
  '(manifest, seal) ← lift (load_seal dir host_vk);
  dek ← lift (release_dek rel seal nonce workspace_id measurement now);
  ct_mem ← lift (ok_or (f_sealed_mem dir) SealError_Io);
  pt_mem ← lift (decrypt_stream ct_mem dek (seal_snapshot_id seal) (seal_manifest_sha256 seal));
  fail_if (negb (write_ok 0%nat)) with SealError_Io ;;;
  modify (set_out_mem pt_mem) ;;;
  ct_vm ← lift (ok_or (f_sealed_vmstate dir) SealError_Io);
  pt_vm ← lift (decrypt_stream ct_vm dek (seal_snapshot_id seal) (seal_manifest_sha256 seal));
  fail_if (negb (write_ok 1%nat)) with SealError_Io ;;;
  modify (set_out_vmstate pt_vm).
End Orchestration.

(** ** The container opens to what was sealed *)
Section ContainerProofs.
Context {A : Aead}.

Lemma decrypt_loop_eq key sid mh reader i :
  decrypt_loop key sid mh reader i =
  ('(nonce, len, ct, rest) ← read_record reader;
   pt ← ok_or (gcm_decrypt key nonce (ad_for sid mh i) ct) SealError_CiphertextCorrupt;
   if len =? 0 then Ok []
   else
     next ← ok_or (checked_add U64_MAX i 1) (SealError_BadCrypto "chunk overflow");
     out ← decrypt_loop key sid mh rest next;
     Ok (pt ++ out)).
Proof.
  rewrite decrypt_loop_equation_1.
  destruct (inspect (read_record reader)) as [[[[[nonce len] ct] rest]|e] H];
    cbn [decrypt_loop_unfold_clause_1]; by rewrite H.
Qed.
Lemma encrypt_loop_eq rng key sid mh reader i :
  encrypt_loop rng key sid mh reader i =
  (if bool_decide (reader = []) then write_record key sid mh (rng i) i []
   else
     rec ← write_record key sid mh (rng i) i (takeZ CHUNK_SIZE reader);
     next ← ok_or (checked_add U64_MAX i 1) (SealError_BadCrypto "chunk overflow");
     rest ← encrypt_loop rng key sid mh (dropZ CHUNK_SIZE reader) next;
     Ok (rec ++ rest)).
Proof. destruct reader; by simp encrypt_loop. Qed.

Lemma read_exact_app n x rest : blen x = n -> read_exact n (x ++ rest) = Some (x, rest).
Proof.
  intros H. unfold read_exact. rewrite blen_app. pose proof (blen_nonneg rest).
  rewrite (proj2 (Z.leb_le _ _)) by lia. by rewrite takeZ_app, dropZ_app.
Qed.
Lemma read_u32_app n rest : 0 <= n <= U32_MAX -> read_exact_u32_be (be_bytes 4 n ++ rest) = Ok (n, rest).
Proof.
  intros H. unfold read_exact_u32_be. rewrite read_exact_app by blen_lia. cbn [ok_or mbind result_bind].
  by rewrite be_int_be_bytes by (unfold U32_MAX in H; change (256 ^ Z.of_nat 4) with 4294967296; lia).
Qed.
Lemma read_record_app nonce len ct rest :
  blen nonce = 12 -> 0 <= len <= CHUNK_SIZE -> blen ct = len + 16 ->
  read_record ((nonce ++ be_bytes 4 len ++ ct) ++ rest) = Ok (nonce, len, ct, rest).
Proof.
  intros Hn Hl Hc. unfold read_record. rewrite <- !app_assoc, read_exact_app by done.
  cbn [ok_or mbind result_bind]. rewrite read_u32_app by (unfold CHUNK_SIZE, U32_MAX in *; lia).
  cbn [mbind result_bind]. rewrite (proj2 (Z.ltb_ge CHUNK_SIZE len)) by lia. rewrite andb_false_r.
  by rewrite read_exact_app.
Qed.
Lemma checked_next i : 0 <= i < U64_MAX -> checked_add U64_MAX i 1 = Some (i + 1).
Proof. intros H. apply checked_add_Some. lia. Qed.

Context {AL : AeadLaws A}.
Lemma write_record_ok key sid mh nonce i pt :
  blen nonce = 12 -> blen pt <= CHUNK_SIZE ->
  exists rec ct, write_record key sid mh nonce i pt = Ok rec
    /\ gcm_decrypt key nonce (ad_for sid mh i) ct = Some pt
    /\ forall rest, read_record (rec ++ rest) = Ok (nonce, blen pt, ct, rest).
Proof.
  intros Hn Hp. destruct (gcm_seal key nonce (ad_for sid mh i) pt Hp) as [ct Hct].
  pose proof (gcm_open _ _ _ _ _ Hct) as Ho. pose proof (gcm_tag _ _ _ _ _ Ho) as Ht.
  pose proof (blen_nonneg pt). unfold write_record. rewrite Hct. cbn [ok_or mbind result_bind].
  assert (try_into U32_MAX (blen pt) = Some (blen pt)) as ->.
  { apply try_into_Some. unfold U32_MAX, CHUNK_SIZE in *. lia. }
  eexists _, ct. split; [done|]. split; [done|]. intros rest. apply read_record_app; [done|lia|lia].
Qed.
Lemma loop_round_trip rng key sid mh : (forall i, blen (rng i) = 12) ->
  forall reader i, 0 <= i -> i + blen reader <= U64_MAX ->
  exists ct, encrypt_loop rng key sid mh reader i = Ok ct
    /\ forall rest, decrypt_loop key sid mh (ct ++ rest) i = Ok reader.
Proof.
  intros Hr reader. induction reader as [reader IH] using (induction_ltof1 _ (@length Z)).
  intros i Hi Hb. rewrite encrypt_loop_eq. case_bool_decide as Hnil.
  - subst reader. destruct (write_record_ok key sid mh (rng i) i []) as (rec & ct & -> & Ho & Hrd);
      [done|done|]. exists rec. split; [done|]. intros rest. rewrite decrypt_loop_eq, Hrd.
    cbn [mbind result_bind]. by rewrite Ho.
  - pose proof (dropZ_shorter CHUNK_SIZE reader ltac:(done) Hnil) as Hlt.
    pose proof (takeZ_dropZ CHUNK_SIZE reader) as Hcat. pose proof (f_equal blen Hcat) as Hlen.
    rewrite blen_app in Hlen. pose proof (blen_nonneg (dropZ CHUNK_SIZE reader)).
    pose proof (blen_takeZ CHUNK_SIZE reader ltac:(done)) as Htk.
    assert (0 < blen reader) by (unfold blen; destruct reader; [done|cbn; lia]).
    assert (0 < blen (takeZ CHUNK_SIZE reader)) by (rewrite Htk; unfold CHUNK_SIZE; lia).
    destruct (write_record_ok key sid mh (rng i) i (takeZ CHUNK_SIZE reader))
      as (rec & ct & -> & Ho & Hrd); [done|lia|].
    cbn [mbind result_bind]. rewrite checked_next by lia. cbn [ok_or mbind result_bind].
    destruct (IH _ Hlt (i + 1)) as (ct' & -> & Hd); [lia|lia|]. cbn [mbind result_bind].
    eexists. split; [done|]. intros rest. rewrite <- app_assoc, decrypt_loop_eq, Hrd.
    cbn [mbind result_bind]. rewrite Ho. cbn [ok_or mbind result_bind].
    rewrite (proj2 (Z.eqb_neq _ 0)) by lia. rewrite checked_next by lia. cbn [ok_or mbind result_bind].
    rewrite Hd. cbn. by rewrite Hcat.
Qed.
Lemma stream_round_trip rng pt dek sid mh :
  (forall i, blen (rng i) = 12) -> blen pt <= U64_MAX ->
  exists ct, encrypt_stream rng pt dek sid mh = Ok ct /\
    forall rest, decrypt_stream (ct ++ rest) dek sid mh = Ok pt.
Proof.
  intros Hr Hb. unfold encrypt_stream, decrypt_stream.
  destruct (loop_round_trip rng dek (bytes_of sid) (bytes_of mh) Hr pt 0) as (ct & -> & Hd); [lia|lia|].
  eexists. split; [done|]. intros rest. rewrite <- !app_assoc.
  rewrite read_exact_app by done. cbn [ok_or mbind result_bind]. rewrite bool_decide_false by tauto.
  rewrite read_u32_app by done. apply Hd.
Qed.

(** Sealing an artifact always succeeds, and opening the container under the same key, snapshot
    and manifest digest gives the artifact back, byte for byte, for every choice of nonces and
    artifacts of any length; bytes after the end record change nothing. *)
Theorem container_round_trip rng pt dek sid mh :
  (forall i, blen (rng i) = 12) -> blen pt <= U64_MAX ->
  exists ct, encrypt_stream rng pt dek sid mh = Ok ct /\
    forall rest, decrypt_stream (ct ++ rest) dek sid mh = Ok pt.
Proof. apply stream_round_trip. Qed.
End ContainerProofs.

(** ** Only the sealed artifact opens *)
Section Authenticity.
Context {A : Aead}.

Definition chunk (pt : list Z) (i : Z) : list Z := takeZ CHUNK_SIZE (dropZ (i * CHUNK_SIZE) pt).
(** Record [i] of the container of [pt]: its nonce, associated data, text and
    ciphertext. *)
Definition is_record (rng : Z -> list Z) (key sid mh pt : list Z) (i : Z) (n ad m c : list Z) : Prop :=
  0 <= i <= U64_MAX /\ n = rng i /\ ad = ad_for sid mh i /\ m = chunk pt i
  /\ gcm_encrypt key n ad m = Some c.

Lemma dropZ_dropZ a b l : 0 <= a -> 0 <= b -> dropZ a (dropZ b l) = dropZ (a + b) l.
Proof.
  revert b. induction l as [|x l IH]; intros b Ha Hb; cbn [dropZ]; [done|].
  destruct (Z.leb_spec b 0); [by replace (a + b) with a by lia|].
  rewrite (proj2 (Z.leb_gt (a + b) 0)) by lia. rewrite IH by lia. f_equal. lia.
Qed.
Lemma takeZ_nil n l : 0 < n -> takeZ n l = [] -> l = [].
Proof. intros Hn. destruct l; cbn; [done|]. by rewrite (proj2 (Z.leb_gt n 0)) by lia. Qed.
Lemma chunk_next pt i : 0 <= i -> chunk pt i ++ dropZ ((i + 1) * CHUNK_SIZE) pt = dropZ (i * CHUNK_SIZE) pt.
Proof.
  intros Hi. unfold chunk. replace ((i + 1) * CHUNK_SIZE) with (CHUNK_SIZE + i * CHUNK_SIZE) by lia.
  rewrite <- dropZ_dropZ by (unfold CHUNK_SIZE; lia). apply takeZ_dropZ.
Qed.
Lemma ad_for_index sid mh i j :
  0 <= i <= U64_MAX -> 0 <= j <= U64_MAX -> ad_for sid mh i = ad_for sid mh j -> i = j.
Proof.
  intros Hi Hj H. unfold ad_for in H. do 3 apply app_inv_head in H.
  unfold U64_MAX in *. apply (f_equal le_int) in H.
  by rewrite !le_int_le_bytes in H by (change (256 ^ Z.of_nat 8) with 18446744073709551616; lia).
Qed.

(** The records of a file from index [i] on: record [j] has this nonce and ciphertext. *)
Inductive file_record : list Z -> Z -> Z -> list Z -> list Z -> Prop :=
| file_record_here reader i n len c rest :
    read_record reader = Ok (n, len, c, rest) -> file_record reader i i n c
| file_record_next reader i n len c rest j n' c' :
    read_record reader = Ok (n, len, c, rest) -> file_record rest (i + 1) j n' c' ->
    file_record reader i j n' c'.
(** What was sealed under one key for one snapshot and manifest is given by the nonces and the text of
    each container. The cipher made this ciphertext, for this nonce, associated data and text. *)
Definition was_sealed (sealed : list ((Z -> list Z) * list Z)) (key sid mh n ad m c : list Z) : Prop :=
  Exists (fun s => exists j, is_record s.1 key sid mh s.2 j n ad m c) sealed.
(** A forgery: a record of the file opens under the key with the associated data of its index,
    although no sealing made that ciphertext for that nonce and associated data. *)
Definition forgery (sealed : list ((Z -> list Z) * list Z)) (key sid mh reader : list Z) (i : Z) : Prop :=
  exists j n c m, file_record reader i j n c /\ gcm_decrypt key n (ad_for sid mh j) c = Some m
    /\ ~ was_sealed sealed key sid mh n (ad_for sid mh j) m c.
(** The associated data gives away the index, so a record that was sealed was sealed there. *)
Lemma was_sealed_at sealed key sid mh j n m c : 0 <= j <= U64_MAX ->
  was_sealed sealed key sid mh n (ad_for sid mh j) m c
  <-> Exists (fun s => is_record s.1 key sid mh s.2 j n (ad_for sid mh j) m c) sealed.
Proof.
  intros Hj. unfold was_sealed. rewrite !Exists_exists. split.
  - intros (s & Hs & j' & Hr). exists s. split; [done|]. pose proof Hr as (Hj' & _ & Had & _).
    apply ad_for_index in Had; [|done|done]. by subst j'.
  - intros (s & Hs & Hr). eauto.
Qed.
#[local] Instance record_dec rng key sid mh pt i n ad m c : Decision (is_record rng key sid mh pt i n ad m c).
Proof. unfold is_record. apply _. Qed.
(** Text put together, chunk by chunk and each at its own place, from the given texts. *)
Inductive spliced (texts : list (list Z)) : Z -> list Z -> Prop :=
| spliced_end i pt : pt ∈ texts -> chunk pt i = [] -> spliced texts i []
| spliced_chunk i pt out :
    pt ∈ texts -> chunk pt i <> [] -> spliced texts (i + 1) out -> spliced texts i (chunk pt i ++ out).
Lemma spliced_single pt i out : 0 <= i -> spliced [pt] i out -> out = dropZ (i * CHUNK_SIZE) pt.
Proof.
  intros Hi H. revert Hi. induction H as [i q Hq Hc|i q out Hq _ _ IH]; intros Hi; apply list_elem_of_singleton in Hq as ->.
  - unfold chunk in Hc. by apply takeZ_nil in Hc as ->.
  - rewrite IH by lia. apply chunk_next. lia.
Qed.

Context {AL : AeadLaws A}.
(** The length field of a record that opens is the length of its text. *)
Lemma record_length reader nonce len ct rest key ad m :
  read_record reader = Ok (nonce, len, ct, rest) -> gcm_decrypt key nonce ad ct = Some m -> blen m = len.
Proof.
  intros Hrec Ho. pose proof (gcm_tag _ _ _ _ _ Ho) as Ht. pose proof (blen_nonneg m).
  unfold read_record in Hrec. apply bind_ok in Hrec as ([n1 r1] & _ & Hrec).
  apply bind_ok in Hrec as ([l r2] & Hl & Hrec). destruct (_ && _); [done|].
  apply bind_ok in Hrec as ([c r3] & Hc%ok_or_ok & [= <- <- <- <-]). unfold read_exact in Hc.
  destruct (Z.leb_spec (l + 16) (blen r2)); [|done]. injection Hc as <- <-.
  destruct (Z.leb_spec 0 (l + 16)); [rewrite blen_takeZ in Ht by done; lia|].
  exfalso. assert (takeZ (l + 16) r2 = []) as Hz.
  { destruct r2; cbn; [done|]. by rewrite (proj2 (Z.leb_le (l + 16) 0)) by lia. }
  rewrite Hz, blen_nil in Ht. lia.
Qed.
Lemma decrypt_loop_authentic sealed key sid mh :
  forall reader i out, 0 <= i <= U64_MAX -> decrypt_loop key sid mh reader i = Ok out ->
  forgery sealed key sid mh reader i \/ spliced (snd <$> sealed) i out.
Proof.
  intros reader. induction reader as [reader IH] using (induction_ltof1 _ (@length Z)).
  intros i out Hi H. rewrite decrypt_loop_eq in H.
  apply bind_ok in H as ([[[nonce len] ct] rest] & Hrec & H).
  apply bind_ok in H as (m & Ho%ok_or_ok & H).
  destruct (decide (Exists (fun s => is_record s.1 key sid mh s.2 i nonce (ad_for sid mh i) m ct) sealed)) as [Hs|Hs].
  2: { left. exists i, nonce, ct, m. rewrite was_sealed_at by done. split; [by econstructor|done]. }
  apply Exists_exists in Hs as ([rng pt] & Hin & _ & _ & _ & Hm & _). change (m = chunk pt i) in Hm.
  assert (pt ∈ snd <$> sealed) as Hpt by (apply list_elem_of_fmap; by exists (rng, pt)).
  pose proof (record_length _ _ _ _ _ _ _ _ Hrec Ho) as Hlen.
  destruct (Z.eqb_spec len 0) as [->|Hz].
  - injection H as <-. right. apply spliced_end with pt; [done|]. rewrite <- Hm.
    unfold blen in Hlen. destruct m; [done|cbn in Hlen; lia].
  - apply bind_ok in H as (next & Hn%ok_or_ok & H). apply checked_add_Some in Hn as [-> Hr].
    apply bind_ok in H as (out' & Hd & [= <-]).
    destruct (IH _ (read_record_shorter _ _ _ _ _ Hrec) (i + 1) out' ltac:(lia) Hd) as [(j & n & c & m' & Hf & Hx)|Hsp].
    + left. exists j, n, c, m'. split; [by econstructor|done].
    + right. rewrite Hm. apply spliced_chunk; [done| |done]. rewrite <- Hm. intros ->. by rewrite blen_nil in Hlen.
Qed.

(** C32: A file that opens under a key gives only text that was sealed under that key, at its own
    place, unless it holds a forgery: a record that opens under the key with the associated data of
    its index although no sealing made that ciphertext for that nonce and data. With one container
    sealed under the key, a file without a forgery gives exactly the sealed artifact, so dropping, repeating, reordering or truncating records, moving the end
    record or altering a byte never yields other bytes. With several, such as the memory and the
    state of one snapshot, each chunk is that of one of them at the same index. *)
Theorem container_is_authentic sealed dek sid mh file out :
  decrypt_stream file dek sid mh = Ok out ->
  forgery sealed dek (bytes_of sid) (bytes_of mh) (dropZ 12 file) 0
  \/ (spliced (snd <$> sealed) 0 out /\ forall s, sealed = [s] -> out = s.2).
Proof.
  intros H. unfold decrypt_stream in H.
  apply bind_ok in H as ([magic r1] & H1%ok_or_ok & H). destruct (bool_decide _); [done|].
  apply bind_ok in H as ([sz r2] & H2 & H). unfold read_exact_u32_be in H2.
  apply bind_ok in H2 as ([buf r] & H2%ok_or_ok & [= _ <-]).
  assert (dropZ 12 file = r) as ->.
  { unfold read_exact in H1, H2. destruct (_ <=? _) in H1; [|done]. destruct (_ <=? _) in H2; [|done].
    injection H1 as _ <-. injection H2 as _ <-. by rewrite dropZ_dropZ by lia. }
  destruct (decrypt_loop_authentic sealed _ _ _ _ 0 _ ltac:(done) H) as [Hf|Hs]; [by left|right].
  split; [done|]. intros [rng pt] ->. cbn in *. apply spliced_single in Hs as ->; [|lia]. by destruct pt.
Qed.
End Authenticity.

(** ** The wrapped key belongs to one snapshot, manifest and policy *)
Section WrapProofs.
Context {C : Crypto} {CL : CryptoLaws C} {A : Aead} {J : JsonVec Json} {JL : JsonVecLaws Json J}.

Definition policy_members (p : SealingPolicy) : list (string * Field Json) :=
  [("accept_provider_types", Field_value (provider_types_value (sp_accept_provider_types p)));
   ("ctx", Field_string POLICY_DOMAIN_TAG);
   ("expected_measurement", Field_value (measurement_value (sp_expected_measurement p)));
   ("freshness_seconds", Field_number (sp_freshness_seconds p));
   ("trust_anchor", Field_value (trust_anchor_value (sp_trust_anchor p)))].
Lemma policy_canonical_eq p : policy_canonical_bytes p = default [] (to_vec (policy_members p)).
Proof. reflexivity. Qed.

(** The byte fields of a policy hold bytes, its words are 64-bit. *)
Definition anchor_wf (a : SealingTrustAnchor) : Prop :=
  match a with
  | SealingTrustAnchor_Software s => is_bytes s
  | SealingTrustAnchor_SevSnp der meas t g =>
      is_bytes der /\ match meas with None => True | Some m => is_bytes m end
      /\ in_range U64_MAX t /\ in_range U64_MAX g
  end.
Lemma b64_encode_inj a b : is_bytes a -> is_bytes b -> b64_encode a = b64_encode b -> a = b.
Proof.
  intros Ha Hb H. apply (f_equal b64_decode) in H. rewrite !b64_round_trip in H by done. by injection H.
Qed.
Lemma u64_str_serialize_inj a b :
  in_range U64_MAX a -> in_range U64_MAX b -> u64_str_serialize a = u64_str_serialize b -> a = b.
Proof.
  unfold in_range, u64_str_serialize. intros Ha Hb H. apply (f_equal (parse_uint U64_MAX)) in H.
  rewrite !parse_show_uint in H by lia. by apply (inj Some) in H.
Qed.
Lemma measurement_value_inj a b : measurement_value a = measurement_value b -> a = b.
Proof.
  destruct a as [a|], b as [b|]; cbn; try done. intros [= H]. f_equal. revert b H.
  induction a as [|x a IH]; intros [|y b]; try done. intros [= -> H]. f_equal. auto.
Qed.
Lemma provider_types_value_inj a b : provider_types_value a = provider_types_value b -> a = b.
Proof.
  intros [= H]. revert b H. induction a as [|x a IH]; intros [|y b]; try done.
  intros [= Hx H]. f_equal; [by destruct x, y|auto].
Qed.
Lemma trust_anchor_value_inj a b :
  anchor_wf a -> anchor_wf b -> trust_anchor_value a = trust_anchor_value b -> a = b.
Proof.
  destruct a as [s|d m t g], b as [s'|d' m' t' g']; cbn; try done.
  - intros Ha Hb [= H]. f_equal. by apply b64_encode_inj.
  - intros (Hd & Hm & Ht & Hg) (Hd' & Hm' & Ht' & Hg') H. injection H as H1 H2 H3 H4.
    apply b64_encode_inj in H1 as ->; [|done..]. apply u64_str_serialize_inj in H3 as ->; [|done..].
    apply u64_str_serialize_inj in H4 as ->; [|done..]. f_equal.
    destruct m as [m|], m' as [m'|]; try done. injection H2 as H2. f_equal. by apply b64_encode_inj.
Qed.
Lemma policy_hash_binds p q :
  anchor_wf (sp_trust_anchor p) -> anchor_wf (sp_trust_anchor q) ->
  policy_hash p = policy_hash q -> p = q \/ sha256_collision.
Proof.
  intros Hp Hq H. unfold policy_hash in H. rewrite !policy_canonical_eq in H.
  destruct (to_vec_total (policy_members p)) as [x Hx], (to_vec_total (policy_members q)) as [y Hy].
  rewrite Hx, Hy in H. cbn [default id] in H.
  destruct (decide (x = y)) as [->|Hne]; [|right; by exists x, y]. left.
  pose proof (to_vec_inj _ _ _ Hx Hy) as Hm. unfold policy_members in Hm.
  injection Hm as H1 H2 H3 H4. destruct p as [p1 p2 p3 p4], q as [q1 q2 q3 q4]. cbn in *.
  assert (p1 = q1) as -> by (apply provider_types_value_inj; unfold provider_types_value; by f_equal).
  by apply measurement_value_inj in H2 as ->; apply trust_anchor_value_inj in H4 as ->; subst.
Qed.
Lemma app_eq_length {T} (a b c d : list T) : length b = length d -> a ++ b = c ++ d -> a = c /\ b = d.
Proof.
  intros Hl H. pose proof (f_equal length H) as Hn. rewrite !length_app in Hn.
  apply app_inj_1 in H; [done|lia].
Qed.

(** Under a wrapping key that opens only the wrapping made for one snapshot, manifest digest and
    policy, a wrapped key is released only for that snapshot, that digest and that policy, and is
    the key that was wrapped, unless two messages with the same SHA-256 digest are known.  Manifest
    digests have a fixed length; digests are 32 bytes. *)
Theorem wrapped_key_binds kek nonce ct dek sid mh p env sid' mh' p' dek' :
  (forall m, length (sha256 m) = 32%nat) ->
  (forall n ad c m, gcm_decrypt kek n ad c = Some m ->
     n = nonce /\ ad = dek_wrap_associated_data sid mh p /\ c = ct /\ m = dek) ->
  length (bytes_of mh') = length (bytes_of mh) ->
  anchor_wf (sp_trust_anchor p) -> anchor_wf (sp_trust_anchor p') ->
  unwrap_dek env kek sid' mh' p' = Ok dek' ->
  (dek' = dek /\ bytes_of sid' = bytes_of sid /\ bytes_of mh' = bytes_of mh /\ p' = p) \/ sha256_collision.
Proof.
  intros Hsha Hauth Hlen Hp Hp' H. unfold unwrap_dek in H.
  apply bind_ok in H as (n & _ & H). apply bind_ok in H as (pt & Hd%ok_or_ok & H).
  apply Hauth in Hd as (_ & Had & _ & ->). apply ok_or_ok in H. unfold to_array in H.
  destruct (_ =? _)%nat; [|done]. injection H as <-.
  unfold dek_wrap_associated_data in Had. apply app_inv_head in Had. rewrite !app_assoc in Had.
  apply app_eq_length in Had as [Had Hpol]; [|unfold policy_hash; by rewrite !Hsha].
  apply app_eq_length in Had as [Hs Hm]; [|done].
  destruct (policy_hash_binds p' p Hp' Hp Hpol) as [->|Hc]; [left|by right]. done.
Qed.

Context {AL : AeadLaws A}.
Lemma wrap_unwrap nonce dek kek provider sid mh p :
  length nonce = 12%nat -> length dek = 32%nat ->
  exists env, wrap_dek nonce dek kek provider sid mh p = Ok env /\ kek_provider env = provider
    /\ unwrap_dek env kek sid mh p = Ok dek.
Proof.
  intros Hn Hd. unfold wrap_dek, wrap_dek_with_nonce, unwrap_dek.
  destruct (gcm_seal kek nonce (dek_wrap_associated_data sid mh p) dek) as [ct Hct];
    [unfold blen; lia|].
  rewrite Hct. cbn [ok_or mbind result_bind]. eexists. split; [done|]. split; [done|].
  cbn [wrap_nonce wrapped_dek]. rewrite (to_array_Some 12) by done. cbn [ok_or mbind result_bind].
  rewrite (gcm_open _ _ _ _ _ Hct). cbn [ok_or mbind result_bind]. by rewrite (to_array_Some 32).
Qed.
End WrapProofs.

(** ** Unsealing *)
Section UnsealProofs.
Context {C : Crypto} {E : AttestEnv} {A : Aead} {J : JsonVec Json} {V : JsonVec unit} {MJ : ManifestJson}
  {SJ : SealJson}.

Definition seal_signed_by (vk : VerifyingKey) (s : SealEnvelope) : Prop :=
  seal_version s = SEAL_VERSION
  /\ exists pk embedded sig bytes,
       b64_array 32 (seal_signer_pubkey_b64 s) = Some pk /\ vk_from_bytes pk = Some embedded
       /\ vk_to_bytes embedded = vk_to_bytes vk
       /\ b64_array 64 (seal_signature_b64 s) = Some sig
       /\ seal_canonical_bytes s = Some bytes /\ verify_strict vk bytes sig = true.
Lemma verify_seal_iff s vk : verify_seal_pinned s vk = Ok tt <-> seal_signed_by vk s.
Proof.
  unfold verify_seal_pinned, seal_signed_by, b64_array.
  destruct (Z.eqb_spec (seal_version s) SEAL_VERSION) as [Hv|Hv]; cbn [negb]; [|naive_solver].
  unfold mbind, result_bind, option_bind.
  destruct (b64_decode (seal_signer_pubkey_b64 s)) as [b|]; cbn; [|naive_solver].
  destruct (to_array 32 b) as [pk|]; cbn; [|naive_solver].
  destruct (vk_from_bytes pk) as [k|] eqn:Hk; cbn; [|naive_solver].
  case_bool_decide as Hd; cbn; [naive_solver|].
  destruct (b64_decode (seal_signature_b64 s)) as [c|]; cbn; [|naive_solver].
  destruct (to_array 64 c) as [sg|]; cbn; [|naive_solver].
  destruct (seal_canonical_bytes s) as [bytes|]; cbn; [|naive_solver].
  destruct (verify_strict vk bytes sg) eqn:Hs.
  - split; [intros _|done]. split; [done|]. by exists pk, k, sg, bytes.
  - split; [done|]. intros (_ & ? & ? & ? & ? & [= <-] & ? & ? & [= <-] & [= <-] & ?). congruence.
Qed.
(** The seal and the manifest of a directory, both signed by the host and
    naming each other. *)
Definition loaded (dir : SealDir) (vk : VerifyingKey) (m : SnapshotManifest) (s : SealEnvelope) : Prop :=
  (exists mb, f_manifest dir = Some mb /\ parse_snapshot_manifest mb = Ok m)
  /\ signed_by vk m
  /\ (exists sb, f_seal_json dir = Some sb /\ seal_from_slice sb = Some s)
  /\ seal_signed_by vk s
  /\ seal_snapshot_id s = snapshot_id m /\ manifest_canonical_sha256 m = Ok (seal_manifest_sha256 s).
Lemma check_binding_iff s m :
  check_binding s m = Ok tt <->
  seal_snapshot_id s = snapshot_id m /\ manifest_canonical_sha256 m = Ok (seal_manifest_sha256 s).
Proof.
  unfold check_binding. destruct (String.eqb_spec (seal_snapshot_id s) (snapshot_id m)) as [Hs|Hs];
    cbn [negb]; [|naive_solver]. rewrite bind_ok. split.
  - intros (h & Hh & H). destruct (String.eqb_spec (seal_manifest_sha256 s) h) as [->|]; naive_solver.
  - intros [_ Hh]. exists (seal_manifest_sha256 s). by rewrite String.eqb_refl.
Qed.
Lemma load_seal_iff dir vk m s : load_seal dir vk = Ok (m, s) <-> loaded dir vk m s.
Proof.
  unfold load_seal, loaded. split.
  - intros H. apply bind_ok in H as (mb & Hmb%ok_or_ok & H). apply bind_ok in H as (m' & Hm & H).
    apply bind_unit_ok in H as [Hv%map_err_ok H]. apply bind_ok in H as (sb & Hsb%ok_or_ok & H).
    apply bind_ok in H as (s' & Hs%ok_or_ok & H). apply bind_unit_ok in H as [Hvs H].
    apply bind_unit_ok in H as [Hb [= <- <-]].
    apply verify_pinned_spec in Hv. apply verify_seal_iff in Hvs. apply check_binding_iff in Hb. naive_solver.
  - intros ((mb & -> & Hm) & Hsm & (sb & -> & Hs) & Hss & Hb). cbn [ok_or mbind result_bind].
    apply verify_pinned_spec in Hsm. apply verify_seal_iff in Hss. apply check_binding_iff in Hb.
    rewrite Hm. cbn [mbind result_bind]. rewrite Hsm. cbn [map_err ok_or mbind result_bind].
    rewrite Hs. cbn [ok_or mbind result_bind]. rewrite Hss. cbn [mbind result_bind]. by rewrite Hb.
Qed.

(** The gate: fresh evidence for this unsealing verifies under the policy of
    the seal. *)
Definition gate_open (rel : Release) (s : SealEnvelope) (nonce : list Z) (ws : string) (meas : list Z)
    (now : Z) (ev : Evidence) : Prop :=
  generate rel {| Attestation.req_workspace_id := ws; req_measurement := meas; req_nonce := nonce |} now = Ok ev
  /\ exists anchor, policy_anchor (policy s) = Ok anchor
       /\ verify ev (policy_params (policy s) anchor nonce now) = VerifyOutcome_Verified.
(** The release the seal names, and no other, gives the key. *)
Definition released (rel : Release) (s : SealEnvelope) (ev : Evidence) (dek : list Z) : Prop :=
  match kek_provider (dek_envelope s) with
  | KekProvider_SoftwareFallback => exists sw, sw_release rel = Some sw /\ sw s = Ok dek
  | KekProvider_ControlPlane => exists cp, cp_release rel = Some cp /\ cp s ev = Ok dek
  end.
Lemma evaluate_gate_iff s ev nonce now :
  evaluate_gate s ev nonce now = Ok tt <->
  exists anchor, policy_anchor (policy s) = Ok anchor
    /\ verify ev (policy_params (policy s) anchor nonce now) = VerifyOutcome_Verified.
Proof.
  unfold evaluate_gate, verify_against_policy. rewrite bind_ok. unfold outcome_to_result.
  split; intros (a & Ha & H); exists a; (split; [done|]); [by destruct (verify _ _)|by rewrite H].
Qed.
Lemma Nonce_new_id n : Nonce_new n = Some n \/ Nonce_new n = None.
Proof. unfold Nonce_new. destruct (_ && _); auto. Qed.
Lemma release_dek_iff rel s nonce ws meas now dek :
  release_dek rel s nonce ws meas now = Ok dek <->
  Nonce_new nonce = Some nonce /\
  exists ev, gate_open rel s nonce ws meas now ev /\ released rel s ev dek.
Proof.
  unfold release_dek, gate_open, released. destruct (Nonce_new_id nonce) as [Hn|Hn]; rewrite Hn;
    cbn [ok_or mbind result_bind]; [|split; [done|intros [? _]; done]]. split.
  - intros H. split; [done|]. apply bind_ok in H as (ev & Hg%map_err_ok & H). exists ev.
    destruct (kek_provider (dek_envelope s)).
    + apply bind_ok in H as (sw & Hsw%ok_or_ok & H). apply bind_unit_ok in H as [Hv H].
      apply evaluate_gate_iff in Hv. naive_solver.
    + apply bind_unit_ok in H as [Hv H]. apply bind_ok in H as (cp & Hcp%ok_or_ok & H).
      apply evaluate_gate_iff in Hv. naive_solver.
  - intros (_ & ev & (-> & Hv%evaluate_gate_iff) & Hr). cbn [map_err mbind result_bind].
    destruct (kek_provider (dek_envelope s)); destruct Hr as (f & -> & Hf); cbn [ok_or mbind result_bind];
      rewrite Hv; cbn [ok_or mbind result_bind]; done.
Qed.

Lemma M_lift_bind {St Er X Y} (r : result Er X) (k : X -> M St Er Y) st :
  (lift r ≫= k) st = match r with Ok x => k x st | Err e => (Err e, st) end.
Proof. by destruct r. Qed.
(** The two decryptions. *)
Definition opened (dir : SealDir) (s : SealEnvelope) (dek mem vmstate : list Z) : Prop :=
  exists cm cv, f_sealed_mem dir = Some cm /\ f_sealed_vmstate dir = Some cv
    /\ decrypt_stream cm dek (seal_snapshot_id s) (seal_manifest_sha256 s) = Ok mem
    /\ decrypt_stream cv dek (seal_snapshot_id s) (seal_manifest_sha256 s) = Ok vmstate.
Lemma unseal_ok_iff dir vk rel nonce ws meas now out out' :
  unseal_artifacts dir vk rel nonce ws meas now (fun _ => true) out = (Ok tt, out') <->
  exists m s dek, loaded dir vk m s /\ release_dek rel s nonce ws meas now = Ok dek
    /\ exists mem vmstate, opened dir s dek mem vmstate
         /\ out' = {| out_mem := Some mem; out_vmstate := Some vmstate |}.
Proof.
  unfold unseal_artifacts, opened. rewrite M_lift_bind. split.
  - destruct (load_seal dir vk) as [[m s]|] eqn:Hl; [|done]. apply load_seal_iff in Hl.
    rewrite M_lift_bind. destruct (release_dek rel s nonce ws meas now) as [dek|] eqn:Hr; [|done].
    rewrite M_lift_bind. destruct (f_sealed_mem dir) as [cm|]; cbn [ok_or]; [|done].
    rewrite M_lift_bind. destruct (decrypt_stream cm _ _ _) as [pm|] eqn:Hm; [|done].
    unfold_m. destruct (f_sealed_vmstate dir) as [cv|]; cbn; [|done].
    destruct (decrypt_stream cv _ _ _) as [pv|] eqn:Hv; cbn; [|done]. intros [= <-].
    exists m, s, dek. split; [done|]. split; [done|]. exists pm, pv. eauto 8.
  - intros (m & s & dek & ->%load_seal_iff & Hr & mem & vm & (cm & cv & -> & -> & Hm & Hv) & ->).
    rewrite M_lift_bind, Hr, M_lift_bind. cbn [ok_or]. rewrite M_lift_bind, Hm. unfold_m. by rewrite Hv.
Qed.
Lemma unseal_writes_loaded dir vk rel nonce ws meas now wok out r out' :
  unseal_artifacts dir vk rel nonce ws meas now wok out = (r, out') -> r = Ok tt \/ out' <> out ->
  exists m s dek, load_seal dir vk = Ok (m, s) /\ release_dek rel s nonce ws meas now = Ok dek.
Proof.
  unfold unseal_artifacts. rewrite M_lift_bind.
  destruct (load_seal dir vk) as [[m s]|] eqn:Hl; [|naive_solver].
  rewrite M_lift_bind. destruct (release_dek rel s nonce ws meas now) as [dek|] eqn:Hr; [|naive_solver].
  intros _ _. by exists m, s, dek.
Qed.

(** C14: Unsealing writes an output file, or succeeds, only after the manifest and the seal were both
    found signed by the host key and naming each other, fresh evidence for this very request (its
    workspace, measurement and nonce) verified under the policy inside the seal, and the release the
    seal names gave the key. *)
Theorem plaintext_needs_open_gate dir vk rel nonce ws meas now wok out r out' :
  unseal_artifacts dir vk rel nonce ws meas now wok out = (r, out') -> r = Ok tt \/ out' <> out ->
  exists m s ev dek, loaded dir vk m s /\ gate_open rel s nonce ws meas now ev /\ released rel s ev dek.
Proof.
  intros H Hor. destruct (unseal_writes_loaded _ _ _ _ _ _ _ _ _ _ _ H Hor) as (m & s & dek & Hl & Hr).
  apply load_seal_iff in Hl. apply release_dek_iff in Hr as (_ & ev & Hg & Hd). eauto 8.
Qed.

Definition swap_sealed (d : SealDir) : SealDir :=
  {| f_mem := f_mem d; f_vmstate := f_vmstate d; f_manifest := f_manifest d;
     f_sealed_mem := f_sealed_vmstate d; f_sealed_vmstate := f_sealed_mem d; f_seal_json := f_seal_json d |}.
(** The two sealed files of a snapshot are interchangeable: whenever a directory unseals,
    exchanging its [mem.sealed] and [vmstate.sealed] unseals as well, with the device state written
    as memory and the memory as device state. *)
Theorem swapped_files_unseal dir vk rel nonce ws meas now out mem vmstate :
  unseal_artifacts dir vk rel nonce ws meas now (fun _ => true) out
    = (Ok tt, {| out_mem := Some mem; out_vmstate := Some vmstate |}) ->
  unseal_artifacts (swap_sealed dir) vk rel nonce ws meas now (fun _ => true) out
    = (Ok tt, {| out_mem := Some vmstate; out_vmstate := Some mem |}).
Proof.
  rewrite !unseal_ok_iff. intros (m & s & dek & Hl & Hr & mem' & vm' & (cm & cv & ? & ? & ? & ?) & [= <- <-]).
  exists m, s, dek. split; [exact Hl|]. split; [done|]. exists vmstate, mem. split; [|done].
  by exists cv, cm.
Qed.
End UnsealProofs.

(** ** Sealing, then unsealing *)
Section RoundTrip.
Context {C : Crypto} {CL : CryptoLaws C} {E : AttestEnv} {A : Aead} {AL : AeadLaws A} {J : JsonVec Json}
  {JL : JsonVecLaws Json J} {V : JsonVec unit} {VL : JsonVecLaws unit V} {MJ : ManifestJson}
  {SJ : SealJson} {SL : SealJsonLaws SJ}.

Lemma seal_canonical_ext s pk sg : seal_canonical_bytes (with_signature s pk sg) = seal_canonical_bytes (with_signature s pk "").
Proof. reflexivity. Qed.
Lemma sign_seal_signed s sk : seal_version s = SEAL_VERSION ->
  exists s', sign_seal s sk = Ok s' /\ seal_signed_by (Crypto.verifying_key sk) s'
    /\ seal_snapshot_id s' = seal_snapshot_id s /\ seal_manifest_sha256 s' = seal_manifest_sha256 s
    /\ policy s' = policy s /\ dek_envelope s' = dek_envelope s.
Proof.
  intros Hv. unfold sign_seal.
  set (pk := b64_encode (vk_to_bytes (Crypto.verifying_key sk))). set (s1 := with_signature s pk _).
  destruct (to_vec_total (canonicalize SEAL_DOMAIN_TAG (seal_to_value s1))) as [bytes Hb].
  assert (seal_canonical_bytes s1 = Some bytes) as Hc by exact Hb. rewrite Hc. cbn [ok_or mbind result_bind].
  eexists. split; [done|]. split; [|done]. split; [done|].
  destruct (vk_bytes_ok sk) as [Hk1 Hk2], (sign_bytes_ok sk bytes) as [Hs1 Hs2].
  exists (vk_to_bytes (Crypto.verifying_key sk)), (Crypto.verifying_key sk), (sign sk bytes), bytes.
  split; [by apply b64_array_encode|]. split; [apply vk_round_trip|]. split; [done|].
  split; [by apply b64_array_encode|]. split; [exact Hc|]. apply sign_verifies.
Qed.

(** The random bytes have the lengths the source gives them. *)
Record random_ok (rnd : SealRandom) : Prop := {
  ok_dek : length (r_dek rnd) = 32%nat;
  ok_wrap : length (r_wrap rnd) = 12%nat;
  ok_mem i : blen (r_mem rnd i) = 12;
  ok_vmstate i : blen (r_vmstate rnd i) = 12;
}.
Lemma seal_one_file_ok rng pt dek sid mh :
  (forall i, blen (rng i) = 12) -> blen pt <= U64_MAX ->
  exists ct, seal_one_file rng (Some pt) dek sid mh true = Ok ct /\ decrypt_stream ct dek sid mh = Ok pt.
Proof.
  intros Hr Hb. destruct (stream_round_trip rng pt dek sid mh Hr Hb) as (ct & He & Hd). exists ct.
  unfold seal_one_file. cbn [ok_or mbind result_bind]. rewrite He. split; [done|].
  specialize (Hd []). by rewrite app_nil_r in Hd.
Qed.
Lemma manifest_sha256_total m : exists mh, manifest_canonical_sha256 m = Ok mh.
Proof.
  unfold manifest_canonical_sha256, manifest_canonical_bytes.
  destruct (to_vec_total (canonicalize SNAPSHOT_DOMAIN_TAG (manifest_to_value m))) as [x Hx].
  rewrite Hx. by eexists.
Qed.
(** What a directory sealed with the key envelope [env] holds. *)
Record sealed_with (dir : SealDir) (m : SnapshotManifest) (sk : SigningKey) (p : SealingPolicy)
    (env : DekEnvelope) (dek pm pv : list Z) (seal : SealEnvelope) (dir' : SealDir) : Prop := {
  kept_files : f_mem dir' = f_mem dir /\ f_vmstate dir' = f_vmstate dir /\ f_manifest dir' = f_manifest dir;
  written_seal : exists sb, f_seal_json dir' = Some sb /\ seal_from_slice sb = Some seal;
  seal_is_signed : seal_signed_by (Crypto.verifying_key sk) seal;
  seal_binds : seal_snapshot_id seal = snapshot_id m
               /\ manifest_canonical_sha256 m = Ok (seal_manifest_sha256 seal);
  seal_policy : policy seal = p;
  seal_envelope : dek_envelope seal = env;
  seal_content : opened dir' seal dek pm pv;
}.
Lemma seal_artifacts_with rnd m mh sk p provider cp env dir pm pv :
  random_ok rnd -> f_mem dir = Some pm -> f_vmstate dir = Some pv ->
  blen pm <= U64_MAX -> blen pv <= U64_MAX -> manifest_canonical_sha256 m = Ok mh ->
  wrap_for rnd m mh sk p provider cp = Ok env ->
  exists seal dir', seal_artifacts rnd (fun _ => true) m sk p provider cp dir = (Ok seal, dir')
    /\ sealed_with dir m sk p env (r_dek rnd) pm pv seal dir'.
Proof.
  intros [Hd Hw Hrm Hrv] Hm Hv Bm Bv Hmh Ewr. unfold seal_artifacts. rewrite M_lift_bind, Hmh.
  change ((get ≫= ?k) dir) with (k dir dir). cbv beta. rewrite Hm, Hv.
  destruct (seal_one_file_ok (r_mem rnd) pm (r_dek rnd) (snapshot_id m) mh Hrm Bm) as (cm & Ecm & Dcm).
  destruct (seal_one_file_ok (r_vmstate rnd) pv (r_dek rnd) (snapshot_id m) mh Hrv Bv) as (cv & Ecv & Dcv).
  destruct (sign_seal_signed {| seal_version := SEAL_VERSION; seal_snapshot_id := snapshot_id m;
    attestation_policy_id := None; policy := p; dek_envelope := env; seal_manifest_sha256 := mh;
    seal_signer_pubkey_b64 := ""; seal_signature_b64 := "" |} sk eq_refl)
    as (seal & Es & Hsig & Hsid & Hsmh & Hpol & Henv). cbn in Hsid, Hsmh, Hpol, Henv.
  destruct (seal_pretty_total seal) as [json Hj].
  rewrite M_lift_bind, Ecm. change ((modify ?f ≫= ?k) ?d) with (k tt (f d)). cbv beta.
  rewrite M_lift_bind, Ecv. change ((modify ?f ≫= ?k) ?d) with (k tt (f d)). cbv beta.
  rewrite M_lift_bind, Ewr, M_lift_bind, Es, M_lift_bind, Hj. eexists seal, _. split; [reflexivity|].
  constructor; cbn; try done.
  - exists json. split; [done|]. by apply seal_pretty_parses.
  - by rewrite Hsid, Hsmh.
  - exists cm, cv. by rewrite Hsid, Hsmh.
Qed.
(** A sealed directory with its signed manifest unseals once the key of its
    envelope is released. *)
Lemma sealed_unseals dir m mb sk p env dek pm pv seal dir' rel nonce ws meas now out :
  sealed_with dir m sk p env dek pm pv seal dir' ->
  f_manifest dir = Some mb -> parse_snapshot_manifest mb = Ok m -> signed_by (Crypto.verifying_key sk) m ->
  release_dek rel seal nonce ws meas now = Ok dek ->
  unseal_artifacts dir' (Crypto.verifying_key sk) rel nonce ws meas now (fun _ => true) out
    = (Ok tt, {| out_mem := Some pm; out_vmstate := Some pv |}).
Proof.
  intros [(K1 & K2 & K3) Hws Hss Hb Hpol Henv Hop] Hmb Hparse Hsm Hrel. apply unseal_ok_iff.
  exists m, seal, dek. split; [|eauto]. split; [exists mb; by rewrite K3|]. done.
Qed.
(** The gate opens for the host's own software evidence. *)
Lemma software_gate_opens rel seal sk nonce ws meas now :
  sp_trust_anchor (policy seal) = SealingTrustAnchor_Software (vk_to_bytes (Crypto.verifying_key sk)) ->
  params_match {| Attestation.req_workspace_id := ws; req_measurement := meas; req_nonce := nonce |}
    ProviderType_Software now
    (policy_params (policy seal) (TrustAnchor_Software (Crypto.verifying_key sk)) nonce now) ->
  generate rel = software_generate sk ->
  Nonce_new nonce = Some nonce /\ exists ev, gate_open rel seal nonce ws meas now ev.
Proof.
  intros Ha Hpm Hgen. split.
  { unfold Nonce_new. destruct (match_nonce_length _ _ _ _ Hpm) as [H1 H2]. cbn in H1, H2.
    by rewrite (proj2 (Z.leb_le _ _) H1), (proj2 (Z.leb_le _ _) H2). }
  unfold gate_open. rewrite Hgen. unfold software_generate.
  rewrite bool_decide_false by apply canonical_nonempty. eexists. split; [done|].
  exists (TrustAnchor_Software (Crypto.verifying_key sk)). split.
  - unfold policy_anchor. by rewrite Ha, vk_round_trip.
  - by apply (generated_verifies _ _ _ _ _ Hpm); constructor; [|apply sign_verifies].
Qed.

(** C12: A snapshot sealed with the host's software key and unsealed by the same host comes back.  For
    a directory whose signed manifest parses, sealing succeeds and leaves the plaintext and the
    manifest alone; unsealing the result, with the host's own evidence under a policy that pins the
    host key and expects this request, succeeds and writes exactly the memory and device state that
    were sealed. *)
Theorem seal_unseal_round_trip rnd m sk p dir pm pv mb ws meas nonce now rel out :
  random_ok rnd -> f_mem dir = Some pm -> f_vmstate dir = Some pv ->
  blen pm <= U64_MAX -> blen pv <= U64_MAX ->
  f_manifest dir = Some mb -> parse_snapshot_manifest mb = Ok m -> signed_by (Crypto.verifying_key sk) m ->
  sp_trust_anchor p = SealingTrustAnchor_Software (vk_to_bytes (Crypto.verifying_key sk)) ->
  params_match {| Attestation.req_workspace_id := ws; req_measurement := meas; req_nonce := nonce |}
    ProviderType_Software now (policy_params p (TrustAnchor_Software (Crypto.verifying_key sk)) nonce now) ->
  sw_release rel = Some (resolve_dek (derive_kek sk)) -> generate rel = software_generate sk ->
  exists seal dir',
    seal_artifacts rnd (fun _ => true) m sk p KekProvider_SoftwareFallback None dir = (Ok seal, dir')
    /\ f_mem dir' = Some pm /\ f_vmstate dir' = Some pv /\ f_manifest dir' = Some mb
    /\ unseal_artifacts dir' (Crypto.verifying_key sk) rel nonce ws meas now (fun _ => true) out
       = (Ok tt, {| out_mem := Some pm; out_vmstate := Some pv |}).
Proof.
  intros Hr Hm Hv Bm Bv Hmb Hparse Hsm Ha Hpm Hsw Hgen. destruct (manifest_sha256_total m) as [mh Hmh].
  destruct (wrap_unwrap (r_wrap rnd) (r_dek rnd) (derive_kek sk) KekProvider_SoftwareFallback
    (snapshot_id m) mh p (ok_wrap _ Hr) (ok_dek _ Hr)) as (env & Ewr & Hprov & Eun).
  destruct (seal_artifacts_with rnd m mh sk p KekProvider_SoftwareFallback None env dir pm pv Hr Hm Hv Bm Bv Hmh Ewr)
    as (seal & dir' & Es & Hd).
  pose proof Hd as [(K1 & K2 & K3) _ _ [Hsid Hsmh] Hpol Henv _]. rewrite Hmh in Hsmh. injection Hsmh as Hsmh.
  exists seal, dir'. rewrite K1, K2, K3. do 4 (split; [done|]).
  eapply sealed_unseals; [done..|]. apply release_dek_iff. subst p.
  destruct (software_gate_opens rel seal sk nonce ws meas now Ha Hpm Hgen) as (Hn & ev & Hev).
  split; [done|]. exists ev. split; [done|]. unfold released. rewrite Henv, Hprov, Hsw. eexists. split; [done|].
  unfold resolve_dek. rewrite Henv, Hprov, bool_decide_false by tauto. by rewrite Hsid, <- Hsmh.
Qed.

(** ** A seal pins its manifest *)

(** A seal belongs to one manifest: two manifests that both pass the binding check against the
    same seal agree in every field but the signature, unless two messages with the same SHA-256
    digest are known. *)
Theorem binding_pins_manifest s m1 m2 :
  check_binding s m1 = Ok tt -> check_binding s m2 = Ok tt -> unsign m1 = unsign m2 \/ sha256_collision.
Proof.
  rewrite !check_binding_iff. unfold manifest_canonical_sha256.
  intros [_ (b1 & H1%ok_or_ok & [= E1])%bind_ok] [_ (b2 & H2%ok_or_ok & [= E2])%bind_ok].
  rewrite <- E2 in E1. apply hex_sha256_eq in E1 as [->|Hc]; [left|by right].
  by eapply manifest_canonical_inj.
Qed.
End RoundTrip.

(** ** A toy instance

    The tag of the toy cipher is sixteen times the sum of everything it
    authenticates; documents are encoded through stdpp's [Countable]. *)
Module SealDemo.
Fixpoint json_to_tree (j : Json) : gen_tree (Z + string) :=
  match j with
  | Json_null => GenNode 0 []
  | Json_number n => GenLeaf (inl n)
  | Json_string s => GenLeaf (inr s)
  | Json_array l => GenNode 1 (List.map json_to_tree l)
  | Json_object l => GenNode 2 (List.map (fun p => GenNode 3 [GenLeaf (inr (fst p)); json_to_tree (snd p)]) l)
  end.
Fixpoint tree_to_json (t : gen_tree (Z + string)) : Json :=
  match t with
  | GenLeaf (inl n) => Json_number n
  | GenLeaf (inr s) => Json_string s
  | GenNode 1 l => Json_array (List.map tree_to_json l)
  | GenNode 2 l =>
      Json_object (List.map (fun t => match t with
                                      | GenNode _ [GenLeaf (inr k); v] => (k, tree_to_json v)
                                      | _ => (EmptyString, Json_null)
                                      end) l)
  | GenNode _ _ => Json_null
  end.
Lemma tree_to_json_to_tree : forall j, tree_to_json (json_to_tree j) = j.
Proof.
  fix IH 1. intros [|n|s|l|l]; cbn; try done; f_equal.
  - induction l as [|x l IHl]; cbn; [done|]. by rewrite IH, IHl.
  - induction l as [|[k v] l IHl]; cbn; [done|]. by rewrite IH, IHl.
Qed.
#[local] Instance Json_eq_dec : EqDecision Json.
Proof.
  intros a b. destruct (decide (json_to_tree a = json_to_tree b)) as [H|H]; [left|right].
  - by rewrite <- (tree_to_json_to_tree a), H, tree_to_json_to_tree.
  - by intros ->.
Defined.
#[local] Instance Json_countable : Countable Json :=
  inj_countable' json_to_tree tree_to_json tree_to_json_to_tree.
Definition field_code (f : Field Json) : (option string + Z) + (list (string * (string + Z)) + Json) :=
  match f with
  | Field_null => inl (inl None)
  | Field_string s => inl (inl (Some s))
  | Field_number n => inl (inr n)
  | Field_struct l => inr (inl l)
  | Field_value v => inr (inr v)
  end.
#[local] Instance field_code_inj : Inj (=) (=) field_code.
Proof. intros [] [] H; cbn in H; congruence. Qed.
Definition tree_json : JsonVec Json :=
  fun o => Some [Z.pos (encode ((fun p => (fst p, field_code (snd p))) <$> o))].
Lemma tree_json_laws : JsonVecLaws Json tree_json.
Proof.
  constructor; [by eexists| |done].
  intros a b x <-%(inj Some) H%(inj Some). injection H as H. apply (inj encode) in H. symmetry in H. revert b H.
  induction a as [|[k f] a IH]; intros [|[k' f'] b] H; try done.
  rewrite !fmap_cons in H. injection H as <- Hf%(inj field_code) H. apply IH in H. by subst.
Qed.

#[local] Instance ProviderType_countable : Countable ProviderType :=
  inj_countable (fun t => match t with ProviderType_Software => 0%nat | ProviderType_SevSnp => 1%nat end)
    (fun n => match n with O => Some ProviderType_Software | _ => Some ProviderType_SevSnp end)
    ltac:(by intros []).
Definition anchor_code (a : SealingTrustAnchor) : list Z + (list Z * option (list Z) * Z * Z) :=
  match a with
  | SealingTrustAnchor_Software s => inl s
  | SealingTrustAnchor_SevSnp d m t g => inr (d, m, t, g)
  end.
Definition anchor_decode (x : list Z + (list Z * option (list Z) * Z * Z)) : SealingTrustAnchor :=
  match x with inl s => SealingTrustAnchor_Software s | inr (d, m, t, g) => SealingTrustAnchor_SevSnp d m t g end.
Definition SealCode : Type :=
  (Z * string * option string) * (list ProviderType * Z * (list Z + (list Z * option (list Z) * Z * Z)) * option (list Z))
  * (bool * list Z * list Z) * (string * string * string).
Definition seal_code (s : SealEnvelope) : SealCode :=
  ((seal_version s, seal_snapshot_id s, attestation_policy_id s),
   (sp_accept_provider_types (policy s), sp_freshness_seconds (policy s), anchor_code (sp_trust_anchor (policy s)),
    sp_expected_measurement (policy s)),
   (bool_decide (kek_provider (dek_envelope s) = KekProvider_ControlPlane), wrapped_dek (dek_envelope s),
    wrap_nonce (dek_envelope s)),
   (seal_manifest_sha256 s, seal_signer_pubkey_b64 s, seal_signature_b64 s)).
Definition seal_decode (c : SealCode) : SealEnvelope :=
  let '((v, sid, apid), (acc, fr, anc, meas), (cp, wd, wn), (mh, pk, sg)) := c in
  {| seal_version := v; seal_snapshot_id := sid; attestation_policy_id := apid;
     policy := {| sp_accept_provider_types := acc; sp_freshness_seconds := fr;
                  sp_trust_anchor := anchor_decode anc; sp_expected_measurement := meas |};
     dek_envelope := {| kek_provider := if cp : bool then KekProvider_ControlPlane else KekProvider_SoftwareFallback;
                        wrapped_dek := wd; wrap_nonce := wn |};
     seal_manifest_sha256 := mh; seal_signer_pubkey_b64 := pk; seal_signature_b64 := sg |}.
Lemma seal_decode_code s : seal_decode (seal_code s) = s.
Proof. destruct s as [? ? ? [? ? [] ?] [[] ? ?] ? ? ?]; done. Qed.
Definition toy_seal_json : SealJson := {|
  seal_to_vec_pretty := fun s => Some [Z.pos (encode (seal_code s))];
  seal_from_slice := fun b => match b with
                              | [Z.pos x] => seal_decode <$> (decode x : option SealCode)
                              | _ => None
                              end;
|}.
Lemma toy_seal_json_laws : SealJsonLaws toy_seal_json.
Proof.
  constructor; [by eexists|]. intros s b [= <-]. cbn [seal_from_slice toy_seal_json].
  rewrite decode_encode. change (Some (seal_decode (seal_code s)) = Some s). by rewrite seal_decode_code.
Qed.

Definition toy_tag (k n ad m : list Z) : list Z := replicate 16 (byte_sum (k ++ n ++ ad ++ m) mod 256).
Definition toy_open (k n ad c : list Z) : option (list Z) :=
  let m := takeZ (blen c - 16) c in
  if bool_decide (c = m ++ toy_tag k n ad m) then Some m else None.
Definition toy_hkdf (C : Crypto) (sk : SigningKey) (info : list Z) : list Z := replicate 32 5.
Definition toy_aead : Aead := {|
  gcm_encrypt := fun k n ad m => Some (m ++ toy_tag k n ad m);
  gcm_decrypt := toy_open;
  hkdf := toy_hkdf;
|}.
Lemma toy_aead_laws : AeadLaws toy_aead.
Proof.
  constructor.
  - intros k n ad m c [= <-]. unfold gcm_decrypt, toy_aead, toy_open.
    rewrite takeZ_app by (unfold toy_tag; blen_lia). by rewrite bool_decide_true.
  - intros k n ad m _. by eexists.
  - intros k n ad c m H. cbn in H. unfold toy_open in H. case_bool_decide as Hc; [|done].
    injection H as <-. apply (f_equal blen) in Hc. rewrite blen_app in Hc. unfold toy_tag in Hc at 1.
    rewrite blen_replicate in Hc. lia.
Qed.
Import SnapshotDemo.
#[local] Existing Instances toy_crypto toy_crypto_laws AttestDemo.toy_env toy_vec toy_vec_laws tree_json tree_json_laws
  toy_seal_json toy_seal_json_laws toy_manifest_json toy_manifest_json_laws.

Lemma container_round_trip_witness :
  exists ct, encrypt_stream (A := toy_aead) (fun i => replicate 12 i) [1; 2; 3] [9] "s" "m" = Ok ct
    /\ decrypt_stream (A := toy_aead) (ct ++ [7]) [9] "s" "m" = Ok [1; 2; 3].
Proof.
  destruct (container_round_trip (A := toy_aead) (AL := toy_aead_laws) (fun i => replicate 12 i) [1; 2; 3] [9] "s" "m")
    as (ct & He & Hd).
  - intros i. apply blen_replicate.
  - vm_compute. discriminate.
  - exists ct. split; [exact He|exact (Hd [7])].
Defined.

(** Three bytes sealed as ["s"] with digest ["m"], and the container opened. *)
Definition nonce0 : list Z := replicate 12 0.
Definition container0 : list Z :=
  match encrypt_stream (A := toy_aead) (fun _ => nonce0) [1; 2; 3] [9] "s" "m" with Ok f => f | Err _ => [] end.
Lemma container_is_authentic_witness :
  decrypt_stream (A := toy_aead) container0 [9] "s" "m" = Ok [1; 2; 3] /\
  (forgery (A := toy_aead) [(fun _ => nonce0, [1; 2; 3])] [9] (bytes_of "s") (bytes_of "m") (dropZ 12 container0) 0
   \/ spliced [[1; 2; 3]] 0 [1; 2; 3]).
Proof.
  assert (decrypt_stream (A := toy_aead) container0 [9] "s" "m" = Ok [1; 2; 3]) as H by (vm_compute; reflexivity).
  split; [exact H|].
  destruct (container_is_authentic (A := toy_aead) (AL := toy_aead_laws) [(fun _ => nonce0, [1; 2; 3])] [9] "s" "m"
    container0 [1; 2; 3] H) as [Hf|[Hs _]]; [left; exact Hf|right; exact Hs].
Defined.

(** The snapshot of [SnapshotDemo], sealed by the host with key 7. *)
Definition manifest0 : option (list Z) := match write0 with Ok (_, d) => manifest_file d | Err _ => None end.
Definition sealing0 : SealDir :=
  {| f_mem := Some [1; 2]; f_vmstate := Some [3]; f_manifest := manifest0; f_sealed_mem := None;
     f_sealed_vmstate := None; f_seal_json := None |}.
Definition m0 : option SnapshotManifest := b ← manifest0; toy_strict b.
Definition sk0 : SigningKey (Crypto := toy_crypto) := 7.
Definition policy0 : SealingPolicy :=
  {| sp_accept_provider_types := [ProviderType_Software]; sp_freshness_seconds := 300;
     sp_trust_anchor := SealingTrustAnchor_Software (replicate 32 7); sp_expected_measurement := None |}.
Definition rel0 : Release :=
  {| sw_release := Some (resolve_dek (A := toy_aead) (derive_kek (A := toy_aead) sk0));
     cp_release := None; generate := software_generate sk0 |}.
Definition rnd0 : SealRandom :=
  {| r_dek := replicate 32 1; r_mem := fun i => replicate 12 i; r_vmstate := fun i => replicate 12 (i + 100);
     r_wrap := replicate 12 2 |}.
Definition out0 : Outputs := {| out_mem := None; out_vmstate := None |}.
Definition vk0 : VerifyingKey := Crypto.verifying_key sk0.
Definition ws0_nonce : list Z := replicate 16 8.
Definition unseal0 (d : SealDir) : result SealError unit * Outputs :=
  unseal_artifacts (A := toy_aead) d vk0 rel0 ws0_nonce "w1" (replicate 32 4) 1000 (fun _ => true) out0.
Lemma rnd0_ok : random_ok rnd0.
Proof. constructor; try done; intros i; apply blen_replicate. Qed.
Lemma match0 :
  params_match {| Attestation.req_workspace_id := "w1"; req_measurement := replicate 32 4; req_nonce := ws0_nonce |}
    ProviderType_Software 1000 (policy_params policy0 (TrustAnchor_Software vk0) ws0_nonce 1000).
Proof. constructor; cbn; try done; try (vm_compute; split; discriminate). set_solver. Qed.
Lemma seal_unseal_round_trip_witness :
  exists m seal dir', m0 = Some m
    /\ seal_artifacts (A := toy_aead) rnd0 (fun _ => true) m sk0 policy0 KekProvider_SoftwareFallback None
         sealing0 = (Ok seal, dir')
    /\ unseal0 dir' = (Ok tt, {| out_mem := Some [1; 2]; out_vmstate := Some [3] |}).
Proof.
  assert (exists mb m, manifest0 = Some mb /\ m0 = Some m /\ parse_snapshot_manifest mb = Ok m
    /\ verify_manifest_signature_pinned m vk0 = Ok tt) as (mb & m & Hmb & Hm0 & Hp & Hv).
  { eexists _, _. split; [vm_compute; reflexivity|]. split; [vm_compute; reflexivity|].
    split; [vm_compute; reflexivity|vm_compute; reflexivity]. }
  apply verify_pinned_spec in Hv.
  destruct (seal_unseal_round_trip (C := toy_crypto) (A := toy_aead) (AL := toy_aead_laws) rnd0 m sk0 policy0 sealing0
    [1; 2] [3] mb "w1" (replicate 32 4) ws0_nonce 1000 rel0 out0 rnd0_ok eq_refl eq_refl
    ltac:(vm_compute; discriminate) ltac:(vm_compute; discriminate) Hmb Hp Hv eq_refl) as (seal & dir' & Hs & _ & _ & _ & Hu).
  - exact match0.
  - reflexivity.
  - reflexivity.
  - exists m, seal, dir'. split; [exact Hm0|]. split; [exact Hs|exact Hu].
Defined.

Definition sealed0 : SealDir :=
  match m0 with
  | Some m => snd (seal_artifacts (A := toy_aead) rnd0 (fun _ => true) m sk0 policy0 KekProvider_SoftwareFallback None
                sealing0)
  | None => sealing0
  end.
Lemma sealed0_unseals : unseal0 sealed0 = (Ok tt, {| out_mem := Some [1; 2]; out_vmstate := Some [3] |}).
Proof. vm_compute. reflexivity. Qed.
Lemma plaintext_needs_open_gate_witness :
  unseal0 sealed0 = (Ok tt, {| out_mem := Some [1; 2]; out_vmstate := Some [3] |}) /\
  exists m s ev dek, loaded sealed0 vk0 m s /\ gate_open rel0 s ws0_nonce "w1" (replicate 32 4) 1000 ev
    /\ released rel0 s ev dek.
Proof.
  split; [exact sealed0_unseals|].
  exact (plaintext_needs_open_gate (A := toy_aead) sealed0 vk0 rel0 ws0_nonce "w1" (replicate 32 4) 1000 (fun _ => true) out0
    (Ok tt) _ sealed0_unseals (or_introl eq_refl)).
Defined.
Lemma swapped_files_unseal_witness :
  unseal0 (swap_sealed sealed0) = (Ok tt, {| out_mem := Some [3]; out_vmstate := Some [1; 2] |}).
Proof. exact (swapped_files_unseal (A := toy_aead) sealed0 vk0 rel0 ws0_nonce "w1" (replicate 32 4) 1000 out0 [1; 2] [3]
  sealed0_unseals). Defined.
Lemma binding_pins_manifest_witness :
  exists s m, check_binding s m = Ok tt /\ (unsign m = unsign m \/ sha256_collision).
Proof.
  assert (exists s m, check_binding s m = Ok tt) as (s & m & H).
  { destruct (proj1 (unseal_ok_iff (A := toy_aead) sealed0 vk0 rel0 ws0_nonce "w1" (replicate 32 4) 1000 out0 _) sealed0_unseals) as (m & s & _ & Hl & _).
    exists s, m. apply check_binding_iff. apply Hl. }
  exists s, m. split; [exact H|]. exact (binding_pins_manifest s m m H H).
Defined.

(** A key that wraps one data key only, with 32-byte digests. *)
Definition crypto32 : Crypto := {|
  SigningKey := @SigningKey toy_crypto; VerifyingKey := @VerifyingKey toy_crypto;
  Crypto.verifying_key := @Crypto.verifying_key toy_crypto; vk_to_bytes := @vk_to_bytes toy_crypto;
  vk_from_bytes := @vk_from_bytes toy_crypto; sign := @sign toy_crypto; verify_strict := @verify_strict toy_crypto;
  sha256 := fun m => replicate 32 (byte_sum m mod 256);
  hex_encode := @hex_encode toy_crypto; b64_encode := @b64_encode toy_crypto; b64_decode := @b64_decode toy_crypto;
|}.
Lemma crypto32_laws : CryptoLaws crypto32.
Proof.
  destruct toy_crypto_laws as [H1 H2 H3 H4 H5 H6 H7]. constructor; try assumption.
  intros m. apply (is_bytes_replicate 32), is_byte_mod.
Qed.
Definition ad0 : list Z := dek_wrap_associated_data (C := crypto32) "s" "m" policy0.
Definition wrap0 : list Z := replicate 48 6.
Definition wrap_aead : Aead := {|
  gcm_encrypt := fun _ _ _ m => None;
  gcm_decrypt := fun _ n ad c =>
    if bool_decide (n = replicate 12 2) && bool_decide (ad = ad0) && bool_decide (c = wrap0)
    then Some (replicate 32 1) else None;
  hkdf := toy_hkdf;
|}.
Definition env0 : DekEnvelope :=
  {| kek_provider := KekProvider_SoftwareFallback; wrapped_dek := wrap0; wrap_nonce := replicate 12 2 |}.
Lemma wrapped_key_binds_witness :
  unwrap_dek (C := crypto32) (A := wrap_aead) env0 [5] "s" "m" policy0 = Ok (replicate 32 1) /\
  ((replicate 32 1 = replicate 32 1 /\ bytes_of "s" = bytes_of "s" /\ bytes_of "m" = bytes_of "m" /\ policy0 = policy0)
   \/ sha256_collision (H := crypto32)).
Proof.
  assert (H : unwrap_dek (C := crypto32) (A := wrap_aead) env0 [5] "s" "m" policy0 = Ok (replicate 32 1))
    by (vm_compute; reflexivity).
  split; [exact H|].
  refine (wrapped_key_binds (C := crypto32) (CL := crypto32_laws) (A := wrap_aead) [5] (replicate 12 2) wrap0
    (replicate 32 1) "s" "m" policy0 env0 "s" "m" policy0 (replicate 32 1) _ _ eq_refl _ _ H).
  - intros m. reflexivity.
  - intros n ad c m Hd. cbn [gcm_decrypt wrap_aead] in Hd.
    destruct (bool_decide_reflect (n = replicate 12 2)); [|done].
    destruct (bool_decide_reflect (ad = ad0)); [|done]. destruct (bool_decide_reflect (c = wrap0)); [|done].
    apply (inj Some) in Hd. auto.
  - apply (is_bytes_replicate 32). unfold is_byte. lia.
  - apply (is_bytes_replicate 32). unfold is_byte. lia.
Defined.
End SealDemo.
