(* ===== verification/KeyRelease.v ===== *)
(** * The key-release client and the supervisor's sealer
    ([crates/ne-seal/src/key_release_cp.rs], [crates/ne-supervisor/src/seal.rs])

    How the client of the key-release service is configured, the requests it
    sends, how it reads a response, and the sealer that chooses between the
    service and the local software key.  TLS, PEM, URL and JSON parsing are the
    class [CpEnv]; the service is a function from requests to responses. *)

From S2P Require Import Prelude Text Json Crypto Bytes AttestParse Attestation AuditChain Snapshot Seal.

(** ** Addresses *)

(** [Ipv4Addr::from_str] on one group: one to three digits, no leading zero. *)
Definition parse_octet (s : string) : option Z :=
  if all_chars is_ascii_digit s && (len s <=? 3) && negb ((1 <? len s) && starts_with "0" s)
  then parse_uint 255 s else None.
(** [host.parse::<IpAddr>().is_ok_and(|ip| ip.is_loopback())].  The host of a URL
    that is an IPv6 address is in brackets, which [IpAddr] does not parse. *)
Definition is_loopback_host (host : string) : bool :=
  match parse_octet <$> split_on "." host with
  | [Some a; Some _; Some _; Some _] => a =? 127
  | _ => false
  end.

(** ** Third-party parsers *)
Class CpEnv := {
  Url : Type;
  url_parse : string -> option Url;
  url_scheme : Url -> string;
  url_host : Url -> option string;
  read_file : string -> option (list Z);
  certificate_from_pem : list Z -> bool;
  identity_from_pem : list Z -> bool;
  (** [ClientBuilder::build] with the given root and identity, or with none. *)
  build_client : option (list Z * list Z) -> bool;
  release_ok_from_str : string -> option string;
  wrap_ok_from_str : string -> option (string * string);
  denial_from_str : string -> option string;
  (** [Display] of a status code. *)
  status_display : Z -> string;
}.

Record ControlPlaneTlsFiles := { ca_cert : string; client_cert : string; client_key : string }.
(** The transport the HTTP client was built with: a private root and a client
    identity, or plain. *)
Inductive HttpTransport := HttpTransport_mtls (ca identity : list Z) | HttpTransport_plain.
Record ControlPlaneKeyReleaseClient := {
  cp_endpoint : string;
  cp_api_key : option string;
  cp_http : HttpTransport;
}.

Definition RESPONSE_BODY_LIMIT : Z := 64 * 1024.

Section Client.
Context {P : CpEnv} {C : Crypto}.

(** ** Construction *)

Definition require_https (endpoint : string) : result ControlPlaneError unit :=
  url ← ok_or (url_parse endpoint) (ControlPlaneError_Configuration "invalid endpoint");
  if String.eqb (url_scheme url) "https" then Ok tt
  else Err (ControlPlaneError_Configuration "mTLS endpoint must use HTTPS").
Definition new_mtls (endpoint : string) (api_key : option string) (tls : ControlPlaneTlsFiles)
    : result ControlPlaneError ControlPlaneKeyReleaseClient :=
  let invalid := ControlPlaneError_Configuration "invalid TLS files" in
  _ ← require_https endpoint;
  ca_pem ← ok_or (read_file (ca_cert tls)) invalid;
  client_cert_pem ← ok_or (read_file (client_cert tls)) invalid;
  client_key_pem ← ok_or (read_file (client_key tls)) invalid;
  if negb (certificate_from_pem ca_pem) then Err invalid
  else
    let identity_pem := client_cert_pem ++ client_key_pem in
    if negb (identity_from_pem identity_pem) then Err invalid
    else if negb (build_client (Some (ca_pem, identity_pem)))
    then Err (ControlPlaneError_Configuration "invalid TLS configuration")
    else Ok {| cp_endpoint := endpoint; cp_api_key := api_key;
               cp_http := HttpTransport_mtls ca_pem identity_pem |}.
Definition new_development (endpoint api_key : string)
    : result ControlPlaneError ControlPlaneKeyReleaseClient :=
  url ← ok_or (url_parse endpoint) (ControlPlaneError_Configuration "invalid endpoint");
  let is_loopback := match url_host url with Some host => is_loopback_host host | None => false end in
  if negb (String.eqb (url_scheme url) "http") || negb is_loopback || String.eqb api_key ""
  then Err (ControlPlaneError_Configuration
              "development endpoint requires loopback HTTP and bearer credentials")
  else if negb (build_client None)
  then Err (ControlPlaneError_Configuration "invalid HTTP configuration")
  else Ok {| cp_endpoint := endpoint; cp_api_key := Some api_key; cp_http := HttpTransport_plain |}.

(** [SupervisorSealer::cp_client_from_values]. *)
Definition cp_client_from_values (endpoint ca_cert client_cert client_key api_key : option string)
    (dev_mode : bool) : result SealError (option ControlPlaneKeyReleaseClient) :=
  match endpoint with
  | None => Ok None
  | Some endpoint =>
      match ca_cert, client_cert, client_key, api_key with
      | Some ca, Some cert, Some key, api_key =>
          c ← map_err SealError_ControlPlaneRelease
                (new_mtls endpoint api_key {| ca_cert := ca; client_cert := cert; client_key := key |});
          Ok (Some c)
      | None, None, None, Some api_key =>
          if dev_mode then
            c ← map_err SealError_ControlPlaneRelease (new_development endpoint api_key);
            Ok (Some c)
          else Err (SealError_ControlPlaneRelease
                 (ControlPlaneError_Configuration "invalid key-release transport configuration"))
      | _, _, _, _ => Err (SealError_ControlPlaneRelease
          (ControlPlaneError_Configuration "invalid key-release transport configuration"))
      end
  end.

(** ** Requests and responses *)

Inductive CpBody :=
| ReleaseReq (wrapped_dek_b64 wrap_nonce_b64 snapshot_id manifest_canonical_sha256 : string)
    (policy : SealingPolicy) (evidence : Evidence) (nonce_b64 : string)
| WrapReq (dek_b64 workspace_id snapshot_id manifest_canonical_sha256 : string) (policy : SealingPolicy).
Record CpRequest := { rq_url : string; rq_bearer : option string; rq_body : CpBody }.
(** A response: its status and the chunks of its body; a chunk that cannot be
    read is an error text. *)
Record CpResponse := { rs_status : Z; rs_chunks : list (result string (list Z)) }.
Definition Network : Type := CpRequest -> result string CpResponse.

(** [while let Some(chunk) = response.chunk().await?]. *)
Fixpoint collect_body (chunks : list (result string (list Z))) (body : list Z)
    : result ControlPlaneError (list Z) :=
  match chunks with
  | [] => Ok body
  | Err e :: _ => Err (ControlPlaneError_Transport e)
  | Ok chunk :: rest =>
      new_len ← ok_or (checked_add USIZE_MAX (blen body) (blen chunk)) ControlPlaneError_ResponseTooLarge;
      if RESPONSE_BODY_LIMIT <? new_len then Err ControlPlaneError_ResponseTooLarge
      else collect_body rest (body ++ chunk)
  end.
Definition read_response_body (response : CpResponse) : result ControlPlaneError (Z * string) :=
  body ← collect_body (rs_chunks response) [];
  text ← ok_or (from_utf8 body) (ControlPlaneError_BadResponse "response is not UTF-8");
  Ok (rs_status response, text).
Definition safe_denial_code (body : string) : string :=
  match denial_from_str body with
  | Some reason =>
      if String.eqb reason "nonce_replay" then "nonce_replay"
      else if String.eqb reason "unwrap_failed" then "unwrap_failed"
      else if String.eqb reason "snapshot_binding_conflict" then "snapshot_binding_conflict"
      else "denied"
  | None => "denied"
  end.
Definition v2_url (c : ControlPlaneKeyReleaseClient) (operation : string) : string :=
  let endpoint := trim_end_matches "/" (cp_endpoint c) in
  let endpoint := default endpoint
    (match strip_suffix "/v1" endpoint with Some e => Some e | None => strip_suffix "/v2" endpoint end) in
  endpoint +:+ "/v2/seal/" +:+ operation.
Definition validate_wrap_envelope (wrapped_dek wrap_nonce : list Z) : result ControlPlaneError unit :=
  let software_envelope := (blen wrap_nonce =? 12) && (blen wrapped_dek =? 48) in
  let external_envelope := bool_decide (wrap_nonce = []) && negb (bool_decide (wrapped_dek = []))
                           && utf8_valid wrapped_dek in
  if software_envelope || external_envelope then Ok tt
  else Err (ControlPlaneError_BadResponse "invalid DEK wrap envelope").
Definition attestation_nonce_b64 (ev : Evidence) : string := b64_encode (nonce ev).
Definition post (c : ControlPlaneKeyReleaseClient) (url : string) (body : CpBody) : CpRequest :=
  {| rq_url := url; rq_bearer := cp_api_key c; rq_body := body |}.

(** Send, read the whole body, and turn every status but success into an error. *)
Definition status_error (status : Z) (text : string) : ControlPlaneError :=
  if status =? 409 then ControlPlaneError_Conflict
  else if status =? 401 then ControlPlaneError_Unauthorized
  else if status =? 403 then ControlPlaneError_Denied (safe_denial_code text)
  else ControlPlaneError_Transport ("HTTP " +:+ status_display status).
Definition cp_release_dek (net : Network) (c : ControlPlaneKeyReleaseClient) (seal : SealEnvelope)
    (ev : Evidence) : result SealError (list Z) :=
  map_err SealError_ControlPlaneRelease
    (let body := ReleaseReq (b64_encode (wrapped_dek (dek_envelope seal)))
                   (b64_encode (wrap_nonce (dek_envelope seal))) (seal_snapshot_id seal)
                   (seal_manifest_sha256 seal) (policy seal) ev (attestation_nonce_b64 ev) in
     resp ← map_err ControlPlaneError_Transport (net (post c (v2_url c "release-dek") body));
     '(status, text) ← read_response_body resp;
     if status =? 200 then
       dek_b64 ← ok_or (release_ok_from_str text) (ControlPlaneError_BadResponse "json");
       dek ← ok_or (b64_decode dek_b64) (ControlPlaneError_BadResponse "base64");
       ok_or (to_array 32 dek) (ControlPlaneError_BadResponse "dek not 32 bytes")
     else Err (status_error status text)).
Definition cp_wrap_dek (net : Network) (c : ControlPlaneKeyReleaseClient) (dek : list Z)
    (workspace_id snapshot_id manifest_hash : string) (p : SealingPolicy)
    : result SealError (list Z * list Z) :=
  map_err SealError_ControlPlaneRelease
    (let body := WrapReq (b64_encode dek) workspace_id snapshot_id manifest_hash p in
     resp ← map_err ControlPlaneError_Transport (net (post c (v2_url c "wrap-dek") body));
     '(status, text) ← read_response_body resp;
     if status =? 200 then
       '(wrapped_b64, nonce_b64) ← ok_or (wrap_ok_from_str text) (ControlPlaneError_BadResponse "json");
       wrapped ← ok_or (b64_decode wrapped_b64) (ControlPlaneError_BadResponse "base64");
       nonce ← ok_or (b64_decode nonce_b64) (ControlPlaneError_BadResponse "base64");
       _ ← validate_wrap_envelope wrapped nonce;
       Ok (wrapped, nonce)
     else Err (status_error status text)).
End Client.

(** ** The supervisor's sealer ([seal.rs]) *)
Section Sealer.
Context {P : CpEnv} {C : Crypto} {E : AttestEnv} {A : Aead} {J : JsonVec Json} {V : JsonVec unit}
  {MJ : ManifestJson} {SJ : SealJson}.

Record SupervisorSealer := {
  sl_signing_key : SigningKey;
  sl_provider : EvidenceRequest -> Z -> result AttestationError Evidence;
  allow_software_kek : bool;
  sl_cp : option ControlPlaneKeyReleaseClient;
}.
(** [SupervisorSealer::new], with the environment variables as arguments. *)
Definition SupervisorSealer_new (signing_key : SigningKey)
    (provider : EvidenceRequest -> Z -> result AttestationError Evidence) (dev_mode allow_env : bool)
    (endpoint ca_cert client_cert client_key api_key : option string) : result SealError SupervisorSealer :=
  cp ← cp_client_from_values endpoint ca_cert client_cert client_key api_key dev_mode;
  Ok {| sl_signing_key := signing_key; sl_provider := provider;
        allow_software_kek := software_kek_allowed dev_mode allow_env; sl_cp := cp |}.
Definition sealer_seal (net : Network) (s : SupervisorSealer) (rnd : SealRandom) (write_ok : nat -> bool)
    (m : SnapshotManifest) (p : SealingPolicy) (provider : KekProvider) : M SealDir SealError SealEnvelope :=
  seal_artifacts rnd write_ok m (sl_signing_key s) p provider (cp_wrap_dek net <$> sl_cp s).
Definition sealer_release (net : Network) (s : SupervisorSealer) : Release :=
  {| sw_release := if allow_software_kek s then Some (resolve_dek (derive_kek (sl_signing_key s))) else None;
     cp_release := cp_release_dek net <$> sl_cp s;
     generate := sl_provider s |}.
Definition sealer_unseal (net : Network) (s : SupervisorSealer) (dir : SealDir) (nonce : list Z)
    (workspace_id : string) (measurement : list Z) (now : Z) (write_ok : nat -> bool)
    : M Outputs SealError unit :=
  unseal_artifacts dir (Crypto.verifying_key (sl_signing_key s)) (sealer_release net s) nonce workspace_id
    measurement now write_ok.
End Sealer.

(** ** The client *)
Section ClientProofs.
Context {P : CpEnv} {C : Crypto}.

(** A client over HTTPS with a private root and a client certificate. *)
Definition uses_mtls (c : ControlPlaneKeyReleaseClient) : Prop :=
  (exists url, url_parse (cp_endpoint c) = Some url /\ url_scheme url = "https")
  /\ exists ca identity, cp_http c = HttpTransport_mtls ca identity
       /\ certificate_from_pem ca = true /\ identity_from_pem identity = true.
(** A client with a bearer token on a loopback address. *)
Definition uses_loopback (c : ControlPlaneKeyReleaseClient) : Prop :=
  exists url host token, url_parse (cp_endpoint c) = Some url /\ url_host url = Some host
    /\ is_loopback_host host = true /\ cp_api_key c = Some token /\ token <> EmptyString.
Lemma new_mtls_uses endpoint api_key tls c : new_mtls endpoint api_key tls = Ok c -> uses_mtls c.
Proof.
  unfold new_mtls, require_https. intros H. apply bind_unit_ok in H as [Hr H].
  apply bind_ok in Hr as (url & Hu%ok_or_ok & Hr). destruct (String.eqb_spec (url_scheme url) "https"); [|done].
  apply bind_ok in H as (ca & _ & H). apply bind_ok in H as (cert & _ & H). apply bind_ok in H as (key & _ & H).
  destruct (certificate_from_pem ca) eqn:H1; [|done]. cbn [negb] in H.
  destruct (identity_from_pem (cert ++ key)) eqn:H2; [|done]. cbn [negb] in H.
  destruct (build_client _); [|done]. injection H as <-. split; cbn; eauto 6.
Qed.
Lemma new_development_uses endpoint api_key c : new_development endpoint api_key = Ok c -> uses_loopback c.
Proof.
  unfold new_development. intros H. apply bind_ok in H as (url & Hu%ok_or_ok & H).
  destruct (String.eqb (url_scheme url) "http"); [|done]. cbn [negb orb] in H.
  destruct (url_host url) as [host|] eqn:Hh; [|done]. destruct (is_loopback_host host) eqn:Hl; [|done].
  cbn [negb orb] in H. destruct (String.eqb_spec api_key ""); [done|]. destruct (build_client None); [|done].
  injection H as <-. exists url, host, api_key. done.
Qed.

(** The key-release client is either absent, because no endpoint is configured, or it speaks
    HTTPS with a private root certificate and a client identity that both parse, or, in development
    mode only, it carries a non-empty bearer token and talks to a loopback address.  Any other
    combination of settings is refused. *)
Theorem key_release_transport_is_safe endpoint ca cert key api_key dev_mode r :
  cp_client_from_values endpoint ca cert key api_key dev_mode = Ok r ->
  match r with
  | None => endpoint = None
  | Some c => endpoint = Some (cp_endpoint c)
      /\ (uses_mtls c /\ ca <> None /\ cert <> None /\ key <> None
          \/ dev_mode = true /\ uses_loopback c /\ ca = None /\ cert = None /\ key = None)
  end.
Proof.
  unfold cp_client_from_values. destruct endpoint as [e|]; [|by intros [= <-]].
  assert (Hm : forall a t c, new_mtls e a t = Ok c -> cp_endpoint c = e).
  { unfold new_mtls. intros a t c H. apply bind_unit_ok in H as [_ H]. do 3 apply bind_ok in H as (? & _ & H).
    destruct (negb _); [done|]. destruct (negb _); [done|]. destruct (negb _); [done|]. by injection H as <-. }
  assert (Hd : forall a c, new_development e a = Ok c -> cp_endpoint c = e).
  { unfold new_development. intros a c H. apply bind_ok in H as (? & _ & H).
    destruct (_ || _); [done|]. destruct (negb _); [done|]. by injection H as <-. }
  destruct ca, cert, key; try (destruct api_key; [|done]; destruct dev_mode; [|done]);
    try done; intros H; apply bind_ok in H as (c & Hc%map_err_ok & [= <-]).
  - split; [by rewrite (Hm _ _ _ Hc)|]. left. split; [by eapply new_mtls_uses|done].
  - split; [by rewrite (Hd _ _ Hc)|]. right. split; [done|]. split; [by eapply new_development_uses|done].
Qed.

Lemma collect_body_iff chunks body b :
  blen body <= RESPONSE_BODY_LIMIT ->
  collect_body chunks body = Ok b <->
  exists cs, chunks = Ok <$> cs /\ b = body ++ concat cs /\ blen b <= RESPONSE_BODY_LIMIT.
Proof.
  revert body. induction chunks as [|[ch|e] chunks IH]; intros body Hb; cbn [collect_body].
  - split; [intros [= <-]; exists []; by rewrite app_nil_r|].
    intros ([|] & Hc & -> & _); [by rewrite app_nil_r|done].
  - pose proof (blen_nonneg body). pose proof (blen_nonneg ch). split.
    + intros H'. apply bind_ok in H' as (n & [-> Hn]%ok_or_ok%checked_add_Some & H').
      destruct (Z.ltb_spec RESPONSE_BODY_LIMIT (blen body + blen ch)); [done|].
      apply IH in H' as (cs & -> & -> & Hl); [|by rewrite blen_app].
      exists (ch :: cs). split; [done|]. cbn. by rewrite app_assoc.
    + intros ([|c cs] & Hc & -> & Hl); [done|]. injection Hc as -> ->. cbn in Hl |- *.
      rewrite !blen_app in Hl. pose proof (blen_nonneg (concat cs)).
      rewrite (proj2 (checked_add_Some USIZE_MAX (blen body) (blen c) (blen body + blen c)))
        by (unfold RESPONSE_BODY_LIMIT, USIZE_MAX, U64_MAX in *; lia).
      cbn [ok_or mbind result_bind].
      rewrite (proj2 (Z.ltb_ge RESPONSE_BODY_LIMIT (blen body + blen c))) by lia.
      apply IH; [rewrite blen_app; lia|]. exists cs. rewrite !blen_app. split; [done|].
      split; [cbn [concat]; by rewrite app_assoc|]. cbn [concat]. rewrite blen_app. lia.
  - split; [done|]. intros ([|] & Hc & _); done.
Qed.
Lemma response_body_iff' resp status text :
  read_response_body resp = Ok (status, text) <->
  status = rs_status resp /\
  exists cs, rs_chunks resp = Ok <$> cs /\ blen (concat cs) <= RESPONSE_BODY_LIMIT
    /\ from_utf8 (concat cs) = Some text.
Proof.
  unfold read_response_body. rewrite bind_ok. split.
  - intros (b & (cs & -> & -> & Hl)%collect_body_iff & H); [|done].
    apply bind_ok in H as (t & Ht%ok_or_ok & [= <- <-]). split; [done|]. eauto.
  - intros (-> & cs & Hc & Hl & Ht). exists (concat cs).
    split; [apply collect_body_iff; [done|]; by exists cs|]. rewrite Ht. done.
Qed.
(** A response is read exactly when every chunk arrives, the whole body is at most 64 KiB and
    is valid UTF-8; how the service splits the body into chunks makes no difference. *)
Theorem response_body_iff resp status text :
  read_response_body resp = Ok (status, text) <->
  status = rs_status resp /\
  exists cs, rs_chunks resp = Ok <$> cs /\ blen (concat cs) <= RESPONSE_BODY_LIMIT
    /\ from_utf8 (concat cs) = Some text.
Proof. apply response_body_iff'. Qed.

Lemma trim_end_app e c : trim_end_matches c (e +:+ String c EmptyString) = trim_end_matches c e.
Proof.
  induction e as [|a e IH]; cbn; [by rewrite Ascii.eqb_refl|]. by rewrite IH.
Qed.
(** The base of an endpoint may be given with or without a version and with any
    number of trailing slashes. *)
Fixpoint slashes (n : nat) : string := match n with O => EmptyString | S n => String "/" (slashes n) end.
Lemma trim_end_slashes e n : trim_end_matches "/" (e +:+ slashes n) = trim_end_matches "/" e.
Proof.
  induction n as [|n IH]; cbn; [by rewrite string_app_nil_r|]. rewrite <- IH.
  assert (forall n, String "/" (slashes n) = slashes n +:+ "/") as Hs.
  { clear. induction n as [|n IH]; cbn; [done|]. by rewrite IH at 1. }
  by rewrite Hs, <- string_app_assoc, trim_end_app.
Qed.

Definition denial_codes : list string :=
  ["nonce_replay"; "unwrap_failed"; "snapshot_binding_conflict"; "denied"].
Lemma safe_denial_code_in body : safe_denial_code body ∈ denial_codes.
Proof.
  unfold safe_denial_code, denial_codes. destruct (denial_from_str body) as [r|]; [|set_solver].
  repeat case_match; set_solver.
Qed.
(** What may come back from the service in an error. *)
Definition error_is_fixed (e : SealError) : Prop :=
  match e with
  | SealError_ControlPlaneRelease (ControlPlaneError_Denied code) => code ∈ denial_codes
  | _ => True
  end.
(** The key comes only from a successful response with exactly 32 bytes, sent to the release URL of
    the configured endpoint with the seal's own wrapping, policy and nonce; and whatever text the
    service answers, the reason of a denial is one of four fixed codes. *)
Theorem cp_release_outcomes net c seal ev :
  match cp_release_dek net c seal ev with
  | Ok dek =>
      length dek = 32%nat /\
      exists resp text dek_b64,
        net (post c (v2_url c "release-dek")
               (ReleaseReq (b64_encode (wrapped_dek (dek_envelope seal)))
                  (b64_encode (wrap_nonce (dek_envelope seal))) (seal_snapshot_id seal)
                  (seal_manifest_sha256 seal) (policy seal) ev (b64_encode (nonce ev)))) = Ok resp
        /\ read_response_body resp = Ok (200, text) /\ release_ok_from_str text = Some dek_b64
        /\ b64_decode dek_b64 = Some dek
  | Err e => error_is_fixed e
  end.
Proof.
  unfold cp_release_dek. unfold mbind, result_bind.
  destruct (net _) as [resp|]; cbn [map_err]; [|done].
  destruct (read_response_body resp) as [[status text]|e] eqn:Hb; cbn [map_err].
  - destruct (Z.eqb_spec status 200) as [->|Hs].
    + destruct (release_ok_from_str text) as [d|] eqn:Hd; cbn; [|done].
      destruct (b64_decode d) as [dek|] eqn:Hdek; cbn; [|done]. unfold to_array.
      destruct (Nat.eqb_spec (length dek) 32); cbn; [|done]. eauto 8.
    + cbn. unfold status_error. repeat case_match; try done; simplify_eq. apply safe_denial_code_in.
  - unfold read_response_body in Hb. unfold mbind, result_bind in Hb.
    destruct (collect_body _ _) as [b|e'] eqn:Hc.
    + destruct (from_utf8 b); cbn in Hb; [done|]. by injection Hb as <-.
    + injection Hb as <-. revert Hc. generalize ([] : list Z). induction (rs_chunks resp) as [|[ch|x] l IH];
        intros acc; cbn [collect_body]; [done| |by intros [= <-]].
      unfold mbind, result_bind. destruct (checked_add _ _ _); cbn; [|by intros [= <-]].
      destruct (_ <? _); [by intros [= <-]|]. apply IH.
Qed.
End ClientProofs.

(** ** The sealer *)
Section SealerProofs.
Context {P : CpEnv} {C : Crypto} {E : AttestEnv} {A : Aead} {J : JsonVec Json} {V : JsonVec unit}
  {MJ : ManifestJson} {SJ : SealJson}.

(** C30: On a host that is neither in development mode nor allowed the software key, unsealing writes
    an output file or succeeds only for a seal whose key is held by the key-release service, and only
    after this host asked the service over mutual TLS, with evidence that opened the seal's own gate,
    and received the key in a successful response. *)
Theorem production_unseal_needs_service net sk prov ep ca cert key api s dir nonce ws meas now wok out r out' :
  SupervisorSealer_new sk prov false false ep ca cert key api = Ok s ->
  sealer_unseal net s dir nonce ws meas now wok out = (r, out') -> r = Ok tt \/ out' <> out ->
  exists c m seal ev dek,
    sl_cp s = Some c /\ uses_mtls c
    /\ loaded dir (Crypto.verifying_key sk) m seal
    /\ gate_open (sealer_release net s) seal nonce ws meas now ev
    /\ kek_provider (dek_envelope seal) = KekProvider_ControlPlane
    /\ cp_release_dek net c seal ev = Ok dek.
Proof.
  unfold SupervisorSealer_new. intros Hn. apply bind_ok in Hn as (cp & Hcp & [= <-]).
  unfold sealer_unseal. cbn [sl_signing_key sl_cp]. intros Hu Hor.
  destruct (unseal_writes_loaded _ _ _ _ _ _ _ _ _ _ _ Hu Hor) as (m & seal & dek & Hl & Hr).
  apply load_seal_iff in Hl. apply release_dek_iff in Hr as (_ & ev & Hg & Hrel). unfold released in Hrel.
  destruct (kek_provider (dek_envelope seal)) eqn:Hk; destruct Hrel as (f & Hf & Hdek); [done|].
  destruct cp as [c|]; [|done]. injection Hf as <-. exists c, m, seal, ev, dek.
  assert (uses_mtls c) as Hc; [|done]. unfold cp_client_from_values in Hcp. destruct ep as [e|]; [|done].
  destruct ca, cert, key; try done; try (by destruct api).
  apply bind_ok in Hcp as (c' & Hc'%map_err_ok & [= <-]). by eapply new_mtls_uses.
Qed.

(** What the key-release service promises a host: it releases a key it wrapped
    to evidence that passes the policy the key was wrapped with. *)
Class KeyService (net : Network) (c : ControlPlaneKeyReleaseClient) : Prop :=
  service_releases dek ws sid mh p w n seal ev nonce now :
    is_bytes dek -> cp_wrap_dek net c dek ws sid mh p = Ok (w, n) ->
    wrapped_dek (dek_envelope seal) = w -> wrap_nonce (dek_envelope seal) = n ->
    seal_snapshot_id seal = sid -> seal_manifest_sha256 seal = mh -> policy seal = p ->
    evaluate_gate seal ev nonce now = Ok tt ->
    cp_release_dek net c seal ev = Ok dek.
Lemma seal_artifacts_wraps rnd wok m sk p provider cp dir seal dir' :
  seal_artifacts rnd wok m sk p provider cp dir = (Ok seal, dir') ->
  exists mh env, manifest_canonical_sha256 m = Ok mh /\ wrap_for rnd m mh sk p provider cp = Ok env.
Proof.
  unfold seal_artifacts. rewrite M_lift_bind. destruct (manifest_canonical_sha256 m) as [mh|]; [|done].
  change ((get ≫= ?k) dir) with (k dir dir). cbv beta.
  rewrite M_lift_bind. destruct (seal_one_file _ _ _ _ _ _); [|done].
  change ((modify ?f ≫= ?k) ?d) with (k tt (f d)). cbv beta.
  rewrite M_lift_bind. destruct (seal_one_file _ _ _ _ _ _); [|done].
  change ((modify ?f ≫= ?k) ?d) with (k tt (f d)). cbv beta.
  rewrite M_lift_bind. destruct (wrap_for _ _ _ _ _ _ _) as [env|] eqn:Hw; [|done]. intros _. by exists mh, env.
Qed.
Context {CL : CryptoLaws C} {AL : AeadLaws A} {JL : JsonVecLaws Json J} {VL : JsonVecLaws unit V}
  {SL : SealJsonLaws SJ}.

(** A snapshot sealed with the key-release service comes back.  Against any service that releases
    the keys it wrapped, a host that sealed a snapshot with the service and later presents evidence its
    policy accepts gets exactly the memory and device state it sealed, without the software key. *)
Theorem service_round_trip net sl c rnd m p dir pm pv mb ws meas nonce now out seal dir' :
  KeyService net c -> sl_cp sl = Some c -> sl_provider sl = software_generate (sl_signing_key sl) ->
  random_ok rnd -> is_bytes (r_dek rnd) -> f_mem dir = Some pm -> f_vmstate dir = Some pv ->
  blen pm <= U64_MAX -> blen pv <= U64_MAX ->
  f_manifest dir = Some mb -> parse_snapshot_manifest mb = Ok m ->
  signed_by (Crypto.verifying_key (sl_signing_key sl)) m ->
  sp_trust_anchor p = SealingTrustAnchor_Software (vk_to_bytes (Crypto.verifying_key (sl_signing_key sl))) ->
  params_match {| Attestation.req_workspace_id := ws; req_measurement := meas; req_nonce := nonce |}
    ProviderType_Software now
    (policy_params p (TrustAnchor_Software (Crypto.verifying_key (sl_signing_key sl))) nonce now) ->
  sealer_seal net sl rnd (fun _ => true) m p KekProvider_ControlPlane dir = (Ok seal, dir') ->
  sealer_unseal net sl dir' nonce ws meas now (fun _ => true) out
    = (Ok tt, {| out_mem := Some pm; out_vmstate := Some pv |}).
Proof.
  intros KS Hcp Hprov Hr Hrb Hm Hv Bm Bv Hmb Hparse Hsm Ha Hpm. unfold sealer_seal, sealer_unseal. rewrite Hcp.
  intros Es. destruct (seal_artifacts_wraps _ _ _ _ _ _ _ _ _ _ Es) as (mh & env & Hmh & Ew).
  destruct (seal_artifacts_with _ _ _ _ _ _ _ _ _ _ _ Hr Hm Hv Bm Bv Hmh Ew) as (seal2 & dir2 & Es2 & Hd).
  rewrite Es in Es2. injection Es2 as <- <-.
  unfold wrap_for in Ew. apply bind_ok in Ew as (f & Hf%ok_or_ok & Ew). injection Hf as <-. apply bind_ok in Ew as ([w n] & Hw & [= <-]).
  pose proof Hd as [_ _ _ [Hsid Hsmh] Hpol Henv _]. rewrite Hmh in Hsmh. injection Hsmh as Hsmh.
  eapply sealed_unseals; [done..|]. apply release_dek_iff. subst p.
  destruct (software_gate_opens (sealer_release net sl) seal (sl_signing_key sl) nonce ws meas now Ha Hpm Hprov)
    as (Hn & ev & Hev).
  split; [done|]. exists ev. split; [done|]. unfold released, sealer_release. rewrite Henv, Hcp. cbn.
  eexists. split; [done|]. eapply service_releases; [exact Hrb|exact Hw|by rewrite Henv|by rewrite Henv|done|done|done|].
  apply evaluate_gate_iff. apply Hev.
Qed.
End SealerProofs.

(** A base URL without trailing slash or version suffix, and the same with
    version and slashes, name the same service. *)
Lemma v2_url_spellings base op n http :
  trim_end_matches "/" base = base ->
  strip_suffix "/v1" base = None -> strip_suffix "/v2" base = None ->
  let at_ e := v2_url {| cp_endpoint := e; cp_api_key := None; cp_http := http |} op in
  at_ (base +:+ slashes n) = base +:+ "/v2/seal/" +:+ op
  /\ at_ (base +:+ "/v1" +:+ slashes n) = base +:+ "/v2/seal/" +:+ op
  /\ at_ (base +:+ "/v2" +:+ slashes n) = base +:+ "/v2/seal/" +:+ op.
Proof.
  intros Ht H1 H2 at_. unfold at_, v2_url; cbn [cp_endpoint].
  assert (Hv : forall b v, trim_end_matches "/" (b +:+ String "/" (String "v" (String v EmptyString)))
    = if Ascii.eqb v "/" then trim_end_matches "/" (b +:+ "/v") else b +:+ String "/" (String "v" (String v EmptyString))).
  { clear. intros b v. induction b as [|a b IH]; cbn; [by destruct (Ascii.eqb v "/")|].
    rewrite IH. destruct (Ascii.eqb v "/"); [done|]. by destruct b. }
  rewrite <- !string_app_assoc, !trim_end_slashes, Ht, !Hv, H1, H2. cbn [Ascii.eqb Bool.eqb].
  assert (H : forall x, strip_suffix x (base +:+ x) = Some base) by (intros x; by apply strip_suffix_Some).
  split; [done|]. split; [by rewrite (H "/v1")|].
  assert (strip_suffix "/v1" (base +:+ "/v2") = None) as ->; [|by rewrite (H "/v2")].
  destruct (strip_suffix "/v1" (base +:+ "/v2")) as [q|] eqn:Hq; [|done]. apply strip_suffix_Some in Hq.
  exfalso. clear -Hq. revert q Hq. induction base as [|a base IH]; intros [|b q] Hq; cbn in Hq; try done.
  - injection Hq as _ Hq. by destruct q as [|? [|? [|]]].
  - injection Hq as _ Hq. by destruct base as [|? [|? [|]]].
  - injection Hq as _ Hq. by apply IH in Hq.
Qed.

(** ** A toy service

    It wraps a key by appending sixteen zero bytes, and answers a release with the
    wrapping, of which the client reads the first 32 bytes. *)
Module KeyReleaseDemo.
Import SnapshotDemo SealDemo.
Definition toy_cp_env : CpEnv := {|
  Url := string;
  url_parse := Some;
  url_scheme := fun u => if starts_with "https://" u then "https" else "http";
  url_host := fun _ => Some "127.0.0.1";
  read_file := fun _ => Some [1];
  certificate_from_pem := fun _ => true;
  identity_from_pem := fun _ => true;
  build_client := fun _ => true;
  release_ok_from_str := fun t => Some (string_of (take 32 (bytes_of t)));
  wrap_ok_from_str := fun t => Some (t, string_of (replicate 12 1));
  denial_from_str := Some;
  status_display := show_uint;
|}.
#[local] Existing Instances toy_crypto toy_crypto_laws AttestDemo.toy_env toy_vec toy_vec_laws tree_json tree_json_laws
  toy_seal_json toy_seal_json_laws toy_manifest_json toy_manifest_json_laws toy_aead toy_aead_laws toy_cp_env.
(** A key whose bytes are not UTF-8 is refused: the toy base64 is the identity. *)
Definition toy_net : Network := fun rq =>
  let reply b := Ok {| rs_status := 200; rs_chunks := [Ok b] |} in
  match rq_body rq with
  | WrapReq dek _ _ _ _ => reply (bytes_of dek ++ replicate 16 0)
  | ReleaseReq w _ _ _ _ _ _ => reply (bytes_of w)
  end.
Definition client0 : ControlPlaneKeyReleaseClient :=
  {| cp_endpoint := "https://kms/v1/"; cp_api_key := None; cp_http := HttpTransport_mtls [1] [1; 1] |}.
Definition sealer0 : SupervisorSealer :=
  {| sl_signing_key := sk0; sl_provider := software_generate sk0; allow_software_kek := false; sl_cp := Some client0 |}.
Lemma sealer0_new :
  SupervisorSealer_new sk0 (software_generate sk0) false false (Some "https://kms/v1/") (Some "ca") (Some "c")
    (Some "k") None = Ok sealer0.
Proof. reflexivity. Qed.
Lemma key_release_transport_is_safe_witness :
  uses_mtls client0 /\ cp_client_from_values (Some "https://kms/v1/") (Some "ca") None (Some "k") None true
                       = Err (SealError_ControlPlaneRelease
                           (ControlPlaneError_Configuration "invalid key-release transport configuration")).
Proof.
  split; [|reflexivity].
  assert (Hc : cp_client_from_values (Some "https://kms/v1/") (Some "ca") (Some "c") (Some "k") None false
    = Ok (Some client0)) by reflexivity.
  destruct (key_release_transport_is_safe (Some "https://kms/v1/") (Some "ca") (Some "c") (Some "k") None false
    (Some client0) Hc) as [_ [[H _]|[H _]]]; [exact H|discriminate H].
Defined.
Definition sealed_by_service : SealDir :=
  match m0 with
  | Some m => snd (sealer_seal toy_net sealer0 rnd0 (fun _ => true) m policy0 KekProvider_ControlPlane sealing0)
  | None => sealing0
  end.
Lemma production_unseal_needs_service_witness :
  exists c m seal ev dek,
    sl_cp sealer0 = Some c /\ uses_mtls c
    /\ loaded sealed_by_service (Crypto.verifying_key sk0) m seal
    /\ gate_open (sealer_release toy_net sealer0) seal ws0_nonce "w1" (replicate 32 4) 1000 ev
    /\ kek_provider (dek_envelope seal) = KekProvider_ControlPlane
    /\ cp_release_dek toy_net c seal ev = Ok dek.
Proof.
  assert (H : sealer_unseal toy_net sealer0 sealed_by_service ws0_nonce "w1" (replicate 32 4) 1000 (fun _ => true) out0
    = (Ok tt, {| out_mem := Some [1; 2]; out_vmstate := Some [3] |})) by (vm_compute; reflexivity).
  exact (production_unseal_needs_service toy_net sk0 (software_generate sk0) (Some "https://kms/v1/") (Some "ca")
    (Some "c") (Some "k") None sealer0 sealed_by_service ws0_nonce "w1" (replicate 32 4) 1000 (fun _ => true) out0
    _ _ sealer0_new H (or_introl eq_refl)).
Defined.
Lemma toy_service c : KeyService toy_net c.
Proof.
  intros dek ws sid mh p w n seal ev nc now Hb Hwrap Hw Hn _ _ _ _.
  unfold cp_wrap_dek in Hwrap. apply map_err_ok in Hwrap. cbn [toy_net post rq_body map_err] in Hwrap.
  set (body := bytes_of (b64_encode dek) ++ replicate 16 0) in *.
  set (resp := {| rs_status := 200; rs_chunks := [Ok body] |}) in *.
  change (mbind ?f (Ok resp)) with (f resp) in Hwrap. cbv beta in Hwrap.
  apply bind_ok in Hwrap as ([status text] & Hr & Hwrap). pose proof Hr as (-> & cs & Hcs & _ & Ht)%response_body_iff'.
  assert (cs = [body]) as ->.
  { destruct cs as [|x [|y cs]]; [discriminate Hcs| |discriminate Hcs]. injection Hcs as Hcs. by rewrite Hcs. }
  change (concat [body]) with (body ++ []) in Ht. rewrite app_nil_r in Ht.
  unfold from_utf8 in Ht. destruct (utf8_valid body); [|done]. apply (inj Some) in Ht as <-.
  assert (Hbody : is_bytes body).
  { apply is_bytes_app. split; [|apply (is_bytes_replicate 16); unfold is_byte; lia].
    cbn. by rewrite bytes_of_string_of_bytes. }
  cbn [rs_status resp] in Hwrap. change (200 =? 200) with true in Hwrap. cbv iota in Hwrap.
  cbn [wrap_ok_from_str toy_cp_env ok_or mbind result_bind b64_decode toy_crypto] in Hwrap.
  rewrite bytes_of_string_of_bytes in Hwrap by done. apply bind_unit_ok in Hwrap as [Hval Hwrap].
  assert (body = w) as <- by congruence.
  assert (Hdl : length dek = 32%nat).
  { unfold validate_wrap_envelope in Hval. rewrite bytes_of_string_of_bytes in Hval
      by (apply (is_bytes_replicate 12); unfold is_byte; lia).
    change (blen (replicate 12 1) =? 12) with true in Hval. destruct (Z.eqb_spec (blen body) 48) as [He|]; [|done].
    unfold body in He. cbn in He. rewrite bytes_of_string_of_bytes in He by done. unfold blen in He.
    rewrite length_app in He. cbn in He. lia. }
  unfold cp_release_dek. rewrite Hw. cbn [toy_net post rq_body map_err].
  assert (bytes_of (b64_encode body) = body) as -> by (cbn; by apply bytes_of_string_of_bytes).
  change (mbind ?f (Ok {| rs_status := 200; rs_chunks := [Ok body] |})) with (f resp). cbv beta.
  rewrite Hr. cbn [mbind result_bind]. change (200 =? 200) with true. cbv iota.
  cbn [release_ok_from_str toy_cp_env ok_or mbind result_bind b64_decode toy_crypto].
  rewrite (bytes_of_string_of_bytes body) by done.
  assert (take 32 body = dek) as ->.
  { unfold body. cbn [b64_encode toy_crypto]. rewrite bytes_of_string_of_bytes by done. by rewrite take_app_length'. }
  rewrite bytes_of_string_of_bytes by done. by rewrite to_array_Some.
Qed.
Lemma service_round_trip_witness :
  sealer_unseal toy_net sealer0 sealed_by_service ws0_nonce "w1" (replicate 32 4) 1000 (fun _ => true) out0
    = (Ok tt, {| out_mem := Some [1; 2]; out_vmstate := Some [3] |}).
Proof.
  assert (exists mb m seal, manifest0 = Some mb /\ m0 = Some m /\ parse_snapshot_manifest mb = Ok m
    /\ verify_manifest_signature_pinned m vk0 = Ok tt
    /\ sealer_seal toy_net sealer0 rnd0 (fun _ => true) m policy0 KekProvider_ControlPlane sealing0
       = (Ok seal, sealed_by_service)) as (mb & m & seal & Hmb & Hm0 & Hp & Hv & Hs).
  { eexists _, _, _. split; [vm_compute; reflexivity|]. split; [vm_compute; reflexivity|].
    split; [vm_compute; reflexivity|]. split; [vm_compute; reflexivity|vm_compute; reflexivity]. }
  apply verify_pinned_spec in Hv.
  refine (service_round_trip toy_net sealer0 client0 rnd0 m policy0 sealing0 [1; 2] [3] mb "w1" (replicate 32 4)
    ws0_nonce 1000 out0 seal sealed_by_service (toy_service client0) eq_refl eq_refl rnd0_ok _ eq_refl eq_refl
    _ _ Hmb Hp Hv eq_refl match0 Hs).
  - apply (is_bytes_replicate 32). unfold is_byte. lia.
  - vm_compute. discriminate.
  - vm_compute. discriminate.
Defined.
End KeyReleaseDemo.
