(* ===== verification/Protocol.v ===== *)
(** * Supervisor messages ([crates/ne-protocol/src/supervisor.rs])

    The typed requests and responses between the API daemon and the supervisor,
    the stable error kinds, and the profile-gated operation a request stands for. *)

From S2P Require Import Prelude Text Profile Fleet Capacity AuditChain Crypto Attestation.

Definition PROTOCOL_VERSION : Z := 1.
Definition MAX_INLINE_FILE_BYTES : Z := 10 * 1024 * 1024.

(** ** Requests *)

Record HeaderInjection := { hi_name : string; hi_value : string }.
Record ExposedPort := { ep_port : Z; ep_inject_headers : list HeaderInjection }.
Record NetworkConfig := {
  nc_enable_egress : bool;
  nc_allow_cidrs : list string;
  nc_allow_hostnames : list string;
  nc_privacy_router : option unit;
  nc_exposed_ports : list ExposedPort;
}.
Record CreateWorkspaceRequest := {
  cw_workspace_id : string;
  cw_kernel_sha256 : string;
  cw_rootfs_sha256 : string;
  cw_rootfs_read_only : bool;
  cw_vcpu_count : Z;
  cw_mem_size_mib : Z;
  cw_guest_vsock_cid : Z;
  cw_kernel_boot_args : option string;
  cw_network : option NetworkConfig;
  cw_tier : option string;
}.
Record ExposePortRequest := { xp_workspace_id : string; xp_port : ExposedPort }.
Record UnexposePortRequest := { up_workspace_id : string; up_port : Z }.
Record GetAttestationEvidenceRequest := { ga_workspace_id : string; ga_nonce : list Z }.
Record WorkspaceRef := { rf_workspace_id : string }.
Record SnapshotRequest := { sr_workspace_id : string; sr_live : bool }.
Record RestoreRequest := { rs_snapshot_id : string; rs_new_workspace_id : string }.
Record ForkRequest := { fk_snapshot_id : string; fk_new_workspace_id : string; fk_hostname : option string }.
Record TerminateRequest := { tr_workspace_id : string; tr_grace_period_ms : Z }.
Record RunCommandRequest := {
  rr_workspace_id : string; rr_guest_port : Z; rr_command : string; rr_args : list string; rr_timeout_ms : Z }.
Record WriteFileRequest := {
  wr_workspace_id : string; wr_guest_port : Z; wr_path : string; wr_content : list Z }.
Record ReadFileRequest := {
  rd_workspace_id : string; rd_guest_port : Z; rd_path : string; rd_max_bytes : Z }.
Inductive SupervisorRequest :=
| SupervisorRequest_Ping
| SupervisorRequest_GetCapabilities
| SupervisorRequest_CreateWorkspace (r : CreateWorkspaceRequest)
| SupervisorRequest_Terminate (r : TerminateRequest)
| SupervisorRequest_RunCommand (r : RunCommandRequest)
| SupervisorRequest_WriteFile (r : WriteFileRequest)
| SupervisorRequest_ReadFile (r : ReadFileRequest)
| SupervisorRequest_ListEvents (r : ListEventsRequest)
| SupervisorRequest_PauseWorkspace (r : WorkspaceRef)
| SupervisorRequest_ResumeWorkspace (r : WorkspaceRef)
| SupervisorRequest_SnapshotWorkspace (r : SnapshotRequest)
| SupervisorRequest_RestoreWorkspace (r : RestoreRequest)
| SupervisorRequest_ForkWorkspace (r : ForkRequest)
| SupervisorRequest_PoolStatus
| SupervisorRequest_CapacitySnapshot
| SupervisorRequest_ExposePort (r : ExposePortRequest)
| SupervisorRequest_UnexposePort (r : UnexposePortRequest)
| SupervisorRequest_GetAttestationEvidence (r : GetAttestationEvidenceRequest).

Definition workspace_operation (r : SupervisorRequest) : option WorkspaceOperation :=
  match r with
  | SupervisorRequest_CreateWorkspace _ => Some WorkspaceOperation_Create
  | SupervisorRequest_Terminate _ => Some WorkspaceOperation_Destroy
  | SupervisorRequest_RunCommand _ => Some WorkspaceOperation_Execute
  | SupervisorRequest_WriteFile _ => Some WorkspaceOperation_WriteFile
  | SupervisorRequest_ReadFile _ => Some WorkspaceOperation_ReadFile
  | SupervisorRequest_PauseWorkspace _ => Some WorkspaceOperation_Pause
  | SupervisorRequest_ResumeWorkspace _ => Some WorkspaceOperation_Resume
  | SupervisorRequest_SnapshotWorkspace _ => Some WorkspaceOperation_Snapshot
  | SupervisorRequest_RestoreWorkspace _ => Some WorkspaceOperation_Restore
  | SupervisorRequest_ForkWorkspace _ => Some WorkspaceOperation_Fork
  | SupervisorRequest_PoolStatus => Some WorkspaceOperation_WarmPool
  | SupervisorRequest_ExposePort _ | SupervisorRequest_UnexposePort _ => Some WorkspaceOperation_Ingress
  | SupervisorRequest_GetAttestationEvidence _ => Some WorkspaceOperation_Attest
  | SupervisorRequest_Ping | SupervisorRequest_GetCapabilities
  | SupervisorRequest_ListEvents _ | SupervisorRequest_CapacitySnapshot => None
  end.

(** ** Responses *)

Inductive SupervisorErrorKind :=
| SupervisorErrorKind_Unauthorized
| SupervisorErrorKind_InvalidRequest
| SupervisorErrorKind_InvalidImageDigest
| SupervisorErrorKind_ImageNotFound
| SupervisorErrorKind_ImageRejected
| SupervisorErrorKind_ImageDigestMismatch
| SupervisorErrorKind_ImageStageFailed
| SupervisorErrorKind_Unsupported
| SupervisorErrorKind_UnsupportedForProfile
| SupervisorErrorKind_WorkspaceAlreadyExists
| SupervisorErrorKind_WorkspaceNotFound
| SupervisorErrorKind_LaunchFailed
| SupervisorErrorKind_GuestUnreachable
| SupervisorErrorKind_GuestProtocolError
| SupervisorErrorKind_Timeout
| SupervisorErrorKind_Internal
| SupervisorErrorKind_PathRejected
| SupervisorErrorKind_FileTooLarge
| SupervisorErrorKind_FileNotFound
| SupervisorErrorKind_IoError
| SupervisorErrorKind_SnapshotFailed
| SupervisorErrorKind_RestoreFailed
| SupervisorErrorKind_InvalidSnapshot
| SupervisorErrorKind_WorkspaceNotPaused
| SupervisorErrorKind_WorkspaceAlreadyPaused
| SupervisorErrorKind_ForkFailed
| SupervisorErrorKind_TierNotFound
| SupervisorErrorKind_CapacityExceeded
| SupervisorErrorKind_ConfidentialCapacityExceeded
| SupervisorErrorKind_WorkspaceNotNetworked
| SupervisorErrorKind_IngressPortNotFound
| SupervisorErrorKind_AttestationReplay.
#[global] Instance SupervisorErrorKind_eq_dec : EqDecision SupervisorErrorKind.
Proof. solve_decision. Defined.

Record WorkspaceNetwork := {
  wn_netns_path : string; wn_tap_device : string; wn_host_ip : string; wn_guest_ip : string; wn_prefix : Z }.
Record WorkspaceCreated := {
  wc_workspace_id : string;
  wc_firecracker_pid : Z;
  wc_vsock_host_socket : string;
  wc_jailer_chroot : string;
  wc_network : option WorkspaceNetwork;
  wc_exec_backend : option string;
  wc_control_socket : option string;
}.
Record ForkInfo := {
  fi_workspace_id : string;
  fi_firecracker_pid : Z;
  fi_vsock_host_socket : string;
  fi_jailer_chroot : string;
  fi_source_snapshot_id : string;
  fi_hostname : string;
  fi_machine_id : string;
  fi_guest_vsock_cid : Z;
}.
Record PoolStatusInfo := {
  ps_configured : bool; ps_tier : option string; ps_target_size : Z; ps_available : Z; ps_in_flight : Z }.
Record SnapshotInfo := {
  sn_snapshot_id : string; sn_created_from_workspace_id : string; sn_mem_sha256 : string;
  sn_vmstate_sha256 : string; sn_size_bytes : Z; sn_firecracker_pid : option Z }.
Record CommandCompleted := {
  cc_workspace_id : string; cc_stdout : string; cc_stderr : string; cc_exit_code : Z; cc_elapsed_ms : Z;
  cc_truncated : bool }.
Record FileWritten := { fw_workspace_id : string; fw_bytes_written : Z; fw_absolute_path : string }.
Record FileRead := { fr_workspace_id : string; fr_content : list Z; fr_size_bytes : Z; fr_truncated : bool }.
(** A [serde_json::Value], as in the payload of an audit event. *)
Inductive Value :=
| Value_Null
| Value_Bool (b : bool)
| Value_Number (n : Z)
| Value_String (s : string)
| Value_Array (l : list Value)
| Value_Object (l : list (string * Value)).
Inductive SupervisorResponse :=
| SupervisorResponse_Pong (version : string) (uptime_ms : Z)
| SupervisorResponse_Capabilities (c : RuntimeCapabilitiesInfo)
| SupervisorResponse_WorkspaceCreated (w : WorkspaceCreated)
| SupervisorResponse_WorkspaceTerminated (workspace_id : string)
| SupervisorResponse_CommandCompleted (c : CommandCompleted)
| SupervisorResponse_FileWritten (w : FileWritten)
| SupervisorResponse_FileRead (r : FileRead)
| SupervisorResponse_Events (events : list (AuditEvent Value))
| SupervisorResponse_WorkspacePaused (workspace_id : string)
| SupervisorResponse_WorkspaceResumed (workspace_id : string)
| SupervisorResponse_SnapshotCreated (s : SnapshotInfo)
| SupervisorResponse_WorkspaceRestored (w : WorkspaceCreated)
| SupervisorResponse_WorkspaceForked (f : ForkInfo)
| SupervisorResponse_PoolStatus (p : PoolStatusInfo)
| SupervisorResponse_CapacitySnapshot (c : RunnerCapacity)
| SupervisorResponse_PortExposed (workspace_id : string) (port : Z)
| SupervisorResponse_PortUnexposed (workspace_id : string) (port : Z)
| SupervisorResponse_AttestationEvidenceIssued (evidence : Evidence)
| SupervisorResponse_Error (kind : SupervisorErrorKind) (message : string).
