(* ===== verification/PublicEvidence.v ===== *)
(** * The public evidence envelope ([crates/ne-protocol/src/attestation.rs])

    Evidence leaves the runtime in a versioned envelope, over REST as JSON and
    over gRPC as a protobuf message ([proto/ne/runtime/v1/runtime.proto]).  The
    four conversions between evidence, envelope and message, each with its
    checks.  The theorem says that they lose nothing and accept nothing else:
    each direction is the partial inverse of the other. *)

From S2P Require Import Prelude Text Crypto Bytes Attestation Protocol.

(** ** The envelope *)

Definition PUBLIC_EVIDENCE_SCHEMA_VERSION : Z := 1.
Inductive PublicAttestationProvider :=
| PublicAttestationProvider_Software
| PublicAttestationProvider_SevSnpDirect
| PublicAttestationProvider_SevSnpAzure.
Inductive PublicAttestationProof :=
| PublicAttestationProof_Software (signature signer_pubkey : list Z)
| PublicAttestationProof_SevSnpDirect (report vcek_cert_chain : list Z)
| PublicAttestationProof_SevSnpAzure (report vcek_cert_chain var_data ak_pub_tpm2b quote_msg quote_sig : list Z).
Record PublicAttestationEvidence := {
  pe_schema_version : Z;
  pe_provider : PublicAttestationProvider;
  pe_workspace_id : string;
  pe_workspace_measurement : list Z;
  pe_nonce : list Z;
  pe_issued_at : Z;
  pe_report_data : list Z;
  pe_proof : PublicAttestationProof;
}.
(** Without the variants for providers and proofs newer than this build. *)
Inductive PublicAttestationError :=
| PublicAttestationError_UnsupportedSchemaVersion (v : Z)
| PublicAttestationError_ProviderProofMismatch
| PublicAttestationError_InvalidMeasurementLength (n : Z)
| PublicAttestationError_InvalidNonceLength (n : Z)
| PublicAttestationError_InvalidSoftwareSignatureLength (n : Z)
| PublicAttestationError_InvalidSoftwareKeyLength (n : Z)
| PublicAttestationError_InvalidProtobufProvider (v : Z)
| PublicAttestationError_MissingProtobufProof.
Definition PublicAttestationError_to_string (e : PublicAttestationError) : string :=
  match e with
  | PublicAttestationError_UnsupportedSchemaVersion v => "unsupported public evidence schema version " +:+ show_uint v
  | PublicAttestationError_ProviderProofMismatch => "attestation provider and proof do not agree"
  | PublicAttestationError_InvalidMeasurementLength n => "workspace measurement must be 32 bytes, got " +:+ show_uint n
  | PublicAttestationError_InvalidNonceLength n => "nonce must be 16..=64 bytes, got " +:+ show_uint n
  | PublicAttestationError_InvalidSoftwareSignatureLength n => "software signature must be 64 bytes, got " +:+ show_uint n
  | PublicAttestationError_InvalidSoftwareKeyLength n =>
      "software signer public key must be 32 bytes, got " +:+ show_uint n
  | PublicAttestationError_InvalidProtobufProvider v => "invalid protobuf attestation provider value "
      +:+ (if v <? 0 then "-" +:+ show_uint (- v) else show_uint v)
  | PublicAttestationError_MissingProtobufProof => "protobuf attestation evidence is missing its proof"
  end.

(** ** Evidence and envelope *)

Definition nonce_length_ok (n : list Z) : bool := (16 <=? blen n) && (blen n <=? 64).
Definition ensure_domain_provider (actual expected : ProviderType) : result PublicAttestationError unit :=
  if bool_decide (actual = expected) then Ok tt else Err PublicAttestationError_ProviderProofMismatch.
Definition public_proof (t : ProviderType) (p : EvidenceProof)
    : result PublicAttestationError (PublicAttestationProvider * PublicAttestationProof) :=
  match p with
  | Proof_Software s k =>
      _ ← ensure_domain_provider t ProviderType_Software;
      Ok (PublicAttestationProvider_Software, PublicAttestationProof_Software s k)
  | Proof_SevSnp r c =>
      _ ← ensure_domain_provider t ProviderType_SevSnp;
      Ok (PublicAttestationProvider_SevSnpDirect, PublicAttestationProof_SevSnpDirect r c)
  | Proof_SevSnpAzure r c v a m s =>
      _ ← ensure_domain_provider t ProviderType_SevSnp;
      Ok (PublicAttestationProvider_SevSnpAzure, PublicAttestationProof_SevSnpAzure r c v a m s)
  end.
(** [TryFrom<Evidence> for PublicAttestationEvidence]. *)
Definition public_of_evidence (ev : Evidence) : result PublicAttestationError PublicAttestationEvidence :=
  if negb (nonce_length_ok (nonce ev)) then Err (PublicAttestationError_InvalidNonceLength (blen (nonce ev)))
  else
    '(provider, proof) ← public_proof (provider_type ev) (proof ev);
    Ok {| pe_schema_version := PUBLIC_EVIDENCE_SCHEMA_VERSION; pe_provider := provider;
          pe_workspace_id := Attestation.workspace_id ev; pe_workspace_measurement := measurement ev;
          pe_nonce := nonce ev; pe_issued_at := issued_at ev; pe_report_data := report_data ev; pe_proof := proof |}.
Definition domain_proof (provider : PublicAttestationProvider) (p : PublicAttestationProof)
    : result PublicAttestationError (ProviderType * EvidenceProof) :=
  match provider, p with
  | PublicAttestationProvider_Software, PublicAttestationProof_Software s k =>
      s' ← ok_or (to_array 64 s) (PublicAttestationError_InvalidSoftwareSignatureLength (blen s));
      k' ← ok_or (to_array 32 k) (PublicAttestationError_InvalidSoftwareKeyLength (blen k));
      Ok (ProviderType_Software, Proof_Software s' k')
  | PublicAttestationProvider_SevSnpDirect, PublicAttestationProof_SevSnpDirect r c =>
      Ok (ProviderType_SevSnp, Proof_SevSnp r c)
  | PublicAttestationProvider_SevSnpAzure, PublicAttestationProof_SevSnpAzure r c v a m s =>
      Ok (ProviderType_SevSnp, Proof_SevSnpAzure r c v a m s)
  | _, _ => Err PublicAttestationError_ProviderProofMismatch
  end.
(** [TryFrom<PublicAttestationEvidence> for Evidence]. *)
Definition evidence_of_public (p : PublicAttestationEvidence) : result PublicAttestationError Evidence :=
  if negb (pe_schema_version p =? PUBLIC_EVIDENCE_SCHEMA_VERSION)
  then Err (PublicAttestationError_UnsupportedSchemaVersion (pe_schema_version p))
  else
    m ← ok_or (to_array 32 (pe_workspace_measurement p))
          (PublicAttestationError_InvalidMeasurementLength (blen (pe_workspace_measurement p)));
    if negb (nonce_length_ok (pe_nonce p)) then Err (PublicAttestationError_InvalidNonceLength (blen (pe_nonce p)))
    else
      '(t, proof) ← domain_proof (pe_provider p) (pe_proof p);
      Ok {| provider_type := t; Attestation.workspace_id := pe_workspace_id p; measurement := m; nonce := pe_nonce p;
            issued_at := pe_issued_at p; report_data := pe_report_data p; proof := proof |}.

(** ** Envelope and protobuf message *)

Inductive PbProof :=
| PbProof_Software (signature signer_pubkey : list Z)
| PbProof_SevSnpDirect (report vcek_cert_chain : list Z)
| PbProof_SevSnpAzure (report vcek_cert_chain var_data ak_pub_tpm2b quote_msg quote_sig : list Z).
Record PbPublicEvidence := {
  pb_schema_version : Z;
  pb_provider : Z;
  pb_workspace_id : string;
  pb_workspace_measurement : list Z;
  pb_nonce : list Z;
  pb_issued_at : Z;
  pb_report_data : list Z;
  pb_proof : option PbProof;
}.
(** The numbers of the [AttestationProvider] enum; 0 is unspecified. *)
Definition pb_of_provider (p : PublicAttestationProvider) : Z :=
  match p with
  | PublicAttestationProvider_Software => 1
  | PublicAttestationProvider_SevSnpDirect => 2
  | PublicAttestationProvider_SevSnpAzure => 3
  end.
Definition provider_of_pb (v : Z) : option PublicAttestationProvider :=
  match v with
  | 1 => Some PublicAttestationProvider_Software
  | 2 => Some PublicAttestationProvider_SevSnpDirect
  | 3 => Some PublicAttestationProvider_SevSnpAzure
  | _ => None
  end.
Definition pb_of_proof (p : PublicAttestationProof) : PbProof :=
  match p with
  | PublicAttestationProof_Software s k => PbProof_Software s k
  | PublicAttestationProof_SevSnpDirect r c => PbProof_SevSnpDirect r c
  | PublicAttestationProof_SevSnpAzure r c v a m s => PbProof_SevSnpAzure r c v a m s
  end.
Definition proof_of_pb (p : PbProof) : PublicAttestationProof :=
  match p with
  | PbProof_Software s k => PublicAttestationProof_Software s k
  | PbProof_SevSnpDirect r c => PublicAttestationProof_SevSnpDirect r c
  | PbProof_SevSnpAzure r c v a m s => PublicAttestationProof_SevSnpAzure r c v a m s
  end.
(** [TryFrom<PublicAttestationEvidence>] for the message. *)
Definition pb_of_public (p : PublicAttestationEvidence) : result PublicAttestationError PbPublicEvidence :=
  _ ← evidence_of_public p;
  Ok {| pb_schema_version := pe_schema_version p; pb_provider := pb_of_provider (pe_provider p);
        pb_workspace_id := pe_workspace_id p; pb_workspace_measurement := pe_workspace_measurement p;
        pb_nonce := pe_nonce p; pb_issued_at := pe_issued_at p; pb_report_data := pe_report_data p;
        pb_proof := Some (pb_of_proof (pe_proof p)) |}.
(** [TryFrom] of the message for [PublicAttestationEvidence]. *)
Definition public_of_pb (m : PbPublicEvidence) : result PublicAttestationError PublicAttestationEvidence :=
  provider ← ok_or (provider_of_pb (pb_provider m)) (PublicAttestationError_InvalidProtobufProvider (pb_provider m));
  proof ← ok_or (pb_proof m) PublicAttestationError_MissingProtobufProof;
  let public :=
    {| pe_schema_version := pb_schema_version m; pe_provider := provider; pe_workspace_id := pb_workspace_id m;
       pe_workspace_measurement := pb_workspace_measurement m; pe_nonce := pb_nonce m; pe_issued_at := pb_issued_at m;
       pe_report_data := pb_report_data m; pe_proof := proof_of_pb proof |} in
  _ ← evidence_of_public public;
  Ok public.

(** ** The conversions are inverse *)

(** The array types of [Evidence]: a measurement of 32 bytes, a signature of 64, a key of 32. *)
Definition sized (ev : Evidence) : Prop :=
  length (measurement ev) = 32%nat
  /\ match proof ev with Proof_Software s k => length s = 64%nat /\ length k = 32%nat | _ => True end.

Lemma to_array_inv n l l' : to_array n l = Some l' <-> l = l' /\ length l = n.
Proof.
  unfold to_array. destruct (Nat.eqb_spec (length l) n); split; [by intros [= ->]|by intros [-> _]|done|by intros [_ ?]].
Qed.
Lemma public_proof_domain t p provider p' :
  match p with Proof_Software s k => length s = 64%nat /\ length k = 32%nat | _ => True end ->
  public_proof t p = Ok (provider, p') -> domain_proof provider p' = Ok (t, p).
Proof.
  unfold public_proof, ensure_domain_provider. destruct p; intros Hs; case_bool_decide; try done; cbn;
    intros [= <- <-]; subst; cbn; [|done..]. destruct Hs. by rewrite !to_array_Some.
Qed.
Lemma domain_proof_public t p provider p' :
  domain_proof provider p' = Ok (t, p) ->
  public_proof t p = Ok (provider, p')
  /\ match p with Proof_Software s k => length s = 64%nat /\ length k = 32%nat | _ => True end.
Proof.
  destruct provider, p'; try done; cbn.
  - destruct (to_array 64 signature) as [s|] eqn:Es; [|done]. cbn.
    destruct (to_array 32 signer_pubkey) as [k|] eqn:Ek; [|done]. cbn. intros [= <- <-].
    apply to_array_inv in Es as [<- Hs], Ek as [<- Hk]. by rewrite <- Hs, <- Hk.
  - by intros [= <- <-].
  - by intros [= <- <-].
Qed.
Lemma public_evidence_inverse ev p : sized ev -> (public_of_evidence ev = Ok p <-> evidence_of_public p = Ok ev).
Proof.
  intros [Hm Hp]. unfold public_of_evidence, evidence_of_public. split.
  - destruct (nonce_length_ok (nonce ev)) eqn:Hn; [|done]. cbn [negb].
    destruct (public_proof (provider_type ev) (proof ev)) as [[provider pr]|] eqn:E; [|done]. cbn. intros [= <-]. cbn.
    rewrite Hn, to_array_Some by done. cbn. rewrite (public_proof_domain _ _ _ _ Hp E). cbn. by destruct ev.
  - destruct (Z.eqb_spec (pe_schema_version p) PUBLIC_EVIDENCE_SCHEMA_VERSION) as [Ev|]; [|done]. cbn [negb].
    destruct (to_array 32 (pe_workspace_measurement p)) as [m|] eqn:Em; [|done]. cbn.
    destruct (nonce_length_ok (pe_nonce p)) eqn:Hn; [|done]. cbn.
    destruct (domain_proof (pe_provider p) (pe_proof p)) as [[t pr]|] eqn:E; [|done]. cbn. intros [= <-]. cbn.
    apply to_array_inv in Em as [<- _]. apply domain_proof_public in E as [E _]. rewrite Hn, E. cbn.
    rewrite <- Ev. by destruct p.
Qed.
Lemma evidence_of_public_sized p ev : evidence_of_public p = Ok ev -> sized ev.
Proof.
  unfold evidence_of_public. destruct (negb _); [done|].
  destruct (to_array 32 (pe_workspace_measurement p)) as [m|] eqn:Em; [|done]. cbn. destruct (negb _); [done|].
  destruct (domain_proof (pe_provider p) (pe_proof p)) as [[t pr]|] eqn:E; [|done]. cbn. intros [= <-].
  apply to_array_inv in Em as [<- ?]. apply domain_proof_public in E as [_ ?]. done.
Qed.
Lemma pb_public_inverse p m : pb_of_public p = Ok m <-> public_of_pb m = Ok p.
Proof.
  unfold pb_of_public, public_of_pb. split.
  - destruct (evidence_of_public p) as [ev|] eqn:E; [|done]. cbn. intros [= <-]. cbn.
    assert (provider_of_pb (pb_of_provider (pe_provider p)) = Some (pe_provider p)) as -> by (by destruct (pe_provider p)).
    assert (proof_of_pb (pb_of_proof (pe_proof p)) = pe_proof p) as -> by (by destruct (pe_proof p)).
    cbn. destruct p; cbn in *. by rewrite E.
  - destruct (provider_of_pb (pb_provider m)) as [provider|] eqn:Ep; [|done]. cbn.
    destruct (pb_proof m) as [pr|] eqn:Er; [|done]. cbn.
    destruct (evidence_of_public _) as [ev|] eqn:E; [|done]. cbn. intros [= <-]. rewrite E. cbn.
    assert (pb_of_provider provider = pb_provider m) as ->.
    { destruct (pb_provider m) as [|[[]|[]|]|]; by inversion Ep. }
    assert (pb_of_proof (proof_of_pb pr) = pr) as -> by (by destruct pr). destruct m; cbn in *. by subst.
Qed.

(** C39: The four conversions between evidence, the public envelope and its protobuf message lose nothing
    and accept nothing else: an envelope is what a piece of evidence converts to exactly when it
    converts back to that evidence, and a message is what an envelope converts to exactly when it
    converts back to that envelope; so a client that decodes the message has the evidence the
    provider issued, byte for byte, and no other message is accepted for it. *)
Theorem evidence_conversions_invert ev p m :
  sized ev ->
  (public_of_evidence ev = Ok p <-> evidence_of_public p = Ok ev)
  /\ (pb_of_public p = Ok m <-> public_of_pb m = Ok p)
  /\ ((q ← public_of_evidence ev; pb_of_public q) = Ok m <-> (q ← public_of_pb m; evidence_of_public q) = Ok ev).
Proof.
  intros Hs. split_and!; [by apply public_evidence_inverse|apply pb_public_inverse|]. split.
  - destruct (public_of_evidence ev) as [q|] eqn:E; [|done]. cbn. intros Hq%pb_public_inverse. rewrite Hq. cbn.
    by apply public_evidence_inverse.
  - destruct (public_of_pb m) as [q|] eqn:E; [|done]. cbn. intros Hq%public_evidence_inverse; [|done]. rewrite Hq. cbn.
    by apply pb_public_inverse.
Qed.

Module PublicEvidenceDemo.
Definition software0 : Evidence :=
  {| provider_type := ProviderType_Software; Attestation.workspace_id := "w1"; measurement := replicate 32 1;
     nonce := replicate 16 2; issued_at := 1700000000; report_data := [3]; proof := Proof_Software (replicate 64 4) (replicate 32 5) |}.
Definition message0 : PbPublicEvidence :=
  {| pb_schema_version := 1; pb_provider := 1; pb_workspace_id := "w1"; pb_workspace_measurement := replicate 32 1;
     pb_nonce := replicate 16 2; pb_issued_at := 1700000000; pb_report_data := [3];
     pb_proof := Some (PbProof_Software (replicate 64 4) (replicate 32 5)) |}.
Definition envelope0 : PublicAttestationEvidence :=
  {| pe_schema_version := 1; pe_provider := PublicAttestationProvider_Software; pe_workspace_id := "w1";
     pe_workspace_measurement := replicate 32 1; pe_nonce := replicate 16 2; pe_issued_at := 1700000000;
     pe_report_data := [3]; pe_proof := PublicAttestationProof_Software (replicate 64 4) (replicate 32 5) |}.
Lemma evidence_conversions_invert_witness :
  (q ← public_of_pb message0; evidence_of_public q) = Ok software0.
Proof.
  refine (proj1 (proj2 (proj2 (evidence_conversions_invert software0 envelope0 message0 _))) _);
    [repeat split|vm_compute; reflexivity].
Defined.
End PublicEvidenceDemo.
