(* ===== verification/Manager.v ===== *)
(** * The workspace manager ([crates/ne-supervisor/src/workspace.rs])

    The registry of running workspaces and every operation on it.  The shared
    state is the record [World]: the host with its jails, the capacity ledger,
    the lifecycle tracker and the per-id leases, the registry, the warm pool, the
    ingress routes, the nonce rings, the network controller, the confidential
    semaphore and the sandbox processes, held or given up, and the events handed to
    the audit log.  A handler is a [Prog] over
    this state: one action per critical section or awaited effect, RAII drops
    included, so that handlers interleave at every await.  A critical section of the
    registry mutex is one action.  Whatever the host, the guest or the clock
    decides is an input of the handler, a record named after it.  Work handed to
    the runtime ([refill_once], cleanup in [Drop]) is queued in [w_jobs]. *)

From S2P Require Import Prelude Text Profile Fleet Capacity Ownership Lifecycle Json Crypto AuditChain.
From S2P Require Import Snapshot Ingress Network Bytes GuestFiles Wire GuestAgent Attestation Image.
From S2P Require Import Firecracker Pool Protocol Prog.

(** ** Data *)

Record WorkspaceManagerConfig := {
  cf_firecracker_binary : path;
  cf_jailer_binary : path;
  cf_chroot_base : path;
  cf_image_store : path;
  cf_jailer_uid : Z;
  cf_jailer_gid : Z;
  cf_openshell_sandbox_binary : path;
  cf_default_kernel_boot_args : string;
  cf_execution_profile : ExecutionProfile;
  cf_network : option Inner;
  cf_state_dir : path;
  cf_warm_pool : option WarmPoolConfig;
}.
Definition dev_defaults : WorkspaceManagerConfig := {|
  cf_firecracker_binary := ["opt"; "ne-enclave"; "bin"; "firecracker"];
  cf_jailer_binary := ["opt"; "ne-enclave"; "bin"; "jailer"];
  cf_chroot_base := ["srv"; "jailer"];
  cf_image_store := ["var"; "lib"; "ne-enclave"; "images"];
  cf_jailer_uid := 1000;
  cf_jailer_gid := 1000;
  cf_openshell_sandbox_binary := ["opt"; "ne-enclave"; "bin"; "openshell-sandbox"];
  cf_default_kernel_boot_args := "console=ttyS0 reboot=k panic=1 pci=off";
  cf_execution_profile := ExecutionProfile_Standard;
  cf_network := None;
  cf_state_dir := ["var"; "lib"; "ne-enclave"];
  cf_warm_pool := None |}.

(** A running OpenShell sandbox: [ssh_addr] is its [host:port]. *)
Record Sandbox := { sb_workspace_id : string; sb_ssh_addr : string; sb_handshake_secret : string }.
Inductive OpenShellError :=
| OpenShellError_Spawn (message : string)
| OpenShellError_ConnectRejected (message : string)
| OpenShellError_Timeout (ms : Z)
| OpenShellError_Other (text : string).
Definition OpenShellError_to_string (e : OpenShellError) : string :=
  match e with
  | OpenShellError_Spawn m => "openshell-sandbox spawn failed: " +:+ m
  | OpenShellError_ConnectRejected m => "command rejected by the sandbox (connect refused): " +:+ m
  | OpenShellError_Timeout ms => "command timed out after " +:+ show_uint ms +:+ " ms"
  | OpenShellError_Other t => t
  end.
Inductive WorkspaceExec :=
| WorkspaceExec_Firecracker (instance : Instance) (capacity_guard : RegisteredWorkspaceCapacityGuard)
| WorkspaceExec_OpenShell (sandbox : Sandbox) (capacity_guard : RegisteredWorkspaceCapacityGuard).
Inductive WorkspaceControl :=
| WorkspaceControl_Firecracker (vsock_uds : path)
| WorkspaceControl_OpenShell (ssh_addr handshake_secret : string).
Inductive PendingCapacityOwner :=
| PendingCapacityOwner_Reserved (r : WorkspaceCapacityReservation)
| PendingCapacityOwner_Registered (g : RegisteredWorkspaceCapacityGuard).
Record PendingFirecracker := {
  pf_instance : option Instance;
  pf_capacity_owner : option PendingCapacityOwner;
  pf_network_cleanup : option (Inner * NetworkSlot);
}.
Inductive SnapshotFinalize := SnapshotFinalize_Set (state : WorkspaceState) | SnapshotFinalize_ResumeInPlace.
Record PreparedSnapshotRestore := { ps_manifest : SnapshotManifest; ps_restore_cfg : RestoreLaunchConfig }.

(** One call of [AuditLog::emit], by the manager, a relay of a network child or the ingress edge; a
    failure of the log itself is only reported. *)
Record AuditCall := { au_type : EventType; au_workspace : option string; au_payload : Value }.
(** A task handed to the runtime, with its lifecycle permit. *)
Inductive Job :=
| Job_provision (permit : ProvisionPermit)
| Job_cleanup (pending : PendingFirecracker).

Record World := {
  w_host : Host;
  w_ledger : CapacityLedger;
  w_forgotten : list CapacityEntryId;
  w_tasks : Tasks.LifecycleTasks;
  w_claims : gset string;
  w_instances : gmap string WorkspaceExec;
  w_pool : option WarmPool;
  w_kicks : Z;
  w_routes : (gmap string WorkspaceRoutes);
  w_rings : gmap string Nonces.NonceRing;
  w_net : NetState;
  w_permits : Z;
  w_sandboxes : list Sandbox;
  w_strays : list Sandbox;
  w_audit : list AuditCall;
  w_jobs : list Job;
}.
Definition set_host (x : Host) (w : World) : World :=
  {| w_host := x; w_ledger := w_ledger w; w_forgotten := w_forgotten w; w_tasks := w_tasks w; w_claims := w_claims w;
     w_instances := w_instances w; w_pool := w_pool w; w_kicks := w_kicks w; w_routes := w_routes w;
     w_rings := w_rings w; w_net := w_net w; w_permits := w_permits w; w_sandboxes := w_sandboxes w;
     w_strays := w_strays w; w_audit := w_audit w; w_jobs := w_jobs w |}.
Definition set_ledger (x : CapacityLedger) (w : World) : World :=
  {| w_host := w_host w; w_ledger := x; w_forgotten := w_forgotten w; w_tasks := w_tasks w; w_claims := w_claims w;
     w_instances := w_instances w; w_pool := w_pool w; w_kicks := w_kicks w; w_routes := w_routes w;
     w_rings := w_rings w; w_net := w_net w; w_permits := w_permits w; w_sandboxes := w_sandboxes w;
     w_strays := w_strays w; w_audit := w_audit w; w_jobs := w_jobs w |}.
Definition set_forgotten (x : list CapacityEntryId) (w : World) : World :=
  {| w_host := w_host w; w_ledger := w_ledger w; w_forgotten := x; w_tasks := w_tasks w; w_claims := w_claims w;
     w_instances := w_instances w; w_pool := w_pool w; w_kicks := w_kicks w; w_routes := w_routes w;
     w_rings := w_rings w; w_net := w_net w; w_permits := w_permits w; w_sandboxes := w_sandboxes w;
     w_strays := w_strays w; w_audit := w_audit w; w_jobs := w_jobs w |}.
Definition set_tasks (x : Tasks.LifecycleTasks) (w : World) : World :=
  {| w_host := w_host w; w_ledger := w_ledger w; w_forgotten := w_forgotten w; w_tasks := x; w_claims := w_claims w;
     w_instances := w_instances w; w_pool := w_pool w; w_kicks := w_kicks w; w_routes := w_routes w;
     w_rings := w_rings w; w_net := w_net w; w_permits := w_permits w; w_sandboxes := w_sandboxes w;
     w_strays := w_strays w; w_audit := w_audit w; w_jobs := w_jobs w |}.
Definition set_claims (x : gset string) (w : World) : World :=
  {| w_host := w_host w; w_ledger := w_ledger w; w_forgotten := w_forgotten w; w_tasks := w_tasks w; w_claims := x;
     w_instances := w_instances w; w_pool := w_pool w; w_kicks := w_kicks w; w_routes := w_routes w;
     w_rings := w_rings w; w_net := w_net w; w_permits := w_permits w; w_sandboxes := w_sandboxes w;
     w_strays := w_strays w; w_audit := w_audit w; w_jobs := w_jobs w |}.
Definition set_instances (x : gmap string WorkspaceExec) (w : World) : World :=
  {| w_host := w_host w; w_ledger := w_ledger w; w_forgotten := w_forgotten w; w_tasks := w_tasks w; w_claims := w_claims w;
     w_instances := x; w_pool := w_pool w; w_kicks := w_kicks w; w_routes := w_routes w;
     w_rings := w_rings w; w_net := w_net w; w_permits := w_permits w; w_sandboxes := w_sandboxes w;
     w_strays := w_strays w; w_audit := w_audit w; w_jobs := w_jobs w |}.
Definition set_pool (x : option WarmPool) (w : World) : World :=
  {| w_host := w_host w; w_ledger := w_ledger w; w_forgotten := w_forgotten w; w_tasks := w_tasks w; w_claims := w_claims w;
     w_instances := w_instances w; w_pool := x; w_kicks := w_kicks w; w_routes := w_routes w;
     w_rings := w_rings w; w_net := w_net w; w_permits := w_permits w; w_sandboxes := w_sandboxes w;
     w_strays := w_strays w; w_audit := w_audit w; w_jobs := w_jobs w |}.
Definition set_kicks (x : Z) (w : World) : World :=
  {| w_host := w_host w; w_ledger := w_ledger w; w_forgotten := w_forgotten w; w_tasks := w_tasks w; w_claims := w_claims w;
     w_instances := w_instances w; w_pool := w_pool w; w_kicks := x; w_routes := w_routes w;
     w_rings := w_rings w; w_net := w_net w; w_permits := w_permits w; w_sandboxes := w_sandboxes w;
     w_strays := w_strays w; w_audit := w_audit w; w_jobs := w_jobs w |}.
Definition set_routes (x : (gmap string WorkspaceRoutes)) (w : World) : World :=
  {| w_host := w_host w; w_ledger := w_ledger w; w_forgotten := w_forgotten w; w_tasks := w_tasks w; w_claims := w_claims w;
     w_instances := w_instances w; w_pool := w_pool w; w_kicks := w_kicks w; w_routes := x;
     w_rings := w_rings w; w_net := w_net w; w_permits := w_permits w; w_sandboxes := w_sandboxes w;
     w_strays := w_strays w; w_audit := w_audit w; w_jobs := w_jobs w |}.
Definition set_rings (x : gmap string Nonces.NonceRing) (w : World) : World :=
  {| w_host := w_host w; w_ledger := w_ledger w; w_forgotten := w_forgotten w; w_tasks := w_tasks w; w_claims := w_claims w;
     w_instances := w_instances w; w_pool := w_pool w; w_kicks := w_kicks w; w_routes := w_routes w;
     w_rings := x; w_net := w_net w; w_permits := w_permits w; w_sandboxes := w_sandboxes w;
     w_strays := w_strays w; w_audit := w_audit w; w_jobs := w_jobs w |}.
Definition set_net (x : NetState) (w : World) : World :=
  {| w_host := w_host w; w_ledger := w_ledger w; w_forgotten := w_forgotten w; w_tasks := w_tasks w; w_claims := w_claims w;
     w_instances := w_instances w; w_pool := w_pool w; w_kicks := w_kicks w; w_routes := w_routes w;
     w_rings := w_rings w; w_net := x; w_permits := w_permits w; w_sandboxes := w_sandboxes w;
     w_strays := w_strays w; w_audit := w_audit w; w_jobs := w_jobs w |}.
Definition set_confidential (n : Z) (s : list Sandbox) (w : World) : World :=
  {| w_host := w_host w; w_ledger := w_ledger w; w_forgotten := w_forgotten w; w_tasks := w_tasks w; w_claims := w_claims w;
     w_instances := w_instances w; w_pool := w_pool w; w_kicks := w_kicks w; w_routes := w_routes w;
     w_rings := w_rings w; w_net := w_net w; w_permits := n; w_sandboxes := s;
     w_strays := w_strays w; w_audit := w_audit w; w_jobs := w_jobs w |}.
Definition set_strays (x : list Sandbox) (w : World) : World :=
  {| w_host := w_host w; w_ledger := w_ledger w; w_forgotten := w_forgotten w; w_tasks := w_tasks w; w_claims := w_claims w;
     w_instances := w_instances w; w_pool := w_pool w; w_kicks := w_kicks w; w_routes := w_routes w;
     w_rings := w_rings w; w_net := w_net w; w_permits := w_permits w; w_sandboxes := w_sandboxes w;
     w_strays := x; w_audit := w_audit w; w_jobs := w_jobs w |}.
Definition set_audit (x : list AuditCall) (w : World) : World :=
  {| w_host := w_host w; w_ledger := w_ledger w; w_forgotten := w_forgotten w; w_tasks := w_tasks w; w_claims := w_claims w;
     w_instances := w_instances w; w_pool := w_pool w; w_kicks := w_kicks w; w_routes := w_routes w;
     w_rings := w_rings w; w_net := w_net w; w_permits := w_permits w; w_sandboxes := w_sandboxes w;
     w_strays := w_strays w; w_audit := x; w_jobs := w_jobs w |}.
Definition set_jobs (x : list Job) (w : World) : World :=
  {| w_host := w_host w; w_ledger := w_ledger w; w_forgotten := w_forgotten w; w_tasks := w_tasks w; w_claims := w_claims w;
     w_instances := w_instances w; w_pool := w_pool w; w_kicks := w_kicks w; w_routes := w_routes w;
     w_rings := w_rings w; w_net := w_net w; w_permits := w_permits w; w_sandboxes := w_sandboxes w;
     w_strays := w_strays w; w_audit := w_audit w; w_jobs := x |}.

(** ** Inputs *)

(** [Display] and [Debug] of values of other crates, as text in messages. *)
Record Texts := {
  t_quote : string -> string;
  t_rpc : GuestRpcError -> string;
  t_net : NetworkError -> string;
  t_capacity : CapacityError -> string;
  t_snapshot : SnapshotError -> string;
  t_attestation : AttestationError -> string;
  t_response : GuestResponse -> string;
}.
Record NetIo := {
  ni_exec : list Network.Action -> string -> list string -> ExecOutcome;
  ni_spawn : list Network.Action -> list string -> SpawnOutcome }.
(** Ending a sandbox: the wait within the grace period ([None] when that elapses), and then the kill
    and the last wait. *)
Record SandboxExitIo := {
  se_grace : option (result string unit); se_kill : result string unit; se_wait : result string unit }.
Record TeardownIo := { td_terminate : TerminateIo; td_net : NetIo; td_sandbox : SandboxExitIo }.
(** Booting from a snapshot and making the guest a new one. *)
Record BootIo := {
  bi_kernel : ResolveIo; bi_rootfs : ResolveIo; bi_restore : RestoreIo; bi_env : GuestEnv;
  bi_ready : list (Call * bool); bi_machine_id : string; bi_entropy : result string (list Z); bi_reset : Call;
  bi_terminate : TerminateIo }.

(** ** Messages *)

Definition error (kind : SupervisorErrorKind) (message : string) : SupervisorResponse :=
  SupervisorResponse_Error kind message.
Definition image_error_response (quote : string -> string) (e : ImageError) : SupervisorResponse :=
  error match e with
        | ImageError_InvalidDigest _ _ => SupervisorErrorKind_InvalidImageDigest
        | ImageError_NotFound _ _ => SupervisorErrorKind_ImageNotFound
        | ImageError_Rejected _ _ _ => SupervisorErrorKind_ImageRejected
        | ImageError_DigestMismatch _ _ _ => SupervisorErrorKind_ImageDigestMismatch
        | ImageError_Stage _ _ _ => SupervisorErrorKind_ImageStageFailed
        end (ImageError_to_string quote e).
Definition restore_launch_error_response (quote : string -> string) (e : LaunchError) : SupervisorResponse :=
  match e with
  | LaunchError_NetworkedRestoreUnsupported =>
      error SupervisorErrorKind_InvalidSnapshot "networked snapshot restore is not supported"
  | LaunchError_Image e => image_error_response quote e
  | e => error SupervisorErrorKind_RestoreFailed (LaunchError_to_string quote e)
  end.
Definition capacity_error_response (message : string) : SupervisorResponse :=
  error SupervisorErrorKind_Internal ("capacity accounting failed: " +:+ message).
Definition UNCONFIRMED_TERMINATION_MESSAGE : string := "workspace termination could not confirm process exit".
Definition already (id : string) : SupervisorResponse :=
  error SupervisorErrorKind_WorkspaceAlreadyExists ("workspace " +:+ id +:+ " already exists").
Definition not_found (id : string) : SupervisorResponse :=
  error SupervisorErrorKind_WorkspaceNotFound ("workspace " +:+ id +:+ " not found").
Definition kind_debug (k : SupervisorErrorKind) : string :=
  match k with
  | SupervisorErrorKind_Unauthorized => "Unauthorized"
  | SupervisorErrorKind_InvalidRequest => "InvalidRequest"
  | SupervisorErrorKind_InvalidImageDigest => "InvalidImageDigest"
  | SupervisorErrorKind_ImageNotFound => "ImageNotFound"
  | SupervisorErrorKind_ImageRejected => "ImageRejected"
  | SupervisorErrorKind_ImageDigestMismatch => "ImageDigestMismatch"
  | SupervisorErrorKind_ImageStageFailed => "ImageStageFailed"
  | SupervisorErrorKind_Unsupported => "Unsupported"
  | SupervisorErrorKind_UnsupportedForProfile => "UnsupportedForProfile"
  | SupervisorErrorKind_WorkspaceAlreadyExists => "WorkspaceAlreadyExists"
  | SupervisorErrorKind_WorkspaceNotFound => "WorkspaceNotFound"
  | SupervisorErrorKind_LaunchFailed => "LaunchFailed"
  | SupervisorErrorKind_GuestUnreachable => "GuestUnreachable"
  | SupervisorErrorKind_GuestProtocolError => "GuestProtocolError"
  | SupervisorErrorKind_Timeout => "Timeout"
  | SupervisorErrorKind_Internal => "Internal"
  | SupervisorErrorKind_PathRejected => "PathRejected"
  | SupervisorErrorKind_FileTooLarge => "FileTooLarge"
  | SupervisorErrorKind_FileNotFound => "FileNotFound"
  | SupervisorErrorKind_IoError => "IoError"
  | SupervisorErrorKind_SnapshotFailed => "SnapshotFailed"
  | SupervisorErrorKind_RestoreFailed => "RestoreFailed"
  | SupervisorErrorKind_InvalidSnapshot => "InvalidSnapshot"
  | SupervisorErrorKind_WorkspaceNotPaused => "WorkspaceNotPaused"
  | SupervisorErrorKind_WorkspaceAlreadyPaused => "WorkspaceAlreadyPaused"
  | SupervisorErrorKind_ForkFailed => "ForkFailed"
  | SupervisorErrorKind_TierNotFound => "TierNotFound"
  | SupervisorErrorKind_CapacityExceeded => "CapacityExceeded"
  | SupervisorErrorKind_ConfidentialCapacityExceeded => "ConfidentialCapacityExceeded"
  | SupervisorErrorKind_WorkspaceNotNetworked => "WorkspaceNotNetworked"
  | SupervisorErrorKind_IngressPortNotFound => "IngressPortNotFound"
  | SupervisorErrorKind_AttestationReplay => "AttestationReplay"
  end.

(** ** Pure helpers *)

Definition derive_max_workspaces (host_ram_mib : Z) : Z := Z.max 1 (Z.min (host_ram_mib / 512) 1024).
Definition validate_workspace_ceiling (value : Z) : result string Z :=
  if U32_MAX <? value then Err "workspace ceiling does not fit the fleet wire"
  else if value =? 0 then Err "resolved workspace ceiling must be greater than zero"
  else if MAX_RUNNER_WORKSPACES <? value then Err "resolved workspace ceiling exceeds the fleet wire maximum"
  else Ok value.
Definition is_valid_workspace_id (id : string) : bool :=
  negb (is_empty id) && (len id <=? 64) && all_chars (fun c => is_ascii_alphanumeric c || Ascii.eqb c "-") id.
Definition snapshot_preflight (rootfs_read_only networked : bool) : result string unit :=
  if negb rootfs_read_only
  then Err "snapshot of writable-rootfs workspaces is not supported; create the workspace with rootfs_read_only=true"
  else if networked then Err "snapshot of networked workspaces is not supported in this build"
  else Ok tt.
Definition exposed_ports_from_request (network : option NetworkConfig) : list PortRoute :=
  match network with
  | None => []
  | Some n =>
      (fun p => {| pr_port := ep_port p; pr_inject_headers := (fun h => (hi_name h, hi_value h)) <$> ep_inject_headers p |})
        <$> nc_exposed_ports n
  end.
Definition compose_boot_args (base : string) (layout : option SlotIpLayout) : string :=
  match layout with None => base | Some l => base +:+ " " +:+ ip_boot_arg l end.
Definition validate_confidential_create (req : CreateWorkspaceRequest) : result string unit :=
  if negb (is_empty (cw_kernel_sha256 req)) || negb (is_empty (cw_rootfs_sha256 req))
     || bool_decide (is_Some (cw_network req)) || bool_decide (is_Some (cw_tier req))
     || negb (cw_vcpu_count req =? 0) || negb (cw_mem_size_mib req =? 0) || negb (cw_guest_vsock_cid req =? 0)
  then Err "confidential-azure create accepts workspace_id only"
  else Ok tt.
(** One component of a confidential path. *)
Definition check_component (quote : string -> string) (raw component : string) : result string unit :=
  if is_empty component then Err ("empty component in " +:+ quote raw)
  else if String.eqb component "." || String.eqb component ".."
  then Err (quote component +:+ " segment in " +:+ quote raw)
  else if negb (all_chars (fun c => negb (Ascii.eqb c "000")) component)
  then Err ("null byte in component of " +:+ quote raw)
  else Ok tt.
Definition confidential_workspace_path (quote : string -> string) (raw : string) : result string string :=
  if is_empty raw then Err "path is empty"
  else if starts_with "/" raw then Err ("absolute path not allowed: " +:+ quote raw)
  else
    let components := split_on "/" raw in
    _ ← validate_all (check_component quote raw) components;
    Ok ("/workspace/" +:+ join "/" components).
Definition guest_kind_to_supervisor_kind (k : GuestErrorKind) : SupervisorErrorKind :=
  match k with
  | GuestErrorKind_PathRejected => SupervisorErrorKind_PathRejected
  | GuestErrorKind_FileNotFound => SupervisorErrorKind_FileNotFound
  | GuestErrorKind_FileTooLarge => SupervisorErrorKind_FileTooLarge
  | GuestErrorKind_IoError => SupervisorErrorKind_IoError
  | GuestErrorKind_InvalidRequest => SupervisorErrorKind_InvalidRequest
  | GuestErrorKind_CommandFailed => SupervisorErrorKind_LaunchFailed
  | GuestErrorKind_Timeout => SupervisorErrorKind_Timeout
  | GuestErrorKind_Internal => SupervisorErrorKind_Internal
  end.
Definition guest_kind_name (k : GuestErrorKind) : string :=
  match k with
  | GuestErrorKind_PathRejected => "path_rejected"
  | GuestErrorKind_FileNotFound => "file_not_found"
  | GuestErrorKind_FileTooLarge => "file_too_large"
  | GuestErrorKind_IoError => "io_error"
  | GuestErrorKind_InvalidRequest => "invalid_request"
  | GuestErrorKind_CommandFailed => "command_failed"
  | GuestErrorKind_Timeout => "timeout"
  | GuestErrorKind_Internal => "internal"
  end.
Definition openshell_control_error (e : OpenShellError) : SupervisorErrorKind * string :=
  match e with
  | OpenShellError_Timeout ms =>
      (SupervisorErrorKind_Timeout, "OpenShell control operation exceeded " +:+ show_uint ms +:+ "ms")
  | OpenShellError_ConnectRejected m =>
      (SupervisorErrorKind_GuestUnreachable, "OpenShell control connection rejected: " +:+ m)
  | e => (SupervisorErrorKind_GuestUnreachable, OpenShellError_to_string e)
  end.
Definition control_error_code (k : SupervisorErrorKind) : string :=
  match k with
  | SupervisorErrorKind_Timeout => "timeout"
  | SupervisorErrorKind_PathRejected => "path_rejected"
  | _ => "guest_unreachable"
  end.
Definition state_debug (s : WorkspaceState) : string :=
  match s with
  | WorkspaceState_Running => "Running"
  | WorkspaceState_Paused => "Paused"
  | WorkspaceState_Snapshotting => "Snapshotting"
  end.
#[global] Instance WorkspaceState_eq_dec : EqDecision WorkspaceState.
Proof. solve_decision. Defined.
Definition with_id (id : string) (i : Instance) : Instance :=
  {| i_workspace_id := id; i_boot_id := i_boot_id i; i_firecracker_pid := i_firecracker_pid i;
     i_api_socket_host := i_api_socket_host i; i_vsock_host_socket := i_vsock_host_socket i;
     i_jailer_chroot := i_jailer_chroot i; i_jailer_uid := i_jailer_uid i; i_jailer_gid := i_jailer_gid i;
     i_lifecycle_state := i_lifecycle_state i; i_network_slot := i_network_slot i;
     i_guest_vsock_cid := i_guest_vsock_cid i; i_vcpu_count := i_vcpu_count i; i_mem_size_mib := i_mem_size_mib i;
     i_kernel_boot_args := i_kernel_boot_args i; i_kernel_sha256 := i_kernel_sha256 i;
     i_rootfs_sha256 := i_rootfs_sha256 i; i_rootfs_read_only := i_rootfs_read_only i |}.
Definition with_state (s : WorkspaceState) (i : Instance) : Instance :=
  {| i_workspace_id := i_workspace_id i; i_boot_id := i_boot_id i; i_firecracker_pid := i_firecracker_pid i;
     i_api_socket_host := i_api_socket_host i; i_vsock_host_socket := i_vsock_host_socket i;
     i_jailer_chroot := i_jailer_chroot i; i_jailer_uid := i_jailer_uid i; i_jailer_gid := i_jailer_gid i;
     i_lifecycle_state := s; i_network_slot := i_network_slot i;
     i_guest_vsock_cid := i_guest_vsock_cid i; i_vcpu_count := i_vcpu_count i; i_mem_size_mib := i_mem_size_mib i;
     i_kernel_boot_args := i_kernel_boot_args i; i_kernel_sha256 := i_kernel_sha256 i;
     i_rootfs_sha256 := i_rootfs_sha256 i; i_rootfs_read_only := i_rootfs_read_only i |}.
Definition with_slot (s : option NetworkSlot) (i : Instance) : Instance :=
  {| i_workspace_id := i_workspace_id i; i_boot_id := i_boot_id i; i_firecracker_pid := i_firecracker_pid i;
     i_api_socket_host := i_api_socket_host i; i_vsock_host_socket := i_vsock_host_socket i;
     i_jailer_chroot := i_jailer_chroot i; i_jailer_uid := i_jailer_uid i; i_jailer_gid := i_jailer_gid i;
     i_lifecycle_state := i_lifecycle_state i; i_network_slot := s;
     i_guest_vsock_cid := i_guest_vsock_cid i; i_vcpu_count := i_vcpu_count i; i_mem_size_mib := i_mem_size_mib i;
     i_kernel_boot_args := i_kernel_boot_args i; i_kernel_sha256 := i_kernel_sha256 i;
     i_rootfs_sha256 := i_rootfs_sha256 i; i_rootfs_read_only := i_rootfs_read_only i |}.

Section Manager.
Context {H : Hypervisor} {C : Crypto} {V : JsonVec unit} {VJ : JsonVec Value} {MJ : ManifestJson}.
Context {K : Codec GuestRequest GuestResponse}.
Context (cfg : WorkspaceManagerConfig) (max_workspace_mem_mib : Z) (confidential_cvm : bool).
Context (audit_key : SigningKey) (generate : EvidenceRequest -> Z -> result AttestationError Evidence).
Context (t : Texts).
Local Abbreviation quote := (t_quote t).
Local Abbreviation Task := (Prog World).

(** ** Actions *)

Definition audit_emit (ty : EventType) (ws : option string) (payload : list (string * Value)) : Task unit :=
  writes (fun w => set_audit ({| au_type := ty; au_workspace := ws; au_payload := Value_Object payload |} :: w_audit w) w).
Definition drive {A} (p : Prog Host A) : Task A := zoom w_host set_host p.
Definition on_ledger {A} (f : CapacityLedger -> A * CapacityLedger) : Task A :=
  act (fun w => let '(r, l) := f (w_ledger w) in (r, set_ledger l w)).
(** The drop of a guard, [fail_closed], and [std::mem::forget] of a guard. *)
Definition drop_entry (entry : option CapacityEntryId) : Task unit :=
  _ ← on_ledger (release_entry entry); Ret tt.
Definition fail_closed : Task unit := on_ledger (fun l => (tt, fault_ledger l)).
Definition forget (entry : option CapacityEntryId) : Task unit :=
  writes (fun w => set_forgotten (option_list entry ++ w_forgotten w) w).
Definition net_setup (io : NetIo) (inner : Inner) (id : string) (policy : NetworkPolicy)
    : Task (result NetworkError NetworkSlot) :=
  act (fun w => let '(r, n) := Network.setup (ni_exec io) (ni_spawn io) inner id policy (w_net w) in (r, set_net n w)).
Definition net_teardown (io : NetIo) (inner : Inner) (slot : NetworkSlot) : Task (result NetworkError unit) :=
  act (fun w => let '(r, n) := Network.teardown (ni_exec io) inner slot (w_net w) in (r, set_net n w)).
Definition kick_refill : Task unit :=
  writes (fun w => match w_pool w with Some _ => set_kicks (Z.min 8 (w_kicks w + 1)) w | None => w end).

(** *** Leases and tracked tasks *)

Definition claim_lifecycle (id : string) : Task bool :=
  act (fun w => let '(ok, ids) := Claims.claim id (w_claims w) in (ok, set_claims ids w)).
Definition drop_lease (id : string) : Task unit := writes (fun w => set_claims (Claims.lease_drop id (w_claims w)) w).
Definition registry_contains (id : string) : Task bool := reads (fun w => bool_decide (is_Some (w_instances w !! id))).
Definition claim_boot (id : string) : Task (result SupervisorResponse unit) :=
  claimed ← claim_lifecycle id;
  if negb claimed then Ret (Err (already id))
  else
    exists_ ← registry_contains id;
    if exists_ : bool then drop_lease id ;;; Ret (Err (already id))
    else Ret (Ok tt).
(** An operation that holds the lease of an id until it returns. *)
Definition with_boot_lease (id : string) (body : Task SupervisorResponse) : Task SupervisorResponse :=
  let? _ ← claim_boot id;
  r ← body;
  drop_lease id ;;; Ret r.
Definition begin_task (cleanup : bool) : Task (result Tasks.LifecycleTaskError unit) :=
  act (fun w => let '(r, x) := Tasks.begin cleanup (w_tasks w) in (r, set_tasks x w)).
Definition end_task : Task unit := writes (fun w => set_tasks (Tasks.permit_drop (w_tasks w)) w).
Definition run_tracked_lifecycle (operation : Task SupervisorResponse) : Task SupervisorResponse :=
  r ← begin_task false;
  match r with
  | Ok _ => response ← operation; end_task ;;; Ret response
  | Err Tasks.LifecycleTaskError_Closed => Ret (error SupervisorErrorKind_Internal "supervisor is shutting down")
  | Err _ => Ret (error SupervisorErrorKind_Internal "supervisor lifecycle tracker is unavailable: Poisoned")
  end.

(** ** Capacity *)

Definition reserve_workspace_capacity (id : string) (vcpu_count mem_size_mib : Z)
    : Task (result SupervisorResponse WorkspaceCapacityReservation) :=
  match capacity_dimensions vcpu_count mem_size_mib with
  | Err e => Ret (Err (capacity_error_response (t_capacity t e)))
  | Ok (cpu_millicores, memory_bytes) =>
      r ← on_ledger (reserve_workspace id cpu_millicores memory_bytes);
      Ret (map_err (fun e =>
             match e with
             | CapacityError_Exhausted =>
                 error SupervisorErrorKind_CapacityExceeded "workspace capacity is exhausted"
             | e => capacity_error_response (t_capacity t e)
             end) r)
  end.
Definition terminate_unregistered_or_fault (io : TerminateIo) (instance : Instance) : Task (result unit unit) :=
  r ← drive (Firecracker.terminate quote io instance);
  match r with
  | Ok _ => Ret (Ok tt)
  | Err _ => fail_closed ;;; Ret (Err tt)
  end.
(** The reservation is dropped when the boot fails. *)
Definition boot_with_reserved_capacity {T} (id : string) (vcpu_count mem_size_mib : Z)
    (boot : Task (result SupervisorResponse T)) : Task (result SupervisorResponse (T * WorkspaceCapacityReservation)) :=
  let! reservation ← reserve_workspace_capacity id vcpu_count mem_size_mib;
  output ← boot;
  match output with
  | Err e => drop_entry (wr_entry_id reservation) ;;; Ret (Err e)
  | Ok x => Ret (Ok (x, reservation))
  end.

(** ** A launched machine before it is registered *)

Definition owner_entry (o : option PendingCapacityOwner) : option CapacityEntryId :=
  match o with
  | Some (PendingCapacityOwner_Reserved r) => wr_entry_id r
  | Some (PendingCapacityOwner_Registered g) => rw_entry_id g
  | None => None
  end.
Definition pending_reserved (instance : Instance) (r : WorkspaceCapacityReservation) (n : option (Inner * NetworkSlot))
    : PendingFirecracker :=
  {| pf_instance := Some instance; pf_capacity_owner := Some (PendingCapacityOwner_Reserved r); pf_network_cleanup := n |}.
Definition pending_registered (instance : Instance) (g : RegisteredWorkspaceCapacityGuard) (n : option (Inner * NetworkSlot))
    : PendingFirecracker :=
  {| pf_instance := Some instance; pf_capacity_owner := Some (PendingCapacityOwner_Registered g); pf_network_cleanup := n |}.
Definition set_owner (o : option PendingCapacityOwner) (p : PendingFirecracker) : PendingFirecracker :=
  {| pf_instance := pf_instance p; pf_capacity_owner := o; pf_network_cleanup := pf_network_cleanup p |}.
(** [PendingFirecracker::register]. *)
Definition pending_register (state : WorkspaceState) (p : PendingFirecracker)
    : Task (result CapacityError unit * PendingFirecracker) :=
  match pf_capacity_owner p with
  | None => Ret (Err CapacityError_MissingEntry, p)
  | Some (PendingCapacityOwner_Registered g) => Ret (Ok tt, p)
  | Some (PendingCapacityOwner_Reserved r) =>
      x ← on_ledger (register_in_place r state);
      Ret (match x with
           | Ok (_, guard) => (Ok tt, set_owner (Some (PendingCapacityOwner_Registered guard)) p)
           | Err e => (Err e, p)
           end)
  end.
Definition into_workspace (p : PendingFirecracker) : option WorkspaceExec :=
  match pf_instance p, pf_capacity_owner p with
  | Some instance, Some (PendingCapacityOwner_Registered g) => Some (WorkspaceExec_Firecracker instance g)
  | _, _ => None
  end.
Definition cleanup_network (io : NetIo) (cleanup : option (Inner * NetworkSlot)) : Task unit :=
  match cleanup with
  | Some (controller, slot) => _ ← net_teardown io controller slot; Ret tt
  | None => Ret tt
  end.
(** [PendingFirecracker::teardown], also the body of the task its drop spawns. *)
Definition pending_teardown (io : TeardownIo) (p : PendingFirecracker) : Task unit :=
  match pf_instance p with
  | None => drop_entry (owner_entry (pf_capacity_owner p))
  | Some instance =>
      r ← drive (Firecracker.terminate quote (td_terminate io) instance);
      match r with
      | Ok _ => cleanup_network (td_net io) (pf_network_cleanup p) ;;; drop_entry (owner_entry (pf_capacity_owner p))
      | Err _ =>
          match pf_capacity_owner p with
          | Some _ => fail_closed ;;; forget (owner_entry (pf_capacity_owner p))
          | None => Ret tt
          end
      end
  end.
(** [Drop for PendingFirecracker] on a runtime thread: cleanup is a task of its own. *)
Definition pending_drop (p : PendingFirecracker) : Task unit :=
  match pf_instance p, pf_capacity_owner p with
  | Some instance, Some owner =>
      r ← begin_task true;
      match r with
      | Ok _ => writes (fun w => set_jobs (Job_cleanup p :: w_jobs w) w)
      | Err _ => forget (owner_entry (Some owner)) ;;; drive (writes (abandon (i_jailer_chroot instance)))
      end
  | _, o => drop_entry (owner_entry o)
  end.
Definition cleanup_job (io : TeardownIo) (p : PendingFirecracker) : Task unit := pending_teardown io p ;;; end_task.

Definition register_pending_firecracker (io : TeardownIo) (id : string) (pending : PendingFirecracker)
    : Task (result SupervisorResponse unit) :=
  match pf_instance pending with
  | None => pending_drop pending ;;; Ret (Err (capacity_error_response "pending Firecracker instance is missing"))
  | Some instance =>
      '(r, pending) ← pending_register (i_lifecycle_state instance) pending;
      match r with
      | Err e => pending_teardown io pending ;;; Ret (Err (capacity_error_response (t_capacity t e)))
      | Ok _ =>
          placed ← act (fun w =>
            match w_instances w !! id, into_workspace pending with
            | Some _, _ => (Some false, w)
            | None, Some workspace => (Some true, set_instances (<[id := workspace]> (w_instances w)) w)
            | None, None => (None, w)
            end);
          match placed with
          | Some true => Ret (Ok tt)
          | Some false => pending_teardown io pending ;;; Ret (Err (already id))
          | None =>
              drive (writes (abandon (i_jailer_chroot instance))) ;;;
              drop_entry (owner_entry (pf_capacity_owner pending)) ;;;
              Ret (Err (capacity_error_response "pending Firecracker ownership is incomplete"))
          end
      end
  end.
Definition workspace_network (slot : NetworkSlot) : WorkspaceNetwork :=
  {| wn_netns_path := "/var/run/netns/" +:+ ns_netns slot; wn_tap_device := ns_tap slot; wn_host_ip := ns_host_ip slot;
     wn_guest_ip := ns_workspace_ip slot; wn_prefix := ns_prefix slot |}.
Definition created (i : Instance) (network : option WorkspaceNetwork) : WorkspaceCreated :=
  {| wc_workspace_id := i_workspace_id i; wc_firecracker_pid := i_firecracker_pid i;
     wc_vsock_host_socket := show_path (i_vsock_host_socket i); wc_jailer_chroot := show_path (i_jailer_chroot i);
     wc_network := network; wc_exec_backend := None; wc_control_socket := None |}.

(** ** Calls to a guest *)

Definition DEFAULT_GUEST_VSOCK_PORT : Z := 52.
Definition FILE_RPC_TIMEOUT_MS : Z := 30000.
Definition POOL_CHECKOUT_PROBE_MS : Z := 2000.
(** A paused guest receives nothing before the deadline. *)
Definition expire (c : Call) : Call :=
  {| c_max_frame := c_max_frame c; c_ceiling := c_ceiling c; c_fate := Fate_expired false;
     c_connected := c_connected c; c_handshake := c_handshake c |}.
(** A call to the agent behind a vsock socket: the guest of the process whose chroot holds it. *)
Definition guest_call (env : GuestEnv) (c : Call) (req : GuestRequest) (timeout_ms : Z) (vsock : path)
    : Prog Host (result GuestRpcError GuestResponse) :=
  act (fun h =>
    let chroot := parent_of vsock in
    match (vm ← h_vms h !! chroot; g ← vm_guest vm; Some (vm, g)) with
    | None => (Err GuestRpcError_Io, h)
    | Some (vm, g) =>
        let '(r, g') := guest_rpc env (if vm_paused vm then expire c else c) req timeout_ms g in
        (r, set_vms (<[chroot := set_guest g' vm]> (h_vms h)) h)
    end).
(** [wait_for_guest_ready]: a loop that outlasts the list ends at the deadline. *)
Fixpoint wait_ready (env : GuestEnv) (turns : list (Call * bool)) (timeout_ms : Z) (vsock : path)
    : Prog Host (result GuestRpcError unit) :=
  match turns with
  | [] => Ret (Err (GuestRpcError_Timeout (Z.min timeout_ms U32_MAX)))
  | (c, expired) :: rest =>
      r ← guest_call env c GuestRequest_Ping 2000 vsock;
      match r with
      | Ok (GuestResponse_Pong _ _) => Ret (Ok tt)
      | _ =>
          if expired : bool then Ret (Err (GuestRpcError_Timeout (Z.min timeout_ms U32_MAX)))
          else wait_ready env rest timeout_ms vsock
      end
  end.

(** ** Booting from a snapshot *)

Definition snapshot_dir (id : string) : path := path_join (path_join (cf_state_dir cfg) "snapshots") id.
Definition no_files : SnapshotDir := {| mem_file := None; vmstate_file := None; manifest_file := None |}.
Definition read_snapshot_dir (id : string) (h : Host) : SnapshotDir :=
  default no_files (h_snapshots h !! snapshot_dir id).
(** The launch of a verified snapshot under a new id. *)
Definition restore_config (snapshot_id new_workspace_id : string) (m : SnapshotManifest) (images : VerifiedImagePair)
    : RestoreLaunchConfig :=
  {| rl_launch :=
       {| lc_workspace_id := new_workspace_id; lc_verified_images := images; lc_rootfs_read_only := true;
          lc_vcpu_count := gi_vcpu_count (guest_identity m); lc_mem_size_mib := gi_mem_size_mib (guest_identity m);
          lc_guest_vsock_cid := guest_vsock_cid (guest_identity m);
          lc_kernel_boot_args := Snapshot.kernel_boot_args m;
          lc_firecracker_binary := cf_firecracker_binary cfg; lc_jailer_binary := cf_jailer_binary cfg;
          lc_chroot_base := cf_chroot_base cfg; lc_jailer_uid := cf_jailer_uid cfg;
          lc_jailer_gid := cf_jailer_gid cfg; lc_network := None |};
     rl_mem_source := snapshot_dir snapshot_id ++ ["mem"];
     rl_vmstate_source := snapshot_dir snapshot_id ++ ["vmstate"] |}.
Definition prepare_snapshot_restore (io : BootIo) (snapshot_id new_workspace_id : string)
    : Task (result SupervisorResponse PreparedSnapshotRestore) :=
  if negb (is_valid_workspace_id snapshot_id)
  then Ret (Err (error SupervisorErrorKind_InvalidRequest
         ("invalid snapshot_id " +:+ quote snapshot_id +:+ ": expected [A-Za-z0-9-]{1,64}")))
  else if negb (is_valid_workspace_id new_workspace_id)
  then Ret (Err (error SupervisorErrorKind_InvalidRequest
         ("invalid new_workspace_id " +:+ quote new_workspace_id +:+ ": expected [A-Za-z0-9-]{1,64}")))
  else
    dir ← reads (fun w => read_snapshot_dir snapshot_id (w_host w));
    match verify_and_resolve_images (resolve_pair (bi_kernel io) (bi_rootfs io) (cf_image_store cfg)) dir
            (verifying_key audit_key) with
    | Err (inl e) => Ret (Err (error SupervisorErrorKind_InvalidSnapshot (t_snapshot t e)))
    | Err (inr e) => Ret (Err (image_error_response quote e))
    | Ok (manifest, images) =>
        if max_workspace_mem_mib <? gi_mem_size_mib (guest_identity manifest)
        then Ret (Err (error SupervisorErrorKind_InvalidRequest
               ("snapshot " +:+ snapshot_id +:+ " mem_size_mib " +:+ show_uint (gi_mem_size_mib (guest_identity manifest))
                +:+ " exceeds max " +:+ show_uint max_workspace_mem_mib)))
        else Ret (Ok {| ps_manifest := manifest;
                        ps_restore_cfg := restore_config snapshot_id new_workspace_id manifest images |})
    end.
Definition boot_prepared_snapshot (io : BootIo) (prepared : PreparedSnapshotRestore)
    : Task (result SupervisorResponse Instance) :=
  r ← drive (Firecracker.restore quote (bi_restore io) (ps_restore_cfg prepared));
  Ret (map_err (restore_launch_error_response quote) r).
Definition boot_from_snapshot (io : BootIo) (snapshot_id new_workspace_id : string)
    : Task (result SupervisorResponse (Instance * SnapshotManifest)) :=
  let! prepared ← prepare_snapshot_restore io snapshot_id new_workspace_id;
  let! instance ← boot_prepared_snapshot io prepared;
  Ret (Ok (instance, ps_manifest prepared)).
(** The kind and message of an error response. *)
Definition kind_and_message (unexpected : string) (r : SupervisorResponse) : SupervisorErrorKind * string :=
  match r with
  | SupervisorResponse_Error kind message => (kind, message)
  | _ => (SupervisorErrorKind_Internal, unexpected)
  end.
(** Tear down a machine that cannot be used, and say why. *)
Definition discard {T} (io : TerminateIo) (instance : Instance) (kind : SupervisorErrorKind) (message : string)
    : Task (result (SupervisorErrorKind * string) T) :=
  r ← terminate_unregistered_or_fault io instance;
  Ret (Err match r with
           | Err _ => (SupervisorErrorKind_Internal, UNCONFIRMED_TERMINATION_MESSAGE)
           | Ok _ => (kind, message)
           end).
Definition boot_prepared_ready_reset (io : BootIo) (prepared : PreparedSnapshotRestore) (hostname : string)
    : Task (result (SupervisorErrorKind * string) (Instance * string)) :=
  booted ← boot_prepared_snapshot io prepared;
  match booted with
  | Err r => Ret (Err (kind_and_message "unexpected boot response" r))
  | Ok instance =>
      let vsock_uds := i_vsock_host_socket instance in
      ready ← drive (wait_ready (bi_env io) (bi_ready io) 10000 vsock_uds);
      match ready with
      | Err e =>
          discard (bi_terminate io) instance SupervisorErrorKind_ForkFailed ("guest not ready: " +:+ t_rpc t e)
      | Ok _ =>
          match bi_entropy io with
          | Err e =>
              discard (bi_terminate io) instance SupervisorErrorKind_Internal ("entropy generation failed: " +:+ e)
          | Ok entropy_seed =>
              r ← drive (guest_call (bi_env io) (bi_reset io)
                    (GuestRequest_ResetIdentity
                       {| ri_hostname := hostname; ri_machine_id := bi_machine_id io;
                          ri_entropy_seed := entropy_seed |}) 30000 vsock_uds);
              match r with
              | Ok (GuestResponse_IdentityReset _ _) => Ret (Ok (instance, bi_machine_id io))
              | Ok other =>
                  discard (bi_terminate io) instance SupervisorErrorKind_ForkFailed
                    ("identity reset: unexpected guest response: " +:+ t_response t other)
              | Err e =>
                  discard (bi_terminate io) instance SupervisorErrorKind_ForkFailed
                    ("identity reset failed: " +:+ t_rpc t e)
              end
          end
      end
  end.
Definition boot_ready_reset (io : BootIo) (snapshot_id new_workspace_id hostname : string)
    : Task (result (SupervisorErrorKind * string) (Instance * string)) :=
  r ← prepare_snapshot_restore io snapshot_id new_workspace_id;
  match r with
  | Err r => Ret (Err (kind_and_message "unexpected snapshot preparation response" r))
  | Ok prepared => boot_prepared_ready_reset io prepared hostname
  end.
(** The same, with an error as a response. *)
Definition boot_fork (io : BootIo) (prepared : PreparedSnapshotRestore) (hostname : string)
    : Task (result SupervisorResponse (Instance * string)) :=
  r ← boot_prepared_ready_reset io prepared hostname;
  Ret (map_err (fun '(kind, message) => error kind message) r).
(** Report a failed boot to the audit log. *)
Definition audit_failure (ws : string) (op : list (string * Value)) (r : SupervisorResponse) : Task unit :=
  match r with
  | SupervisorResponse_Error kind message =>
      audit_emit EventType_CommandFailed (Some ws)
        (op ++ [("error_kind", Value_String (kind_debug kind)); ("error", Value_String message)])
  | _ => Ret tt
  end.

(** ** Create *)

(** One turn of the checkout loop: the probe, and the teardown of a dead member. *)
Record CheckoutIo := { ck_env : GuestEnv; ck_probe : list (Call * bool); ck_terminate : TerminateIo }.
Record SandboxIo := {
  sx_ssh_addr : string; sx_secret : string; sx_spawn : result OpenShellError unit; sx_exit : SandboxExitIo }.
Record CreateIo := {
  cr_kernel : ResolveIo; cr_rootfs : ResolveIo; cr_net : NetIo; cr_launch : LaunchIo; cr_teardown : TeardownIo;
  cr_checkouts : list CheckoutIo; cr_adopt : TerminateIo; cr_boot : BootIo; cr_sandbox : SandboxIo }.

Definition pool_pop : Task (option PoolMember) :=
  act (fun w =>
    match w_pool w with
    | None => (None, w)
    | Some p => let '(m, p') := pop p in (m, set_pool (Some p') w)
    end).
(** The drop of a member that does not hold both its machine and its guard. *)
Definition drop_incomplete (m : PoolMember) : Task unit :=
  match member_instance m with
  | Some instance => drive (writes (abandon (i_jailer_chroot instance)))
  | None => drop_entry (g ← member_guard m; rp_entry_id g)
  end.
(** [PoolMember::teardown]. *)
Definition teardown_member (io : TerminateIo) (m : PoolMember) : Task unit :=
  match fst (take_parts m) with
  | None => drop_incomplete m
  | Some (instance, g) =>
      r ← drive (Firecracker.terminate quote io instance);
      match r with
      | Ok _ => drop_entry (rp_entry_id g)
      | Err _ => fail_closed ;;; forget (rp_entry_id g)
      end
  end.
(** Pop until a member answers; the turns beyond the list find the member alive. *)
Fixpoint checkout (ios : list CheckoutIo) (id : string) : Task (option PoolMember) :=
  popped ← pool_pop;
  match popped with
  | None => Ret None
  | Some member =>
      match member_instance member with
      | None =>
          drop_entry (g ← member_guard member; rp_entry_id g) ;;;
          match ios with [] => Ret None | _ :: rest => checkout rest id end
      | Some instance =>
          let adopted := {| member_instance := Some (with_id id instance); member_guard := member_guard member |} in
          match ios with
          | [] => Ret (Some adopted)
          | io :: rest =>
              r ← drive (wait_ready (ck_env io) (ck_probe io) POOL_CHECKOUT_PROBE_MS (i_vsock_host_socket instance));
              match r with
              | Ok _ => Ret (Some adopted)
              | Err e =>
                  audit_emit EventType_PoolMemberEvicted (Some id)
                    [("reason", Value_String "checkout_probe_failed"); ("error", Value_String (t_rpc t e))] ;;;
                  teardown_member (ck_terminate io) member ;;;
                  kick_refill ;;;
                  checkout rest id
              end
          end
      end
  end.
(** A ready member becomes the workspace. *)
Definition adopt_member (io : CreateIo) (id tier : string) (member : PoolMember) : Task SupervisorResponse :=
  match fst (take_parts member) with
  | None =>
      drop_incomplete member ;;;
      Ret (capacity_error_response "pooled member ownership is incomplete")
  | Some (instance, ready_guard) =>
      r ← on_ledger (adopt_in_place ready_guard id WorkspaceState_Running);
      match r with
      | Err e =>
          terminated ← drive (Firecracker.terminate quote (cr_adopt io) instance);
          match terminated with
          | Ok _ => drop_entry (rp_entry_id ready_guard)
          | Err _ => fail_closed ;;; forget (rp_entry_id ready_guard)
          end ;;;
          Ret (capacity_error_response (t_capacity t e))
      | Ok (_, capacity_guard) =>
          let resp := created instance None in
          let? _ ← register_pending_firecracker (cr_teardown io) id (pending_registered instance capacity_guard None);
          audit_emit EventType_PoolHit (Some id)
            [("tier", Value_String tier); ("firecracker_pid", Value_Number (wc_firecracker_pid resp))] ;;;
          kick_refill ;;;
          Ret (SupervisorResponse_WorkspaceCreated resp)
      end
  end.
(** The synchronous fork when the pool is empty. *)
Definition fork_from_base (io : CreateIo) (id tier base_snapshot_id : string) : Task SupervisorResponse :=
  audit_emit EventType_PoolMiss (Some id) [("tier", Value_String tier)] ;;;
  kick_refill ;;;
  prepared ← prepare_snapshot_restore (cr_boot io) base_snapshot_id id;
  match prepared with
  | Err r =>
      audit_failure id [("op", Value_String "create_from_pool_fallback")] r ;;;
      let '(kind, message) := kind_and_message "unexpected snapshot preparation response" r in Ret (error kind message)
  | Ok prepared =>
      let g := guest_identity (ps_manifest prepared) in
      booted ← boot_with_reserved_capacity id (gi_vcpu_count g) (gi_mem_size_mib g) (boot_fork (cr_boot io) prepared id);
      match booted with
      | Err r => audit_failure id [("op", Value_String "create_from_pool_fallback")] r ;;; Ret r
      | Ok ((instance, _), reservation) =>
          let resp := created instance None in
          let? _ ← register_pending_firecracker (cr_teardown io) id (pending_reserved instance reservation None);
          audit_emit EventType_WorkspaceCreated (Some id)
            [("firecracker_pid", Value_Number (wc_firecracker_pid resp)); ("tier", Value_String tier);
             ("via", Value_String "pool_miss_fallback")] ;;;
          Ret (SupervisorResponse_WorkspaceCreated resp)
      end
  end.
Definition create_from_pool (io : CreateIo) (req : CreateWorkspaceRequest) : Task SupervisorResponse :=
  let tier := default "" (cw_tier req) in
  let id := cw_workspace_id req in
  match cf_warm_pool cfg with
  | None =>
      Ret (error SupervisorErrorKind_TierNotFound ("no warm pool configured (requested tier " +:+ quote tier +:+ ")"))
  | Some pool =>
      if negb (String.eqb tier (tier_name pool))
      then Ret (error SupervisorErrorKind_TierNotFound
             ("tier " +:+ quote tier +:+ " not configured (configured tier: " +:+ quote (tier_name pool) +:+ ")"))
      else if bool_decide (is_Some (cw_network req))
      then Ret (error SupervisorErrorKind_InvalidRequest
             "tier-based create cannot request networking (pool members are non-networked)")
      else
        registered ← registry_contains id;
        if registered : bool then Ret (already id)
        else
          adopted ← checkout (cr_checkouts io) id;
          match adopted with
          | Some member => adopt_member io id tier member
          | None => fork_from_base io id tier (base_snapshot_id pool)
          end
  end.

(** *** The confidential profile *)

Definition try_acquire_confidential_capacity : Task bool :=
  act (fun w => if 0 <? w_permits w then (true, set_confidential (w_permits w - 1) (w_sandboxes w) w) else (false, w)).
Definition drop_permit : Task unit := writes (fun w => set_confidential (w_permits w + 1) (w_sandboxes w) w).
(** [Sandbox::spawn]. A process whose port does not become ready is dropped with its handle, which
    sends it a kill and does not wait: it is a stray. *)
Definition sandbox_spawn (io : SandboxIo) (id : string) : Task (result OpenShellError Sandbox) :=
  act (fun w =>
    let s := {| sb_workspace_id := id; sb_ssh_addr := sx_ssh_addr io; sb_handshake_secret := sx_secret io |} in
    match sx_spawn io with
    | Err (OpenShellError_Spawn m) => (Err (OpenShellError_Spawn m), w)
    | Err e => (Err e, set_strays (s :: w_strays w) w)
    | Ok _ => (Ok s, set_confidential (w_permits w) (s :: w_sandboxes w) w)
    end).
Definition succeeded (r : result string unit) : bool := match r with Ok _ => true | Err _ => false end.
(** Whether the exit of the process was seen. *)
Definition exit_confirmed (io : SandboxExitIo) : bool :=
  match se_grace io with
  | Some r => succeeded r
  | None => succeeded (se_kill io) || succeeded (se_wait io)
  end.
(** [Sandbox::terminate] reports nothing: a process whose exit was not seen is given up, with the
    kill that the drop of its handle sends, and is a stray. *)
Definition remove_sandbox (s : Sandbox) (l : list Sandbox) : list Sandbox :=
  List.filter (fun x => negb (String.eqb (sb_workspace_id x) (sb_workspace_id s))) l.
Definition sandbox_terminate (io : SandboxExitIo) (s : Sandbox) : Task unit :=
  writes (fun w =>
    let w := set_confidential (w_permits w) (remove_sandbox s (w_sandboxes w)) w in
    if exit_confirmed io then w else set_strays (s :: w_strays w) w).
(** [register_or_teardown] of a sandbox, with the drops of a collision. *)
Definition register_sandbox (io : SandboxExitIo) (id : string) (sandbox : Sandbox) (guard : RegisteredWorkspaceCapacityGuard)
    : Task (result SupervisorResponse unit) :=
  placed ← act (fun w =>
    match w_instances w !! id with
    | Some _ => (false, w)
    | None => (true, set_instances (<[id := WorkspaceExec_OpenShell sandbox guard]> (w_instances w)) w)
    end);
  if placed : bool then Ret (Ok tt)
  else
    sandbox_terminate io sandbox ;;; drop_permit ;;; drop_entry (rw_entry_id guard) ;;;
    Ret (Err (already id)).
Definition confidential_created (s : Sandbox) : WorkspaceCreated :=
  {| wc_workspace_id := sb_workspace_id s; wc_firecracker_pid := 0; wc_vsock_host_socket := ""; wc_jailer_chroot := "";
     wc_network := None; wc_exec_backend := Some "openshell"; wc_control_socket := Some (sb_ssh_addr s) |}.
Definition register_confidential (io : SandboxExitIo) (id : string) (sandbox : Sandbox) (reservation : WorkspaceCapacityReservation)
    : Task SupervisorResponse :=
  r ← on_ledger (register_in_place reservation WorkspaceState_Running);
  match r with
  | Err e =>
      drop_entry (wr_entry_id reservation) ;;; sandbox_terminate io sandbox ;;; drop_permit ;;;
      Ret (capacity_error_response (t_capacity t e))
  | Ok (_, guard) =>
      audit_emit EventType_WorkspaceCreated (Some (sb_workspace_id sandbox))
        [("exec_backend", Value_String "openshell"); ("control_socket", Value_String (sb_ssh_addr sandbox))] ;;;
      let? _ ← register_sandbox io id sandbox guard;
      Ret (SupervisorResponse_WorkspaceCreated (confidential_created sandbox))
  end.
Definition create_confidential (io : SandboxIo) (req : CreateWorkspaceRequest) : Task SupervisorResponse :=
  let id := cw_workspace_id req in
  match validate_confidential_create req with
  | Err message => Ret (error SupervisorErrorKind_InvalidRequest message)
  | Ok _ =>
      acquired ← try_acquire_confidential_capacity;
      if negb acquired
      then Ret (error SupervisorErrorKind_ConfidentialCapacityExceeded
             "confidential-azure permits one active or creating workspace")
      else
        reserved ← on_ledger (reserve_workspace id 0 0);
        match reserved with
        | Err CapacityError_Exhausted =>
            drop_permit ;;; Ret (error SupervisorErrorKind_CapacityExceeded "workspace capacity is exhausted")
        | Err e => drop_permit ;;; Ret (capacity_error_response (t_capacity t e))
        | Ok reservation =>
            spawned ← sandbox_spawn io id;
            match spawned with
            | Ok sandbox => register_confidential (sx_exit io) id sandbox reservation
            | Err (OpenShellError_Spawn msg) =>
                audit_emit EventType_CommandFailed (Some id)
                  [("op", Value_String "create_confidential"); ("error", Value_String msg)] ;;;
                drop_entry (wr_entry_id reservation) ;;; drop_permit ;;;
                Ret (error SupervisorErrorKind_Internal ("openshell-sandbox spawn failed: " +:+ msg))
            | Err e =>
                drop_entry (wr_entry_id reservation) ;;; drop_permit ;;;
                Ret (error SupervisorErrorKind_Internal
                  ("confidential workspace launch failed: " +:+ OpenShellError_to_string e))
            end
        end
  end.

(** *** A cold boot *)

Definition policy_of (net : NetworkConfig) : NetworkPolicy :=
  {| enable_egress := nc_enable_egress net; allow_cidrs := nc_allow_cidrs net;
     allow_hostnames := nc_allow_hostnames net; enable_privacy_router := bool_decide (is_Some (nc_privacy_router net)) |}.
Definition strings (l : list string) : Value := Value_Array (Value_String <$> l).
Definition number_or_null (o : option Z) : Value := match o with Some n => Value_Number n | None => Value_Null end.
Definition network_setup_payload (slot : NetworkSlot) (policy : NetworkPolicy) : list (string * Value) :=
  [("netns", Value_String (ns_netns slot)); ("host_ip", Value_String (ns_host_ip slot));
   ("guest_ip", Value_String (ns_workspace_ip slot)); ("slot", Value_Number (ns_slot slot));
   ("forward_chain", Value_String (ns_forward_chain slot)); ("enable_egress", Value_Bool (enable_egress policy));
   ("allow_cidrs", strings (allow_cidrs policy)); ("allow_hostnames", strings (allow_hostnames policy));
   ("masquerade_installed", Value_Bool (ns_masquerade_installed slot));
   ("dns_filter_pid", number_or_null (ns_dns_filter_pid slot));
   ("privacy_router_pid", number_or_null (ns_privacy_router_pid slot));
   ("privacy_router_enabled", Value_Bool (enable_privacy_router policy))].
(** The network slot of the request, when it asks for one and a controller is configured. *)
Definition provision_network (io : NetIo) (req : CreateWorkspaceRequest)
    : Task (result SupervisorResponse (option NetworkSlot)) :=
  match cw_network req, cf_network cfg with
  | Some net, Some controller =>
      r ← net_setup io controller (cw_workspace_id req) (policy_of net);
      match r with
      | Ok slot =>
          audit_emit EventType_NetworkSetup (Some (cw_workspace_id req)) (network_setup_payload slot (policy_of net)) ;;;
          Ret (Ok (Some slot))
      | Err e =>
          audit_emit EventType_CommandFailed (Some (cw_workspace_id req))
            [("op", Value_String "create_workspace"); ("stage", Value_String "network");
             ("error", Value_String (t_net t e))] ;;;
          Ret (Err (error SupervisorErrorKind_LaunchFailed ("network setup: " +:+ t_net t e)))
      end
  | _, _ => Ret (Ok None)
  end.
Definition launch_config (req : CreateWorkspaceRequest) (images : VerifiedImagePair) (slot : option NetworkSlot)
    : LaunchConfig :=
  {| lc_workspace_id := cw_workspace_id req; lc_verified_images := images;
     lc_rootfs_read_only := cw_rootfs_read_only req; lc_vcpu_count := cw_vcpu_count req;
     lc_mem_size_mib := cw_mem_size_mib req; lc_guest_vsock_cid := cw_guest_vsock_cid req;
     lc_kernel_boot_args :=
       compose_boot_args (default (cf_default_kernel_boot_args cfg) (cw_kernel_boot_args req))
         ((fun s => for_slot (ns_slot s)) <$> slot);
     lc_firecracker_binary := cf_firecracker_binary cfg; lc_jailer_binary := cf_jailer_binary cfg;
     lc_chroot_base := cf_chroot_base cfg; lc_jailer_uid := cf_jailer_uid cfg; lc_jailer_gid := cf_jailer_gid cfg;
     lc_network :=
       (fun s => {| netns_path := ["var"; "run"; "netns"; ns_netns s]; tap_name := ns_tap s |}) <$> slot |}.
Definition network_value (n : WorkspaceNetwork) : Value :=
  Value_Object [("netns_path", Value_String (wn_netns_path n)); ("tap_device", Value_String (wn_tap_device n));
    ("host_ip", Value_String (wn_host_ip n)); ("guest_ip", Value_String (wn_guest_ip n));
    ("prefix", Value_Number (wn_prefix n))].
Definition created_payload (resp : WorkspaceCreated) : list (string * Value) :=
  [("firecracker_pid", Value_Number (wc_firecracker_pid resp));
   ("vsock_host_socket", Value_String (wc_vsock_host_socket resp));
   ("jailer_chroot", Value_String (wc_jailer_chroot resp));
   ("network", match wc_network resp with Some n => network_value n | None => Value_Null end)].
Definition slot_cleanup (slot : option NetworkSlot) : option (Inner * NetworkSlot) :=
  s ← slot; controller ← cf_network cfg; Some (controller, s).
(** [str::parse::<Ipv4Addr>]: four decimal fields of at most three digits, without leading zeros. *)
Definition ipv4_field (s : string) : option Z :=
  if (1 <=? len s) && (len s <=? 3) && ((len s =? 1) || negb (starts_with "0" s)) && all_chars is_ascii_digit s
  then parse_uint 255 s else None.
Definition parse_ipv4 (s : string) : option Ipv4Addr :=
  match split_on "." s with
  | [a; b; c; d] =>
      o1 ← ipv4_field a; o2 ← ipv4_field b; o3 ← ipv4_field c; o4 ← ipv4_field d;
      Some {| o1 := o1; o2 := o2; o3 := o3; o4 := o4 |}
  | _ => None
  end.
Definition ingress_routes (req : CreateWorkspaceRequest) (instance : Instance) : option (Ipv4Addr * list PortRoute) :=
  slot ← i_network_slot instance;
  guest_ip ← parse_ipv4 (ns_guest_eth_ip slot);
  Some (guest_ip, exposed_ports_from_request (cw_network req)).
Definition upsert_routes (id : string) (routes : option (Ipv4Addr * list PortRoute)) : Task unit :=
  match routes with
  | Some (ip, ports) => writes (fun w => set_routes (upsert_workspace id ip ports (w_routes w)) w)
  | None => Ret tt
  end.
(** After a launch: from here the child and its reservation have one owner. *)
Definition publish_launched (io : CreateIo) (req : CreateWorkspaceRequest) (instance : Instance)
    (slot : option NetworkSlot) (reservation : WorkspaceCapacityReservation) : Task SupervisorResponse :=
  let id := cw_workspace_id req in
  let instance := with_slot slot instance in
  let pending := pending_reserved instance reservation (slot_cleanup (i_network_slot instance)) in
  let resp := created instance (workspace_network <$> i_network_slot instance) in
  audit_emit EventType_WorkspaceCreated (Some (wc_workspace_id resp)) (created_payload resp) ;;;
  let? _ ← register_pending_firecracker (cr_teardown io) id pending;
  upsert_routes id (ingress_routes req instance) ;;;
  Ret (SupervisorResponse_WorkspaceCreated resp).
Definition launch_failed (io : CreateIo) (req : CreateWorkspaceRequest) (slot : option NetworkSlot) (e : LaunchError)
    : Task SupervisorResponse :=
  cleanup_network (cr_net io) (slot_cleanup slot) ;;;
  audit_emit EventType_CommandFailed (Some (cw_workspace_id req))
    [("op", Value_String "create_workspace"); ("error", Value_String (LaunchError_to_string quote e))] ;;;
  Ret (match e with
       | LaunchError_Image e => image_error_response quote e
       | other => error SupervisorErrorKind_LaunchFailed (LaunchError_to_string quote other)
       end).
Definition create_reserved (io : CreateIo) (req : CreateWorkspaceRequest) (reservation : WorkspaceCapacityReservation)
    : Task SupervisorResponse :=
  let refuse r := drop_entry (wr_entry_id reservation) ;;; Ret r in
  match resolve_pair (cr_kernel io) (cr_rootfs io) (cf_image_store cfg) (cw_kernel_sha256 req) (cw_rootfs_sha256 req) with
  | Err e => refuse (image_error_response quote e)
  | Ok images =>
      network ← provision_network (cr_net io) req;
      match network with
      | Err r => refuse r
      | Ok slot =>
          launched ← drive (Firecracker.launch quote (cr_launch io) (launch_config req images slot));
          match launched with
          | Ok instance => publish_launched io req instance slot reservation
          | Err e => r ← launch_failed io req slot e; refuse r
          end
      end
  end.
Definition create_cold (io : CreateIo) (req : CreateWorkspaceRequest) : Task SupervisorResponse :=
  if is_empty (cw_kernel_sha256 req) && is_empty (cw_rootfs_sha256 req)
  then Ret (error SupervisorErrorKind_InvalidImageDigest
         "standard cold creates require kernel and rootfs image digests")
  else if cw_vcpu_count req =? 0
  then Ret (error SupervisorErrorKind_InvalidRequest "standard creates require vcpu_count >= 1")
  else
    let? reservation ← reserve_workspace_capacity (cw_workspace_id req) (cw_vcpu_count req) (cw_mem_size_mib req);
    create_reserved io req reservation.
(** The checks before the lease. *)
Definition admission (req : CreateWorkspaceRequest) : result SupervisorResponse unit :=
  let both_empty := is_empty (cw_kernel_sha256 req) && is_empty (cw_rootfs_sha256 req) in
  let both_present := negb (is_empty (cw_kernel_sha256 req)) && negb (is_empty (cw_rootfs_sha256 req)) in
  if max_workspace_mem_mib <? cw_mem_size_mib req
  then Err (error SupervisorErrorKind_InvalidRequest
         ("mem_size_mib " +:+ show_uint (cw_mem_size_mib req) +:+ " exceeds max " +:+ show_uint max_workspace_mem_mib))
  else if negb both_empty && negb both_present
  then Err (error SupervisorErrorKind_InvalidImageDigest "kernel and rootfs image digests must be supplied together")
  else
    match ImageDigest_parse ImageKind_Kernel (cw_kernel_sha256 req),
          ImageDigest_parse ImageKind_Rootfs (cw_rootfs_sha256 req) with
    | Ok _, Ok _ => Ok tt
    | _, _ =>
        if both_present
        then Err (error SupervisorErrorKind_InvalidImageDigest
               "image digests must be 64 lowercase hexadecimal characters")
        else Ok tt
    end.
Definition create_inner (io : CreateIo) (req : CreateWorkspaceRequest) : Task SupervisorResponse :=
  match cf_execution_profile cfg with
  | ExecutionProfile_ConfidentialAzure =>
      with_boot_lease (cw_workspace_id req)
        (if confidential_cvm then create_confidential (cr_sandbox io) req
         else Ret (error SupervisorErrorKind_Unsupported
           ("confidential-azure requires Linux + the confidential-cvm feature; workspace "
            +:+ cw_workspace_id req +:+ " cannot be created on this build")))
  | _ =>
      match admission req with
      | Err r => Ret r
      | Ok _ =>
          with_boot_lease (cw_workspace_id req)
            match cw_tier req with
            | Some _ => create_from_pool io req
            | None => create_cold io req
            end
      end
  end.
Definition create (io : CreateIo) (req : CreateWorkspaceRequest) : Task SupervisorResponse :=
  run_tracked_lifecycle (create_inner io req).

(** ** Commands and files *)

Definition workspace_control (id : string) : Task (result SupervisorResponse WorkspaceControl) :=
  reads (fun w =>
    match w_instances w !! id with
    | Some (WorkspaceExec_Firecracker instance _) => Ok (WorkspaceControl_Firecracker (i_vsock_host_socket instance))
    | Some (WorkspaceExec_OpenShell s _) => Ok (WorkspaceControl_OpenShell (sb_ssh_addr s) (sb_handshake_secret s))
    | None => Err (not_found id)
    end).
(** How a call to the guest goes; [ci_ssh] is the outcome over SSH. *)
Record CallIo := { ca_env : GuestEnv; ca_call : Call; ca_ssh : result OpenShellError GuestResponse }.

Definition command_payload (req : RunCommandRequest) (rest : list (string * Value)) : list (string * Value) :=
  [("command", Value_String (rr_command req)); ("args", strings (rr_args req))] ++ rest.
Definition command_failed (req : RunCommandRequest) (rest : list (string * Value)) (kind : SupervisorErrorKind)
    (message : string) : Task (result SupervisorResponse GuestResponse) :=
  audit_emit EventType_CommandExecuted (Some (rr_workspace_id req)) (command_payload req rest) ;;;
  Ret (Err (error kind message)).
Definition run_command_over_control (io : CallIo) (req : RunCommandRequest) (control : WorkspaceControl)
    : Task (result SupervisorResponse GuestResponse) :=
  match control with
  | WorkspaceControl_Firecracker vsock_uds =>
      r ← drive (guest_call (ca_env io) (ca_call io)
            (GuestRequest_RunCommand
               {| rc_command := rr_command req; rc_args := rr_args req; rc_timeout_ms := rr_timeout_ms req |})
            (rr_timeout_ms req) vsock_uds);
      match r with
      | Ok resp => Ret (Ok resp)
      | Err (GuestRpcError_ConnectRejected line) =>
          let message := "vsock CONNECT rejected: " +:+ line in
          command_failed req [("error_kind", Value_String "guest_unreachable"); ("error", Value_String message)]
            SupervisorErrorKind_GuestUnreachable message
      | Err (GuestRpcError_Timeout ms) =>
          command_failed req
            [("error_kind", Value_String "timeout"); ("timeout_ms", Value_Number ms);
             ("timeout_origin", Value_String "host")]
            SupervisorErrorKind_Timeout ("vsock RPC exceeded " +:+ show_uint ms +:+ "ms")
      | Err e =>
          command_failed req [("error_kind", Value_String "guest_unreachable"); ("error", Value_String (t_rpc t e))]
            SupervisorErrorKind_GuestUnreachable (t_rpc t e)
      end
  | WorkspaceControl_OpenShell _ _ =>
      match ca_ssh io with
      | Ok resp => Ret (Ok resp)
      | Err e =>
          let '(kind, message) := openshell_control_error e in
          command_failed req
            [("error_kind", Value_String (control_error_code kind)); ("error", Value_String message)] kind message
      end
  end.
(** The origin of a timeout the guest reported. *)
Definition timeout_origin (kind : GuestErrorKind) : list (string * Value) :=
  match kind with GuestErrorKind_Timeout => [("timeout_origin", Value_String "guest")] | _ => [] end.
Definition command_kind (kind : GuestErrorKind) : SupervisorErrorKind :=
  match kind with
  | GuestErrorKind_Timeout => SupervisorErrorKind_Timeout
  | GuestErrorKind_InvalidRequest => SupervisorErrorKind_InvalidRequest
  | GuestErrorKind_CommandFailed => SupervisorErrorKind_LaunchFailed
  | _ => SupervisorErrorKind_Internal
  end.
Definition run_command (io : CallIo) (req : RunCommandRequest) : Task SupervisorResponse :=
  let ws := Some (rr_workspace_id req) in
  let? control ← workspace_control (rr_workspace_id req);
  let? guest_resp ← run_command_over_control io req control;
  match guest_resp with
  | GuestResponse_CommandCompleted c =>
      audit_emit EventType_CommandExecuted ws
        (command_payload req [("exit_code", Value_Number (GuestAgent.cc_exit_code c));
                              ("elapsed_ms", Value_Number (GuestAgent.cc_elapsed_ms c))]) ;;;
      Ret (SupervisorResponse_CommandCompleted
        {| cc_workspace_id := rr_workspace_id req; cc_stdout := GuestAgent.cc_stdout c;
           cc_stderr := GuestAgent.cc_stderr c; cc_exit_code := GuestAgent.cc_exit_code c;
           cc_elapsed_ms := GuestAgent.cc_elapsed_ms c; cc_truncated := GuestAgent.cc_truncated c |})
  | GuestResponse_Error kind message =>
      audit_emit EventType_CommandExecuted ws
        (command_payload req ([("error_kind", Value_String (guest_kind_name kind)); ("error", Value_String message)]
                              ++ timeout_origin kind)) ;;;
      Ret (error (command_kind kind) message)
  | other =>
      Ret (error SupervisorErrorKind_GuestProtocolError ("unexpected guest response: " +:+ t_response t other))
  end.

Definition firecracker_control_error (e : GuestRpcError) : SupervisorErrorKind * string :=
  match e with
  | GuestRpcError_Timeout ms => (SupervisorErrorKind_Timeout, "vsock RPC exceeded " +:+ show_uint ms +:+ "ms")
  | GuestRpcError_ConnectRejected m => (SupervisorErrorKind_GuestUnreachable, "vsock CONNECT rejected: " +:+ m)
  | other => (SupervisorErrorKind_GuestUnreachable, t_rpc t other)
  end.
(** [write_file_over_control] and [read_file_over_control]: the request for the agent, and
    the path, which the confidential profile checks on the host. *)
Definition file_over_control (io : CallIo) (control : WorkspaceControl) (request : GuestRequest) (path : string)
    : Task (result (SupervisorErrorKind * string) GuestResponse) :=
  match control with
  | WorkspaceControl_Firecracker vsock_uds =>
      r ← drive (guest_call (ca_env io) (ca_call io) request FILE_RPC_TIMEOUT_MS vsock_uds);
      Ret (map_err firecracker_control_error r)
  | WorkspaceControl_OpenShell _ _ =>
      Ret (_ ← map_err (fun m => (SupervisorErrorKind_PathRejected, m)) (confidential_workspace_path quote path);
           map_err openshell_control_error (ca_ssh io))
  end.
Definition file_failed (op : string) (ws path error_kind message : string) (more : list (string * Value)) : Task unit :=
  audit_emit EventType_FileOpFailed (Some ws)
    ([("op", Value_String op); ("path", Value_String path); ("error_kind", Value_String error_kind);
      ("error", Value_String message)] ++ more).
(** The reply of the guest, or the failure that was audited. *)
Definition file_call (op : string) (io : CallIo) (ws : string) (request : GuestRequest) (path : string)
    : Task (result SupervisorResponse GuestResponse) :=
  let! control ← workspace_control ws;
  r ← file_over_control io control request path;
  match r with
  | Ok (GuestResponse_Error kind message) =>
      file_failed op ws path (guest_kind_name kind) message (timeout_origin kind) ;;;
      Ret (Err (error (guest_kind_to_supervisor_kind kind) message))
  | Ok resp => Ret (Ok resp)
  | Err (kind, message) =>
      file_failed op ws path (control_error_code kind) message [] ;;;
      Ret (Err (error kind message))
  end.
Definition port_or_default (guest_port : Z) : Z := if guest_port =? 0 then 52 else guest_port.
Definition write_file (io : CallIo) (req : WriteFileRequest) : Task SupervisorResponse :=
  let ws := wr_workspace_id req in
  if MAX_INLINE_FILE_BYTES <? blen (wr_content req)
  then
    let message := "content length " +:+ show_uint (blen (wr_content req)) +:+ " exceeds inline cap of "
      +:+ show_uint MAX_INLINE_FILE_BYTES +:+ " bytes" in
    file_failed "write_file" ws (wr_path req) "file_too_large" message [] ;;;
    Ret (error SupervisorErrorKind_FileTooLarge message)
  else
    let? resp ← file_call "write_file" io ws
      (GuestRequest_WriteFile {| wf_path := wr_path req; wf_content := wr_content req |}) (wr_path req);
    match resp with
    | GuestResponse_FileWritten written =>
        audit_emit EventType_FileWritten (Some ws)
          [("path", Value_String (wr_path req));
           ("absolute_path", Value_String (GuestAgent.fw_absolute_path written));
           ("bytes_written", Value_Number (GuestAgent.fw_bytes_written written));
           ("guest_port", Value_Number (port_or_default (wr_guest_port req)))] ;;;
        Ret (SupervisorResponse_FileWritten
          {| fw_workspace_id := ws; fw_bytes_written := GuestAgent.fw_bytes_written written;
             fw_absolute_path := GuestAgent.fw_absolute_path written |})
    | other =>
        Ret (error SupervisorErrorKind_GuestProtocolError ("unexpected guest response: " +:+ t_response t other))
    end.
Definition read_file (io : CallIo) (req : ReadFileRequest) : Task SupervisorResponse :=
  let ws := rd_workspace_id req in
  let? resp ← file_call "read_file" io ws
    (GuestRequest_ReadFile {| rf_path := rd_path req; rf_max_bytes := rd_max_bytes req |}) (rd_path req);
  match resp with
  | GuestResponse_FileRead read =>
      audit_emit EventType_FileRead (Some ws)
        [("path", Value_String (rd_path req)); ("absolute_path", Value_String ("/workspace/" +:+ rd_path req));
         ("bytes_returned", Value_Number (blen (GuestAgent.fr_content read)));
         ("size_bytes", Value_Number (GuestAgent.fr_size_bytes read));
         ("truncated", Value_Bool (GuestAgent.fr_truncated read));
         ("guest_port", Value_Number (port_or_default (rd_guest_port req)))] ;;;
      Ret (SupervisorResponse_FileRead
        {| fr_workspace_id := ws; fr_content := GuestAgent.fr_content read;
           fr_size_bytes := GuestAgent.fr_size_bytes read; fr_truncated := GuestAgent.fr_truncated read |})
  | other =>
      Ret (error SupervisorErrorKind_GuestProtocolError ("unexpected guest response: " +:+ t_response t other))
  end.

(** ** Terminate *)

(** The end of a registered workspace: [None] when the exit of its process could not be
    confirmed, otherwise the network slot to reclaim. *)
Definition end_workspace (io : TeardownIo) (exec : WorkspaceExec) : Task (option (option NetworkSlot)) :=
  match exec with
  | WorkspaceExec_OpenShell sandbox guard =>
      sandbox_terminate (td_sandbox io) sandbox ;;; drop_permit ;;; drop_entry (rw_entry_id guard) ;;; Ret (Some None)
  | WorkspaceExec_Firecracker instance guard =>
      r ← drive (Firecracker.terminate quote (td_terminate io) instance);
      match r with
      | Ok _ => drop_entry (rw_entry_id guard) ;;; Ret (Some (i_network_slot instance))
      | Err _ => fail_closed ;;; forget (rw_entry_id guard) ;;; Ret None
      end
  end.
Definition reclaim_network (io : NetIo) (id : string) (slot : option NetworkSlot) : Task unit :=
  match slot_cleanup slot with
  | Some (controller, slot) =>
      outcome ← net_teardown io controller slot;
      audit_emit EventType_NetworkTeardown (Some id)
        [("netns", Value_String (ns_netns slot)); ("slot", Value_Number (ns_slot slot));
         ("forward_chain", Value_String (ns_forward_chain slot));
         ("dns_filter_pid", number_or_null (ns_dns_filter_pid slot));
         ("privacy_router_pid", number_or_null (ns_privacy_router_pid slot));
         ("reclaim_ok", Value_Bool match outcome with Ok _ => true | Err _ => false end);
         ("error", match outcome with Ok _ => Value_Null | Err e => Value_String (t_net t e) end)]
  | None => Ret tt
  end.
Definition terminate_inner (io : TeardownIo) (req : TerminateRequest) : Task SupervisorResponse :=
  let id := tr_workspace_id req in
  removed ← act (fun w => (w_instances w !! id, set_instances (delete id (w_instances w)) w));
  match removed with
  | None => Ret (not_found id)
  | Some exec =>
      ended ← end_workspace io exec;
      match ended with
      | None => Ret (error SupervisorErrorKind_Internal UNCONFIRMED_TERMINATION_MESSAGE)
      | Some slot =>
          reclaim_network (td_net io) id slot ;;;
          writes (fun w => set_routes (remove_workspace id (w_routes w)) w) ;;;
          writes (fun w => set_rings (delete id (w_rings w)) w) ;;;
          audit_emit EventType_WorkspaceTerminated (Some id)
            [("grace_period_ms", Value_Number (tr_grace_period_ms req))] ;;;
          Ret (SupervisorResponse_WorkspaceTerminated id)
      end
  end.
Definition terminate (io : TeardownIo) (req : TerminateRequest) : Task SupervisorResponse :=
  run_tracked_lifecycle (terminate_inner io req).

Definition pause_inner (r : WorkspaceRef) : SupervisorResponse :=
  error SupervisorErrorKind_Unsupported
    "in-place pause is deferred: the guest vsock control channel does not survive an in-place Firecracker resume. Use snapshot/restore instead.".
Definition pause (r : WorkspaceRef) : Task SupervisorResponse := run_tracked_lifecycle (Ret (pause_inner r)).
Definition resume_inner (r : WorkspaceRef) : SupervisorResponse :=
  error SupervisorErrorKind_Unsupported
    "in-place resume is deferred: the guest vsock control channel does not survive an in-place Firecracker resume. Use snapshot/restore instead.".
Definition resume (r : WorkspaceRef) : Task SupervisorResponse := run_tracked_lifecycle (Ret (resume_inner r)).

(** ** Snapshot *)

(** What a snapshot captures of the instance under the registry lock. *)
Record Captured := {
  sc_instance : Instance;
  sc_was_running : bool;
}.
(** The lookup, the checks and the mark, in one critical section. *)
Definition mark_snapshotting (req : SnapshotRequest) : Task (result SupervisorResponse Captured) :=
  let id := sr_workspace_id req in
  act (fun w =>
    match w_instances w !! id with
    | None => (Err (not_found id), w)
    | Some (WorkspaceExec_OpenShell _ _) =>
        (Err (error SupervisorErrorKind_Unsupported
           ("snapshot is unsupported on the confidential tier (workspace " +:+ id +:+ "); B v1")), w)
    | Some (WorkspaceExec_Firecracker instance guard) =>
        if bool_decide (i_lifecycle_state instance = WorkspaceState_Snapshotting)
        then (Err (error SupervisorErrorKind_SnapshotFailed ("snapshot already in progress for workspace " +:+ id)), w)
        else
          match snapshot_preflight (i_rootfs_read_only instance) (bool_decide (is_Some (i_network_slot instance))) with
          | Err reason => (Err (error SupervisorErrorKind_SnapshotFailed ("workspace " +:+ id +:+ ": " +:+ reason)), w)
          | Ok _ =>
              if sr_live req && negb (bool_decide (i_lifecycle_state instance = WorkspaceState_Running))
              then (Err (error SupervisorErrorKind_SnapshotFailed
                      ("live snapshot requires a running workspace; " +:+ id +:+ " is "
                       +:+ state_debug (i_lifecycle_state instance))), w)
              else
                match set_state guard WorkspaceState_Snapshotting (w_ledger w) with
                | (Err e, l) => (Err (capacity_error_response (t_capacity t e)), set_ledger l w)
                | (Ok _, l) =>
                    (Ok {| sc_instance := instance;
                           sc_was_running := bool_decide (i_lifecycle_state instance = WorkspaceState_Running) |},
                     set_instances
                       (<[id := WorkspaceExec_Firecracker (with_state WorkspaceState_Snapshotting instance) guard]>
                          (w_instances w))
                       (set_ledger l w))
                end
          end
    end).
(** [finalize_snapshot_state]: only the boot that was captured is touched; the resume runs
    inside the critical section. *)
Definition finalize_snapshot_state (resumed : ApiIo) (id boot_id : string) (action : SnapshotFinalize) : Task bool :=
  act (fun w =>
    match w_instances w !! id with
    | Some (WorkspaceExec_Firecracker instance guard) =>
        if negb (String.eqb (i_boot_id instance) boot_id) then (false, w)
        else
          let '(next_state, h) :=
            match action with
            | SnapshotFinalize_Set state => (state, w_host w)
            | SnapshotFinalize_ResumeInPlace =>
                let '(r, h) := run (resume_at resumed (i_api_socket_host instance)) (w_host w) in
                (match r with Ok _ => WorkspaceState_Running | Err _ => WorkspaceState_Paused end, h)
            end in
          let w := set_host h w in
          match set_state guard next_state (w_ledger w) with
          | (Err _, l) => (false, set_ledger l w)
          | (Ok _, l) =>
              (true, set_instances (<[id := WorkspaceExec_Firecracker (with_state next_state instance) guard]> (w_instances w))
                       (set_ledger l w))
          end
    | _ => (false, w)
    end).
Record SnapIo := {
  sn_pause : ApiIo; sn_create : SnapshotIo; sn_resume : ApiIo; sn_id : string; sn_mkdir : result string unit;
  sn_copy_mem : result string unit; sn_copy_vmstate : result string unit;
  sn_linked_mem : option (list Z); sn_linked_vmstate : option (list Z); sn_version : option (bool * list Z);
  sn_signer : result string SigningKey; sn_write : bool; sn_live_id : string; sn_boot : BootIo;
  sn_terminate_old : TerminateIo }.
Definition put_snapshot (id : string) (d : SnapshotDir) (h : Host) : Host :=
  set_snapshots (<[snapshot_dir id := d]> (h_snapshots h)) h.
Definition remove_snapshot (id : string) (h : Host) : Host :=
  set_snapshots (delete (snapshot_dir id) (h_snapshots h)) h.
Definition snapshot_failed (ws : string) (payload : list (string * Value)) (kind : SupervisorErrorKind) (message : string)
    : Task (result SupervisorResponse unit) :=
  audit_emit EventType_SnapshotFailed (Some ws) payload ;;; Ret (Err (error kind message)).
Definition why (message : string) : list (string * Value) := [("error", Value_String message)].
(** Step 2: pause a source that was running. *)
Definition pause_source (io : SnapIo) (c : Captured) : Task (result SupervisorResponse unit) :=
  let i := sc_instance c in
  if negb (sc_was_running c) then Ret (Ok tt)
  else
    r ← drive (pause_at (sn_pause io) (i_api_socket_host i));
    match r with
    | Ok _ => Ret (Ok tt)
    | Err e =>
        let message := "pre-snapshot pause failed: " +:+ LaunchError_to_string quote e in
        _ ← finalize_snapshot_state (sn_resume io) (i_workspace_id i) (i_boot_id i)
              (SnapshotFinalize_Set WorkspaceState_Running);
        snapshot_failed (i_workspace_id i) (why message) SupervisorErrorKind_SnapshotFailed message
    end.
(** Steps 3 and 4: dump, and resolve the state; whether the boot was still there. *)
Definition dump_source (io : SnapIo) (live : bool) (c : Captured) : Task (result SupervisorResponse bool) :=
  let i := sc_instance c in
  r ← drive (snapshot_create_at (sn_create io) (i_api_socket_host i) (i_jailer_chroot i));
  match r with
  | Err e =>
      let message := LaunchError_to_string quote e in
      _ ← finalize_snapshot_state (sn_resume io) (i_workspace_id i) (i_boot_id i)
            (if sc_was_running c then SnapshotFinalize_ResumeInPlace
             else SnapshotFinalize_Set WorkspaceState_Paused);
      let! _ ← snapshot_failed (i_workspace_id i) (why message) SupervisorErrorKind_SnapshotFailed message;
      Ret (Ok false)
  | Ok _ =>
      finalized ← finalize_snapshot_state (sn_resume io) (i_workspace_id i) (i_boot_id i)
        (if sc_was_running c && negb live then SnapshotFinalize_ResumeInPlace
         else SnapshotFinalize_Set WorkspaceState_Paused);
      Ret (Ok finalized)
  end.
(** Opening a file of the chroot follows a symbolic link that its owner put there; [linked] is
    what such a link leads to on the host. *)
Definition read_following (linked : option (list Z)) (file : path) (fs : Fs) : option (list Z) :=
  match lstat fs file with Ok (Node_symlink _ _) => linked | _ => read_path file fs end.
(** Copying one dump file out of the chroot. *)
Definition copy_out (io : result string unit) (linked : option (list Z)) (chroot file : path)
    (put : list Z -> SnapshotDir -> SnapshotDir) (id : string) : Prog Host (result string unit) :=
  act (fun h =>
    match io, (fs ← h_trees h !! root_of chroot; read_following linked file fs) with
    | Err e, _ => (Err e, h)
    | Ok _, None => (Err "No such file or directory", h)
    | Ok _, Some content => (Ok tt, put_snapshot id (put content (default no_files (h_snapshots h !! snapshot_dir id))) h)
    end).
Definition put_mem (content : list Z) (d : SnapshotDir) : SnapshotDir :=
  {| mem_file := Some content; vmstate_file := vmstate_file d; manifest_file := manifest_file d |}.
Definition put_vmstate (content : list Z) (d : SnapshotDir) : SnapshotDir :=
  {| mem_file := mem_file d; vmstate_file := Some content; manifest_file := manifest_file d |}.
(** Steps 5 and 6. *)
Definition copy_artifact (io : SnapIo) (i : Instance) : Task (result SupervisorResponse unit) :=
  let ws := i_workspace_id i in
  match sn_mkdir io with
  | Err e => snapshot_failed ws (why e) SupervisorErrorKind_Internal ("snapshot dir create failed: " +:+ e)
  | Ok _ =>
      drive (writes (fun h => put_snapshot (sn_id io) (read_snapshot_dir (sn_id io) h) h)) ;;;
      r ← (let! _ ← drive (copy_out (sn_copy_mem io) (sn_linked_mem io) (i_jailer_chroot i) mem_in_chroot put_mem (sn_id io));
           drive (copy_out (sn_copy_vmstate io) (sn_linked_vmstate io) (i_jailer_chroot i) vmstate_in_chroot put_vmstate (sn_id io)));
      match r with
      | Ok _ => Ret (Ok tt)
      | Err e =>
          drive (writes (remove_snapshot (sn_id io))) ;;;
          snapshot_failed ws (why e) SupervisorErrorKind_Internal ("artifact copy failed: " +:+ e)
      end
  end.
Definition identity_of (i : Instance) : GuestIdentity :=
  {| hostname := i_workspace_id i; mac := "unset"; guest_vsock_cid := i_guest_vsock_cid i;
     gi_vcpu_count := i_vcpu_count i; gi_mem_size_mib := i_mem_size_mib i |}.
(** Step 7: the signed manifest. *)
Definition sign_artifact (io : SnapIo) (i : Instance) : Task (result SupervisorResponse Snapshot.SnapshotInfo) :=
  let ws := i_workspace_id i in
  let drop_dir (kind : SupervisorErrorKind) (reason message : string) :=
    drive (writes (remove_snapshot (sn_id io))) ;;;
    let! _ ← snapshot_failed ws (why reason) kind message;
    Ret (Err (error kind message)) in
  match sn_signer io with
  | Err e => drop_dir SupervisorErrorKind_Internal e ("signing key load failed: " +:+ e)
  | Ok signer =>
      r ← drive (act (fun h =>
        match write_manifest (read_snapshot_dir (sn_id io) h) signer (sn_id io) ws (Firecracker.firecracker_version (sn_version io))
                (i_kernel_sha256 i) (i_rootfs_sha256 i) (identity_of i) (i_kernel_boot_args i) (sn_write io) with
        | Ok (info, dir) => (Ok info, put_snapshot (sn_id io) dir h)
        | Err e => (Err e, h)
        end));
      match r with
      | Ok info => Ret (Ok info)
      | Err e => drop_dir SupervisorErrorKind_SnapshotFailed (t_snapshot t e) (t_snapshot t e)
      end
  end.
(** The splice of [live_hot_swap]: the old instance, or why not. *)
Definition swap_instance (id boot_id : string) (fresh : Instance) : Task (result (SupervisorErrorKind * string) Instance) :=
  act (fun w =>
    let gone := (SupervisorErrorKind_WorkspaceNotFound,
      "source " +:+ id +:+ " was terminated (or replaced by a new boot) during live snapshot; restored instance discarded") in
    match w_instances w !! id with
    | Some (WorkspaceExec_Firecracker old guard) =>
        if negb (String.eqb (i_boot_id old) boot_id) then (Err gone, w)
        else
          match set_state guard WorkspaceState_Running (w_ledger w) with
          | (Err e, l) =>
              (Err (SupervisorErrorKind_Internal, "live restore capacity transition failed: " +:+ t_capacity t e), set_ledger l w)
          | (Ok _, l) =>
              (Ok old, set_instances (<[id := WorkspaceExec_Firecracker (with_id id fresh) guard]> (w_instances w)) (set_ledger l w))
          end
    | _ => (Err gone, w)
    end).
Definition live_hot_swap (io : SnapIo) (id boot_id snapshot_id : string) : Task (result (SupervisorErrorKind * string) Z) :=
  let boot := sn_boot io in
  booted ← boot_from_snapshot boot snapshot_id ("live-" +:+ sn_live_id io);
  match booted with
  | Err r => Ret (Err (kind_and_message "unexpected boot response" r))
  | Ok (instance, _) =>
      ready ← drive (wait_ready (bi_env boot) (bi_ready boot) 10000 (i_vsock_host_socket instance));
      match ready with
      | Err e =>
          discard (bi_terminate boot) instance SupervisorErrorKind_RestoreFailed
            ("live restore guest not ready: " +:+ t_rpc t e)
      | Ok _ =>
          swapped ← swap_instance id boot_id instance;
          match swapped with
          | Err (kind, message) => discard (bi_terminate boot) instance kind message
          | Ok old =>
              r ← terminate_unregistered_or_fault (sn_terminate_old io) old;
              match r with
              | Err _ => Ret (Err (SupervisorErrorKind_Internal, UNCONFIRMED_TERMINATION_MESSAGE))
              | Ok _ => Ret (Ok (i_firecracker_pid instance))
              end
          end
      end
  end.
Definition swap_live (io : SnapIo) (i : Instance) (finalized : bool) : Task (result SupervisorResponse (option Z)) :=
  let ws := i_workspace_id i in
  r ← (if finalized then live_hot_swap io ws (i_boot_id i) (sn_id io)
       else Ret (Err (SupervisorErrorKind_WorkspaceNotFound,
              "source " +:+ ws +:+ " was terminated during live snapshot; hot-swap skipped")));
  match r with
  | Ok new_pid => Ret (Ok (Some new_pid))
  | Err (kind, message) =>
      let! _ ← snapshot_failed ws
        [("snapshot_id", Value_String (sn_id io)); ("phase", Value_String "live_hot_swap"); ("error", Value_String message);
         ("note", Value_String "snapshot artifact created; source left paused")] kind
        ("snapshot " +:+ sn_id io +:+ " created but live resume failed: " +:+ message +:+ "; source " +:+ ws +:+ " left paused");
      Ret (Ok None)
  end.
Definition snapshot_claimed (io : SnapIo) (req : SnapshotRequest) : Task SupervisorResponse :=
  let? c ← mark_snapshotting req;
  let i := sc_instance c in
  let? _ ← pause_source io c;
  let? finalized ← dump_source io (sr_live req) c;
  let? _ ← copy_artifact io i;
  let? info ← sign_artifact io i;
  let? new_pid ← (if sr_live req then swap_live io i finalized else Ret (Ok None));
  audit_emit EventType_SnapshotCreated (Some (i_workspace_id i))
    [("snapshot_id", Value_String (sn_id io)); ("mem_sha256", Value_String (info_mem_sha256 info));
     ("vmstate_sha256", Value_String (info_vmstate_sha256 info)); ("size_bytes", Value_Number (size_bytes info));
     ("source", Value_String (i_workspace_id i)); ("live", Value_Bool (sr_live req));
     ("new_firecracker_pid", number_or_null new_pid)] ;;;
  Ret (SupervisorResponse_SnapshotCreated
    {| sn_snapshot_id := info_snapshot_id info; sn_created_from_workspace_id := info_created_from info;
       sn_mem_sha256 := info_mem_sha256 info; sn_vmstate_sha256 := info_vmstate_sha256 info;
       sn_size_bytes := size_bytes info; sn_firecracker_pid := new_pid |}).
Definition snapshot_inner (io : SnapIo) (req : SnapshotRequest) : Task SupervisorResponse :=
  let id := sr_workspace_id req in
  claimed ← claim_lifecycle id;
  if negb claimed
  then Ret (error SupervisorErrorKind_SnapshotFailed ("another lifecycle operation is in progress for workspace " +:+ id))
  else r ← snapshot_claimed io req; drop_lease id ;;; Ret r.
Definition snapshot (io : SnapIo) (req : SnapshotRequest) : Task SupervisorResponse :=
  run_tracked_lifecycle (snapshot_inner io req).

(** ** The warm pool *)

Definition provision_pool_member (io : BootIo) (ulid : string) : Task (result (SupervisorErrorKind * string) Instance) :=
  match cf_warm_pool cfg with
  | None => Ret (Err (SupervisorErrorKind_Internal, "no warm pool configured"))
  | Some pool =>
      let snapshot_id := base_snapshot_id pool in
      let provisional_id := "pool-" +:+ ulid in
      let! (instance, machine_id) ← boot_ready_reset io snapshot_id provisional_id provisional_id;
      audit_emit EventType_PoolMemberProvisioned (Some provisional_id)
        [("provisional_id", Value_String provisional_id); ("source_snapshot_id", Value_String snapshot_id);
         ("machine_id", Value_String machine_id); ("firecracker_pid", Value_Number (i_firecracker_pid instance))] ;;;
      Ret (Ok instance)
  end.
Definition pool_resource_dimensions (snapshot_id : string) (h : Host) : result string (Z * Z) :=
  if negb (is_valid_workspace_id snapshot_id) then Err "invalid base snapshot identifier"
  else
    manifest ← map_err (fun _ => "base snapshot manifest could not be read") (read_manifest (read_snapshot_dir snapshot_id h));
    _ ← map_err (fun _ => "base snapshot manifest signature is invalid")
          (verify_manifest_signature_pinned manifest (verifying_key audit_key));
    if max_workspace_mem_mib <? gi_mem_size_mib (guest_identity manifest)
    then Err "base snapshot memory exceeds configured workspace limit"
    else map_err (fun _ => "base snapshot resource dimensions overflow")
           (capacity_dimensions (gi_vcpu_count (guest_identity manifest)) (gi_mem_size_mib (guest_identity manifest))).
(** The drop of a permit: its in-flight slot, then its reservation. *)
Definition drop_pool_permit (permit : ProvisionPermit) : Task unit :=
  writes (fun w =>
    match w_pool w with
    | Some p => let '(p', l) := Pool.permit_drop permit p (w_ledger w) in set_pool (Some p') (set_ledger l w)
    | None => w
    end).
(** A task per permit, when the tracker still accepts work. *)
Fixpoint spawn_provisions (permits : list ProvisionPermit) : Task unit :=
  match permits with
  | [] => Ret tt
  | permit :: rest =>
      r ← begin_task false;
      match r with
      | Ok _ => writes (fun w => set_jobs (Job_provision permit :: w_jobs w) w)
      | Err _ => drop_pool_permit permit
      end ;;;
      spawn_provisions rest
  end.
(** One step: the members lock is held from the deficit to the admission. *)
Definition reserve_pool (cpu_millicores memory_bytes : Z) : Task (result CapacityError (list ProvisionPermit)) :=
  act (fun w =>
    match w_pool w with
    | Some p =>
        let '(r, p', l) := reserve_provisions cpu_millicores memory_bytes p (w_ledger w) in
        (r, set_pool (Some p') (set_ledger l w))
    | None => (Ok [], w)
    end).
Definition refill_pool (snapshot_id : string) : Task unit :=
  dims ← reads (fun w => pool_resource_dimensions snapshot_id (w_host w));
  match dims with
  | Err reason =>
      audit_emit EventType_CommandFailed None [("op", Value_String "pool_preflight"); ("reason", Value_String reason)]
  | Ok (cpu_millicores, memory_bytes) =>
      r ← reserve_pool cpu_millicores memory_bytes;
      match r with
      | Err _ => Ret tt
      | Ok permits => spawn_provisions permits
      end
  end.
(** The task [refill_once] spawns. *)
Definition refill_once : Task unit :=
  match cf_warm_pool cfg with
  | None => Ret tt
  | Some pool =>
      r ← begin_task false;
      match r with
      | Ok _ => refill_pool (base_snapshot_id pool) ;;; end_task
      | Err _ => Ret tt
      end
  end.
(** [RejectedPoolProvision::teardown] of a machine whose provision was refused. *)
Definition teardown_rejected (io : TerminateIo) (instance : Instance) (permit : ProvisionPermit) : Task unit :=
  r ← drive (Firecracker.terminate quote io instance);
  match r with
  | Ok _ => drop_pool_permit permit
  | Err _ =>
      on_ledger (fun l => (tt, permit_fail_closed permit l)) ;;;
      forget (c ← permit_capacity permit; pr_entry_id c)
  end.
Record ProvisionIo := { pv_ulid : string; pv_boot : BootIo; pv_terminate : TerminateIo }.
(** The task that serves a permit. *)
Definition provision_job (io : ProvisionIo) (permit : ProvisionPermit) : Task unit :=
  r ← provision_pool_member (pv_boot io) (pv_ulid io);
  match r with
  | Ok member =>
      c ← on_ledger (complete_ready member permit);
      match c with
      | Ok (m, permit') =>
          writes (fun w => match w_pool w with Some p => set_pool (Some (push_back m p)) w | None => w end) ;;;
          drop_pool_permit permit'
      | Err rejected => teardown_rejected (pv_terminate io) member permit
      end
  | Err (kind, message) =>
      audit_emit EventType_CommandFailed None
        [("op", Value_String "pool_provision"); ("error_kind", Value_String (kind_debug kind));
         ("error", Value_String message)] ;;;
      drop_pool_permit permit
  end ;;;
  end_task.
(** [spawn_refill]: a turn per wake-up, by a kick ([true]) or by the interval. *)
Fixpoint refill_turns (wakeups : list bool) : Task unit :=
  match wakeups with
  | [] => Ret tt
  | kicked :: rest =>
      closed ← reads (fun w => Tasks.is_closed (w_tasks w));
      if closed : bool then Ret tt
      else
        refill_once ;;;
        writes (fun w => if kicked then set_kicks (Z.max 0 (w_kicks w - 1)) w else w) ;;;
        refill_turns rest
  end.
Definition spawn_refill (wakeups : list bool) : Task unit :=
  match cf_warm_pool cfg with
  | None => Ret tt
  | Some _ =>
      r ← begin_task false;
      match r with
      | Ok _ => refill_turns wakeups ;;; end_task
      | Err _ => Ret tt
      end
  end.
Definition pool_status : Task SupervisorResponse :=
  reads (fun w =>
    SupervisorResponse_PoolStatus
      match w_pool w with
      | Some p =>
          let '(available, in_flight) := counts p in
          {| ps_configured := true; ps_tier := Some (tier_name (Pool.cfg p));
             ps_target_size := Z.min (target_size (Pool.cfg p)) U32_MAX;
             ps_available := Z.min available U32_MAX; ps_in_flight := Z.min in_flight U32_MAX |}
      | None => {| ps_configured := false; ps_tier := None; ps_target_size := 0; ps_available := 0; ps_in_flight := 0 |}
      end).
Fixpoint teardown_members (ios : nat -> TerminateIo) (ms : list PoolMember) : Task unit :=
  match ms with
  | [] => Ret tt
  | m :: rest => teardown_member (ios (length rest)) m ;;; teardown_members ios rest
  end.
Definition shutdown_pool (ios : nat -> TerminateIo) : Task unit :=
  ms ← act (fun w =>
    match w_pool w with
    | Some p => let '(ms, p') := drain p in (ms, set_pool (Some p') w)
    | None => ([], w)
    end);
  teardown_members ios ms.
Definition close_lifecycle : Task unit :=
  writes (fun w => set_tasks (Tasks.close (w_tasks w)) w) ;;; kick_refill.
(** [LifecycleTasks::wait], observed at most [polls] times; [false] while work remains. *)
Fixpoint wait_idle (polls : nat) : Task bool :=
  match polls with
  | O => Ret false
  | S polls =>
      idle ← reads (fun w => Tasks.active (w_tasks w) =? 0);
      if idle : bool then Ret true else wait_idle polls
  end.
Definition shutdown_lifecycle (polls : nat) (ios : nat -> TerminateIo) : Task bool :=
  close_lifecycle ;;;
  idle ← wait_idle polls;
  if idle : bool then shutdown_pool ios ;;; Ret true else Ret false.

(** ** Restore and fork *)

Record RestoreReqIo := { rq_boot : BootIo; rq_teardown : TeardownIo }.
Definition restore_claimed (io : RestoreReqIo) (req : RestoreRequest) : Task SupervisorResponse :=
  let id := rs_new_workspace_id req in
  prepared ← prepare_snapshot_restore (rq_boot io) (rs_snapshot_id req) id;
  match prepared with
  | Err r =>
      audit_failure id [("op", Value_String "restore"); ("snapshot_id", Value_String (rs_snapshot_id req))] r ;;; Ret r
  | Ok prepared =>
      let g := guest_identity (ps_manifest prepared) in
      let? (instance, reservation) ← boot_with_reserved_capacity id (gi_vcpu_count g) (gi_mem_size_mib g)
        (boot_prepared_snapshot (rq_boot io) prepared);
      let resp := created instance None in
      let? _ ← register_pending_firecracker (rq_teardown io) id (pending_reserved instance reservation None);
      audit_emit EventType_WorkspaceRestored (Some id)
        [("snapshot_id", Value_String (rs_snapshot_id req)); ("new_workspace_id", Value_String id);
         ("firecracker_pid", Value_Number (wc_firecracker_pid resp))] ;;;
      Ret (SupervisorResponse_WorkspaceRestored resp)
  end.
Definition restore_inner (io : RestoreReqIo) (req : RestoreRequest) : Task SupervisorResponse :=
  with_boot_lease (rs_new_workspace_id req) (restore_claimed io req).
Definition restore (io : RestoreReqIo) (req : RestoreRequest) : Task SupervisorResponse :=
  run_tracked_lifecycle (restore_inner io req).

Definition fork_info (i : Instance) (snapshot_id hostname machine_id : string) : ForkInfo :=
  {| fi_workspace_id := i_workspace_id i; fi_firecracker_pid := i_firecracker_pid i;
     fi_vsock_host_socket := show_path (i_vsock_host_socket i); fi_jailer_chroot := show_path (i_jailer_chroot i);
     fi_source_snapshot_id := snapshot_id; fi_hostname := hostname; fi_machine_id := machine_id;
     fi_guest_vsock_cid := i_guest_vsock_cid i |}.
Definition fork_claimed (io : RestoreReqIo) (req : ForkRequest) : Task SupervisorResponse :=
  let id := fk_new_workspace_id req in
  let hostname := default id (fk_hostname req) in
  let op := [("op", Value_String "fork"); ("snapshot_id", Value_String (fk_snapshot_id req))] in
  prepared ← prepare_snapshot_restore (rq_boot io) (fk_snapshot_id req) id;
  match prepared with
  | Err r =>
      audit_failure id op r ;;;
      let '(kind, message) := kind_and_message "unexpected snapshot preparation response" r in Ret (error kind message)
  | Ok prepared =>
      let g := guest_identity (ps_manifest prepared) in
      booted ← boot_with_reserved_capacity id (gi_vcpu_count g) (gi_mem_size_mib g)
        (boot_fork (rq_boot io) prepared hostname);
      match booted with
      | Err r => audit_failure id op r ;;; Ret r
      | Ok ((instance, machine_id), reservation) =>
          let info := fork_info instance (fk_snapshot_id req) hostname machine_id in
          let? _ ← register_pending_firecracker (rq_teardown io) id (pending_reserved instance reservation None);
          audit_emit EventType_WorkspaceForked (Some id)
            [("source_snapshot_id", Value_String (fk_snapshot_id req)); ("new_workspace_id", Value_String id);
             ("hostname", Value_String hostname); ("machine_id", Value_String machine_id);
             ("firecracker_pid", Value_Number (fi_firecracker_pid info))] ;;;
          Ret (SupervisorResponse_WorkspaceForked info)
      end
  end.
Definition fork_inner (io : RestoreReqIo) (req : ForkRequest) : Task SupervisorResponse :=
  with_boot_lease (fk_new_workspace_id req) (fork_claimed io req).
Definition fork (io : RestoreReqIo) (req : ForkRequest) : Task SupervisorResponse :=
  run_tracked_lifecycle (fork_inner io req).

(** ** Ingress *)

Definition route_call (f : M (gmap string WorkspaceRoutes) RegistryError unit) : Task (result RegistryError unit) :=
  act (fun w => let '(r, g) := f (w_routes w) in (r, set_routes g w)).
Definition is_networked (exec : WorkspaceExec) : bool :=
  match exec with
  | WorkspaceExec_Firecracker instance _ => bool_decide (is_Some (i_network_slot instance))
  | WorkspaceExec_OpenShell _ _ => false
  end.
(** The route of a networked workspace. *)
Definition expose_route (id : string) (port : ExposedPort) : Task SupervisorResponse :=
  r ← route_call (Ingress.expose_port id
        {| pr_port := ep_port port; pr_inject_headers := (fun h => (hi_name h, hi_value h)) <$> ep_inject_headers port |});
  match r with
  | Ok _ =>
      audit_emit EventType_IngressPortExposed (Some id)
        [("port", Value_Number (ep_port port)); ("header_names", strings (hi_name <$> ep_inject_headers port))] ;;;
      Ret (SupervisorResponse_PortExposed id (ep_port port))
  | Err _ =>
      Ret (error SupervisorErrorKind_WorkspaceNotFound ("workspace " +:+ id +:+ " not registered for ingress"))
  end.
Definition expose_port_inner (req : ExposePortRequest) : Task SupervisorResponse :=
  let id := xp_workspace_id req in
  found ← reads (fun w => w_instances w !! id);
  match is_networked <$> found with
  | None => Ret (not_found id)
  | Some true => expose_route id (xp_port req)
  | Some false =>
      Ret (error SupervisorErrorKind_WorkspaceNotNetworked
        ("workspace " +:+ id +:+ " has no network; cannot expose ports"))
  end.
Definition expose_port (req : ExposePortRequest) : Task SupervisorResponse :=
  run_tracked_lifecycle (expose_port_inner req).
Definition unexpose_port_inner (req : UnexposePortRequest) : Task SupervisorResponse :=
  let id := up_workspace_id req in
  r ← route_call (Ingress.unexpose_port id (up_port req));
  match r with
  | Ok _ =>
      audit_emit EventType_IngressPortUnexposed (Some id) [("port", Value_Number (up_port req))] ;;;
      Ret (SupervisorResponse_PortUnexposed id (up_port req))
  | Err RegistryError_PortNotFound =>
      Ret (error SupervisorErrorKind_IngressPortNotFound
        ("port " +:+ show_uint (up_port req) +:+ " not exposed on " +:+ id))
  | Err _ => Ret (not_found id)
  end.
Definition unexpose_port (req : UnexposePortRequest) : Task SupervisorResponse :=
  run_tracked_lifecycle (unexpose_port_inner req).

(** ** Attestation *)

(** The members of [serde_json::json!] are serialised in key order. *)
Definition configuration_measurement (vcpu_count mem_size_mib : Z) (kernel_boot_args : string) (networked : bool)
    (kernel_sha256 rootfs_sha256 : string) : list Z :=
  sha256 (default []
    (to_vec [("kernel_boot_args", Field_string kernel_boot_args); ("kernel_sha256", Field_string kernel_sha256);
             ("mem_size_mib", Field_number mem_size_mib); ("networked", Field_value (Value_Bool networked));
             ("rootfs_sha256", Field_string rootfs_sha256); ("vcpu_count", Field_number vcpu_count)])).
Definition measure_config (i : Instance) : list Z :=
  configuration_measurement (i_vcpu_count i) (i_mem_size_mib i) (i_kernel_boot_args i)
    (bool_decide (is_Some (i_network_slot i))) (i_kernel_sha256 i) (i_rootfs_sha256 i).
Definition exec_measurement (exec : WorkspaceExec) : list Z :=
  match exec with
  | WorkspaceExec_Firecracker instance _ => measure_config instance
  | WorkspaceExec_OpenShell _ _ => replicate 32 0
  end.
(** [now] is the clock in seconds, at most [i64::MAX]. *)
Definition get_attestation_evidence (now : Z) (req : GetAttestationEvidenceRequest) : Task SupervisorResponse :=
  let id := ga_workspace_id req in
  let failed (reason : string) := audit_emit EventType_AttestationFailed (Some id) [("reason", Value_String reason)] in
  match Nonce_new (ga_nonce req) with
  | None =>
      failed "malformed_nonce" ;;; Ret (error SupervisorErrorKind_InvalidRequest "nonce must be 16..=64 bytes")
  | Some nonce =>
      found ← reads (fun w => w_instances w !! id);
      match exec_measurement <$> found with
      | None => failed "workspace_not_found" ;;; Ret (not_found id)
      | Some measurement =>
          let nonce_hash := sha256 nonce in
          is_replay ← act (fun w =>
            let '(replay, ring) := Nonces.record nonce_hash (default Nonces.empty_ring (w_rings w !! id)) in
            (replay, set_rings (<[id := ring]> (w_rings w)) w));
          if is_replay : bool then
            audit_emit EventType_AttestationReplayed (Some id) [("nonce_sha256", Value_String (hex_encode nonce_hash))] ;;;
            Ret (error SupervisorErrorKind_AttestationReplay "nonce already used for this workspace")
          else
            match generate {| req_workspace_id := id; req_measurement := measurement; req_nonce := nonce |}
                    (Z.min now I64_MAX) with
            | Ok evidence =>
                audit_emit EventType_AttestationEvidenceIssued (Some id)
                  [("provider_type", Value_String (ProviderType_to_string (provider_type evidence)));
                   ("measurement_sha256", Value_String (hex_encode measurement));
                   ("nonce_sha256", Value_String (hex_encode nonce_hash))] ;;;
                Ret (SupervisorResponse_AttestationEvidenceIssued evidence)
            | Err e =>
                failed "generate_failed" ;;;
                Ret (error SupervisorErrorKind_Internal ("attestation generation failed: " +:+ t_attestation t e))
            end
      end
  end.
Definition capacity_snapshot : Task SupervisorResponse :=
  r ← on_ledger (Capacity.snapshot (cf_execution_profile cfg));
  Ret match r with
      | Ok capacity => SupervisorResponse_CapacitySnapshot capacity
      | Err e => error SupervisorErrorKind_Internal ("capacity snapshot failed: " +:+ t_capacity t e)
      end.

(** [WorkspaceManager::new]. *)
Definition manager_new (h : Host) (n : NetState) (max_workspaces : Z) : result string World :=
  ceiling ← validate_workspace_ceiling max_workspaces;
  Ok {| w_host := h; w_ledger := CapacityLedger_new ceiling; w_forgotten := []; w_tasks := Tasks.new; w_claims := ∅;
        w_instances := ∅; w_pool := WarmPool_new <$> cf_warm_pool cfg; w_kicks := 0; w_routes := ∅; w_rings := ∅;
        w_net := n; w_permits := 1; w_sandboxes := []; w_strays := []; w_audit := []; w_jobs := [] |}.
End Manager.
