(* ===== verification/Command.v ===== *)
(** * The request dispatcher ([crates/ne-supervisor/src/command.rs])

    The only path from the public API to a privileged operation: the gate on the
    execution profile, then one handler of the manager per request.  [ListEvents]
    reads the audit log: the log as it was opened, with the events reported since
    then by the manager, the network relays and the ingress edge. *)

From S2P Require Import Prelude Text Profile Fleet Capacity Ownership Lifecycle Json Crypto AuditChain.
From S2P Require Import Snapshot Ingress Network Bytes GuestFiles Wire GuestAgent Attestation Image.
From S2P Require Import Firecracker Pool Protocol PublicEvidence Prog Manager.

(** [#[derive(Debug)]] of the operation. *)
Definition operation_debug (o : WorkspaceOperation) : string :=
  match o with
  | WorkspaceOperation_Create => "Create"
  | WorkspaceOperation_Destroy => "Destroy"
  | WorkspaceOperation_Execute => "Execute"
  | WorkspaceOperation_WriteFile => "WriteFile"
  | WorkspaceOperation_ReadFile => "ReadFile"
  | WorkspaceOperation_Pause => "Pause"
  | WorkspaceOperation_Resume => "Resume"
  | WorkspaceOperation_Snapshot => "Snapshot"
  | WorkspaceOperation_Restore => "Restore"
  | WorkspaceOperation_Fork => "Fork"
  | WorkspaceOperation_WarmPool => "WarmPool"
  | WorkspaceOperation_Ingress => "Ingress"
  | WorkspaceOperation_Attest => "Attest"
  end.
Definition AuditError_to_string (io serde key : string) (e : AuditError) : string :=
  match e with
  | AuditError_Io => "io: " +:+ io
  | AuditError_Serde => "serde: " +:+ serde
  | AuditError_Key => "key: " +:+ key
  | AuditError_Time => "system time before unix epoch"
  end.

(** How the clock, the id generator and the disk treat an event. *)
Record Stamp := { st_now : option Z; st_id : string; st_io : IoOutcome }.
(** The audit log of a run: as it was opened at the start, and the stamp of the n-th event. *)
Record AuditRun `{C : Crypto} := { ar_opened : AuditLog; ar_stamp : nat -> Stamp }.
Section Dispatcher.
Context {H : Hypervisor} {C : Crypto} {V : JsonVec unit} {VJ : JsonVec Value} {MJ : ManifestJson} {AJ : AuditJson Value}.
Context {K : Codec GuestRequest GuestResponse}.
Context (cfg : WorkspaceManagerConfig) (max_workspace_mem_mib : Z) (confidential_cvm : bool).
Context (audit_key : SigningKey) (generate : EvidenceRequest -> Z -> result AttestationError Evidence).
Context (t : Texts) (version : string) (stamps : AuditRun).
Local Abbreviation Task := (Prog World).

(** What a request meets on its way, whichever handler it reaches. *)
Record DispatchIo := {
  d_uptime_ms : Z; d_now : Z; d_create : CreateIo; d_teardown : TeardownIo; d_call : CallIo; d_snapshot : SnapIo;
  d_restore : RestoreReqIo; d_audit_error : string }.

(** The audit log after these events were handed to it, newest first, by whichever part of the
    supervisor. *)
Fixpoint log_after (calls : list AuditCall) : AuditLog :=
  match calls with
  | [] => ar_opened stamps
  | c :: earlier =>
      let st := ar_stamp stamps (length earlier) in
      snd (emit (st_now st) (st_id st) (st_io st) (au_type c) (au_workspace c) (au_payload c)
             (log_after earlier))
  end.
Definition list_log (error_text : string) (req : ListEventsRequest) : Task SupervisorResponse :=
  reads (fun w =>
    match list_events req (log_file (log_after (w_audit w))) with
    | Ok events => SupervisorResponse_Events events
    | Err e =>
        error SupervisorErrorKind_Internal
          ("audit list failed: " +:+ AuditError_to_string error_text error_text error_text e)
    end).
(** The refusal of an operation the profile does not advertise. *)
Definition refusal (req : SupervisorRequest) : option SupervisorResponse :=
  operation ← workspace_operation req;
  if supports (cf_execution_profile cfg) operation then None
  else Some (error SupervisorErrorKind_UnsupportedForProfile
    ("operation " +:+ operation_debug operation +:+ " is not supported by execution profile "
     +:+ profile_to_string (cf_execution_profile cfg))).
Definition handle (io : DispatchIo) (req : SupervisorRequest) : Task SupervisorResponse :=
  match req with
  | SupervisorRequest_Ping => Ret (SupervisorResponse_Pong version (Z.min (d_uptime_ms io) U64_MAX))
  | SupervisorRequest_GetCapabilities =>
      Ret (SupervisorResponse_Capabilities
        (capabilities (cf_execution_profile cfg) version PUBLIC_EVIDENCE_SCHEMA_VERSION))
  | SupervisorRequest_CreateWorkspace r =>
      create cfg max_workspace_mem_mib confidential_cvm audit_key t (d_create io) r
  | SupervisorRequest_Terminate r => terminate cfg t (d_teardown io) r
  | SupervisorRequest_RunCommand r => run_command t (d_call io) r
  | SupervisorRequest_WriteFile r => write_file t (d_call io) r
  | SupervisorRequest_ReadFile r => read_file t (d_call io) r
  | SupervisorRequest_ListEvents r => list_log (d_audit_error io) r
  | SupervisorRequest_PauseWorkspace r => pause r
  | SupervisorRequest_ResumeWorkspace r => resume r
  | SupervisorRequest_SnapshotWorkspace r => snapshot cfg max_workspace_mem_mib audit_key t (d_snapshot io) r
  | SupervisorRequest_RestoreWorkspace r => restore cfg max_workspace_mem_mib audit_key t (d_restore io) r
  | SupervisorRequest_ForkWorkspace r => fork cfg max_workspace_mem_mib audit_key t (d_restore io) r
  | SupervisorRequest_PoolStatus => pool_status
  | SupervisorRequest_CapacitySnapshot => capacity_snapshot cfg t
  | SupervisorRequest_ExposePort r => expose_port r
  | SupervisorRequest_UnexposePort r => unexpose_port r
  | SupervisorRequest_GetAttestationEvidence r => get_attestation_evidence generate t (d_now io) r
  end.
Definition dispatch (io : DispatchIo) (req : SupervisorRequest) : Task SupervisorResponse :=
  match refusal req with
  | Some r => Ret r
  | None => handle io req
  end.
End Dispatcher.
