(* ===== verification/Resources.v ===== *)
(** * The supervisor under concurrency

    Any number of requests, cleanup tasks and refills run at once over the
    [World] of the manager, interleaved at every await, with any outcome of the
    host, the disk and the guests.  A task owns resources: leases, capacity guards,
    machines, tracker permits, the confidential slot, in-flight provisions.  [J]
    relates the shared state to all resources, those held by tasks and those held
    by the registry, the pool and the queued jobs; [spec t p F post] says that [p]
    started with resources [t] keeps [J] at every step and ends with a result that
    satisfies [F] and with resources [post].  Every handler is shown to keep [J]
    and to end with none. *)

From S2P Require Import Prelude Text Profile Fleet Capacity Ownership Lifecycle Json Crypto AuditChain.
From S2P Require Import Snapshot Ingress Network Bytes GuestFiles Wire GuestAgent Attestation Image.
From S2P Require Import Firecracker Pool Protocol Prog Manager Command.

(** ** Resources *)

(** How the holder of a lease uses it: to boot (the id is not registered), to snapshot
    with the given boot marked, or otherwise. *)
Inductive LeaseUse := Lease_boot | Lease_plain | Lease_marked (boot_id : string).
(** What accounts for a machine: a ledger entry through its guard, or the lease of a live snapshot. *)
Inductive Cover :=
| Cover_reserved (g : WorkspaceCapacityReservation)
| Cover_registered (g : RegisteredWorkspaceCapacityGuard) (state : WorkspaceState)
| Cover_pool (g : PoolCapacityReservation)
| Cover_ready (g : ReadyPoolCapacityGuard)
| Cover_lease (id : string) (u : LeaseUse).
Inductive Res :=
| Res_cover (v : Cover)
| Res_machine (c : list string) (x : Phase) (v : Cover)
| Res_task
| Res_confidential (s : option Sandbox)
| Res_flight (f : Flight).

Definition cover_guard (v : Cover) : option Guard :=
  match v with
  | Cover_reserved g => Some (Guard_WorkspaceReservation g)
  | Cover_registered g _ => Some (Guard_Registered g)
  | Cover_pool g => Some (Guard_PoolReservation g)
  | Cover_ready g => Some (Guard_Ready g)
  | Cover_lease _ _ => None
  end.
Definition cover_lease (v : Cover) : option (string * LeaseUse) :=
  match v with Cover_lease id u => Some (id, u) | _ => None end.
Definition cover_of (r : Res) : option Cover :=
  match r with Res_cover v | Res_machine _ _ v => Some v | _ => None end.
Definition machine_of (r : Res) : option (list string * Phase) :=
  match r with Res_machine c x _ => Some (c, x) | _ => None end.
Definition task_of (r : Res) : option unit := match r with Res_task => Some tt | _ => None end.
Definition confidential_of (r : Res) : option (option Sandbox) :=
  match r with Res_confidential s => Some s | _ => None end.
Definition flight_of (r : Res) : option Flight := match r with Res_flight f => Some f | _ => None end.
Definition covers (R : list Res) : list Cover := omap cover_of R.
Definition guards (R : list Res) : list Guard := omap cover_guard (covers R).
Definition leases (R : list Res) : list (string * LeaseUse) := omap cover_lease (covers R).
Definition machines (R : list Res) : list (list string * Phase) := omap machine_of R.
Definition tasks (R : list Res) : list unit := omap task_of R.
Definition confs (R : list Res) : list (option Sandbox) := omap confidential_of R.
Definition flights_in (R : list Res) : list Flight := omap flight_of R.
#[global] Arguments covers : simpl never.
#[global] Arguments guards : simpl never.
#[global] Arguments leases : simpl never.
#[global] Arguments machines : simpl never.
#[global] Arguments tasks : simpl never.
#[global] Arguments confs : simpl never.
#[global] Arguments flights_in : simpl never.

(** *** Held by the shared state *)

Definition exec_res (e : WorkspaceExec) : list Res :=
  match e with
  | WorkspaceExec_Firecracker i g =>
      [Res_machine (i_jailer_chroot i) Phase_running (Cover_registered g (i_lifecycle_state i))]
  | WorkspaceExec_OpenShell s g => [Res_cover (Cover_registered g WorkspaceState_Running); Res_confidential (Some s)]
  end.
Definition registry_res (m : gmap string WorkspaceExec) : list Res := (map_to_list m).*2 ≫= exec_res.
Definition member_res (m : PoolMember) : list Res :=
  match m with
  | {| member_instance := Some i; member_guard := Some g |} => [Res_machine (i_jailer_chroot i) Phase_running (Cover_ready g)]
  | _ => []
  end.
Definition pool_res (o : option WarmPool) : list Res :=
  match o with Some p => members p ≫= member_res | None => [] end.
Definition owner_cover (o : PendingCapacityOwner) (state : WorkspaceState) : Cover :=
  match o with
  | PendingCapacityOwner_Reserved r => Cover_reserved r
  | PendingCapacityOwner_Registered g => Cover_registered g state
  end.
Definition pending_res (p : PendingFirecracker) : list Res :=
  match pf_instance p, pf_capacity_owner p with
  | Some i, Some o => [Res_machine (i_jailer_chroot i) Phase_running (owner_cover o (i_lifecycle_state i))]
  | _, _ => []
  end.
Definition permit_res (p : ProvisionPermit) : list Res :=
  match permit_capacity p with Some g => [Res_cover (Cover_pool g)] | None => [] end.
Definition job_res (j : Job) : list Res :=
  Res_task ::
  match j with
  | Job_provision permit => Res_flight (Flight_booting permit) :: permit_res permit
  | Job_cleanup p => pending_res p
  end.
Definition held (w : World) : list Res :=
  registry_res (w_instances w) ++ pool_res (w_pool w) ++ (w_jobs w ≫= job_res).

(** ** The invariant *)

(** The chroot of a workspace is the directory [root] of its tree. *)
Definition framed (c : list string) : Prop := c = root_of c ++ ["root"].
Definition wf_instance (i : Instance) : Prop :=
  framed (i_jailer_chroot i) /\ i_api_socket_host i = api_socket_of (i_jailer_chroot i)
  /\ i_vsock_host_socket i = i_jailer_chroot i ++ ["vsock.sock"].
Record jails_ok (h : Host) (M : list (list string * Phase)) : Prop := {
  jo_nodup : NoDup M.*1;
  jo_phases : Forall (fun '(c, x) => framed c /\ x <> Phase_gone /\ in_phase (jail_at c h) x) M;
  jo_lost c : c ∈ h_unconfirmed h -> framed c /\ is_Some (h_trees h !! root_of c);
  jo_processes c : is_Some (h_vms h !! c) -> (c, Phase_running) ∈ M \/ c ∈ h_unconfirmed h;
}.
(** A guard owns an entry, and a guard for a registered workspace knows the state its entry is in. *)
Definition state_known (l : CapacityLedger) (v : Cover) : Prop :=
  match v with
  | Cover_reserved g => is_Some (wr_entry_id g)
  | Cover_registered g st => exists i, rw_entry_id g = Some i
      /\ entry_of (locked l) i = Some (inl (WorkspaceCapacityState_Registered st))
  | Cover_pool g => is_Some (pr_entry_id g)
  | Cover_ready g => is_Some (rp_entry_id g)
  | Cover_lease _ _ => True
  end.
Definition exec_ok (l : CapacityLedger) (L : list (string * LeaseUse)) (id : string) (e : WorkspaceExec) : Prop :=
  match e with
  | WorkspaceExec_Firecracker i g =>
      rw_entry_id g = Some (CapacityEntryId_Workspace id) /\ wf_instance i /\ i_workspace_id i = id
      /\ (i_lifecycle_state i = WorkspaceState_Snapshotting -> healthy l -> (id, Lease_marked (i_boot_id i)) ∈ L)
  | WorkspaceExec_OpenShell s g =>
      rw_entry_id g = Some (CapacityEntryId_Workspace id) /\ sb_workspace_id s = id
  end.
Record registry_ok (l : CapacityLedger) (m : gmap string WorkspaceExec) (L : list (string * LeaseUse)) : Prop := {
  ro_exec id e : m !! id = Some e -> exec_ok l L id e;
  ro_boot id : (id, Lease_boot) ∈ L -> m !! id = None;
  (** While a snapshot holds the lease, the id is that boot or gone. *)
  ro_marked id b e : (id, Lease_marked b) ∈ L -> m !! id = Some e ->
    exists i g, e = WorkspaceExec_Firecracker i g /\ i_boot_id i = b;
}.
Definition member_ok (m : PoolMember) : Prop :=
  exists i g, m = {| member_instance := Some i; member_guard := Some g |} /\ wf_instance i
    /\ i_lifecycle_state i = WorkspaceState_Running.
Definition job_ok (j : Job) : Prop :=
  match j with
  | Job_provision permit => is_Some (permit_capacity permit)
  | Job_cleanup p => exists i o, pf_instance p = Some i /\ pf_capacity_owner p = Some o
  end.

(** The ledger and its guards agree, under the ceiling the manager was started with. *)
Definition books (ceiling : Z) (x : System) : Prop := Ownership.inv x /\ cs_ceiling (locked (ledger x)) = ceiling.
Lemma books_step ceiling x y : sys_step x y -> books ceiling x -> books ceiling y.
Proof.
  intros Hs [Hi Hc]. split; [by eapply inv_step|]. rewrite <- Hc. by apply steps_ceiling; [apply rtc_once|].
Qed.
Lemma books_wf ceiling x : books ceiling x -> wf (locked (ledger x)).
Proof. intros [Hi _]. apply Hi. Qed.
Lemma books_quiet ceiling l l' gs fs : quiet l l' ->
  books ceiling {| ledger := l; live := gs; forgotten := fs |} -> books ceiling {| ledger := l'; live := gs; forgotten := fs |}.
Proof.
  intros Hq [Hi Hc]. split; [by eapply inv_quiet|]. cbn in *. destruct Hq as [->|[_ ->]]; done.
Qed.

Section Invariant.
Context (cfg : WorkspaceManagerConfig) (ceiling : Z).
Definition pool_ok (o : option WarmPool) (F : list Flight) : Prop :=
  match o, cf_warm_pool cfg with
  | Some p, Some c =>
      Forall member_ok (members p) /\ exists l k, pool_inv c {| pool := p; pool_ledger := l; flights := F; refill := None; leaked := k |}
  | None, None => F = []
  | _, _ => False
  end.
Record ok (w : World) (R : list Res) : Prop := {
  ok_ledger : books ceiling {| ledger := w_ledger w; live := guards R; forgotten := w_forgotten w |};
  ok_states : Forall (state_known (w_ledger w)) (covers R);
  ok_jails : jails_ok (w_host w) (machines R);
  ok_leases : NoDup (leases R).*1 /\ w_claims w = list_to_set (leases R).*1;
  ok_registry : registry_ok (w_ledger w) (w_instances w) (leases R);
  ok_tasks : Tasks.tasks_poisoned (w_tasks w) = false /\ Tasks.active (w_tasks w) = list_len (tasks R);
  ok_confidential : 0 <= w_permits w /\ w_permits w + list_len (confs R) = 1 /\ w_sandboxes w ≡ₚ omap id (confs R);
  ok_pool : pool_ok (w_pool w) (flights_in R);
  ok_jobs : Forall job_ok (w_jobs w);
}.
Definition J (w : World) (T : list Res) : Prop := ok w (held w ++ T).

#[global] Instance covers_perm : Proper (Permutation ==> Permutation) covers.
Proof. intros R R' E. unfold covers. by rewrite E. Qed.
#[global] Instance guards_perm : Proper (Permutation ==> Permutation) guards.
Proof. intros R R' E. unfold guards. by rewrite E. Qed.
#[global] Instance leases_perm : Proper (Permutation ==> Permutation) leases.
Proof. intros R R' E. unfold leases. by rewrite E. Qed.
#[global] Instance machines_perm : Proper (Permutation ==> Permutation) machines.
Proof. intros R R' E. unfold machines. by rewrite E. Qed.
#[global] Instance tasks_perm : Proper (Permutation ==> Permutation) tasks.
Proof. intros R R' E. unfold tasks. by rewrite E. Qed.
#[global] Instance confs_perm : Proper (Permutation ==> Permutation) confs.
Proof. intros R R' E. unfold confs. by rewrite E. Qed.
#[global] Instance flights_perm : Proper (Permutation ==> Permutation) flights_in.
Proof. intros R R' E. unfold flights_in. by rewrite E. Qed.
Lemma jails_perm h M M' : M ≡ₚ M' -> jails_ok h M -> jails_ok h M'.
Proof.
  intros E [A1 A2 A3 A4]. split; [by rewrite <- E|by rewrite <- E|done|].
  intros c Hc. rewrite <- E. auto.
Qed.
Lemma registry_perm l m L L' : L ≡ₚ L' -> registry_ok l m L -> registry_ok l m L'.
Proof.
  intros E [A1 A2 A3]. split.
  - intros id e He. specialize (A1 id e He). destruct e; cbn in *; [|done]. by rewrite <- E.
  - intros id Hid. apply A2. by rewrite E.
  - intros id b e Hid. apply A3. by rewrite E.
Qed.
Lemma pool_perm o F F' : F ≡ₚ F' -> pool_ok o F -> pool_ok o F'.
Proof.
  intros E. unfold pool_ok. destruct o as [p|], (cf_warm_pool cfg) as [c|]; try done.
  - intros (Hm & l & k & Hi). split; [done|]. exists l, k. eapply pool_inv_step; [|exact Hi]. by apply ps_schedule.
  - intros ->. by apply Permutation_nil_l in E.
Qed.
Lemma ok_perm w R R' : R ≡ₚ R' -> ok w R -> ok w R'.
Proof.
  intros E [A1 A2 A3 A4 A5 A6 A7 A8 A9]. split.
  - eapply books_step; [|exact A1]. by apply step_schedule, guards_perm.
  - by rewrite <- E.
  - eapply jails_perm; [|exact A3]. by rewrite E.
  - destruct A4 as [B1 B2]. rewrite <- E. split; [done|]. rewrite B2. apply leibniz_equiv.
    apply list_to_set_perm. by rewrite E.
  - eapply registry_perm; [|exact A5]. by rewrite E.
  - unfold list_len in *. by rewrite <- E.
  - unfold list_len in *. by rewrite <- E.
  - eapply pool_perm; [|exact A8]. by rewrite E.
  - done.
Qed.
Lemma J_perm w T T' : T ≡ₚ T' -> J w T -> J w T'.
Proof. intros E. apply ok_perm. by rewrite E. Qed.

(** ** Specifications *)

Local Abbreviation shift := (shift J).
Definition spec {A} (t : list Res) (p : Prog World A) (F : A -> Prop) (post : A -> list Res) : Prop :=
  wp J p t (fun a t' => F a /\ shift t' (post a)).
Lemma shift_of_perm t t' : t ≡ₚ t' -> shift t t'.
Proof. apply shift_perm, J_perm. Qed.
Lemma spec_done {A} t (a : A) (F : A -> Prop) post : F a -> shift t (post a) -> spec t (Ret a) F post.
Proof. by split. Qed.
Lemma spec_ret {A} t (a : A) (F : A -> Prop) post : F a -> t ≡ₚ post a -> spec t (Ret a) F post.
Proof. intros HF E. by apply spec_done, shift_of_perm. Qed.
Lemma spec_shift {A} t t' (p : Prog World A) F post : shift t t' -> spec t' p F post -> spec t p F post.
Proof. apply wp_shift. intros a u u' Hs [HF Hu]. split; [done|]. by eapply shift_trans. Qed.
Lemma spec_perm {A} t t' (p : Prog World A) F post : t ≡ₚ t' -> spec t p F post -> spec t' p F post.
Proof. intros E. by apply spec_shift, shift_of_perm. Qed.
Lemma spec_weaken {A} t (p : Prog World A) (F F' : A -> Prop) post post' :
  (forall a, F a -> F' a /\ post a ≡ₚ post' a) -> spec t p F post -> spec t p F' post'.
Proof.
  intros Hw. apply wp_mono. intros a t' [HF Ht]. destruct (Hw a HF) as [HF' E]. split; [done|].
  eapply shift_trans; [exact Ht|by apply shift_of_perm].
Qed.
(** Run [p] with part of the resources, go on with what it leaves. *)
Lemma spec_bind {A B} t t1 u (p : Prog World A) (g : A -> Prog World B) F1 post1 F post :
  t ≡ₚ t1 ++ u -> spec t1 p F1 post1 -> (forall a, F1 a -> spec (post1 a ++ u) (g a) F post) ->
  spec t (p ≫= g) F post.
Proof.
  intros E Hp Hg. apply (spec_perm (t1 ++ u)); [done|]. apply wp_bind.
  eapply wp_mono; [|apply wp_frame, Hp]. cbn. intros a t' (t0 & -> & HF & Ht).
  eapply spec_shift; [|by apply Hg]. by apply shift_app.
Qed.
Lemma spec_try {E A B} t t1 u (p : Prog World (result E A)) (g : A -> Prog World (result E B)) F1 post1 F post :
  t ≡ₚ t1 ++ u -> spec t1 p F1 post1 ->
  (forall a, F1 (Ok a) -> spec (post1 (Ok a) ++ u) (g a) F post) ->
  (forall e, F1 (Err e) -> F (Err e) /\ post1 (Err e) ++ u ≡ₚ post (Err e)) ->
  spec t (try_bind p g) F post.
Proof.
  intros Et Hp Hok Herr. eapply spec_bind; [exact Et|exact Hp|]. intros [a|e] HF; [auto|].
  destruct (Herr e HF). by apply spec_ret.
Qed.
Lemma spec_or_return {E A} t t1 u (p : Prog World (result E A)) (g : A -> Prog World E) F1 post1 F post :
  t ≡ₚ t1 ++ u -> spec t1 p F1 post1 ->
  (forall a, F1 (Ok a) -> spec (post1 (Ok a) ++ u) (g a) F post) ->
  (forall e, F1 (Err e) -> F e /\ post1 (Err e) ++ u ≡ₚ post e) ->
  spec t (or_return p g) F post.
Proof.
  intros Et Hp Hok Herr. eapply spec_bind; [exact Et|exact Hp|]. intros [a|e] HF; [auto|].
  destruct (Herr e HF). by apply spec_ret.
Qed.
(** An action that leaves the registry, the pool and the jobs alone. *)
Lemma spec_act {A} (f : World -> A * World) t F post :
  (forall w R, ok w (t ++ R) ->
     held (f w).2 = held w /\ F (f w).1 /\ ok (f w).2 (post (f w).1 ++ R)) ->
  spec t (act f) F post.
Proof.
  intros Hf w rest HJ. specialize (Hf w (held w ++ rest)). unfold J in *. destruct (f w) as [a w'] eqn:E. cbn [fst snd] in Hf.
  destruct Hf as (Hh & HF & Hok).
  { eapply ok_perm; [|exact HJ]. rewrite !app_assoc. by rewrite (Permutation_app_comm (held w) t). }
  exists (post a). split; [|split; [done|by apply shift_of_perm]]. rewrite Hh. eapply ok_perm; [|exact Hok].
  rewrite !app_assoc. by rewrite (Permutation_app_comm (held w)).
Qed.
(** An action on the shared state as a whole. *)
Lemma spec_shared {A} (f : World -> A * World) t F post :
  (forall w R, ok w (held w ++ t ++ R) -> F (f w).1 /\ ok (f w).2 (held (f w).2 ++ post (f w).1 ++ R)) ->
  spec t (act f) F post.
Proof.
  intros Hf w rest HJ. specialize (Hf w rest HJ). destruct (f w) as [a w']. cbn in Hf. destruct Hf as [HF Hok].
  exists (post a). split; [done|split; [done|by apply shift_of_perm]].
Qed.
End Invariant.
