(* ===== verification/Actions.v ===== *)
(** * What the actions of the manager do to the resources

    Specifications of the actions the handlers are made of: the ledger, the leases
    and the tracker, the driver of the jails, the registry, the confidential slot
    and the pool. *)

From S2P Require Import Prelude Text Profile Fleet Capacity Ownership Lifecycle Json Crypto AuditChain.
From S2P Require Import Snapshot Ingress Network Bytes GuestFiles Wire GuestAgent Attestation Image.
From S2P Require Import Firecracker Pool Protocol Prog Manager Command Resources.

Lemma covers_app R R' : covers (R ++ R') = covers R ++ covers R'.
Proof. apply omap_app. Qed.
Lemma guards_app R R' : guards (R ++ R') = guards R ++ guards R'.
Proof. unfold guards. by rewrite covers_app, omap_app. Qed.
Lemma leases_app R R' : leases (R ++ R') = leases R ++ leases R'.
Proof. unfold leases. by rewrite covers_app, omap_app. Qed.
Lemma machines_app R R' : machines (R ++ R') = machines R ++ machines R'.
Proof. apply omap_app. Qed.
Lemma tasks_app R R' : tasks (R ++ R') = tasks R ++ tasks R'.
Proof. apply omap_app. Qed.
Lemma confs_app R R' : confs (R ++ R') = confs R ++ confs R'.
Proof. apply omap_app. Qed.
Lemma flights_app R R' : flights_in (R ++ R') = flights_in R ++ flights_in R'.
Proof. apply omap_app. Qed.
Lemma covers_cons r R : covers (r :: R) = option_list (cover_of r) ++ covers R.
Proof. unfold covers. cbn. by destruct (cover_of r). Qed.
Lemma guards_cons r R : guards (r :: R) = option_list (cover_of r ≫= cover_guard) ++ guards R.
Proof. unfold guards. rewrite covers_cons. destruct (cover_of r) as [v|]; [|done]. cbn. by destruct (cover_guard v). Qed.
Lemma leases_cons r R : leases (r :: R) = option_list (cover_of r ≫= cover_lease) ++ leases R.
Proof. unfold leases. rewrite covers_cons. destruct (cover_of r) as [v|]; [|done]. cbn. by destruct (cover_lease v). Qed.
Lemma machines_cons r R : machines (r :: R) = option_list (machine_of r) ++ machines R.
Proof. unfold machines. cbn. by destruct (machine_of r). Qed.
Lemma tasks_cons r R : tasks (r :: R) = option_list (task_of r) ++ tasks R.
Proof. unfold tasks. cbn. by destruct (task_of r). Qed.
Lemma confs_cons r R : confs (r :: R) = option_list (confidential_of r) ++ confs R.
Proof. unfold confs. cbn. by destruct (confidential_of r). Qed.
Lemma flights_cons r R : flights_in (r :: R) = option_list (flight_of r) ++ flights_in R.
Proof. unfold flights_in. cbn. by destruct (flight_of r). Qed.
Create Rewrite HintDb resources.
#[global] Hint Rewrite covers_app guards_app leases_app machines_app tasks_app confs_app flights_app
  covers_cons guards_cons leases_cons machines_cons tasks_cons confs_cons flights_cons : resources.
(** Spell out what a list of resources contributes. *)
Ltac parts := autorewrite with resources in *;
  change (covers []) with (@nil Cover) in *; change (guards []) with (@nil Guard) in *;
  change (leases []) with (@nil (string * LeaseUse)) in *; change (machines []) with (@nil (list string * Phase)) in *;
  change (tasks []) with (@nil unit) in *; change (confs []) with (@nil (option Sandbox)) in *;
  change (flights_in []) with (@nil Flight) in *; cbn [option_rect cover_of machine_of task_of confidential_of flight_of
  cover_guard cover_lease option_list mbind option_bind app] in *.

(** A resource with cover [v]: alone, or of a machine. *)
Definition with_cover (o : option (list string * Phase)) (v : Cover) : Res :=
  match o with None => Res_cover v | Some (c, x) => Res_machine c x v end.
Lemma with_cover_parts o v :
  covers [with_cover o v] = [v] /\ machines [with_cover o v] = option_list o /\ tasks [with_cover o v] = []
  /\ confs [with_cover o v] = [] /\ flights_in [with_cover o v] = [].
Proof. by destruct o as [[c x]|]. Qed.

Section Actions.
Context (cfg : WorkspaceManagerConfig) (ceiling : Z).
Local Abbreviation ok := (ok cfg ceiling).
Local Abbreviation spec := (spec cfg ceiling).

(** ** Actions outside the invariant *)

Definition same_core (w w' : World) : Prop :=
  w_host w' = w_host w /\ w_ledger w' = w_ledger w /\ w_forgotten w' = w_forgotten w /\ w_tasks w' = w_tasks w
  /\ w_claims w' = w_claims w /\ w_instances w' = w_instances w /\ w_pool w' = w_pool w
  /\ w_permits w' = w_permits w /\ w_sandboxes w' = w_sandboxes w /\ w_jobs w' = w_jobs w.
Lemma ok_core w w' R : same_core w w' -> ok w R -> ok w' R.
Proof.
  intros (E1 & E2 & E3 & E4 & E5 & E6 & E7 & E8 & E9 & E10) [A1 A2 A3 A4 A5 A6 A7 A8 A9].
  split; by rewrite ?E1, ?E2, ?E3, ?E4, ?E5, ?E6, ?E7, ?E8, ?E9, ?E10.
Qed.
Lemma spec_quiet {A} (f : World -> A * World) :
  (forall w, same_core w (f w).2) -> spec [] (act f) (fun _ => True) (fun _ => []).
Proof.
  intros Hf. apply spec_act. intros w R Hok. pose proof (Hf w) as Hc. split; [|split; [done|]].
  - destruct Hc as (_ & _ & _ & _ & _ & E6 & E7 & _ & _ & E10). unfold held. by rewrite E6, E7, E10.
  - by eapply ok_core.
Qed.
Lemma spec_reads {A} (f : World -> A) : spec [] (reads f) (fun _ => True) (fun _ => []).
Proof. apply spec_quiet. by repeat split. Qed.
Lemma spec_audit ty ws payload : spec [] (audit_emit ty ws payload) (fun _ => True) (fun _ => []).
Proof. apply spec_quiet. by repeat split. Qed.
Lemma spec_audit_failure ws op r : spec [] (audit_failure ws op r) (fun _ => True) (fun _ => []).
Proof. destruct r; try (by apply spec_ret). apply spec_audit. Qed.

(** ** The ledger *)

Lemma inv_inert l g gs fs : guard_entry g = None ->
  books ceiling {| ledger := l; live := g :: gs; forgotten := fs |} -> books ceiling {| ledger := l; live := gs; forgotten := fs |}.
Proof. intros Hg. apply books_step. eapply step_drop. by rewrite Hg. Qed.
(** One operation on the ledger by the holder of [t]. *)
Lemma ok_ledger_step w R t t' l' fs' :
  ok w (t ++ R) ->
  books ceiling {| ledger := l'; live := guards t' ++ guards R; forgotten := fs' |} ->
  (healthy l' -> healthy (w_ledger w)) ->
  (forall i e, i ∉ owned (guards t) -> entry_of (locked (w_ledger w)) i = Some e -> entry_of (locked l') i = Some e) ->
  Forall (state_known l') (covers t') ->
  machines t' = machines t -> leases t' = leases t -> tasks t' = tasks t -> confs t' = confs t ->
  flights_in t' = flights_in t ->
  ok (set_forgotten fs' (set_ledger l' w)) (t' ++ R).
Proof.
  intros [A1 A2 A3 A4 A5 A6 A7 A8 A9] Hinv Hh Hframe Hst E1 E2 E3 E4 E5.
  autorewrite with resources in *. split; cbn; autorewrite with resources; rewrite ?E1, ?E2, ?E3, ?E4, ?E5; try done.
  - apply Forall_app. split; [done|]. apply Forall_app in A2 as [_ A2]. rewrite Forall_forall in A2 |- *.
    intros v Hv. specialize (A2 v Hv). destruct v as [|g st| | |]; try done. destruct A2 as (i & Hg & He).
    exists i. split; [done|]. apply Hframe; [|done]. intros Hin.
    destruct A1 as [[_ Hd _ _ _] _]. cbn in Hd. rewrite owned_app in Hd.
    apply NoDup_app in Hd as (Hd & _ & _). apply NoDup_app in Hd as (_ & Hd & _). apply (Hd i Hin).
    apply elem_of_owned. exists (Guard_Registered g). split; [|done]. apply list_elem_of_omap. eauto.
  - destruct A5 as [B1 B2 B3]. split; [|done|done]. intros id e He. specialize (B1 id e He). destruct e; cbn in *; [|done].
    destruct B1 as (C1 & C2 & C3 & C4). split_and!; auto.
Qed.
(** The same when nothing but the cover of one resource changes. *)
Lemma ok_cover_step w R o v v' l' :
  ok w (with_cover o v :: R) ->
  (forall g, cover_guard v = Some g -> books ceiling {| ledger := w_ledger w; live := g :: guards R; forgotten := w_forgotten w |} ->
     books ceiling {| ledger := l'; live := option_list (cover_guard v') ++ guards R; forgotten := w_forgotten w |}) ->
  is_Some (cover_guard v) -> is_Some (cover_guard v') ->
  (healthy l' -> healthy (w_ledger w)) ->
  (forall i e, (forall g, cover_guard v = Some g -> guard_entry g <> Some i) ->
     entry_of (locked (w_ledger w)) i = Some e -> entry_of (locked l') i = Some e) ->
  state_known l' v' -> ok (set_ledger l' w) (with_cover o v' :: R).
Proof.
  intros Hok Hinv [g Hg] [g' Hg'] Hh Hframe Hst.
  destruct (with_cover_parts o v) as (P1 & P2 & P3 & P4 & P5). destruct (with_cover_parts o v') as (P1' & P2' & P3' & P4' & P5').
  assert (guards [with_cover o v] = [g]) as Gv by (unfold guards; rewrite P1; cbn; by rewrite Hg).
  assert (guards [with_cover o v'] = [g']) as Gv' by (unfold guards; rewrite P1'; cbn; by rewrite Hg').
  change (set_ledger l' w) with (set_forgotten (w_forgotten w) (set_ledger l' w)).
  apply (ok_ledger_step w R [with_cover o v] [with_cover o v']); try congruence; try done.
  - pose proof (ok_ledger _ _ _ _ Hok) as Hl. change (with_cover o v :: R) with ([with_cover o v] ++ R) in Hl.
    rewrite guards_app, Gv in Hl. rewrite Gv'. specialize (Hinv g Hg Hl). by rewrite Hg' in Hinv.
  - intros i e Hi. apply Hframe. intros g0 [= <-]%(eq_trans (eq_sym Hg)). intros Hgi. apply Hi.
    rewrite Gv. apply elem_of_owned. exists g. split; [by left|done].
  - rewrite P1'. by constructor.
  - unfold leases. rewrite P1, P1'. destruct v, v'; done.
Qed.
Lemma frame_upd l l' i o :
  (forall j, entry_of (locked l') j = upd (entry_of (locked l)) i o j) ->
  forall j e, i <> j -> entry_of (locked l) j = Some e -> entry_of (locked l') j = Some e.
Proof. intros Hj j e Hne He. rewrite Hj, upd_other; congruence. Qed.
Lemma quiet_facts l l' : quiet l l' ->
  (healthy l' -> healthy l) /\ forall i, entry_of (locked l') i = entry_of (locked l) i.
Proof.
  intros [->|[Hh ->]]; [done|]. split; [by intros []|]. intros i. apply entry_of_set_faulted.
Qed.
(** An operation that failed leaves every entry, and the resources, as they were. *)
Lemma ok_quiet w R l' : quiet (w_ledger w) l' -> ok w R -> ok (set_ledger l' w) R.
Proof.
  intros Hq Hok. destruct (quiet_facts _ _ Hq) as [Hh He].
  change (set_ledger l' w) with (set_forgotten (w_forgotten w) (set_ledger l' w)).
  apply (ok_ledger_step w R [] []); try done.
  - eapply books_quiet; [exact Hq|]. by destruct Hok.
  - intros i e _ Hi. by rewrite He.
Qed.
Lemma held_ledger l w : held (set_ledger l w) = held w.
Proof. done. Qed.

Lemma spec_reserve id c m :
  in_range U64_MAX c -> in_range U64_MAX m ->
  spec [] (on_ledger (reserve_workspace id c m))
    (fun r => match r with Ok g => wr_entry_id g = Some (CapacityEntryId_Workspace id) | Err _ => True end)
    (fun r => match r with Ok g => [Res_cover (Cover_reserved g)] | Err _ => [] end).
Proof.
  intros Hc Hm. apply spec_act. intros w R Hok.
  destruct (reserve_workspace id c m (w_ledger w)) as [r l'] eqn:E. cbn. split; [done|].
  pose proof (ok_ledger _ _ _ _ Hok) as Hl. pose proof (books_wf _ _ Hl) as Hwf. cbn in Hwf.
  pose proof (reserve_workspace_cases _ Hwf id c m _ _ Hc Hm E) as Hr. destruct r as [g|e]; [|split; [done|by apply ok_quiet]].
  destruct Hr as (Hg & [Hh _ _ _ _] & _ & Hn & He). split; [by rewrite Hg|].
  change (set_ledger l' w) with (set_forgotten (w_forgotten w) (set_ledger l' w)).
  apply (ok_ledger_step w R [] [Res_cover (Cover_reserved g)]); try done.
  - exact (books_step ceiling _ _ (step_reserve_workspace _ (guards R) _ id c m _ _ Hc Hm E) Hl).
  - intros i e _ Hi. eapply frame_upd; [exact He| |done]. congruence.
  - constructor; [|constructor]. cbn. rewrite Hg. by eexists.
Qed.
Lemma spec_register o r st :
  spec [with_cover o (Cover_reserved r)] (on_ledger (register_in_place r st))
    (fun x => match x with Ok (_, k) => rw_entry_id k = wr_entry_id r | Err _ => True end)
    (fun x => [with_cover o match x with Ok (_, k) => Cover_registered k st | Err _ => Cover_reserved r end]).
Proof.
  apply spec_act. intros w R Hok. destruct (register_in_place r st (w_ledger w)) as [x l'] eqn:E. cbn. split; [done|].
  pose proof (books_wf _ _ (ok_ledger _ _ _ _ Hok)) as Hwf. cbn in Hwf.
  pose proof (register_in_place_cases _ Hwf r st _ _ E) as Hr. destruct x as [[g' k]|e]; [|split; [done|by apply ok_quiet]].
  destruct Hr as (i & Hg & -> & -> & [Hh _ _ _ _] & _ & He). split; [by rewrite Hg|].
  eapply ok_cover_step; [exact Hok| |done|done|done| |].
  - intros g [= <-] Hi. apply (books_step ceiling _ _ (step_register _ _ _ _ st _ _ E)) in Hi. cbn in Hi.
    by apply inv_inert in Hi.
  - intros j e Hj Hje. eapply frame_upd; [exact He| |done]. intros <-. by apply (Hj _ eq_refl).
  - exists i. split; [done|]. by rewrite He, upd_same.
Qed.
Lemma spec_adopt o g id st :
  spec [with_cover o (Cover_ready g)] (on_ledger (adopt_in_place g id st))
    (fun x => match x with Ok (_, k) => rw_entry_id k = Some (CapacityEntryId_Workspace id) | Err _ => True end)
    (fun x => [with_cover o match x with Ok (_, k) => Cover_registered k st | Err _ => Cover_ready g end]).
Proof.
  apply spec_act. intros w R Hok. destruct (adopt_in_place g id st (w_ledger w)) as [x l'] eqn:E. cbn. split; [done|].
  pose proof (books_wf _ _ (ok_ledger _ _ _ _ Hok)) as Hwf. cbn in Hwf.
  pose proof (adopt_in_place_cases _ Hwf g id st _ _ E) as Hr. destruct x as [[g' k]|e]; [|split; [done|by apply ok_quiet]].
  destruct Hr as (i & Hg & -> & -> & [Hh _ _ _ _] & _ & _ & Hn & He). split; [done|].
  eapply ok_cover_step; [exact Hok| |done|done|done| |].
  - intros g0 [= <-] Hi. apply (books_step ceiling _ _ (step_adopt _ _ _ _ id st _ _ E)) in Hi. cbn in Hi.
    by apply inv_inert in Hi.
  - intros j e Hj Hje. rewrite He, !upd_other; [done| |congruence]. intros ->. by apply (Hj _ eq_refl).
  - eexists. split; [done|]. by rewrite He, upd_same.
Qed.
Lemma spec_drop_entry v g : cover_guard v = Some g ->
  spec [Res_cover v] (drop_entry (guard_entry g)) (fun _ => True) (fun _ => []).
Proof.
  intros Hg. eapply (spec_bind cfg ceiling _ [Res_cover v] [] _ _ (fun _ => True) (fun _ => [])); [done| |by intros a _; apply spec_ret].
  apply (spec_act _ _ _ _ (fun _ => True) (fun _ => [])). intros w R Hok.
  destruct (release_entry (guard_entry g) (w_ledger w)) as [o l'] eqn:E. cbn. split; [done|]. split; [done|].
  pose proof (ok_ledger _ _ _ _ Hok) as Hl. pose proof (books_wf _ _ Hl) as Hwf. cbn in Hwf.
  assert (guards [Res_cover v] = [g]) as Gv by (rewrite guards_cons; cbn; by rewrite Hg).
  change (set_ledger l' w) with (set_forgotten (w_forgotten w) (set_ledger l' w)).
  rewrite guards_app, Gv in Hl. cbn in Hl.
  assert (leases [Res_cover v] = []) as Lv by (destruct v; done).
  apply (ok_ledger_step w R [Res_cover v] []); try done.
  - cbn. eapply books_step; [|exact Hl]. by eapply step_drop.
  - apply (release_entry_cases _ Hwf) in E as [[Hq _]|(i & _ & _ & [Hh _ _ _ _] & _)]; [by apply quiet_facts|done].
  - rewrite Gv. intros i e Hi He.
    apply (release_entry_cases _ Hwf) in E as [[Hq _]|(j & Hj & _ & _ & _ & _ & Hu)].
    + apply quiet_facts in Hq as [_ Hq]. by rewrite Hq.
    + eapply frame_upd; [exact Hu| |done]. intros ->. apply Hi. apply elem_of_owned. exists g. split; [by left|done].
Qed.
Lemma spec_drop_none : spec [] (drop_entry None) (fun _ => True) (fun _ => []).
Proof.
  eapply (spec_bind cfg ceiling _ [] [] _ _ (fun _ => True) (fun _ => [])); [done| |by intros a _; apply spec_ret].
  apply (spec_quiet (fun w => let '(r, l) := release_entry None (w_ledger w) in (r, set_ledger l w))). by repeat split.
Qed.
Lemma spec_forget v g : cover_guard v = Some g ->
  spec [Res_cover v] (forget (guard_entry g)) (fun _ => True) (fun _ => []).
Proof.
  intros Hg. apply spec_act. intros w R Hok. cbn. split; [done|]. split; [done|].
  pose proof (ok_ledger _ _ _ _ Hok) as Hl.
  assert (guards [Res_cover v] = [g]) as Gv by (rewrite guards_cons; cbn; by rewrite Hg).
  rewrite guards_app, Gv in Hl. cbn in Hl.
  change (set_forgotten ?x w) with (set_forgotten x (set_ledger (w_ledger w) w)).
  apply (ok_ledger_step w R [Res_cover v] []); try done.
  - cbn. eapply books_step; [|exact Hl]. apply step_forget.
  - by destruct v.
Qed.
Lemma fault_quiet l : quiet l (fault_ledger l).
Proof.
  unfold fault_ledger. destruct (poisoned l) eqn:Hp; [by left|]. destruct (cs_faulted (locked l)) eqn:Hf.
  - left. destruct l as [p s]. cbn in *. subst. f_equal. destruct s; cbn in *. by subst.
  - right. by split.
Qed.
Lemma spec_fail_closed : spec [] fail_closed (fun _ => True) (fun _ => []).
Proof. apply spec_act. intros w R Hok. cbn. split; [done|]. split; [done|]. apply ok_quiet; [apply fault_quiet|done]. Qed.
(** Run one action with part of the resources; [u] are the others. *)
Ltac perm := cbn; first [reflexivity | solve_Permutation].
Ltac step_with L u :=
  eapply (spec_bind cfg ceiling _ _ u); [|apply L; try done|]; [perm|intros ? ?; cbn beta iota in *].
Tactic Notation "bind" uconstr(L) "with" uconstr(u) := step_with L u.
(** Failing closed on behalf of a guard that is then forgotten. *)
Lemma spec_fail_forget v g : cover_guard v = Some g ->
  spec [Res_cover v] (fail_closed ;;; forget (guard_entry g)) (fun _ => True) (fun _ => []).
Proof.
  intros Hg. bind spec_fail_closed with [Res_cover v]. by apply spec_forget.
Qed.

(** ** Leases and the tracker *)

Lemma spec_begin_task cleanup :
  spec [] (begin_task cleanup) (fun _ => True) (fun r => match r with Ok _ => [Res_task] | Err _ => [] end).
Proof.
  apply spec_act. intros w R [A1 A2 A3 A4 A5 [Hp Ha] A7 A8 A9]. unfold Tasks.begin. rewrite Hp.
  destruct (_ && _); [by split_and!|]. destruct (checked_add _ _ _) as [n|] eqn:E; [|by split_and!].
  apply checked_add_Some in E as [-> _]. split_and!; [done|done|]. split; try done. cbn. parts. split; [done|].
  rewrite list_len_cons, <- Ha. lia.
Qed.
Lemma spec_end_task : spec [Res_task] end_task (fun _ => True) (fun _ => []).
Proof.
  apply spec_act. intros w R [A1 A2 A3 A4 A5 [Hp Ha] A7 A8 A9]. parts. rewrite list_len_cons in Ha.
  pose proof (list_len_nonneg (tasks R)).
  split_and!; [done|done|]. split; try done. cbn. unfold Tasks.permit_drop, checked_sub. rewrite Hp.
  destruct (Z.leb_spec 1 (Tasks.active (w_tasks w))); [|lia]. split; [done|]. cbn. lia.
Qed.
(** The registry does not depend on leases it does not mention. *)
Lemma registry_leases l m L L' :
  (forall id b, (id, Lease_marked b) ∈ L -> is_Some (m !! id) -> (id, Lease_marked b) ∈ L') ->
  (forall id b, (id, Lease_marked b) ∈ L' -> (id, Lease_marked b) ∈ L) ->
  (forall id, (id, Lease_boot) ∈ L' -> (id, Lease_boot) ∈ L \/ m !! id = None) ->
  registry_ok l m L -> registry_ok l m L'.
Proof.
  intros H1 H2 H3 [B1 B2 B3]. split.
  - intros id e He. specialize (B1 id e He). destruct e; cbn in *; [|done].
    destruct B1 as (C1 & C2 & C3 & C4). split_and!; try done. eauto.
  - intros id Hi. destruct (H3 id Hi); auto.
  - eauto.
Qed.
Lemma spec_claim_lifecycle id :
  spec [] (claim_lifecycle id) (fun _ => True)
    (fun claimed => if claimed : bool then [Res_cover (Cover_lease id Lease_plain)] else []).
Proof.
  apply spec_act. intros w R [A1 A2 A3 [Hn Hc] A5 A6 A7 A8 A9]. unfold Claims.claim.
  case_bool_decide as Hin; cbn; (split_and!; [done|done|]).
  2: { split; try done. cbn in *. split; [done|]. rewrite <- Hc. set_solver. }
  split; try done; parts.
  - by constructor.
  - cbn. split; [|by rewrite Hc]. constructor; [|done]. intros Hi. apply Hin. rewrite Hc. by apply elem_of_list_to_set.
  - eapply registry_leases; [| | |exact A5]; set_solver.
Qed.
(** A lease without a mark can be dropped. *)
Definition unmarked (u : LeaseUse) : Prop := match u with Lease_marked _ => False | _ => True end.
Lemma spec_drop_lease id u : unmarked u ->
  spec [Res_cover (Cover_lease id u)] (drop_lease id) (fun _ => True) (fun _ => []).
Proof.
  intros Hu. apply spec_act. intros w R [A1 A2 A3 [Hn Hc] A5 A6 A7 A8 A9]. cbn. split_and!; [done|done|].
  parts. cbn in Hn, Hc. apply NoDup_cons in Hn as [Hni Hn]. split; try done.
  - by apply Forall_cons in A2 as [_ A2].
  - cbn. split; [done|]. unfold Claims.lease_drop. rewrite Hc. apply leibniz_equiv. intros x.
    rewrite elem_of_difference, elem_of_union, !elem_of_singleton, elem_of_list_to_set. split; [naive_solver|].
    intros Hx. split; [by right|]. intros ->. done.
  - eapply registry_leases; [| | |exact A5]; [|set_solver..]. intros id' b [[= _ <-]|Hi]%elem_of_cons; done.
Qed.
(** A lease to boot is a lease. *)
Lemma lease_shift id u : shift (J cfg ceiling) (Res_cover (Cover_lease id Lease_boot) :: u) (Res_cover (Cover_lease id Lease_plain) :: u).
Proof.
  intros w T. cbn [app]. intros HJ.
  assert (ok w (Res_cover (Cover_lease id Lease_boot) :: held w ++ u ++ T)) as Hok.
  { eapply ok_perm; [|exact HJ]. symmetry. apply Permutation_middle. }
  eapply ok_perm; [apply Permutation_middle|]. destruct Hok as [A1 A2 A3 A4 A5 A6 A7 A8 A9]. parts.
  split; parts; try done.
  - apply Forall_cons in A2 as [_ A2]. by constructor.
  - eapply registry_leases; [..|exact A5]; set_solver.
Qed.
(** The holder of the lease learns that the id is free, and it stays free. *)
Lemma spec_registry_contains id :
  spec [Res_cover (Cover_lease id Lease_plain)] (registry_contains id) (fun _ => True)
    (fun b => [Res_cover (Cover_lease id (if b : bool then Lease_plain else Lease_boot))]).
Proof.
  apply spec_act. intros w R Hok. cbn. split_and!; [done|done|]. case_bool_decide as Hi; [done|].
  destruct Hok as [A1 A2 A3 A4 A5 A6 A7 A8 A9]. split; try done; parts.
  - apply Forall_cons in A2 as [_ A2]. by constructor.
  - apply eq_None_not_Some in Hi. eapply registry_leases; [| | |exact A5]; set_solver.
Qed.
Lemma spec_claim_boot id :
  spec [] (claim_boot id) (fun _ => True)
    (fun r => match r with Ok _ => [Res_cover (Cover_lease id Lease_boot)] | Err _ => [] end).
Proof.
  unfold claim_boot. bind (spec_claim_lifecycle id) with []. destruct a; cbn [negb]; [|by apply spec_ret].
  bind (spec_registry_contains id) with []. destruct a; [|by apply spec_ret].
  bind (spec_drop_lease id Lease_plain) with []. by apply spec_ret.
Qed.
(** An operation that boots under the lease of its id. *)
Lemma spec_with_boot_lease id body u :
  (spec (Res_cover (Cover_lease id Lease_boot) :: u) body (fun _ => True)
     (fun _ => Res_cover (Cover_lease id Lease_plain) :: u)) ->
  spec u (with_boot_lease id body) (fun _ => True) (fun _ => u).
Proof.
  intros Hb. eapply (spec_or_return cfg ceiling _ [] u); [perm|apply spec_claim_boot| |by intros e _; split].
  intros [] _. eapply (spec_bind cfg ceiling _ _ []); [|exact Hb|]; [perm|]. intros r _.
  bind (spec_drop_lease id Lease_plain) with u. by apply spec_ret.
Qed.
Lemma spec_tracked body :
  spec [Res_task] body (fun _ => True) (fun _ => [Res_task]) ->
  spec [] (run_tracked_lifecycle body) (fun _ => True) (fun _ => []).
Proof.
  intros Hb. unfold run_tracked_lifecycle. bind (spec_begin_task false) with []. destruct a as [[]|[]]; try by apply spec_ret.
  eapply (spec_bind cfg ceiling _ _ []); [|exact Hb|]; [perm|]. intros r _. bind spec_end_task with []. by apply spec_ret.
Qed.

(** ** The jails *)

Lemma framed_root c c' : framed c -> framed c' -> root_of c = root_of c' -> c = c'.
Proof. unfold framed. intros Hc Hc' E. by rewrite Hc, Hc', E. Qed.
Lemma jail_off c c' h h' : framed c -> framed c' -> c' <> c -> agree_off c h h' -> jail_at c' h' = jail_at c' h.
Proof.
  intros Hc Hc' Hne [O1 O2 O3 O4]. unfold jail_at. rewrite O1, O2, O3 by (done || by intros E; apply Hne, framed_root).
  f_equal. by apply bool_decide_ext, O4.
Qed.
(** One action of the owner of a jail; a jail without a process can be given back. *)
Lemma jails_step h h' c x x' M :
  jails_ok h ((c, x) :: M) -> agree_off c h h' -> in_phase (jail_at c h') x' ->
  (x' <> Phase_gone -> jails_ok h' ((c, x') :: M)) /\ (x' <> Phase_running -> jails_ok h' M).
Proof.
  intros [N P L V] Ho Hx. cbn in N. apply NoDup_cons in N as [Nc N]. apply Forall_cons in P as [(Fc & Hg & Hp) P].
  assert (Forall (fun '(c, x) => framed c /\ x <> Phase_gone /\ in_phase (jail_at c h') x) M) as P'.
  { rewrite Forall_forall in P |- *. intros [c' y] Hy. destruct (P _ Hy) as (F & G & I). split_and!; try done.
    rewrite (jail_off c c' h h'); try done. intros ->. apply Nc. apply list_elem_of_fmap. by exists (c, y). }
  assert (forall c', c' ∈ h_unconfirmed h' -> framed c' /\ is_Some (h_trees h' !! root_of c')) as L'.
  { intros c' Hc'. destruct (decide (c' = c)) as [->|Hne].
    - split; [done|]. assert (j_lost (jail_at c h') = true) as Hl by by apply bool_decide_eq_true.
      destruct x'; [destruct Hx as (_ & _ & Hx)|destruct Hx as (_ & Hx)|destruct Hx as (_ & _ & Hx)|exact (proj1 Hx)]; congruence.
    - apply (off_unconfirmed _ _ _ Ho) in Hc'; [|done]. destruct (L c' Hc') as [F T]. split; [done|].
      rewrite (off_trees _ _ _ Ho); [done|]. intros E. by apply Hne, framed_root. }
  assert (forall c', is_Some (h_vms h' !! c') -> c' = c /\ (x' = Phase_running \/ c ∈ h_unconfirmed h')
    \/ (c', Phase_running) ∈ M \/ c' ∈ h_unconfirmed h') as V'.
  { intros c' Hv. destruct (decide (c' = c)) as [->|Hne].
    - left. split; [done|]. destruct Hv as [vm Hv]. assert (j_vm (jail_at c h') = Some vm) as Hvm by done.
      destruct x'; [destruct Hx as (_ & Hx & _); congruence|by left|destruct Hx as (_ & Hx & _); congruence|right; destruct Hx as [_ Hx]].
      by apply (bool_decide_eq_true (c ∈ h_unconfirmed h')).
    - right. rewrite (off_vms _ _ _ Ho) in Hv by done. destruct (V c' Hv) as [[[= ]|]%elem_of_cons|Hu]; [done|by left|].
      right. by apply (off_unconfirmed _ _ _ Ho). }
  split; intros Hx'; split; try done.
  - cbn. by constructor.
  - constructor; [by split_and!|done].
  - intros c' Hv. destruct (V' c' Hv) as [[-> [->|]]|[|]]; try (by right); left; [by left|by right].
  - intros c' Hv. destruct (V' c' Hv) as [[-> [->|]]|[|]]; try done; try (by right); by left.
Qed.
(** A change of the host that starts and ends no process and removes no tree. *)
Record host_grows (h h' : Host) : Prop := {
  hg_vms c : is_Some (h_vms h' !! c) <-> is_Some (h_vms h !! c);
  hg_trees r : is_Some (h_trees h !! r) -> is_Some (h_trees h' !! r);
  hg_lost : h_unconfirmed h' = h_unconfirmed h;
}.
#[global] Instance host_grows_preorder : PreOrder host_grows.
Proof.
  split; [by split|]. intros x y z [A1 A2 A3] [B1 B2 B3]. split; [|auto|congruence]. intros c. by rewrite B1, A1.
Qed.
Lemma phase_grows h h' c x : host_grows h h' -> x <> Phase_gone -> in_phase (jail_at c h) x -> in_phase (jail_at c h') x.
Proof.
  intros [A1 A2 A3] Hx. destruct x; cbn; rewrite ?A3; try done; intros; destruct_and!; split_and!; eauto.
  apply eq_None_not_Some. rewrite A1. by apply eq_None_not_Some.
Qed.
Lemma jails_grow h h' M : host_grows h h' -> jails_ok h M -> jails_ok h' M.
Proof.
  intros Hg [N P L V]. destruct Hg as [A1 A2 A3] eqn:E. split.
  - done.
  - rewrite Forall_forall in P |- *. intros [c x] Hc. destruct (P _ Hc) as (F & G & I). split_and!; try done.
    by eapply phase_grows.
  - rewrite A3. intros c Hc. destruct (L c Hc). auto.
  - intros c Hc. rewrite A3. apply V. by apply A1.
Qed.
Lemma ok_host w R h' : jails_ok h' (machines R) -> ok w R -> ok (set_host h' w) R.
Proof. intros Hj [A1 A2 A3 A4 A5 A6 A7 A8 A9]. by split. Qed.
(** The machines change, the rest of the resources does not. *)
Lemma ok_swap w R t t' h' :
  ok w (t ++ R) -> covers t' = covers t -> tasks t' = tasks t -> confs t' = confs t -> flights_in t' = flights_in t ->
  jails_ok h' (machines t' ++ machines R) -> ok (set_host h' w) (t' ++ R).
Proof.
  intros [A1 A2 A3 A4 A5 A6 A7 A8 A9] E1 E2 E3 E4 Hj.
  assert (guards t' = guards t) as E5 by (unfold guards; by rewrite E1).
  assert (leases t' = leases t) as E6 by (unfold leases; by rewrite E1).
  rewrite guards_app, leases_app, covers_app, tasks_app, confs_app, flights_app in *.
  split; cbn; rewrite ?guards_app, ?leases_app, ?covers_app, ?tasks_app, ?confs_app, ?flights_app, ?machines_app,
    ?E1, ?E2, ?E3, ?E4, ?E5, ?E6; done.
Qed.
(** A program on the host whose actions only let it grow. *)
Fixpoint grows {A} (p : Prog Host A) : Prop :=
  match p with
  | Ret _ => True
  | Step f k => forall h, host_grows h (f h).2 /\ grows (k (f h).1)
  end.
Lemma grows_bind {A B} (p : Prog Host A) (g : A -> Prog Host B) :
  grows p -> (forall a, grows (g a)) -> grows (p ≫= g).
Proof.
  intros Hp Hg. induction p as [a|B' f k IH]; cbn; [apply Hg|]. intros h. destruct (Hp h). split; [done|]. by apply IH.
Qed.
Lemma grows_act {A} (f : Host -> A * Host) : (forall h, host_grows h (f h).2) -> grows (act f).
Proof. intros Hf h. by split. Qed.
Lemma grows_run {A} (p : Prog Host A) h : grows p -> host_grows h (run p h).2.
Proof.
  revert h. induction p as [a|B f k IH]; intros h Hp; [done|]. cbn in *. destruct (Hp h) as [H1 H2].
  destruct (f h) as [b h']. cbn in *. etrans; [done|by apply IH].
Qed.
Lemma spec_grows {A} (p : Prog Host A) : grows p -> spec [] (drive p) (fun _ => True) (fun _ => []).
Proof.
  induction p as [a|B f k IH]; intros Hp; [by apply spec_ret|].
  change (drive (Step f k)) with (b ← act (fun w => let '(b, s) := f (w_host w) in (b, set_host s w)); drive (k b)).
  eapply (spec_bind cfg ceiling _ [] [] _ _ (fun b => exists h, b = (f h).1) (fun _ => [])); [perm| |].
  - apply spec_act. intros w R Hok. pose proof (Hp (w_host w)) as [Hg _]. destruct (f (w_host w)) as [b h'] eqn:E.
    split_and!; [done|exists (w_host w); by rewrite E|]. cbn in *. apply ok_host; [|done].
    eapply jails_grow; [exact Hg|]. by destruct Hok.
  - intros b [h ->]. apply IH. apply (Hp h).
Qed.
(** An action of the owner of a jail ends with the jail in a known phase, or without a process. *)
Definition is_step {W A} (p : Prog W A) : Prop := match p with Ret _ => False | Step _ _ => True end.
Lemma spec_jail {A} (p : Prog Host A) c x v (Q : A -> Phase -> Prop) (F : A -> Prop) (keep : A -> bool) :
  is_step p -> jail_wp in_phase c p x Q ->
  (forall a y, Q a y -> F a /\ if keep a then y = Phase_running else y <> Phase_running) ->
  spec [Res_machine c x v] (drive p) F
    (fun a => if keep a then [Res_machine c Phase_running v] else [Res_cover v]).
Proof.
  intros Hs Hp HQ. revert x Hs Hp. induction p as [a|B f k IH]; intros x Hs; [done|]. intros [_ Hf].
  intros w rest HJ. unfold J in HJ.
  assert (ok w (Res_machine c x v :: held w ++ rest)) as Hok.
  { eapply ok_perm; [|exact HJ]. cbn. by rewrite Permutation_middle. }
  pose proof (ok_jails _ _ _ _ Hok) as Hj. parts.
  assert (in_phase (jail_at c (w_host w)) x) as Hin by by (destruct Hj as [_ P _ _]; apply Forall_cons in P as [(_ & _ & ?) _]).
  specialize (Hf _ Hin). destruct (f (w_host w)) as [b h'] eqn:Ef. destruct Hf as (Ho & x' & Hx & Hk).
  destruct (jails_step _ _ _ _ x' _ Hj Ho Hx) as [J1 J2].
  assert (forall t, covers t = [v] -> tasks t = [] -> confs t = [] -> flights_in t = [] ->
    jails_ok h' (machines t ++ machines (held w) ++ machines rest) -> J cfg ceiling (set_host h' w) (t ++ rest)) as Hput.
  { intros t T1 T2 T3 T4 Tj. unfold J. change (held (set_host h' w)) with (held w).
    apply (ok_perm _ _ _ (t ++ held w ++ rest)); [rewrite !app_assoc; by rewrite (Permutation_app_comm t)|].
    apply (ok_swap w _ [Res_machine c x v]); try done. by rewrite machines_app. }
  destruct (k b) as [a|B' f' k'] eqn:Ek.
  - destruct (HQ a x' Hk) as [HF Hkeep]. exists (if keep a then [Res_machine c Phase_running v] else [Res_cover v]).
    split; [|split; [done|by apply shift_of_perm]].
    destruct (keep a); [subst x'|]; apply Hput; try done; parts; [by apply J1|by apply J2].
  - exists [Res_machine c x' v]. destruct Hk as [[v0 [Hv0 Ht0]] Hk']. split.
    + apply Hput; try done. parts. apply J1. intros ->. cbn in Hv0. destruct Hv0 as [E _]. rewrite E in Ht0. by destruct Ht0.
    + specialize (IH b). rewrite Ek in IH. apply IH; [done|]. split; [by exists v0|done].
Qed.

(** *** The driver *)

Section Driver.
Context {H : Hypervisor} (quote : string -> string).

Lemma is_step_bind {W A B} (p : Prog W A) (g : A -> Prog W B) : is_step p -> is_step (p ≫= g).
Proof. by destruct p. Qed.
Lemma framed_chroot lc : framed (chroot_for lc).
Proof.
  unfold framed. rewrite root_of_chroot. unfold chroot_for, path_join at 1.
  change (starts_with "/" "root") with false. cbn iota. by change (components "root") with ["root"].
Qed.
(** A jail that holds a machine has a tree. *)
Lemma machine_tree h M c x : jails_ok h M -> (c, x) ∈ M -> is_Some (h_trees h !! root_of c).
Proof.
  intros [_ P _ _] Hin. rewrite Forall_forall in P. destruct (P _ Hin) as (_ & Hg & Hp).
  by destruct x; [apply Hp|apply Hp| |apply Hp].
Qed.
Lemma jails_claim lc h h' M :
  jails_ok h M -> agree_off (chroot_for lc) h h' -> h_trees h !! root_for lc = None ->
  jail_at (chroot_for lc) h' = with_tree (Some ∅) (jail_at (chroot_for lc) h) ->
  jails_ok h' ((chroot_for lc, Phase_claimed) :: M).
Proof.
  intros Hj Ho Ht Hjail. set (c := chroot_for lc) in *. rewrite <- root_of_chroot in Ht. fold c in Ht.
  assert (forall x, (c, x) ∉ M) as Hfree by (intros x Hin; destruct (machine_tree _ _ _ _ Hj Hin); congruence).
  assert (c ∉ h_unconfirmed h) as Hl by (intros Hin; destruct (jo_lost _ _ Hj c Hin) as [_ []]; congruence).
  assert (h_vms h !! c = None) as Hv.
  { apply eq_None_not_Some. intros Hs. destruct (jo_processes _ _ Hj c Hs) as [Hin|Hin]; [by eapply Hfree|done]. }
  destruct Hj as [N P L V]. split.
  - cbn. constructor; [|done]. intros ([c' x] & E & Hin)%list_elem_of_fmap. cbn in E. subst c'. by eapply Hfree.
  - constructor.
    + split_and!; [apply framed_chroot|done|]. rewrite Hjail. cbn. split_and!; [done|done|by apply bool_decide_eq_false].
    + rewrite Forall_forall in P |- *. intros [c' y] Hy. destruct (P _ Hy) as (F & G & I). split_and!; try done.
      rewrite (jail_off c c' h h'); try done; [apply framed_chroot|]. intros ->. by eapply Hfree.
  - intros c' Hc'. assert (c' <> c) as Hne.
    { intros ->. assert (j_lost (jail_at c h') = true) as E by by apply bool_decide_eq_true.
      rewrite Hjail in E. cbn in E. by apply bool_decide_eq_true in E. }
    apply (off_unconfirmed _ _ _ Ho) in Hc'; [|done]. destruct (L c' Hc') as [F T]. split; [done|].
    rewrite (off_trees _ _ _ Ho); [done|]. intros E. apply Hne, framed_root; [done|apply framed_chroot|done].
  - intros c' Hs. assert (c' <> c) as Hne.
    { intros ->. assert (j_vm (jail_at c h') = None) as E by by rewrite Hjail. change (h_vms h' !! c = None) in E. rewrite E in Hs. by destruct Hs. }
    rewrite (off_vms _ _ _ Ho) in Hs by done. destruct (V c' Hs); [left; by right|right].
    by apply (off_unconfirmed _ _ _ Ho).
Qed.
Lemma spec_claim io lc v :
  spec [Res_cover v] (drive (claim_tree io (lc_chroot_base lc) (lc_workspace_id lc)))
    (fun r => match r with Ok claim => claim = claim_for lc | Err _ => True end)
    (fun r => match r with Ok _ => [Res_machine (chroot_for lc) Phase_claimed v] | Err _ => [Res_cover v] end).
Proof.
  assert (exists f, claim_tree io (lc_chroot_base lc) (lc_workspace_id lc) = act f) as [f Hf] by by eexists.
  pose proof (fun h => claim_step io lc h) as Hcs. rewrite Hf in *.
  apply (spec_act cfg ceiling (fun w => let '(b, s) := f (w_host w) in (b, set_host s w))). intros w R Hok. specialize (Hcs (w_host w)).
  cbn [run act] in Hcs. destruct (f (w_host w)) as [r h'] eqn:E. cbn [fst snd]. split; [done|]. rename Hcs into Hc.
  destruct Hc as [Ho Hc]. pose proof (ok_jails _ _ _ _ Hok) as Hj. rewrite machines_app in Hj. destruct r as [claim|e].
  - destruct Hc as (-> & Ht & Hjail). split; [done|].
    apply (ok_swap w _ [Res_cover v] [Res_machine _ _ v]); try done. by apply jails_claim with (h := w_host w).
  - split; [done|]. apply ok_host; [|done]. rewrite machines_app. eapply jails_grow; [|exact Hj].
    destruct Hc as [->|(_ & _ & ->)]; [done|]. split; [done| |done].
    intros r Hr. cbn. apply lookup_insert_is_Some'. by right.
Qed.
Definition fresh_instance (lc : LaunchConfig) (i : Instance) : Prop :=
  wf_instance i /\ i_jailer_chroot i = chroot_for lc /\ i_workspace_id i = lc_workspace_id lc
  /\ i_lifecycle_state i = WorkspaceState_Running /\ i_network_slot i = None.
Lemma fresh_instance_of lc pid boot : fresh_instance lc (instance_of lc (jailed_for lc pid) boot).
Proof.
  unfold instance_of. destruct (digests _) as [k r]. split_and!; try done. split_and!; try done. apply framed_chroot.
Qed.
(** A launch or restore takes the cover of the new machine. *)
Lemma spec_spawn io lc (g : JailedFirecracker -> Prog Host (result LaunchError Instance)) success v :
  jail_wp in_phase (chroot_for lc) (try_bind (after_claim quote io lc (claim_for lc)) g) Phase_claimed
    (phase_outcome success) ->
  (forall i, success i -> fresh_instance lc i) ->
  spec [Res_cover v] (drive (try_bind (spawn_jailed_firecracker quote io lc) g))
    (fun r => match r with Ok i => fresh_instance lc i | Err _ => True end)
    (fun r => match r with Ok i => [Res_machine (i_jailer_chroot i) Phase_running v] | Err _ => [Res_cover v] end).
Proof.
  intros Hw Hs. unfold spawn_jailed_firecracker. destruct (negb _); [by apply spec_ret|].
  apply (proj1 (wp_zoom_bind _ _ _ _ _ _ _)). apply (proj1 (wp_zoom_bind _ _ _ _ _ _ _)).
  eapply wp_mono; [|exact (spec_claim (sp_claim io) lc v)].
  intros r t' [HF Ht]. destruct r as [claim|e]; [|by split]. subst claim.
  apply (proj2 (wp_zoom_bind _ _ _ _ _ _ _)). apply (spec_shift cfg ceiling _ _ _ _ _ Ht).
  eapply spec_weaken; [|apply (spec_jail _ _ _ v (phase_outcome success) (fun r => match r with Ok i => fresh_instance lc i | Err _ => True end)
    (fun r => match r with Ok _ => true | Err _ => false end)); [|exact Hw|]].
  - intros [i|e] Hi; [|done]. split; [done|]. by destruct Hi as (_ & -> & _).
  - apply is_step_bind, is_step_bind, is_step_bind. done.
  - intros [i|e] y; cbn.
    + intros [Hi ->]. auto.
    + intros Hy. split; [done|]. destruct e; try (destruct Hy; congruence). congruence.
Qed.
Lemma spec_launch io lc v :
  spec [Res_cover v] (drive (launch quote io lc))
    (fun r => match r with Ok i => fresh_instance lc i | Err _ => True end)
    (fun r => match r with Ok i => [Res_machine (i_jailer_chroot i) Phase_running v] | Err _ => [Res_cover v] end).
Proof.
  unfold launch. destruct (negb _); [by apply spec_ret|]. eapply spec_spawn; [apply phase_launch|].
  intros i [pid ->]. apply fresh_instance_of.
Qed.
Lemma spec_restore io rl v :
  spec [Res_cover v] (drive (Firecracker.restore quote io rl))
    (fun r => match r with Ok i => fresh_instance (rl_launch rl) i | Err _ => True end)
    (fun r => match r with Ok i => [Res_machine (i_jailer_chroot i) Phase_running v] | Err _ => [Res_cover v] end).
Proof.
  unfold Firecracker.restore. destruct (lc_network _); [by apply spec_ret|]. eapply spec_spawn; [apply phase_restore|].
  intros i [pid ->]. apply fresh_instance_of.
Qed.
(** Termination, confirmed or not, gives the cover back. *)
Lemma spec_terminate io i v :
  spec [Res_machine (i_jailer_chroot i) Phase_running v] (drive (Firecracker.terminate quote io i)) (fun _ => True)
    (fun _ => [Res_cover v]).
Proof.
  eapply spec_weaken; [|apply (spec_jail _ _ _ v (fun _ y => y <> Phase_running) (fun _ => True) (fun _ => false))].
  - by intros.
  - unfold Firecracker.terminate. apply is_step_bind. destruct (await_exit _) as [[]|]; try done.
    apply is_step_bind. unfold confirm_child_exit.
    destruct (try_wait_io _) as [[]|]; [..|done]; try done. destruct (kill_io _); [|done]. by destruct (wait_io _).
  - apply (jail_terminate quote (K := phase_knowledge)); [done|by right| |done]. intros y ->. by destruct (ti_removed io).
  - done.
Qed.
Lemma spec_abandon i v :
  spec [Res_machine (i_jailer_chroot i) Phase_running v] (drive (writes (abandon (i_jailer_chroot i)))) (fun _ => True)
    (fun _ => [Res_cover v]).
Proof.
  eapply spec_weaken; [|apply (spec_jail _ _ _ v (fun _ y => y <> Phase_running) (fun _ => True) (fun _ => false))].
  - by intros.
  - done.
  - apply (jail_abandon (K := phase_knowledge)); [by right|done].
  - done.
Qed.
End Driver.

(** *** Programs that only let the host grow *)

Section Growing.
Context {H : Hypervisor} {K : Codec GuestRequest GuestResponse}.
Lemma insert_vm_grows h c vm vm' : h_vms h !! c = Some vm -> host_grows h (set_vms (<[c := vm']> (h_vms h)) h).
Proof.
  intros Hc. split; [|done|done]. intros c'. cbn. destruct (decide (c = c')) as [->|Hne].
  - rewrite lookup_insert_eq, Hc. by split.
  - by rewrite lookup_insert_ne.
Qed.
Lemma set_tree_grows h c fs : host_grows h (set_chroot_tree c fs h).
Proof.
  split; [done| |done]. intros r Hr. cbn. destruct (decide (root_of c = r)) as [<-|Hne].
  - rewrite lookup_alter_eq. by apply fmap_is_Some.
  - by rewrite lookup_alter_ne.
Qed.
Lemma put_tree_grows h r fs : host_grows h (set_trees (<[r := fs]> (h_trees h)) h).
Proof. split; [done| |done]. intros r' Hr. cbn. destruct (decide (r = r')) as [<-|Hne]; by simplify_map_eq. Qed.
Lemma snapshots_grow h s : host_grows h (set_snapshots s h).
Proof. by split. Qed.
Lemma grows_api io method socket endpoint body : grows (api_request io method socket endpoint body).
Proof.
  apply grows_act. intros h. cbn [fst snd]. destruct (_ && _); [|done].
  destruct (h_vms h !! parent_of (parent_of socket)) as [vm|] eqn:E; [|done].
  destruct (vm_apply _ _ vm) as [vm' fs]. etrans; [by eapply insert_vm_grows|apply set_tree_grows].
Qed.
Lemma grows_new_dir io c : grows (make_snapshot_dir io c).
Proof.
  apply grows_act. intros h. destruct io; [|done]. destruct (create_dir_all 493 _ _) as [[] fs]; apply put_tree_grows.
Qed.
Lemma grows_snapshot_create io socket c : grows (snapshot_create_at io socket c).
Proof.
  apply grows_bind; [apply grows_new_dir|]. intros [[]|]; [|done]. apply grows_bind; [done|]. intros [[]|]; [|done].
  apply grows_bind; [apply grows_api|]. by intros [[]|].
Qed.
Lemma grows_guest_call env c req timeout vsock : grows (guest_call env c req timeout vsock).
Proof.
  apply grows_act. intros h. cbn zeta. destruct (h_vms h !! parent_of vsock) as [vm|] eqn:E; [|done]. cbn.
  destruct (vm_guest vm) as [g|]; [|done]. cbn. destruct (guest_rpc _ _ _ _ g) as [r g']. by eapply insert_vm_grows.
Qed.
Lemma grows_wait_ready env turns timeout vsock : grows (wait_ready env turns timeout vsock).
Proof.
  induction turns as [|[c expired] turns IH]; [done|]. apply grows_bind; [apply grows_guest_call|].
  intros [[]|]; try done; by destruct expired.
Qed.
Lemma grows_copy_out mc io linked c file put id : grows (copy_out mc io linked c file put id).
Proof.
  apply grows_act. intros h. destruct io; [|done].
  destruct (h_trees h !! root_of c) as [fs|]; [|done]. cbn. destruct (read_following _ _ fs); [|done]. apply snapshots_grow.
Qed.
Lemma grows_writes f : (forall h, host_grows h (f h)) -> grows (writes f).
Proof. intros Hf. by apply grows_act. Qed.
End Growing.

(** ** The registry *)

Lemma set_state_outcome l g i old st r l' :
  wf (locked l) -> rw_entry_id g = Some i ->
  entry_of (locked l) i = Some (inl (WorkspaceCapacityState_Registered old)) ->
  set_state g st l = (r, l') -> match r with Ok _ => True | Err _ => ~ healthy l' end.
Proof.
  intros Hwf Hg He E. destruct r as [[]|e]; [done|]. pose proof (set_state_cases _ Hwf g st _ _ E) as Hq.
  intros Hh. apply quiet_facts in Hq as [Hh' _]. specialize (Hh' Hh). destruct l as [p s], Hh' as [Hp Hf]. cbn in *. subst p.
  destruct g as [o]. cbn in Hg. subst o. destruct (decide (cs_revision s < U64_MAX)) as [Hr|Hr].
  - destruct (set_state_present s Hf Hr i old st He) as [l1 E1]. congruence.
  - destruct (wf_revision _ Hwf). destruct i as [id|n]; cbn in He; [|by destruct (cs_pool_entries s !! _)].
    destruct (cs_workspaces s !! _) as [[[] cpu mem]|] eqn:Hw; cbn in He; simplify_eq.
    unfold set_state, with_lock, ensure_healthy, preflight_next_revision in E. cbn in E. unfold_m. rewrite Hf in E. cbn in E.
    rewrite Hw in E. cbn in E. case_bool_decide; [done|]. rewrite Hf, next_revision_eq in E by done.
    destruct (Z.eqb_spec (cs_revision s) U64_MAX); [|lia]. injection E as _ <-. by destruct Hh.
Qed.
(** A change of state of a registered workspace, with the ledger entry. *)
Lemma ok_set_state w R o g old st r l' :
  ok w (with_cover o (Cover_registered g old) :: R) -> set_state g st (w_ledger w) = (r, l') ->
  ok (set_ledger l' w) (with_cover o (Cover_registered g match r with Ok _ => st | Err _ => old end) :: R)
  /\ match r with Ok _ => True | Err _ => ~ healthy l' end.
Proof.
  intros Hok E. pose proof (books_wf _ _ (ok_ledger _ _ _ _ Hok)) as Hwf. cbn in Hwf.
  assert (state_known (w_ledger w) (Cover_registered g old)) as (i & Hg & He).
  { destruct Hok as [_ A2 _ _ _ _ _ _ _]. rewrite covers_cons in A2. by destruct o as [[]|]; apply Forall_cons in A2 as [? _]. }
  pose proof (set_state_outcome _ _ _ _ _ _ _ Hwf Hg He E) as Hout. split; [|done].
  pose proof (set_state_cases _ Hwf g st _ _ E) as Hr. destruct r as [[]|e]; [|by apply ok_quiet].
  destruct Hr as (i' & old' & Hg' & Hh & He' & Hl). assert (i' = i) as -> by congruence. assert (old' = old) as -> by congruence.
  eapply ok_cover_step; [exact Hok| |done|done|done| |].
  - intros g0 [= <-] Hi. exact (books_step ceiling _ _ (step_set_state _ _ _ _ _ _ _ E) Hi).
  - intros j e Hj Hje. destruct Hl as [[-> ->]|(_ & _ & Hu)]; [done|].
    eapply frame_upd; [exact Hu| |done]. intros <-. by apply (Hj _ eq_refl).
  - exists i. split; [done|]. destruct Hl as [[-> ->]|(_ & _ & Hu)]; [done|]. by rewrite Hu, upd_same.
Qed.
Lemma ok_instances w R R' m' :
  ok w R -> guards R' = guards R -> Forall (state_known (w_ledger w)) (covers R') -> machines R' ≡ₚ machines R ->
  (leases R').*1 = (leases R).*1 -> tasks R' = tasks R -> confs R' = confs R -> flights_in R' = flights_in R ->
  registry_ok (w_ledger w) m' (leases R') -> ok (set_instances m' w) R'.
Proof.
  intros [A1 A2 A3 A4 A5 A6 A7 A8 A9] E1 E2 E3 E4 E5 E6 E7 Hr.
  split; cbn; rewrite ?E1, ?E4, ?E5, ?E6, ?E7; try done. by eapply jails_perm; [symmetry; exact E3|].
Qed.
(** All resources but those of one workspace. *)
Definition rest_of (id : string) (w : World) (R : list Res) : list Res :=
  registry_res (delete id (w_instances w)) ++ pool_res (w_pool w) ++ (w_jobs w ≫= job_res) ++ R.
Lemma registry_insert (m : gmap string WorkspaceExec) id e :
  registry_res (<[id := e]> m) ≡ₚ exec_res e ++ registry_res (delete id m).
Proof.
  rewrite <- insert_delete_eq. unfold registry_res. rewrite map_to_list_insert by apply lookup_delete_eq. done.
Qed.
Lemma held_present w R id e : w_instances w !! id = Some e -> held w ++ R ≡ₚ exec_res e ++ rest_of id w R.
Proof.
  intros He. unfold held, rest_of. rewrite <- (insert_id _ _ _ He) at 1. rewrite registry_insert. by rewrite <- !app_assoc.
Qed.
Lemma held_update w w' R id e :
  w_instances w' = <[id := e]> (w_instances w) -> w_pool w' = w_pool w -> w_jobs w' = w_jobs w ->
  held w' ++ R ≡ₚ exec_res e ++ rest_of id w R.
Proof. intros E1 E2 E3. unfold held, rest_of. rewrite E1, E2, E3, registry_insert. by rewrite <- !app_assoc. Qed.
Lemma held_absent w R id : w_instances w !! id = None -> rest_of id w R = held w ++ R.
Proof. intros Hn. unfold held, rest_of. rewrite delete_id by done. by rewrite <- !app_assoc. Qed.
Lemma held_delete w R id : held (set_instances (delete id (w_instances w)) w) ++ R = rest_of id w R.
Proof. unfold held, rest_of. cbn. by rewrite <- !app_assoc. Qed.
(** One id changes, by the holder of its lease or by its removal. *)
Lemma registry_change l m L L' id e' :
  registry_ok l m L ->
  (forall id' u, id' <> id -> ((id', u) ∈ L <-> (id', u) ∈ L')) ->
  match e' with
  | Some e => exec_ok l L' id e /\ ((id, Lease_boot) ∉ L')
      /\ (forall b, (id, Lease_marked b) ∈ L' -> exists i g, e = WorkspaceExec_Firecracker i g /\ i_boot_id i = b)
  | None => True
  end ->
  registry_ok l (partial_alter (fun _ => e') id m) L'.
Proof.
  intros [B1 B2 B3] HL He. split.
  - intros id' e. destruct (decide (id' = id)) as [->|Hne].
    + rewrite lookup_partial_alter_eq. intros ->. by apply He.
    + rewrite lookup_partial_alter_ne by done. intros Hm. specialize (B1 id' e Hm). destruct e; cbn in *; [|done].
      destruct B1 as (C1 & C2 & C3 & C4). split_and!; try done. intros. apply HL; auto.
  - intros id' Hi. destruct (decide (id' = id)) as [->|Hne].
    + rewrite lookup_partial_alter_eq. destruct e' as [e|]; [|done]. by destruct He as (_ & He & _).
    + rewrite lookup_partial_alter_ne by done. apply B2. by apply HL.
  - intros id' b e Hi. destruct (decide (id' = id)) as [->|Hne].
    + rewrite lookup_partial_alter_eq. intros ->. by apply He.
    + rewrite lookup_partial_alter_ne by done. apply B3. by apply HL.
Qed.
Section Registry.
Context (t : Texts).
Local Abbreviation lease id u := (Res_cover (Cover_lease id u)).
Local Abbreviation running i v := (Res_machine (i_jailer_chroot i) Phase_running v).

(** A lease is held once. *)
Lemma lease_once w id u X : ok w (lease id u :: X) -> forall u', (id, u') ∉ leases X.
Proof.
  intros Hok u' Hu. pose proof (ok_leases _ _ _ _ Hok) as [Nl _]. parts. cbn in Nl. apply NoDup_cons in Nl as [Nl _].
  apply Nl. apply list_elem_of_fmap. by exists (id, u').
Qed.
(** The holder of the lease of an id changes what is registered under it. *)
Lemma ok_relet w id u u' T T' X e' :
  ok w (lease id u :: T ++ X) ->
  guards T' = guards T -> Forall (state_known (w_ledger w)) (covers T') -> machines T' ≡ₚ machines T ->
  leases T = [] -> leases T' = [] -> tasks T' = tasks T -> confs T' = confs T -> flights_in T' = flights_in T ->
  match e' with
  | Some e => exec_ok (w_ledger w) [(id, u')] id e /\ u' <> Lease_boot
      /\ forall b, u' = Lease_marked b -> exists i g, e = WorkspaceExec_Firecracker i g /\ i_boot_id i = b
  | None => True
  end ->
  ok (set_instances (partial_alter (fun _ => e') id (w_instances w)) w) (lease id u' :: T' ++ X).
Proof.
  intros Hok E1 E2 E3 E4 E4' E5 E6 E7 He. pose proof (lease_once _ _ _ _ Hok) as Hl.
  pose proof (ok_states _ _ _ _ Hok) as A2. pose proof (ok_registry _ _ _ _ Hok) as A5.
  eapply ok_instances; [exact Hok|..]; parts; rewrite ?E1, ?E4, ?E4', ?E5, ?E6, ?E7; try done.
  - apply Forall_cons in A2 as [_ A2]. apply Forall_app in A2 as [_ A2]. constructor; [done|]. by apply Forall_app.
  - by rewrite E3.
  - rewrite E4 in *. cbn [app] in *. eapply registry_change; [exact A5| |].
    + intros id' u0 Hne. set_solver.
    + destruct e' as [e|]; [|done]. destruct He as (H1 & H2 & H3). split_and!.
      * destruct e; cbn in *; [|done]. destruct H1 as (C1 & C2 & C3 & C4). split_and!; try done.
        intros F1 F2. specialize (C4 F1 F2). set_solver.
      * intros [[= <-]|Hb]%elem_of_cons; [done|by apply (Hl _ Hb)].
      * intros b [[= <-]|Hb]%elem_of_cons; [by apply H3|by destruct (Hl _ Hb)].
Qed.
(** The holder of a boot lease registers its machine: the id is free. *)
Lemma spec_place id pending i g :
  pf_instance pending = Some i -> pf_capacity_owner pending = Some (PendingCapacityOwner_Registered g) ->
  rw_entry_id g = Some (CapacityEntryId_Workspace id) -> wf_instance i -> i_workspace_id i = id ->
  i_lifecycle_state i <> WorkspaceState_Snapshotting ->
  spec [lease id Lease_boot; running i (Cover_registered g (i_lifecycle_state i))]
    (act (fun w =>
       match w_instances w !! id, into_workspace pending with
       | Some _, _ => (Some false, w)
       | None, Some workspace => (Some true, set_instances (<[id := workspace]> (w_instances w)) w)
       | None, None => (None, w)
       end))
    (fun placed => placed = Some true) (fun _ => [lease id Lease_plain]).
Proof.
  intros Hi Ho Hg Hwf Hid Hst. apply spec_shared. intros w R Hok.
  assert (w_instances w !! id = None) as Hn.
  { destruct Hok as [_ _ _ _ [_ B2 _] _ _ _ _]. apply B2. parts. set_solver. }
  unfold into_workspace. rewrite Hn, Hi, Ho. cbn [fst snd]. split; [done|].
  eapply ok_perm; [symmetry; apply held_update; done|]. rewrite held_absent by done.
  set (M := running i (Cover_registered g (i_lifecycle_state i))) in *.
  apply (ok_perm _ _ _ (lease id Lease_plain :: [M] ++ held w ++ R)); [cbn; solve_Permutation|].
  apply (ok_relet w id Lease_boot Lease_plain [M] [M] _ (Some (WorkspaceExec_Firecracker i g))); try done.
  - eapply ok_perm; [|exact Hok]. cbn. solve_Permutation.
  - pose proof (ok_states _ _ _ _ Hok) as A2. subst M. parts. rewrite Forall_app, !Forall_cons in A2. apply Forall_singleton, A2.
Qed.
Lemma spec_remove id :
  spec [] (act (fun w => (w_instances w !! id, set_instances (delete id (w_instances w)) w))) (fun _ => True)
    (fun removed => match removed with Some e => exec_res e | None => [] end).
Proof.
  apply spec_shared. intros w R Hok. cbn [fst snd app] in *. split; [done|]. rewrite held_delete.
  destruct (w_instances w !! id) as [e|] eqn:He.
  - apply (ok_perm _ _ _ (held w ++ R)); [rewrite (held_present _ _ _ _ He); unfold rest_of; solve_Permutation|].
    eapply ok_instances; try done; [apply (ok_states _ _ _ _ Hok)|].
    apply (registry_change _ _ (leases (held w ++ R)) _ id None); [apply (ok_registry _ _ _ _ Hok)|done|done].
  - rewrite held_absent by done. rewrite delete_id by done. apply (ok_core w); [by repeat split|done].
Qed.
Lemma spec_mark req id : sr_workspace_id req = id ->
  spec [lease id Lease_plain] (mark_snapshotting t req)
    (fun r => match r with Ok c => wf_instance (sc_instance c) /\ i_workspace_id (sc_instance c) = id | Err _ => True end)
    (fun r => [lease id match r with Ok c => Lease_marked (i_boot_id (sc_instance c)) | Err _ => Lease_plain end]).
Proof.
  intros Hreq. unfold mark_snapshotting. rewrite Hreq. apply spec_shared. intros w R Hok.
  assert (forall w', same_core w w' -> ok w' (held w' ++ [lease id Lease_plain] ++ R)) as Hsame.
  { intros w' Hc. assert (held w' = held w) as -> by (unfold held; destruct Hc as (_&_&_&_&_&->&->&_&_&->); done). by eapply ok_core. }
  destruct (w_instances w !! id) as [[i g|s g]|] eqn:He; [|by split; [|apply Hsame]..].
  case_bool_decide; [by split; [|apply Hsame]|]. destruct (snapshot_preflight _ _); [|by split; [|apply Hsame]].
  destruct (_ && _); [by split; [|apply Hsame]|].
  destruct (set_state g WorkspaceState_Snapshotting (w_ledger w)) as [r l'] eqn:Es.
  set (X := rest_of id w R).
  assert (ok w (running i (Cover_registered g (i_lifecycle_state i)) :: lease id Lease_plain :: X)) as Hok1.
  { eapply ok_perm; [|exact Hok]. rewrite (held_present _ _ _ _ He). unfold X, rest_of. cbn. solve_Permutation. }
  destruct (ok_set_state w _ (Some (_, _)) _ _ _ _ _ Hok1 Es) as [Hok2 Hh].
  pose proof (ro_exec _ _ _ (ok_registry _ _ _ _ Hok) _ _ He) as (Hg & Hwf & Hid & _).
  destruct r as [[]|e]; cbn [fst snd].
  - split; [done|]. eapply ok_perm; [symmetry; by apply (held_update w)|].
    set (i' := with_state WorkspaceState_Snapshotting i).
    apply (ok_perm _ _ _ (lease id (Lease_marked (i_boot_id i)) :: [running i (Cover_registered g WorkspaceState_Snapshotting)] ++ X));
      [unfold X, rest_of; cbn; solve_Permutation|].
    apply (ok_relet (set_ledger l' w) id Lease_plain _ [running i (Cover_registered g WorkspaceState_Snapshotting)] _ _
      (Some (WorkspaceExec_Firecracker i' g))); try done.
    + eapply ok_perm; [|exact Hok2]. cbn. solve_Permutation.
    + pose proof (ok_states _ _ _ _ Hok2) as A2. parts. apply Forall_cons in A2 as [A2 _]. by constructor.
    + cbn. split_and!; try done; [intros _ _; by left|]. intros b [= <-]. by eexists _, _.
  - split; [done|]. change (held (set_ledger l' w)) with (held w). eapply ok_perm; [|exact Hok2].
    rewrite (held_present _ _ _ _ He). unfold X, rest_of. cbn. solve_Permutation.
Qed.

Context {H : Hypervisor}.
(** The state a snapshot leaves behind. *)
Definition resolves (a : SnapshotFinalize) : Prop :=
  match a with SnapshotFinalize_Set s => s <> WorkspaceState_Snapshotting | SnapshotFinalize_ResumeInPlace => True end.
(** The mark is resolved: the boot is gone, or in a state of rest, or the ledger is out of service. *)
Lemma spec_finalize io id boot action : resolves action ->
  spec [lease id (Lease_marked boot)] (finalize_snapshot_state io id boot action) (fun _ => True)
    (fun _ => [lease id Lease_plain]).
Proof.
  intros Ha. apply spec_shared. intros w R Hok. split; [done|].
  assert (ok w (lease id (Lease_marked boot) :: held w ++ R)) as Hok0 by (eapply ok_perm; [|exact Hok]; cbn; solve_Permutation).
  assert (forall w', held w' = held w -> ok w' (lease id Lease_plain :: held w ++ R) ->
    ok w' (held w' ++ [lease id Lease_plain] ++ R)) as Hback.
  { intros w' -> Hok'. eapply ok_perm; [|exact Hok']. cbn. solve_Permutation. }
  pose proof (ok_registry _ _ _ _ Hok0) as Hreg. parts.
  destruct (w_instances w !! id) as [e|] eqn:He.
  2: { cbn [fst snd]. apply Hback; [done|]. apply (ok_core (set_instances (partial_alter (fun _ => None) id (w_instances w)) w)).
    - repeat split. cbn. symmetry. exact (delete_id _ _ He).
    - by apply (ok_relet w id (Lease_marked boot) Lease_plain [] [] _ None). }
  destruct (ro_marked _ _ _ Hreg id boot e) as (i & g & -> & Hb); [by left|done|].
  rewrite Hb, String.eqb_refl. cbn [negb].
  set (outcome := match action with SnapshotFinalize_Set _ => _ | _ => _ end).
  assert (host_grows (w_host w) outcome.2 /\ outcome.1 <> WorkspaceState_Snapshotting) as [Hg Hst].
  { unfold outcome. destruct action as [s|]; [done|].
    pose proof (grows_run (resume_at io (i_api_socket_host i)) (w_host w) (grows_api _ _ _ _ _)) as Hg.
    destruct (run _ (w_host w)) as [[] h]; by split. }
  clearbody outcome. destruct outcome as [st h]. cbn [fst snd] in Hg, Hst.
  set (X := rest_of id w R).
  set (w1 := set_host h w).
  assert (ok w1 (running i (Cover_registered g (i_lifecycle_state i)) :: lease id (Lease_marked boot) :: X)) as Hok1.
  { apply ok_host.
    - eapply jails_grow; [exact Hg|]. eapply jails_perm; [|apply (ok_jails _ _ _ _ Hok)].
      rewrite (held_present _ _ _ _ He). unfold X, rest_of. cbn. apply machines_perm. solve_Permutation.
    - eapply ok_perm; [|exact Hok]. rewrite (held_present _ _ _ _ He). unfold X, rest_of. cbn. solve_Permutation. }
  destruct (set_state g st (w_ledger w1)) as [r l'] eqn:Es.
  destruct (ok_set_state w1 _ (Some (_, _)) _ _ _ _ _ Hok1 Es) as [Hok2 Hh].
  pose proof (ro_exec _ _ _ Hreg _ _ He) as (Hge & Hwf & Hid & _).
  destruct r as [[]|e]; cbn [fst snd].
  - eapply ok_perm; [symmetry; by apply (held_update w)|].
    apply (ok_perm _ _ _ (lease id Lease_plain :: [running i (Cover_registered g st)] ++ X));
      [unfold X, rest_of; cbn; solve_Permutation|].
    apply (ok_relet (set_ledger l' w1) id (Lease_marked boot) _ [running i (Cover_registered g st)] _ _
      (Some (WorkspaceExec_Firecracker (with_state st i) g))); try done.
    + eapply ok_perm; [|exact Hok2]. cbn. solve_Permutation.
    + pose proof (ok_states _ _ _ _ Hok2) as A2. parts. apply Forall_cons in A2 as [A2 _]. by constructor.
  - change (held (set_ledger l' w1)) with (held w).
    apply (ok_core (set_instances (partial_alter (fun _ => Some (WorkspaceExec_Firecracker i g)) id (w_instances w)) (set_ledger l' w1))).
    { repeat split. cbn. symmetry. exact (insert_id _ _ _ He). }
    apply (ok_perm _ _ _ (lease id Lease_plain :: [running i (Cover_registered g (i_lifecycle_state i))] ++ X)).
    { rewrite (held_present _ _ _ _ He). unfold X, rest_of. cbn. solve_Permutation. }
    apply (ok_relet (set_ledger l' w1) id (Lease_marked boot) _ [running i (Cover_registered g (i_lifecycle_state i))] _ _
      (Some (WorkspaceExec_Firecracker i g))); try done.
    + eapply ok_perm; [|exact Hok2]. cbn. solve_Permutation.
    + pose proof (ok_states _ _ _ _ Hok2) as A2. parts. apply Forall_cons in A2 as [A2 _]. by constructor.
Qed.
(** The restored machine takes the place, and the entry, of the old one. *)
Lemma spec_swap id boot fresh :
  wf_instance fresh -> i_lifecycle_state fresh = WorkspaceState_Running ->
  spec [running fresh (Cover_lease id Lease_plain)] (swap_instance t id boot fresh) (fun _ => True)
    (fun r => match r with
              | Ok old => [running old (Cover_lease id Lease_plain)]
              | Err _ => [running fresh (Cover_lease id Lease_plain)]
              end).
Proof.
  intros Hwf Hrun. apply spec_shared. intros w R Hok. split; [done|].
  destruct (w_instances w !! id) as [[old g|s g]|] eqn:He; [|by eapply ok_core..].
  destruct (negb _); [by eapply ok_core|].
  destruct (set_state g WorkspaceState_Running (w_ledger w)) as [r l'] eqn:Es.
  set (X := rest_of id w R).
  assert (ok w (running old (Cover_registered g (i_lifecycle_state old)) :: running fresh (Cover_lease id Lease_plain) :: X)) as Hok1.
  { eapply ok_perm; [|exact Hok]. rewrite (held_present _ _ _ _ He). unfold X, rest_of. cbn. solve_Permutation. }
  destruct (ok_set_state w _ (Some (_, _)) _ _ _ _ _ Hok1 Es) as [Hok2 Hh].
  pose proof (ro_exec _ _ _ (ok_registry _ _ _ _ Hok) _ _ He) as (Hg & _ & _ & _).
  destruct r as [[]|e]; cbn [fst snd].
  - eapply ok_perm; [symmetry; by apply (held_update w)|].
    apply (ok_perm _ _ _ (running fresh (Cover_registered g WorkspaceState_Running) :: running old (Cover_lease id Lease_plain) :: X)).
    { unfold X, rest_of. cbn [exec_res with_id i_jailer_chroot i_lifecycle_state]. rewrite Hrun. cbn. solve_Permutation. }
    pose proof (ok_leases _ _ _ _ Hok2) as [Nl _]. pose proof (ok_states _ _ _ _ Hok2) as A2.
    pose proof (ok_registry _ _ _ _ Hok2) as A5.
    eapply ok_instances; [exact Hok2|..]; parts; try done; [by apply Permutation_swap|].
    apply (registry_change _ _ _ _ id (Some _) A5); [done|]. cbn in Nl. apply NoDup_cons in Nl as [Nl _].
    assert (forall u, (id, u) ∉ leases X) as Hl by (intros u Hu; apply Nl; apply list_elem_of_fmap; by exists (id, u)).
    split_and!.
    + cbn. split_and!; try done. by rewrite Hrun.
    + intros [[=]|Hb]%elem_of_cons. by apply (Hl _ Hb).
    + intros b [[=]|Hb]%elem_of_cons. by destruct (Hl _ Hb).
  - change (held (set_ledger l' w)) with (held w). eapply ok_perm; [|exact Hok2].
    rewrite (held_present _ _ _ _ He). unfold X, rest_of. cbn. solve_Permutation.
Qed.
End Registry.

(** ** The confidential slot *)

Lemma ok_conf w R R' n l :
  ok w R -> covers R' = covers R -> machines R' = machines R -> tasks R' = tasks R -> flights_in R' = flights_in R ->
  0 <= n /\ n + list_len (confs R') = 1 /\ l ≡ₚ omap id (confs R') -> ok (set_confidential n l w) R'.
Proof.
  intros [A1 A2 A3 A4 A5 A6 A7 A8 A9] E1 E2 E3 E4 Hc. unfold guards, leases in *.
  split; unfold guards, leases; cbn; rewrite ?E1, ?E2, ?E3, ?E4; done.
Qed.
Lemma spec_acquire :
  spec [] try_acquire_confidential_capacity (fun _ => True) (fun b => if b : bool then [Res_confidential None] else []).
Proof.
  apply spec_act. intros w R Hok. destruct (Z.ltb_spec 0 (w_permits w)); [|done]. split_and!; [done|done|]. cbn.
  pose proof (ok_confidential _ _ _ _ Hok) as (H1 & H2 & H3). parts.
  eapply ok_conf; [exact Hok|done..|]. parts. rewrite list_len_cons. cbn. split_and!; [lia|lia|done].
Qed.
Lemma spec_drop_permit : spec [Res_confidential None] drop_permit (fun _ => True) (fun _ => []).
Proof.
  apply spec_act. intros w R Hok. split_and!; [done|done|]. cbn.
  pose proof (ok_confidential _ _ _ _ Hok) as (H1 & H2 & H3). parts. rewrite list_len_cons in H2. cbn in H3.
  eapply ok_conf; [exact Hok|done..|]. parts. split_and!; [lia|lia|done].
Qed.
Lemma ok_strays w l R : ok w R -> ok (set_strays l w) R.
Proof. apply ok_core. by repeat split. Qed.
Lemma spec_sandbox_spawn io id :
  spec [Res_confidential None] (sandbox_spawn io id)
    (fun r => match r with Ok s => sb_workspace_id s = id | Err _ => True end)
    (fun r => [Res_confidential match r with Ok s => Some s | Err _ => None end]).
Proof.
  apply spec_act. intros w R Hok. destruct (sx_spawn io) as [[]|e].
  2: { destruct e; split_and!; try done; by apply ok_strays. }
  split_and!; [done|done|]. cbn.
  pose proof (ok_confidential _ _ _ _ Hok) as (H1 & H2 & H3). parts. rewrite list_len_cons in H2. cbn in H3.
  eapply ok_conf; [exact Hok|done..|]. parts. rewrite list_len_cons. cbn. split_and!; [lia|lia|by rewrite H3].
Qed.
Lemma spec_sandbox_terminate io s :
  spec [Res_confidential (Some s)] (sandbox_terminate io s) (fun _ => True) (fun _ => [Res_confidential None]).
Proof.
  apply spec_act. intros w R Hok. split_and!; [by destruct (exit_confirmed io)|done|]. cbn [fst snd].
  cut (ok (set_confidential (w_permits w) (remove_sandbox s (w_sandboxes w)) w) ([Res_confidential None] ++ R)).
  { destruct (exit_confirmed io); [done|apply ok_strays]. }
  pose proof (ok_confidential _ _ _ _ Hok) as (H1 & H2 & H3). parts. rewrite list_len_cons in H2. cbn in H3.
  pose proof (list_len_nonneg (confs R)). assert (confs R = []) as Hr.
  { destruct (confs R); [done|]. rewrite list_len_cons in *. pose proof (list_len_nonneg l). lia. }
  rewrite Hr in *. cbn in H3. apply Permutation_singleton_r in H3.
  eapply ok_conf; [exact Hok|done..|]. parts. rewrite Hr, H3. unfold remove_sandbox. cbn. rewrite String.eqb_refl. cbn.
  split_and!; [lia|done|done].
Qed.
Lemma spec_place_sandbox id s g :
  rw_entry_id g = Some (CapacityEntryId_Workspace id) -> sb_workspace_id s = id ->
  spec [Res_cover (Cover_lease id Lease_boot); Res_cover (Cover_registered g WorkspaceState_Running); Res_confidential (Some s)]
    (act (fun w =>
       match w_instances w !! id with
       | Some _ => (false, w)
       | None => (true, set_instances (<[id := WorkspaceExec_OpenShell s g]> (w_instances w)) w)
       end))
    (fun placed => placed = true) (fun _ => [Res_cover (Cover_lease id Lease_plain)]).
Proof.
  intros Hg Hid. apply spec_shared. intros w R Hok.
  assert (w_instances w !! id = None) as Hn.
  { destruct Hok as [_ _ _ _ [_ B2 _] _ _ _ _]. apply B2. parts. set_solver. }
  rewrite Hn. cbn [fst snd]. split; [done|].
  eapply ok_perm; [symmetry; apply held_update; done|]. rewrite held_absent by done.
  set (M := [Res_cover (Cover_registered g WorkspaceState_Running); Res_confidential (Some s)]).
  apply (ok_perm _ _ _ (Res_cover (Cover_lease id Lease_plain) :: M ++ held w ++ R)); [unfold M; cbn; solve_Permutation|].
  apply (ok_relet w id Lease_boot Lease_plain M M _ (Some (WorkspaceExec_OpenShell s g))); try done.
  - eapply ok_perm; [|exact Hok]. unfold M. cbn. solve_Permutation.
  - pose proof (ok_states _ _ _ _ Hok) as A2. subst M. parts. rewrite Forall_app, !Forall_cons in A2. apply Forall_singleton, A2.
Qed.

(** ** The pool *)

Lemma ok_pool_set w R R' o :
  ok w R -> covers R' = covers R -> machines R' = machines R -> tasks R' = tasks R -> confs R' = confs R ->
  pool_ok cfg o (flights_in R') -> ok (set_pool o w) R'.
Proof.
  intros [A1 A2 A3 A4 A5 A6 A7 A8 A9] E1 E2 E3 E4 Hp. unfold guards, leases in *.
  split; unfold guards, leases; cbn; rewrite ?E1, ?E2, ?E3, ?E4; done.
Qed.
(** A step of the pool keeps its invariant. *)
Lemma pool_ok_step l p p' F F' :
  (forall k, exists l' k', pool_step {| pool := p; pool_ledger := l; flights := F; refill := None; leaked := k |}
     {| pool := p'; pool_ledger := l'; flights := F'; refill := None; leaked := k' |}) ->
  Forall member_ok (members p') -> pool_ok cfg (Some p) F -> pool_ok cfg (Some p') F'.
Proof.
  intros Hs Hm. unfold pool_ok. destruct (cf_warm_pool cfg) as [c|]; [|done]. intros (_ & l0 & k & Hi). split; [done|].
  apply (pool_inv_step _ _ _ (ps_ledger _ _ l _ _ _)) in Hi.
  destruct (Hs k) as (l' & k' & Hst). exists l', k'. by eapply pool_inv_step.
Qed.
Lemma pool_ok_members o F p : o = Some p -> pool_ok cfg o F -> Forall member_ok (members p).
Proof. intros ->. unfold pool_ok. destruct (cf_warm_pool cfg); [|done]. by intros [? _]. Qed.
Lemma spec_pool_pop :
  spec [] pool_pop (fun o => match o with Some m => member_ok m | None => True end)
    (fun o => match o with Some m => member_res m | None => [] end).
Proof.
  apply spec_shared. intros w R Hok. cbn [app] in *. destruct (w_pool w) as [p|] eqn:Ep; [|done].
  pose proof (pool_ok_members _ _ _ Ep (ok_pool _ _ _ _ Hok)) as Hm.
  destruct (pop p) as [o p'] eqn:E. pose proof E as E'. unfold pop in E. destruct (members p) as [|m ms] eqn:Eml; injection E as <- <-; cbn [fst snd].
  - split; [done|]. assert (held (set_pool (Some p) w) = held w) as -> by (unfold held; by rewrite Ep).
    apply (ok_core w); [|done]. repeat split. by rewrite Ep.
  - apply Forall_cons in Hm as [Hm Hms]. split; [done|].
    apply (ok_perm _ _ _ (held w ++ R)).
    { unfold held. rewrite Ep. cbn. rewrite Eml. cbn. rewrite <- !app_assoc. solve_Permutation. }
    eapply ok_pool_set; try done. pose proof (ok_pool _ _ _ _ Hok) as Hp. rewrite Ep in Hp.
    eapply (pool_ok_step (w_ledger w)); [|done|exact Hp]. intros k. eexists _, k. by eapply ps_pop.
Qed.
Lemma spec_drain :
  spec [] (act (fun w =>
    match w_pool w with
    | Some p => let '(ms, p') := drain p in (ms, set_pool (Some p') w)
    | None => ([], w)
    end)) (fun ms => Forall member_ok ms) (fun ms => ms ≫= member_res).
Proof.
  apply spec_shared. intros w R Hok. cbn [app] in *. destruct (w_pool w) as [p|] eqn:Ep; [|done].
  pose proof (pool_ok_members _ _ _ Ep (ok_pool _ _ _ _ Hok)) as Hm. unfold drain. cbn [fst snd]. split; [done|].
  apply (ok_perm _ _ _ (held w ++ R)).
  { unfold held. rewrite Ep. cbn. rewrite <- !app_assoc. solve_Permutation. }
  eapply ok_pool_set; try done. pose proof (ok_pool _ _ _ _ Hok) as Hp. rewrite Ep in Hp.
  eapply (pool_ok_step (w_ledger w)); [|done|exact Hp]. intros k. eexists _, k. by eapply ps_drain.
Qed.
Lemma spec_push m permit : member_ok m ->
  spec (Res_flight (Flight_ready m permit) :: member_res m)
    (writes (fun w => match w_pool w with Some p => set_pool (Some (push_back m p)) w | None => w end))
    (fun _ => True) (fun _ => [Res_flight (Flight_stowed permit)]).
Proof.
  intros Hmo. apply spec_shared. intros w R Hok. cbn [fst snd]. split; [done|].
  assert (ok w (Res_flight (Flight_ready m permit) :: member_res m ++ held w ++ R)) as Hok0.
  { eapply ok_perm; [|exact Hok]. cbn. solve_Permutation. }
  pose proof (ok_pool _ _ _ _ Hok0) as Hp. parts. destruct (w_pool w) as [p|] eqn:Ep.
  2: { unfold pool_ok in Hp. by destruct (cf_warm_pool cfg). }
  pose proof (pool_ok_members _ _ _ eq_refl Hp) as Hm.
  apply (ok_perm _ _ _ (Res_flight (Flight_stowed permit) :: member_res m ++ held w ++ R)).
  { unfold held. rewrite Ep. cbn. rewrite bind_app. cbn. rewrite app_nil_r, <- !app_assoc. solve_Permutation. }
  eapply ok_pool_set; [exact Hok0|..]; parts; try done.
  apply (pool_ok_step (w_ledger w) p _ _ _ (fun k => ex_intro _ _ (ex_intro _ k (ps_push _ _ _ _ _ _)))); [|exact Hp].
  by apply Forall_app; split; [|constructor].
Qed.
(** The flights change, the rest of the resources does not. *)
Lemma ok_flights w R R' :
  ok w R -> covers R' = covers R -> machines R' = machines R -> tasks R' = tasks R -> confs R' = confs R ->
  pool_ok cfg (w_pool w) (flights_in R') -> ok w R'.
Proof.
  intros [A1 A2 A3 A4 A5 A6 A7 A8 A9] E1 E2 E3 E4 Hp. unfold guards, leases in *.
  split; unfold guards, leases; cbn; rewrite ?E1, ?E2, ?E3, ?E4; done.
Qed.
Lemma pool_ok_flights l o F F' :
  (forall p k, exists l' k', pool_step {| pool := p; pool_ledger := l; flights := F; refill := None; leaked := k |}
     {| pool := p; pool_ledger := l'; flights := F'; refill := None; leaked := k' |}) ->
  F <> [] -> pool_ok cfg o F -> pool_ok cfg o F'.
Proof.
  intros Hs Hn. destruct o as [p|]; [|by unfold pool_ok; destruct (cf_warm_pool cfg)]. intros Hp.
  eapply (pool_ok_step l); [apply Hs|by eapply pool_ok_members|exact Hp].
Qed.
(** The booted machine becomes a ready member, or its provision is rejected. *)
Lemma spec_complete_ready c x member permit g :
  permit_capacity permit = Some g ->
  spec [Res_machine c x (Cover_pool g); Res_flight (Flight_booting permit)] (on_ledger (complete_ready member permit))
    (fun r => match r with
              | Ok (m, permit') => permit_capacity permit' = None
                  /\ exists k, m = {| member_instance := Some member; member_guard := Some k |}
              | Err _ => True
              end)
    (fun r => match r with
              | Ok (m, permit') =>
                  [Res_machine c x match member_guard m with Some k => Cover_ready k | None => Cover_pool g end;
                   Res_flight (Flight_ready m permit')]
              | Err _ => [Res_machine c x (Cover_pool g); Res_flight (Flight_rejected member permit)]
              end).
Proof.
  intros Hp. apply spec_act. intros w R Hok. destruct (complete_ready member permit (w_ledger w)) as [r l'] eqn:E. cbn [fst snd]. split; [done|].
  pose proof (books_wf _ _ (ok_ledger _ _ _ _ Hok)) as Hwf. cbn in Hwf. pose proof (ok_pool _ _ _ _ Hok) as Hpool. parts.
  destruct r as [[m permit']|e].
  - assert (pool_ok cfg (w_pool w) (Flight_ready m permit' :: flights_in R)) as Hpool'.
    { eapply pool_ok_flights; [| |exact Hpool]; [|done]. intros p k. eexists _, k. by eapply ps_booted. }
    unfold complete_ready in E. destruct (capacity_dimensions _ _) as [[cpu mem]|]; [|done].
    destruct (_ || _); [done|]. rewrite Hp in E.
    destruct (ready_in_place g (w_ledger w)) as [[[g' k]|e] l1] eqn:E1; [|done]. injection E as <- <- <-.
    pose proof (ready_in_place_cases _ Hwf g _ _ E1) as (i & Hg & -> & -> & [Hh _ _ _ _] & _ & He). cbn [member_guard].
    split; [split; [done|by eexists]|]. eapply ok_flights; [eapply (ok_cover_step w _ (Some (c, x)) (Cover_pool g) (Cover_ready _)); [exact Hok|..]|..]; try done.
    + intros g0 [= <-] Hi. apply (books_step ceiling _ _ (step_ready _ _ _ _ _ _ E1)) in Hi. cbn in Hi. by apply inv_inert in Hi.
    + intros j e Hj Hje. eapply frame_upd; [exact He| |done]. intros <-. by apply (Hj _ eq_refl).
    + by eexists.
  - split; [done|]. eapply ok_flights; [eapply (ok_quiet w _ l'); [|exact Hok]|done..|].
    + unfold complete_ready in E. destruct (capacity_dimensions _ _) as [[cpu mem]|]; [|injection E as <- <-; by left].
      destruct (_ || _); [injection E as <- <-; by left|]. rewrite Hp in E.
      destruct (ready_in_place g (w_ledger w)) as [[[g' k]|e'] l1] eqn:E1; [done|]. injection E as <- <-.
      by pose proof (ready_in_place_cases _ Hwf g _ _ E1).
    + parts. eapply pool_ok_flights; [| |exact Hpool]; [|done]. intros p k. eexists _, k. by eapply ps_rejected.
Qed.
(** A permit gives its in-flight slot back, and its reservation if it still has it. *)
Lemma spec_drop_pool_permit f :
  spec (Res_flight f :: permit_res (flight_permit f)) (drop_pool_permit (flight_permit f)) (fun _ => True) (fun _ => []).
Proof.
  apply spec_shared. intros w R Hok. cbn [fst snd]. split; [done|]. set (permit := flight_permit f).
  assert (ok w (permit_res permit ++ Res_flight f :: held w ++ R)) as Hok0.
  { eapply ok_perm; [|exact Hok]. cbn. solve_Permutation. }
  pose proof (ok_pool _ _ _ _ Hok0) as Hp. parts.
  assert (flights_in (permit_res permit) = []) as Hfl by by unfold permit_res; destruct (permit_capacity permit). rewrite Hfl in Hp. cbn [app] in Hp.
  destruct (w_pool w) as [p|] eqn:Ep; [|unfold pool_ok in Hp; by destruct (cf_warm_pool cfg)].
  destruct (permit_drop permit p (w_ledger w)) as [p' l'] eqn:E.
  assert (pool_ok cfg (Some p') (flights_in (held w) ++ flights_in R)) as Hp'.
  { eapply (pool_ok_step (w_ledger w)); [|..|exact Hp].
    - intros k. eexists _, k. by eapply ps_drop.
    - assert (members p' = members p) as ->; [|exact (pool_ok_members _ _ _ eq_refl Hp)].
      unfold permit_drop, permit_release in E. destruct (released permit); by injection E as <- _. }
  assert (held (set_pool (Some p') (set_ledger l' w)) = held w) as ->.
  { unfold held. cbn. rewrite Ep. unfold permit_drop, permit_release in E. by destruct (released permit); injection E as <- _. }
  assert (ok (set_ledger l' w) (held w ++ Res_flight f :: R)) as Hok1.
  { unfold permit_drop in E. destruct (permit_release permit p) as [permit' p1] eqn:Er. injection E as <- <-.
    assert (permit_capacity permit' = permit_capacity permit) as -> by (unfold permit_release in Er; destruct (released permit); by injection Er as <- _).
    unfold permit_res in Hok0. destruct (permit_capacity permit) as [g|].
    - pose proof (books_wf _ _ (ok_ledger _ _ _ _ Hok0)) as Hwf. cbn in Hwf.
      destruct (release_entry (pr_entry_id g) (w_ledger w)) as [o l1] eqn:E1. cbn [snd].
      apply (ok_perm _ _ _ ([] ++ Res_flight f :: held w ++ R)); [cbn; solve_Permutation|].
      change (set_ledger l1 w) with (set_forgotten (w_forgotten w) (set_ledger l1 w)).
      apply (ok_ledger_step w _ [Res_cover (Cover_pool g)] []); try done.
      + pose proof (ok_ledger _ _ _ _ Hok0) as Hl. parts. eapply books_step; [|exact Hl]. by eapply (step_drop _ (Guard_PoolReservation g)).
      + apply (release_entry_cases _ Hwf) in E1 as [[Hq _]|(i & _ & _ & [Hh _ _ _ _] & _)]; [by apply quiet_facts|done].
      + intros i e Hi He. apply (release_entry_cases _ Hwf) in E1 as [[Hq _]|(j & Hj & _ & _ & _ & _ & Hu)].
        * apply quiet_facts in Hq as [_ Hq]. by rewrite Hq.
        * eapply frame_upd; [exact Hu| |done]. intros ->. apply Hi. apply elem_of_owned.
          exists (Guard_PoolReservation g). split; [by left|done].
    - apply (ok_core w); [by repeat split|]. eapply ok_perm; [|exact Hok0]. cbn. solve_Permutation. }
  eapply ok_pool_set; [exact Hok1|..]; cbn; parts; done.
Qed.
Definition provision_res (permit : ProvisionPermit) : list Res := Res_flight (Flight_booting permit) :: permit_res permit.
Lemma provision_parts c m gs :
  let T := (permit_of c m <$> gs) ≫= provision_res in
  covers T = Cover_pool <$> gs /\ machines T = [] /\ tasks T = [] /\ confs T = []
  /\ flights_in T = Flight_booting <$> (permit_of c m <$> gs).
Proof.
  cbn zeta. induction gs as [|g gs (H1 & H2 & H3 & H4 & H5)]; [done|].
  cbn [fmap list_fmap mbind list_bind]. unfold provision_res at 1 3 5 7 9. cbn [permit_res permit_of permit_capacity]. parts.
  unfold mbind in *. by rewrite H1, H2, H3, H4, H5.
Qed.
Lemma pool_guards_parts gs :
  let T := Res_cover <$> (Cover_pool <$> gs) in
  covers T = Cover_pool <$> gs /\ guards T = Guard_PoolReservation <$> gs /\ leases T = [] /\ machines T = []
  /\ tasks T = [] /\ confs T = [] /\ flights_in T = [].
Proof. cbn zeta. induction gs as [|g gs (H1 & H2 & H3 & H4 & H5 & H6 & H7)]; [done|]. cbn. parts. by rewrite H1, H2, H3, H4, H5, H6, H7. Qed.
Lemma batch_frame l n c m gs l' :
  wf (locked l) -> 0 <= n -> in_range U64_MAX c -> in_range U64_MAX m -> reserve_pool_batch n c m l = (Ok gs, l') ->
  healthy l /\ (forall i e, entry_of (locked l) i = Some e -> entry_of (locked l') i = Some e)
  /\ Forall (fun g => is_Some (pr_entry_id g)) gs.
Proof.
  intros Hwf Hn Hc Hm E. apply reserve_pool_batch_cases in E; [|done..].
  destruct E as (-> & _ & Hh & _ & _ & _ & _ & _ & _ & _ & _ & He). split; [done|].
  split; [|unfold pool_guards; apply Forall_fmap, Forall_forall; intros; by eexists]. intros i e Hi. rewrite He.
  case_decide as Hin; [|done]. exfalso. apply elem_of_pool_ids in Hin as (z & -> & Hz). cbn in Hi.
  destruct (cs_pool_entries _ !! _) eqn:Ei; [|done]. apply (wf_pool_entries _ Hwf) in Ei as ((z' & [= <-] & ?) & _). lia.
Qed.
Lemma spec_reserve_pool c m :
  in_range U64_MAX c -> in_range U64_MAX m ->
  spec [] (reserve_pool c m)
    (fun r => match r with Ok permits => Forall (fun p => is_Some (permit_capacity p)) permits | Err _ => True end)
    (fun r => match r with Ok permits => permits ≫= provision_res | Err _ => [] end).
Proof.
  intros Hc Hm. apply spec_act. intros w R Hok. cbn [app] in Hok. destruct (w_pool w) as [p|] eqn:Ep; [|split; [done|split; [by constructor|exact Hok]]].
  pose proof (books_wf _ _ (ok_ledger _ _ _ _ Hok)) as Hwf. cbn in Hwf. pose proof (deficit_bounds p) as [Hn _].
  pose proof (ok_pool _ _ _ _ Hok) as Hp. rewrite Ep in Hp. pose proof (pool_ok_members _ _ _ eq_refl Hp) as Hms.
  unfold reserve_provisions. destruct (reserve_pool_batch (deficit_now p) c m (w_ledger w)) as [[gs|e] l'] eqn:E; cbn [fst snd admit_reservations].
  - split; [unfold held; cbn; rewrite Ep; reflexivity|]. split.
    { apply Forall_fmap, Forall_forall. intros. by eexists. }
    destruct (batch_frame _ _ _ _ _ _ Hwf Hn Hc Hm E) as (Hh & Hframe & Hids).
    destruct (pool_guards_parts gs) as (P1 & P2 & P3 & P4 & P5 & P6 & P7).
    destruct (provision_parts c m gs) as (Q1 & Q2 & Q3 & Q4 & Q5). cbn zeta in *.
    set (T := Res_cover <$> (Cover_pool <$> gs)) in *. set (T' := (permit_of c m <$> gs) ≫= provision_res) in *.
    assert (ok (set_ledger l' w) (T ++ R)) as Hok1.
    { change (set_ledger l' w) with (set_forgotten (w_forgotten w) (set_ledger l' w)).
      apply (ok_ledger_step w R [] T); try done.
      - pose proof (ok_ledger _ _ _ _ Hok) as Hl. rewrite P2.
        exact (books_step ceiling _ _ (step_reserve_pool_batch _ (guards R) _ _ c m _ _ Hn Hc Hm E) Hl).
      - intros i e _. apply Hframe.
      - rewrite P1. by apply Forall_fmap. }
    eapply ok_pool_set; [exact Hok1|..]; rewrite ?covers_app, ?machines_app, ?tasks_app, ?confs_app, ?flights_app; try congruence.
    rewrite Q5. destruct (cf_warm_pool cfg) as [wc|] eqn:Ec; unfold pool_ok in *; rewrite Ec in *; [|done].
    destruct Hp as (_ & l0 & k & Hi). split; [done|]. exists l', k.
    apply (pool_inv_step _ _ _ (ps_ledger _ _ (w_ledger w) _ _ _)) in Hi.
    apply (pool_inv_step _ _ _ (ps_refill_begin _ _ _ _)) in Hi.
    exact (pool_inv_step _ _ _ (ps_refill_commit _ _ _ _ _ c m gs l' _ _ E eq_refl) Hi).
  - split; [unfold held; cbn; rewrite Ep; reflexivity|]. split; [done|].
    apply (ok_core (set_ledger l' w)); [repeat split; cbn; by rewrite Ep|]. apply ok_quiet; [|done].
    by pose proof (reserve_pool_batch_cases _ _ _ _ _ _ Hwf Hn Hc Hm E).
Qed.
(** A provision handed to the runtime. *)
Lemma spec_queue permit : is_Some (permit_capacity permit) ->
  spec (Res_task :: provision_res permit) (writes (fun w => set_jobs (Job_provision permit :: w_jobs w) w)) (fun _ => True) (fun _ => []).
Proof.
  intros Hp. apply spec_shared. intros w R Hok. cbn [fst snd]. split; [done|].
  apply (ok_perm _ _ _ (held w ++ (Res_task :: provision_res permit) ++ R)).
  { unfold held, provision_res. cbn. rewrite <- !app_assoc. solve_Permutation. }
  destruct Hok as [A1 A2 A3 A4 A5 A6 A7 A8 A9]. split; try done. by constructor.
Qed.
(** The permit of a machine that could not be confirmed dead is never given back. *)
Lemma spec_leak i permit g : permit_capacity permit = Some g ->
  spec [Res_flight (Flight_rejected i permit); Res_cover (Cover_pool g)] (forget (pr_entry_id g)) (fun _ => True) (fun _ => []).
Proof.
  intros Hp. apply spec_act. intros w R Hok. cbn [fst snd]. split; [done|]. split; [done|].
  assert (ok w (Res_cover (Cover_pool g) :: Res_flight (Flight_rejected i permit) :: R)) as Hok0.
  { eapply ok_perm; [|exact Hok]. apply Permutation_swap. }
  assert (ok w (Res_cover (Cover_pool g) :: R)) as Hok1.
  { pose proof (ok_pool _ _ _ _ Hok0) as Hpool. parts. eapply ok_flights; [exact Hok0|..]; parts; try done.
    eapply (pool_ok_flights (w_ledger w)); [| |exact Hpool]; [|done]. intros p k. eexists (permit_fail_closed permit _), (S k). apply ps_forget. }
  pose proof (ok_ledger _ _ _ _ Hok1) as Hl. parts.
  change (set_forgotten ?x w) with (set_forgotten x (set_ledger (w_ledger w) w)).
  apply (ok_ledger_step w R [Res_cover (Cover_pool g)] []); try done.
  exact (books_step ceiling _ _ (step_forget _ (Guard_PoolReservation g) _ _) Hl).
Qed.
End Actions.
