(* ===== verification/Handlers.v ===== *)
(** * The handlers keep the invariant

    Every handler of the manager and every task it spawns, started with the
    resources it is given, keeps [J] at each of its steps and ends owning
    nothing: [spec [] handler (fun _ => True) (fun _ => [])]. *)

From S2P Require Import Prelude Text Profile Fleet Capacity Ownership Lifecycle Json Crypto AuditChain.
From S2P Require Import Snapshot Ingress Network Bytes GuestFiles Wire GuestAgent Attestation Image.
From S2P Require Import Firecracker Pool Protocol Prog Manager Command Resources Actions.

(** The fields of a manifest have the types of the struct it is read into ([u8] and [u32]). *)
Class ManifestTyped (MJ : ManifestJson) : Prop := {
  manifest_typed bytes m : parse_strict bytes = Some m ->
    0 <= gi_vcpu_count (guest_identity m) <= 255 /\ 0 <= gi_mem_size_mib (guest_identity m) <= U32_MAX;
}.

Section Handlers.
Context {H : Hypervisor} {C : Crypto} {V : JsonVec unit} {VJ : JsonVec Value} {MJ : ManifestJson} {MT : ManifestTyped MJ}.
Context {AJ : AuditJson Value} {K : Codec GuestRequest GuestResponse}.
Context (cfg : WorkspaceManagerConfig) (ceiling max_workspace_mem_mib : Z) (confidential_cvm : bool).
Context (audit_key : SigningKey) (generate : EvidenceRequest -> Z -> result AttestationError Evidence).
Context (t : Texts) (version : string) (stamps : AuditRun).
Local Abbreviation spec := (spec cfg ceiling).
Local Abbreviation quote := (t_quote t).
Local Abbreviation lease id u := (Res_cover (Cover_lease id u)).
Local Abbreviation running i v := (Res_machine (i_jailer_chroot i) Phase_running v).
Local Abbreviation inert p := (spec [] p (fun _ => True) (fun _ => [])).

(** ** Steps that own nothing *)

Create HintDb inert.
Lemma inert_kick : inert kick_refill.
Proof. apply spec_quiet. intros w. by destruct (w_pool w) eqn:E; repeat split. Qed.
Lemma inert_setup io inner id policy : inert (net_setup io inner id policy).
Proof. apply spec_quiet. intros w. by destruct (setup _ _ _ _ _ _). Qed.
Lemma inert_teardown io inner slot : inert (net_teardown io inner slot).
Proof. apply spec_quiet. intros w. by destruct (teardown _ _ _ _). Qed.
Lemma inert_routes f : inert (writes (fun w => set_routes (f (w_routes w)) w)).
Proof. by apply spec_quiet. Qed.
Lemma inert_rings f : inert (writes (fun w => set_rings (f (w_rings w)) w)).
Proof. by apply spec_quiet. Qed.
Lemma inert_route_call f : inert (route_call f).
Proof. apply spec_quiet. intros w. by destruct (f (w_routes w)). Qed.
Lemma inert_kicks f : inert (writes (fun w => set_kicks (f (w_kicks w)) w)).
Proof. by apply spec_quiet. Qed.
Hint Resolve inert_kick inert_setup inert_teardown inert_routes inert_rings inert_route_call : inert.
Hint Resolve spec_reads spec_audit spec_audit_failure spec_fail_closed : inert.
Hint Resolve spec_grows grows_guest_call grows_wait_ready grows_api grows_snapshot_create grows_copy_out : inert.

Ltac perm := cbn; first [reflexivity | solve_Permutation].
Ltac step_with L u :=
  eapply (spec_bind cfg ceiling _ _ u); [|eapply L; try done|]; [perm|intros ? ?; cbn beta iota in *].
Tactic Notation "bind" uconstr(L) "with" uconstr(u) := step_with L u.
(** A step that owns nothing, then the rest. *)
Lemma spec_skip {A B} u (p : Prog World A) (g : A -> Prog World B) F post :
  inert p -> (forall a, spec u (g a) F post) -> spec u (p ≫= g) F post.
Proof. intros Hp Hg. eapply (spec_bind cfg ceiling _ [] u); [done|exact Hp|]. intros a _. apply Hg. Qed.
Ltac skip := apply spec_skip; [solve [eauto with inert]|intros ?].
Tactic Notation "skip" "as" simple_intropattern(p) := apply spec_skip; [solve [eauto with inert]|intros p].
(** An inert task, step by step. *)
Ltac idle := repeat first
  [ by apply spec_ret
  | progress eauto with inert
  | skip
  | case_match
  | progress unfold or_return, try_bind ].

Lemma inert_cleanup_network io cleanup : inert (cleanup_network io cleanup).
Proof. unfold cleanup_network. idle. Qed.
Hint Resolve inert_cleanup_network : inert.

(** ** Capacity *)

Lemma spec_release v g e : cover_guard v = Some g -> guard_entry g = e ->
  spec [Res_cover v] (drop_entry e) (fun _ => True) (fun _ => []).
Proof. intros Hg <-. by apply spec_drop_entry. Qed.
Lemma spec_leave v g e : cover_guard v = Some g -> guard_entry g = e ->
  spec [Res_cover v] (forget e) (fun _ => True) (fun _ => []).
Proof. intros Hg <-. by apply spec_forget. Qed.

Lemma dimensions_in_range v m c b :
  0 <= v -> 0 <= m -> capacity_dimensions v m = Ok (c, b) -> in_range U64_MAX c /\ in_range U64_MAX b.
Proof.
  intros Hv Hm. unfold capacity_dimensions. destruct (checked_mul U64_MAX v 1000) eqn:E1; [|done].
  destruct (checked_mul U64_MAX m _) eqn:E2; [|done]. cbn. intros [= <- <-].
  apply checked_mul_Some in E1 as [-> ?], E2 as [-> ?]. unfold in_range. lia.
Qed.
Lemma spec_reserve_capacity id v m : 0 <= v -> 0 <= m ->
  spec [] (reserve_workspace_capacity t id v m)
    (fun r => match r with Ok g => wr_entry_id g = Some (CapacityEntryId_Workspace id) | Err _ => True end)
    (fun r => match r with Ok g => [Res_cover (Cover_reserved g)] | Err _ => [] end).
Proof.
  intros Hv Hm. unfold reserve_workspace_capacity. destruct (capacity_dimensions v m) as [[c b]|e] eqn:E; [|by apply spec_ret].
  destruct (dimensions_in_range _ _ _ _ Hv Hm E). bind spec_reserve with []. destruct a; by apply spec_ret.
Qed.
(** Running a machine under a reservation. *)
Lemma spec_boot_with {T} id v m (boot : Prog World (result SupervisorResponse T)) (instance : T -> Instance) (P : T -> Prop) :
  0 <= v -> 0 <= m ->
  (forall cover, spec [Res_cover cover] boot (fun r => match r with Ok x => P x | Err _ => True end)
     (fun r => match r with Ok x => [running (instance x) cover] | Err _ => [Res_cover cover] end)) ->
  spec [] (boot_with_reserved_capacity t id v m boot)
    (fun r => match r with Ok (x, g) => P x /\ wr_entry_id g = Some (CapacityEntryId_Workspace id) | Err _ => True end)
    (fun r => match r with Ok (x, g) => [running (instance x) (Cover_reserved g)] | Err _ => [] end).
Proof.
  intros Hv Hm Hb. eapply (spec_try cfg ceiling _ [] []); [done|by apply spec_reserve_capacity| |done].
  intros g Hg. cbn [app]. eapply (spec_bind cfg ceiling _ _ []); [|apply (Hb (Cover_reserved g))|]; [perm|].
  intros [x|e] Hx; [by apply spec_ret|]. bind (spec_release (Cover_reserved g)) with []. by apply spec_ret.
Qed.
(** A machine that belongs to no workspace. *)
Lemma spec_stop io i v :
  spec [running i v] (terminate_unregistered_or_fault t io i) (fun _ => True) (fun _ => [Res_cover v]).
Proof. unfold terminate_unregistered_or_fault. bind (spec_terminate cfg ceiling quote io i v) with []. idle. Qed.
Lemma spec_discard {T} io i kind message v :
  spec [running i v] (discard (T := T) t io i kind message) (fun r => match r with Ok _ => False | Err _ => True end)
    (fun _ => [Res_cover v]).
Proof. unfold discard. bind (spec_stop io i v) with []. by apply spec_ret. Qed.
(** Giving a machine up, with its reservation when it stopped and without when it may still run. *)
Lemma spec_settle {E A} (r : result E A) v g e : cover_guard v = Some g -> guard_entry g = e ->
  spec [Res_cover v] match r with Ok _ => drop_entry e | Err _ => fail_closed ;;; forget e end (fun _ => True) (fun _ => []).
Proof. intros Hg He. destruct r; [by eapply spec_release|]. skip. by eapply spec_leave. Qed.

(** ** A launched machine before it is registered *)

Lemma owner_guard o st : exists g, cover_guard (owner_cover o st) = Some g /\ guard_entry g = owner_entry (Some o).
Proof. destruct o; by eexists. Qed.
Lemma spec_pending_teardown io p i o st : pf_instance p = Some i -> pf_capacity_owner p = Some o ->
  spec [running i (owner_cover o st)] (pending_teardown t io p) (fun _ => True) (fun _ => []).
Proof.
  intros Hi Ho. destruct (owner_guard o st) as (g & Hg & He). unfold pending_teardown. rewrite Hi, Ho.
  bind (spec_terminate cfg ceiling quote _ i (owner_cover o st)) with []. destruct a; skip; [by eapply spec_release|by eapply spec_leave].
Qed.
Lemma spec_cleanup_job io p : job_ok (Job_cleanup p) ->
  spec (job_res (Job_cleanup p)) (cleanup_job t io p) (fun _ => True) (fun _ => []).
Proof.
  intros (i & o & Hi & Ho). unfold cleanup_job, job_res, pending_res. rewrite Hi, Ho.
  bind (spec_pending_teardown io p i o _ Hi Ho) with [Res_task]. apply spec_end_task.
Qed.
Definition owned_by (p : PendingFirecracker) (i : Instance) (id : string) (o : PendingCapacityOwner) : Prop :=
  pf_instance p = Some i /\ pf_capacity_owner p = Some o /\ owner_entry (Some o) = Some (CapacityEntryId_Workspace id).
Lemma spec_pending_register p i id o :
  owned_by p i id o ->
  spec [running i (owner_cover o (i_lifecycle_state i))] (pending_register (i_lifecycle_state i) p)
    (fun '(r, p') => exists o', owned_by p' i id o' /\
       match r with Ok _ => exists g, o' = PendingCapacityOwner_Registered g | Err _ => True end)
    (fun '(r, p') => match pf_capacity_owner p' with
                     | Some o' => [running i (owner_cover o' (i_lifecycle_state i))] | None => [] end).
Proof.
  intros (Hi & Ho & He). unfold pending_register. rewrite Ho. destruct o as [r|g].
  - bind (spec_register cfg ceiling (Some (i_jailer_chroot i, Phase_running)) r) with []. destruct a as [[r' k]|e]; apply spec_ret.
    + exists (PendingCapacityOwner_Registered k). split; [|by eexists]. split_and!; [done|done|]. cbn in *. congruence.
    + done.
    + exists (PendingCapacityOwner_Reserved r). by split_and!.
    + by rewrite Ho.
  - apply spec_ret; [|by rewrite Ho]. exists (PendingCapacityOwner_Registered g). split; [by split_and!|by eexists].
Qed.
Lemma spec_register_pending io id p i o :
  owned_by p i id o -> wf_instance i -> i_workspace_id i = id -> i_lifecycle_state i <> WorkspaceState_Snapshotting ->
  spec [lease id Lease_boot; running i (owner_cover o (i_lifecycle_state i))] (register_pending_firecracker t io id p)
    (fun _ => True) (fun _ => [lease id Lease_plain]).
Proof.
  intros Hp Hw Hid Hs. unfold register_pending_firecracker. pose proof Hp as (Hi & _). rewrite Hi.
  bind (spec_pending_register p i id o Hp) with [lease id Lease_boot]. destruct a as [r p']. destruct H0 as (o' & (Hi' & Ho' & He') & Hr).
  rewrite Ho'. cbn [app]. destruct r as [[]|e].
  - destruct Hr as [g ->].
    eapply (spec_bind cfg ceiling _ _ []); [|apply (spec_place cfg ceiling id p' i g); done|]; [perm|]. intros placed ->. by apply spec_ret.
  - bind (spec_pending_teardown io p' i o' (i_lifecycle_state i)) with [lease id Lease_boot].
    apply spec_done; [done|]. apply lease_shift.
Qed.

(** ** Booting from a snapshot *)

Definition fresh (id : string) (i : Instance) : Prop :=
  wf_instance i /\ i_workspace_id i = id /\ i_lifecycle_state i = WorkspaceState_Running.
Definition prepared_for (id : string) (p : PreparedSnapshotRestore) : Prop :=
  let g := guest_identity (ps_manifest p) in
  0 <= gi_vcpu_count g /\ 0 <= gi_mem_size_mib g /\ lc_workspace_id (rl_launch (ps_restore_cfg p)) = id.
Lemma read_manifest_typed dir m : read_manifest dir = Ok m ->
  0 <= gi_vcpu_count (guest_identity m) <= 255 /\ 0 <= gi_mem_size_mib (guest_identity m) <= U32_MAX.
Proof.
  unfold read_manifest, parse_manifest. destruct (manifest_file dir) as [b|]; [|done]. cbn.
  destruct (parse_envelope b) as [v|]; [|done]. cbn. destruct (negb _); [done|].
  destruct (parse_strict b) eqn:E; [|done]. intros [= <-]. by eapply manifest_typed.
Qed.
Lemma verified_typed {E I} (resolve : string -> string -> result E I) dir key m images :
  verify_and_resolve_images resolve dir key = Ok (m, images) ->
  0 <= gi_vcpu_count (guest_identity m) <= 255 /\ 0 <= gi_mem_size_mib (guest_identity m) <= U32_MAX.
Proof.
  unfold verify_and_resolve_images, verify_artifact_pinned. destruct (read_manifest dir) as [m'|] eqn:Er; [|done]. cbn.
  destruct (verify_manifest_signature_pinned m' key); [|done]. cbn. destruct (check_artifact_hashes dir m'); [|done]. cbn.
  destruct (resolve _ _); [|done]. intros [= <- <-]. by eapply read_manifest_typed.
Qed.
Lemma spec_prepare io sid id :
  spec [] (prepare_snapshot_restore cfg max_workspace_mem_mib audit_key t io sid id)
    (fun r => match r with Ok p => prepared_for id p | Err _ => True end) (fun _ => []).
Proof.
  unfold prepare_snapshot_restore. do 2 (destruct (negb _); [by apply spec_ret|]). skip.
  destruct (verify_and_resolve_images _ _ _) as [[m images]|[]] eqn:E; [|by apply spec_ret..].
  destruct (_ <? _); [by apply spec_ret|]. apply spec_ret; [|done]. apply verified_typed in E as [[] []]. by split_and!.
Qed.
Lemma spec_boot_prepared io id p v : prepared_for id p ->
  spec [Res_cover v] (boot_prepared_snapshot t io p) (fun r => match r with Ok i => fresh id i | Err _ => True end)
    (fun r => match r with Ok i => [running i v] | Err _ => [Res_cover v] end).
Proof.
  intros (_ & _ & Hid). unfold boot_prepared_snapshot. bind (spec_restore cfg ceiling quote _ _ v) with [].
  destruct a as [i|e]; apply spec_ret; try done. destruct H0 as (Hw & _ & Hi & Hs & _). split_and!; [done|congruence|done].
Qed.
Lemma spec_boot_from_snapshot io sid id v :
  spec [Res_cover v] (boot_from_snapshot cfg max_workspace_mem_mib audit_key t io sid id)
    (fun r => match r with Ok (i, _) => fresh id i | Err _ => True end)
    (fun r => match r with Ok (i, _) => [running i v] | Err _ => [Res_cover v] end).
Proof.
  eapply (spec_try cfg ceiling _ [] [Res_cover v]); [perm|apply spec_prepare| |done]. intros p Hp. cbn [app].
  eapply (spec_try cfg ceiling _ _ []); [|by apply (spec_boot_prepared io id p v)| |done]; [perm|]. intros i Hi. by apply spec_ret.
Qed.
Lemma spec_ready_reset io id p hostname v : prepared_for id p ->
  spec [Res_cover v] (boot_prepared_ready_reset t io p hostname)
    (fun r => match r with Ok (i, _) => fresh id i | Err _ => True end)
    (fun r => match r with Ok (i, _) => [running i v] | Err _ => [Res_cover v] end).
Proof.
  intros Hp. unfold boot_prepared_ready_reset. bind (spec_boot_prepared io id p v Hp) with [].
  destruct a as [i|r]; [|by apply spec_ret].
  assert (forall kind m, spec [running i v] (discard t (bi_terminate io) i kind m)
    (fun r : result _ (Instance * string) => match r with Ok (i, _) => fresh id i | Err _ => True end)
    (fun r => match r with Ok (i, _) => [running i v] | Err _ => [Res_cover v] end)) as Hd.
  { intros kind m. eapply spec_weaken; [|apply spec_discard]. by intros [[]|]. }
  skip as [[]|]; [|apply Hd]. destruct (bi_entropy io); [|apply Hd]. skip as [[]|]; try apply Hd.
  by apply spec_ret.
Qed.
Lemma spec_boot_ready_reset io sid id hostname v :
  spec [Res_cover v] (boot_ready_reset cfg max_workspace_mem_mib audit_key t io sid id hostname)
    (fun r => match r with Ok (i, _) => fresh id i | Err _ => True end)
    (fun r => match r with Ok (i, _) => [running i v] | Err _ => [Res_cover v] end).
Proof.
  unfold boot_ready_reset. bind (spec_prepare io sid id) with [Res_cover v].
  destruct a as [p|r]; [by apply spec_ready_reset|by apply spec_ret].
Qed.
Lemma spec_boot_fork io id p hostname v : prepared_for id p ->
  spec [Res_cover v] (boot_fork t io p hostname) (fun r => match r with Ok x => fresh id x.1 | Err _ => True end)
    (fun r => match r with Ok x => [running x.1 v] | Err _ => [Res_cover v] end).
Proof.
  intros Hp. unfold boot_fork. bind (spec_ready_reset io id p hostname v Hp) with [].
  destruct a as [[]|[]]; by apply spec_ret.
Qed.
(** Registering what booted under its own reservation. *)
Lemma spec_register_reserved io id i r n :
  fresh id i -> wr_entry_id r = Some (CapacityEntryId_Workspace id) ->
  spec [lease id Lease_boot; running i (Cover_reserved r)] (register_pending_firecracker t io id (pending_reserved i r n))
    (fun _ => True) (fun _ => [lease id Lease_plain]).
Proof.
  intros (Hw & Hid & Hs) Hr. apply (spec_register_pending io id (pending_reserved i r n) i (PendingCapacityOwner_Reserved r)); try done.
  by rewrite Hs.
Qed.

(** ** Create *)

Lemma spec_teardown_member io m : member_ok m -> spec (member_res m) (teardown_member t io m) (fun _ => True) (fun _ => []).
Proof.
  intros (i & g & -> & _). unfold teardown_member. cbn [take_parts member_instance member_guard fst member_res].
  bind (spec_terminate cfg ceiling quote io i (Cover_ready g)) with []. by eapply spec_settle.
Qed.
Definition adoptable (id : string) (m : PoolMember) : Prop :=
  exists i g, m = {| member_instance := Some i; member_guard := Some g |} /\ fresh id i.
Lemma spec_checkout ios id :
  spec [] (checkout t ios id) (fun o => match o with Some m => adoptable id m | None => True end)
    (fun o => match o with Some m => member_res m | None => [] end).
Proof.
  induction ios as [|io ios IH]; cbn [checkout]; bind spec_pool_pop with []; destruct a as [m|]; try by apply spec_ret.
  - destruct H0 as (i & g & -> & Hw & Hs). apply spec_ret; [|done]. by exists (with_id id i), g.
  - destruct H0 as (i & g & -> & Hw & Hs). cbn [member_instance member_guard]. skip as [[]|e].
    { apply spec_ret; [|done]. by exists (with_id id i), g. }
    skip. eapply (spec_bind cfg ceiling _ _ []); [|apply spec_teardown_member; by exists i, g|]; [perm|]. intros ? _. skip. exact IH.
Qed.
Lemma spec_adopt_member io id tier m : adoptable id m ->
  spec (lease id Lease_boot :: member_res m) (adopt_member t io id tier m) (fun _ => True) (fun _ => [lease id Lease_plain]).
Proof.
  intros (i & g & -> & Hw & Hid & Hs). unfold adopt_member. cbn [take_parts member_instance member_guard fst member_res].
  bind (spec_adopt cfg ceiling (Some (i_jailer_chroot i, Phase_running)) g id) with [lease id Lease_boot].
  destruct a as [[g' k]|e]; cbn [with_cover app].
  - eapply (spec_or_return cfg ceiling _ _ []); [|apply (spec_register_pending (cr_teardown io) id _ i (PendingCapacityOwner_Registered k)); try done; by rewrite Hs| |].
    + rewrite Hs. perm.
    + intros [] _. skip. skip. by apply spec_ret.
    + done.
  - bind (spec_terminate cfg ceiling quote (cr_adopt io) i (Cover_ready g)) with [lease id Lease_boot].
    bind (spec_settle a (Cover_ready g)) with [lease id Lease_boot]. apply spec_done; [done|]. apply lease_shift.
Qed.
Lemma spec_refused {A} id (a : A) u : spec (lease id Lease_boot :: u) (Ret a) (fun _ => True) (fun _ => lease id Lease_plain :: u).
Proof. apply spec_done; [done|]. apply lease_shift. Qed.
Lemma spec_fork_from_base io id tier sid :
  spec [lease id Lease_boot] (fork_from_base cfg max_workspace_mem_mib audit_key t io id tier sid) (fun _ => True)
    (fun _ => [lease id Lease_plain]).
Proof.
  unfold fork_from_base. skip. skip. bind (spec_prepare (cr_boot io) sid id) with [lease id Lease_boot].
  destruct a1 as [p|r]; [|skip; destruct (kind_and_message _ r); apply spec_refused]. pose proof H0 as (Hv & Hm & _).
  eapply (spec_bind cfg ceiling _ [] [lease id Lease_boot]); [perm| |].
  { apply (spec_boot_with id _ _ _ fst (fun x => fresh id x.1)); [done..|]. intros v. by apply spec_boot_fork. }
  intros [[[i mid] g]|r]; [|intros _; skip; apply spec_refused]. intros [Hf Hg]. cbn [fst app] in *.
  eapply (spec_or_return cfg ceiling _ _ []); [|by apply spec_register_reserved| |done]; [perm|].
  intros [] _. skip. by apply spec_ret.
Qed.
Lemma spec_create_from_pool io req : let id := cw_workspace_id req in
  spec [lease id Lease_boot] (create_from_pool cfg max_workspace_mem_mib audit_key t io req) (fun _ => True)
    (fun _ => [lease id Lease_plain]).
Proof.
  intros id. unfold create_from_pool. destruct (cf_warm_pool cfg) as [pool|]; [|apply spec_refused].
  destruct (negb _); [apply spec_refused|]. destruct (bool_decide _); [apply spec_refused|].
  apply spec_skip; [apply spec_reads|]. intros []; [apply spec_refused|].
  bind (spec_checkout (cr_checkouts io) id) with [lease id Lease_boot].
  destruct a as [m|]; [|apply spec_fork_from_base].
  eapply spec_perm; [|by apply spec_adopt_member]. perm.
Qed.

(** *** The confidential profile *)

Lemma spec_register_sandbox io id s g :
  rw_entry_id g = Some (CapacityEntryId_Workspace id) -> sb_workspace_id s = id ->
  spec [lease id Lease_boot; Res_cover (Cover_registered g WorkspaceState_Running); Res_confidential (Some s)]
    (register_sandbox io id s g) (fun r => r = Ok tt) (fun _ => [lease id Lease_plain]).
Proof.
  intros Hg Hs. eapply (spec_bind cfg ceiling _ _ []); [|by apply (spec_place_sandbox cfg ceiling id s g)|]; [perm|].
  intros placed ->. by apply spec_ret.
Qed.
Lemma spec_register_confidential io id s r :
  wr_entry_id r = Some (CapacityEntryId_Workspace id) -> sb_workspace_id s = id ->
  spec [lease id Lease_boot; Res_cover (Cover_reserved r); Res_confidential (Some s)] (register_confidential t io id s r)
    (fun _ => True) (fun _ => [lease id Lease_plain]).
Proof.
  intros Hr Hs. unfold register_confidential.
  bind (spec_register cfg ceiling None r) with [lease id Lease_boot; Res_confidential (Some s)].
  destruct a as [[r' g]|e]; cbn [with_cover app].
  - skip. eapply (spec_bind cfg ceiling _ _ []); [|apply (spec_register_sandbox io id s g); congruence|]; [perm|].
    intros ? ->. by apply spec_ret.
  - bind (spec_release (Cover_reserved r)) with [lease id Lease_boot; Res_confidential (Some s)].
    bind (spec_sandbox_terminate cfg ceiling io s) with [lease id Lease_boot].
    bind spec_drop_permit with [lease id Lease_boot]. apply spec_refused.
Qed.
Lemma spec_create_confidential io req : let id := cw_workspace_id req in
  spec [lease id Lease_boot] (create_confidential t io req) (fun _ => True) (fun _ => [lease id Lease_plain]).
Proof.
  intros id. unfold create_confidential. destruct (validate_confidential_create req); [|apply spec_refused].
  bind spec_acquire with [lease id Lease_boot]. destruct a0; cbn [negb]; [|apply spec_refused].
  bind (spec_reserve cfg ceiling id) with [lease id Lease_boot; Res_confidential None].
  assert (forall r : SupervisorResponse, spec ([Res_confidential None; lease id Lease_boot]) (drop_permit ;;; Ret r) (fun _ => True) (fun _ => [lease id Lease_plain])) as Hdrop.
  { intros r. bind spec_drop_permit with [lease id Lease_boot]. apply spec_refused. }
  destruct a0 as [g|e].
  - bind (spec_sandbox_spawn cfg ceiling io id) with [lease id Lease_boot; Res_cover (Cover_reserved g)].
    destruct a0 as [s|e].
    + eapply spec_perm; [|by apply spec_register_confidential]. perm.
    + destruct e; try skip; bind (spec_release (Cover_reserved g)) with [Res_confidential None; lease id Lease_boot]; apply Hdrop.
  - destruct e; eapply spec_perm; try apply Hdrop; perm.
Qed.

(** *** A cold boot *)

Lemma inert_provision_network io req : inert (provision_network cfg t io req).
Proof. unfold provision_network. idle. Qed.
Lemma inert_upsert id routes : inert (upsert_routes id routes).
Proof. unfold upsert_routes. idle. Qed.
Lemma inert_launch_failed io req slot e : inert (launch_failed cfg t io req slot e).
Proof. unfold launch_failed. idle. Qed.
Hint Resolve inert_provision_network inert_upsert inert_launch_failed : inert.
Lemma spec_publish_launched io req i slot r : let id := cw_workspace_id req in
  fresh id i -> wr_entry_id r = Some (CapacityEntryId_Workspace id) ->
  spec [lease id Lease_boot; running i (Cover_reserved r)] (publish_launched cfg t io req i slot r) (fun _ => True)
    (fun _ => [lease id Lease_plain]).
Proof.
  intros id Hf Hr. unfold publish_launched. skip.
  eapply (spec_or_return cfg ceiling _ _ []); [|by apply (spec_register_reserved _ _ (with_slot slot i))| |done]; [perm|].
  intros [] _. skip. by apply spec_ret.
Qed.
Lemma spec_create_cold io req : let id := cw_workspace_id req in
  0 <= cw_vcpu_count req -> 0 <= cw_mem_size_mib req ->
  spec [lease id Lease_boot] (create_cold cfg t io req) (fun _ => True) (fun _ => [lease id Lease_plain]).
Proof.
  intros id Hv Hm. unfold create_cold. destruct (_ && _); [apply spec_refused|]. destruct (_ =? _); [apply spec_refused|].
  eapply (spec_bind cfg ceiling _ [] [lease id Lease_boot]); [perm|by apply spec_reserve_capacity|].
  intros [r|e] Hr; [|apply spec_refused]. unfold create_reserved.
  assert (forall x : SupervisorResponse, spec [Res_cover (Cover_reserved r); lease id Lease_boot] (drop_entry (wr_entry_id r) ;;; Ret x)
    (fun _ => True) (fun _ => [lease id Lease_plain])) as Hdrop.
  { intros x. bind (spec_release (Cover_reserved r)) with [lease id Lease_boot]. apply spec_refused. }
  destruct (resolve_pair _ _ _ _ _) as [images|e]; [|apply Hdrop]. skip as [slot|x]; [|apply Hdrop].
  bind (spec_launch cfg ceiling quote (cr_launch io) (launch_config cfg req images slot) (Cover_reserved r)) with [lease id Lease_boot].
  destruct a as [i|e].
  - eapply spec_perm; [|apply spec_publish_launched; [|done]]; [perm|]. destruct H0 as (? & _ & ? & ? & _). by split_and!.
  - skip. apply Hdrop.
Qed.

(** ** Tracked handlers *)

Lemma spec_frame {A} u t0 (p : Prog World A) F post : spec t0 p F post -> spec (t0 ++ u) p F (fun a => post a ++ u).
Proof.
  intros Hp. eapply wp_mono; [|apply wp_frame, Hp]. intros a t' (t1 & -> & HF & Hs). split; [done|]. by apply shift_app.
Qed.
Lemma inert_tracked body : inert body -> inert (run_tracked_lifecycle body).
Proof. intros Hb. apply spec_tracked. apply (spec_frame [Res_task] [] body _ _ Hb). Qed.
Lemma inert_boot_lease id body :
  spec [lease id Lease_boot] body (fun _ => True) (fun _ => [lease id Lease_plain]) -> inert (with_boot_lease id body).
Proof. apply spec_with_boot_lease. Qed.
Lemma inert_create io req : 0 <= cw_vcpu_count req -> 0 <= cw_mem_size_mib req ->
  inert (create cfg max_workspace_mem_mib confidential_cvm audit_key t io req).
Proof.
  intros Hv Hm. apply inert_tracked. unfold create_inner.
  assert (forall p, spec [lease (cw_workspace_id req) Lease_boot] p (fun _ => True) (fun _ => [lease (cw_workspace_id req) Lease_plain]) ->
    inert match admission max_workspace_mem_mib req with Err r => Ret r | Ok _ => with_boot_lease (cw_workspace_id req) p end) as Hadm.
  { intros p Hp. destruct (admission _ _); [by apply inert_boot_lease|by apply spec_ret]. }
  destruct (cf_execution_profile cfg); try (apply Hadm; destruct (cw_tier req); [apply spec_create_from_pool|by apply spec_create_cold]).
  apply inert_boot_lease. destruct confidential_cvm; [apply spec_create_confidential|apply spec_refused].
Qed.

(** ** Commands, files and ingress *)

Lemma inert_control id : inert (workspace_control id).
Proof. apply spec_reads. Qed.
Lemma inert_command_over_control io req control : inert (run_command_over_control t io req control).
Proof. unfold run_command_over_control, command_failed. idle. Qed.
Hint Resolve inert_control inert_command_over_control : inert.
Lemma inert_run_command io req : inert (run_command t io req).
Proof. unfold run_command. idle. Qed.
Lemma inert_file_over_control io control request path : inert (file_over_control t io control request path).
Proof. unfold file_over_control. idle. Qed.
Lemma inert_file_failed op ws path kind message more : inert (file_failed op ws path kind message more).
Proof. apply spec_audit. Qed.
Hint Resolve inert_file_over_control inert_file_failed : inert.
Lemma inert_file_call op io ws request path : inert (file_call t op io ws request path).
Proof. unfold file_call. idle. Qed.
Hint Resolve inert_file_call : inert.
Lemma inert_write_file io req : inert (write_file t io req).
Proof. unfold write_file. idle. Qed.
Lemma inert_read_file io req : inert (read_file t io req).
Proof. unfold read_file. idle. Qed.
Lemma inert_expose req : inert (expose_port req).
Proof. apply inert_tracked. unfold expose_port_inner, expose_route. idle. Qed.
Lemma inert_unexpose req : inert (unexpose_port req).
Proof. apply inert_tracked. unfold unexpose_port_inner. idle. Qed.
Lemma inert_pause r : inert (pause r).
Proof. apply inert_tracked. by apply spec_ret. Qed.
Lemma inert_resume r : inert (resume r).
Proof. apply inert_tracked. by apply spec_ret. Qed.
Lemma inert_attestation now req : inert (get_attestation_evidence generate t now req).
Proof.
  unfold get_attestation_evidence. destruct (Nonce_new _); [|idle]. skip. destruct (exec_measurement <$> _); [|idle].
  apply spec_skip; [apply spec_quiet; intros w; by destruct (Nonces.record _ _)|]. intros []; idle.
Qed.
Lemma inert_capacity : inert (capacity_snapshot cfg t).
Proof.
  unfold capacity_snapshot. apply spec_skip; [|intros []; by apply spec_ret].
  apply spec_act. intros w R Hok. destruct (Capacity.snapshot _ _) as [r l] eqn:E. cbn [fst snd]. split; [done|]. split; [done|].
  apply ok_quiet; [|exact Hok]. left. revert E. destruct (w_ledger w) as [[] s]; unfold Capacity.snapshot, with_lock, ensure_healthy; unfold_m; cbn;
    [|destruct (cs_faulted s); cbn]; by intros [= <- <-].
Qed.
Lemma inert_pool_status : inert pool_status.
Proof. apply spec_reads. Qed.
Lemma inert_list_log text req : inert (list_log stamps text req).
Proof. apply spec_reads. Qed.

(** ** Terminate *)

Lemma spec_end_workspace io e : spec (exec_res e) (end_workspace t io e) (fun _ => True) (fun _ => []).
Proof.
  destruct e as [i g|s g]; cbn [end_workspace exec_res].
  - bind (spec_terminate cfg ceiling quote (td_terminate io) i (Cover_registered g (i_lifecycle_state i))) with [].
    destruct a; [|skip].
    + bind (spec_release (Cover_registered g (i_lifecycle_state i))) with []. by apply spec_ret.
    + bind (spec_leave (Cover_registered g (i_lifecycle_state i))) with []. by apply spec_ret.
  - bind (spec_sandbox_terminate cfg ceiling (td_sandbox io) s) with [Res_cover (Cover_registered g WorkspaceState_Running)].
    bind spec_drop_permit with [Res_cover (Cover_registered g WorkspaceState_Running)].
    bind (spec_release (Cover_registered g WorkspaceState_Running)) with []. by apply spec_ret.
Qed.
Lemma inert_reclaim io id slot : inert (reclaim_network cfg t io id slot).
Proof. unfold reclaim_network. idle. Qed.
Hint Resolve inert_reclaim : inert.
Lemma inert_terminate io req : inert (terminate cfg t io req).
Proof.
  apply inert_tracked. unfold terminate_inner. bind (spec_remove cfg ceiling (tr_workspace_id req)) with [].
  destruct a as [e|]; [|by apply spec_ret]. eapply (spec_bind cfg ceiling _ _ []); [|apply (spec_end_workspace io e)|]; [perm|].
  intros [slot|] _; [|by apply spec_ret]. idle.
Qed.

(** ** Snapshot *)

Lemma inert_snapshot_failed ws payload kind message : inert (snapshot_failed ws payload kind message).
Proof. unfold snapshot_failed. idle. Qed.
Lemma inert_put_snapshot id d : inert (drive (writes (fun h => put_snapshot cfg id (d h) h))).
Proof. apply spec_grows, grows_writes. intros h. apply snapshots_grow. Qed.
Lemma inert_remove_snapshot id : inert (drive (writes (remove_snapshot cfg id))).
Proof. apply spec_grows, grows_writes. intros h. apply snapshots_grow. Qed.
Hint Resolve inert_snapshot_failed inert_put_snapshot inert_remove_snapshot : inert.
Lemma inert_copy_artifact io i : inert (copy_artifact cfg io i).
Proof. 
  unfold copy_artifact. destruct (sn_mkdir io); [|apply inert_snapshot_failed]. skip. apply spec_skip; [unfold try_bind; idle|].
  intros []; idle.
Qed.
Lemma inert_sign_artifact io i : inert (sign_artifact cfg t io i).
Proof.
  unfold sign_artifact. destruct (sn_signer io); [|idle]. apply spec_skip; [|intros []; idle].
  apply spec_grows, grows_act. intros h. destruct (write_manifest _ _ _ _ _ _ _ _ _ _) as [[]|]; [apply snapshots_grow|reflexivity].
Qed.
Hint Resolve inert_copy_artifact inert_sign_artifact : inert.
Lemma spec_pause_source io c : let i := sc_instance c in
  spec [lease (i_workspace_id i) (Lease_marked (i_boot_id i))] (pause_source t io c) (fun _ => True)
    (fun r => [lease (i_workspace_id i) match r with Ok _ => Lease_marked (i_boot_id i) | Err _ => Lease_plain end]).
Proof.
  intros i. unfold pause_source. destruct (negb _); [by apply spec_ret|]. skip as [[]|e]; [by apply spec_ret|].
  bind (spec_finalize cfg ceiling (sn_resume io) (i_workspace_id i) (i_boot_id i)) with []. unfold snapshot_failed. skip. by apply spec_ret.
Qed.
Lemma spec_dump_source io live c : let i := sc_instance c in
  spec [lease (i_workspace_id i) (Lease_marked (i_boot_id i))] (dump_source t io live c) (fun _ => True)
    (fun _ => [lease (i_workspace_id i) Lease_plain]).
Proof.
  intros i. unfold dump_source. skip as [[]|e].
  - eapply (spec_bind cfg ceiling _ _ []); [|apply (spec_finalize cfg ceiling (sn_resume io) (i_workspace_id i) (i_boot_id i)); by destruct (_ && _)|]; [perm|].
    intros a _. by apply spec_ret.
  - eapply (spec_bind cfg ceiling _ _ []); [|apply (spec_finalize cfg ceiling (sn_resume io) (i_workspace_id i) (i_boot_id i)); by destruct (sc_was_running c)|]; [perm|].
    intros a _.     skip as [[]|r]; by apply spec_ret.
Qed.
Lemma spec_live_hot_swap io id boot sid :
  spec [lease id Lease_plain] (live_hot_swap cfg max_workspace_mem_mib audit_key t io id boot sid) (fun _ => True)
    (fun _ => [lease id Lease_plain]).
Proof.
  set (v := Cover_lease id Lease_plain).
  assert (forall i kind message, spec [running i v] (discard (T := Z) t (bi_terminate (sn_boot io)) i kind message) (fun _ => True)
    (fun _ => [Res_cover v])) as Hd.
  { intros. eapply spec_weaken; [|apply spec_discard]. done. }
  unfold live_hot_swap. bind (spec_boot_from_snapshot (sn_boot io) sid ("live-" +:+ sn_live_id io) v) with [].
  destruct a as [[i m]|r]; [|by apply spec_ret]. destruct H0 as (Hw & _ & Hs). skip as [[]|e]; [|apply Hd].
  eapply (spec_bind cfg ceiling _ _ []); [|apply (spec_swap cfg ceiling t id boot i Hw Hs)|]; [perm|].
  intros [old|[kind message]] _; [|apply Hd]. bind (spec_stop (sn_terminate_old io) old v) with [].
  destruct a; by apply spec_ret.
Qed.
Lemma spec_swap_live io i finalized :
  spec [lease (i_workspace_id i) Lease_plain] (swap_live cfg max_workspace_mem_mib audit_key t io i finalized) (fun _ => True)
    (fun _ => [lease (i_workspace_id i) Lease_plain]).
Proof.
  unfold swap_live. eapply (spec_bind cfg ceiling _ _ [] _ _ (fun _ => True) (fun _ => [lease (i_workspace_id i) Lease_plain])); [by rewrite app_nil_r| |].
  - destruct finalized; [apply spec_live_hot_swap|by apply spec_ret].
  - intros [pid|[kind message]] _; [by apply spec_ret|]. skip as [[]|r]; by apply spec_ret.
Qed.
Lemma spec_snapshot_claimed io req : let id := sr_workspace_id req in
  spec [lease id Lease_plain] (snapshot_claimed cfg max_workspace_mem_mib audit_key t io req) (fun _ => True)
    (fun _ => [lease id Lease_plain]).
Proof.
  intros id. eapply (spec_or_return cfg ceiling _ _ []); [|by apply spec_mark| |done]; [perm|]. intros c [Hw Hid]. cbn [app].
  eapply (spec_or_return cfg ceiling _ _ []); [|apply (spec_pause_source io c)| |]; [by rewrite Hid| |by rewrite Hid]. intros [] _. cbn [app].
  eapply (spec_or_return cfg ceiling _ _ []); [|apply (spec_dump_source io (sr_live req) c)| |]; [perm| |by rewrite Hid]. intros finalized _.
  skip as [[]|r]; [|apply spec_ret; [done|by rewrite Hid]]. skip as [info|r]; [|apply spec_ret; [done|by rewrite Hid]].
  eapply (spec_or_return cfg ceiling _ _ [] _ _ (fun _ => True) (fun _ => [lease (i_workspace_id (sc_instance c)) Lease_plain])); [reflexivity| | |by rewrite Hid].
  - destruct (sr_live req); [apply spec_swap_live|by apply spec_ret].
  - intros pid _. skip. apply spec_ret; [done|by rewrite Hid].
Qed.
Lemma inert_snapshot io req : inert (snapshot cfg max_workspace_mem_mib audit_key t io req).
Proof.
  apply inert_tracked. unfold snapshot_inner. bind (spec_claim_lifecycle cfg ceiling (sr_workspace_id req)) with [].
  destruct a; cbn [negb]; [|by apply spec_ret]. bind (spec_snapshot_claimed io req) with [].
  bind (spec_drop_lease cfg ceiling (sr_workspace_id req) Lease_plain) with []. by apply spec_ret.
Qed.

(** ** Restore and fork *)

Lemma inert_restore io req : inert (restore cfg max_workspace_mem_mib audit_key t io req).
Proof.
  set (id := rs_new_workspace_id req). apply inert_tracked, inert_boot_lease. fold id. unfold restore_claimed. fold id.
  bind (spec_prepare (rq_boot io) (rs_snapshot_id req) id) with [lease id Lease_boot].
  destruct a as [p|r]; [|skip; apply spec_refused]. pose proof H0 as (Hv & Hm & _).
  eapply (spec_bind cfg ceiling _ [] [lease id Lease_boot]); [perm| |].
  { apply (spec_boot_with id _ _ _ (fun i => i) (fun i => fresh id i)); [done..|]. intros v. by apply spec_boot_prepared. }
  intros [[i g]|r]; [|intros _; apply spec_refused]. intros [Hf Hg].
  eapply (spec_or_return cfg ceiling _ _ []); [|by apply spec_register_reserved| |done]; [perm|].
  intros [] _. skip. by apply spec_ret.
Qed.
Lemma inert_fork io req : inert (fork cfg max_workspace_mem_mib audit_key t io req).
Proof.
  set (id := fk_new_workspace_id req). apply inert_tracked, inert_boot_lease. fold id. unfold fork_claimed. fold id.
  bind (spec_prepare (rq_boot io) (fk_snapshot_id req) id) with [lease id Lease_boot].
  destruct a as [p|r]; [|skip; destruct (kind_and_message _ r); apply spec_refused]. pose proof H0 as (Hv & Hm & _).
  eapply (spec_bind cfg ceiling _ [] [lease id Lease_boot]); [perm| |].
  { apply (spec_boot_with id _ _ _ fst (fun x => fresh id x.1)); [done..|]. intros v. by apply spec_boot_fork. }
  intros [[[i mid] g]|r]; [|intros _; skip; apply spec_refused]. intros [Hf Hg]. cbn [fst app] in *.
  eapply (spec_or_return cfg ceiling _ _ []); [|by apply spec_register_reserved| |done]; [perm|].
  intros [] _. skip. by apply spec_ret.
Qed.

(** ** The warm pool *)

Lemma spec_provision_member io ulid v :
  spec [Res_cover v] (provision_pool_member cfg max_workspace_mem_mib audit_key t io ulid)
    (fun r => match r with Ok i => wf_instance i /\ i_lifecycle_state i = WorkspaceState_Running | Err _ => True end)
    (fun r => match r with Ok i => [running i v] | Err _ => [Res_cover v] end).
Proof.
  unfold provision_pool_member. destruct (cf_warm_pool cfg) as [pool|]; [|by apply spec_ret].
  eapply (spec_try cfg ceiling _ _ []); [|apply (spec_boot_ready_reset io (base_snapshot_id pool) _ _ v)| |done]; [perm|].
  intros [i mid] (Hw & _ & Hs). skip. by apply spec_ret.
Qed.
Lemma inert_permit_fault permit : inert (on_ledger (fun l => (tt, permit_fail_closed permit l))).
Proof. 
  apply spec_act. intros w R Hok. cbn [fst snd]. split; [done|]. split; [done|]. apply ok_quiet; [|exact Hok].
  unfold permit_fail_closed. destruct (permit_capacity permit); [apply fault_quiet|by left].
Qed.
Lemma spec_teardown_rejected io i permit g : permit_capacity permit = Some g ->
  spec [running i (Cover_pool g); Res_flight (Flight_rejected i permit)] (teardown_rejected t io i permit) (fun _ => True) (fun _ => []).
Proof.
  intros Hg. unfold teardown_rejected. bind (spec_terminate cfg ceiling quote io i (Cover_pool g)) with [Res_flight (Flight_rejected i permit)].
  destruct a.
  - eapply spec_perm; [|apply (spec_drop_pool_permit cfg ceiling (Flight_rejected i permit))]. cbn. unfold permit_res. rewrite Hg. perm.
  - apply spec_skip; [apply inert_permit_fault|]. intros _. rewrite Hg.
    eapply spec_perm; [|exact (spec_leak cfg ceiling i permit g Hg)]. perm.
Qed.
Lemma spec_complete_provision io i permit g :
  permit_capacity permit = Some g -> wf_instance i -> i_lifecycle_state i = WorkspaceState_Running ->
  spec [running i (Cover_pool g); Res_flight (Flight_booting permit)]
    (c ← on_ledger (complete_ready i permit);
     match c with
     | Ok (m, permit') =>
         writes (fun w => match w_pool w with Some p => set_pool (Some (push_back m p)) w | None => w end) ;;;
         drop_pool_permit permit'
     | Err rejected => teardown_rejected t io i permit
     end) (fun _ => True) (fun _ => []).
Proof.
  intros Hg Hw Hs. bind (spec_complete_ready cfg ceiling (i_jailer_chroot i) Phase_running i permit g Hg) with [].
  destruct a as [[m permit']|e]; [|by apply spec_teardown_rejected]. destruct H0 as [Hp [k ->]]. cbn [member_guard app].
  eapply (spec_bind cfg ceiling _ _ []); [|apply (spec_push cfg ceiling {| member_instance := Some i; member_guard := Some k |} permit'); by exists i, k|]; [perm|].
  intros [] _. eapply spec_perm; [|apply (spec_drop_pool_permit cfg ceiling (Flight_stowed permit'))]. cbn. unfold permit_res. by rewrite Hp.
Qed.
Lemma spec_provision_job io permit : job_ok (Job_provision permit) ->
  spec (job_res (Job_provision permit)) (provision_job cfg max_workspace_mem_mib audit_key t io permit) (fun _ => True) (fun _ => []).
Proof.
  intros [g Hg]. unfold provision_job, job_res, permit_res. rewrite Hg.
  bind (spec_provision_member (pv_boot io) (pv_ulid io) (Cover_pool g)) with [Res_task; Res_flight (Flight_booting permit)].
  destruct a as [i|[kind message]].
  - destruct H0 as [Hw Hs]. bind (spec_complete_provision (pv_terminate io) i permit g) with [Res_task]. apply spec_end_task.
  - eapply (spec_bind cfg ceiling _ (provision_res permit) [Res_task] _ _ (fun _ => True) (fun _ => [])); [| |intros ? _; apply spec_end_task].
    + unfold provision_res, permit_res. rewrite Hg. perm.
    + skip. apply (spec_drop_pool_permit cfg ceiling (Flight_booting permit)).
Qed.
Lemma spec_spawn_provisions permits : Forall (fun p => is_Some (permit_capacity p)) permits ->
  spec (permits ≫= provision_res) (spawn_provisions permits) (fun _ => True) (fun _ => []).
Proof.
  induction permits as [|permit rest IH]; intros Hp; cbn [spawn_provisions]; [by apply spec_ret|].
  apply Forall_cons in Hp as [Hc Hp]. set (u := rest ≫= provision_res) in *.
  change ((permit :: rest) ≫= provision_res) with (provision_res permit ++ u).
  bind (spec_begin_task cfg ceiling false) with (provision_res permit ++ u). destruct a.
  - eapply (spec_bind cfg ceiling _ _ u); [|by apply spec_queue|]; [perm|]. intros ? _. by apply IH.
  - eapply (spec_bind cfg ceiling _ _ u); [|apply (spec_drop_pool_permit cfg ceiling (Flight_booting permit))|]; [perm|]. intros ? _. by apply IH.
Qed.
Lemma pool_dimensions_in_range sid h c m :
  pool_resource_dimensions cfg max_workspace_mem_mib audit_key sid h = Ok (c, m) -> in_range U64_MAX c /\ in_range U64_MAX m.
Proof.
  unfold pool_resource_dimensions. destruct (negb _); [done|]. destruct (read_manifest _) as [mf|] eqn:Em; [|done]. cbn.
  destruct (verify_manifest_signature_pinned _ _); [|done]. cbn. destruct (_ <? _); [done|].
  destruct (capacity_dimensions _ _) as [[c' m']|] eqn:Ec; [|done]. intros [= <- <-].
  apply read_manifest_typed in Em as [[] []]. eapply dimensions_in_range; [..|exact Ec]; done.
Qed.
Lemma inert_refill_pool sid : inert (refill_pool cfg max_workspace_mem_mib audit_key sid).
Proof.
  unfold refill_pool. eapply (spec_bind cfg ceiling _ [] [] _ _ (fun dims => match dims with Ok (c, m) => in_range U64_MAX c /\ in_range U64_MAX m | Err _ => True end)
    (fun _ => [])); [done| |].
  - apply spec_act. intros w R Hok. cbn [fst snd]. split; [done|]. split; [|exact Hok].
    destruct (pool_resource_dimensions _ _ _ _ _) as [[c m]|] eqn:E; [|done]. by eapply pool_dimensions_in_range.
  - intros [[c m]|reason]; [|intros _; apply spec_audit]. intros [Hc Hm]. bind spec_reserve_pool with [].
    destruct a as [permits|e]; [|by apply spec_ret]. rewrite app_nil_r. by apply spec_spawn_provisions.
Qed.
Lemma inert_refill_once : inert (refill_once cfg max_workspace_mem_mib audit_key).
Proof.
  unfold refill_once. destruct (cf_warm_pool cfg) as [pool|]; [|by apply spec_ret]. bind (spec_begin_task cfg ceiling false) with [].
  destruct a; [|by apply spec_ret]. apply spec_skip; [apply inert_refill_pool|]. intros _. apply spec_end_task.
Qed.
Lemma inert_refill_turns wakeups : inert (refill_turns cfg max_workspace_mem_mib audit_key wakeups).
Proof.
  induction wakeups as [|kicked rest IH]; cbn [refill_turns]; [by apply spec_ret|]. skip as []; [by apply spec_ret|].
  apply spec_skip; [apply inert_refill_once|]. intros _. apply spec_skip; [|by intros _].
  apply spec_quiet. intros w. by destruct kicked.
Qed.
Lemma inert_spawn_refill wakeups : inert (spawn_refill cfg max_workspace_mem_mib audit_key wakeups).
Proof.
  unfold spawn_refill. destruct (cf_warm_pool cfg) as [pool|]; [|by apply spec_ret]. bind (spec_begin_task cfg ceiling false) with [].
  destruct a; [|by apply spec_ret]. apply spec_skip; [apply inert_refill_turns|]. intros _. apply spec_end_task.
Qed.

(** ** Shutdown *)

Lemma spec_teardown_members ios ms : Forall member_ok ms ->
  spec (ms ≫= member_res) (teardown_members t ios ms) (fun _ => True) (fun _ => []).
Proof.
  induction ms as [|m rest IH]; intros Hm; cbn [teardown_members]; [by apply spec_ret|]. apply Forall_cons in Hm as [Hm Hr].
  eapply (spec_bind cfg ceiling _ (member_res m) (rest ≫= member_res)); [done|by apply spec_teardown_member|]. intros ? _. by apply IH.
Qed.
Lemma inert_close : inert close_lifecycle.
Proof.
  unfold close_lifecycle. apply spec_skip; [|intros; apply inert_kick]. apply spec_act. intros w R Hok. cbn [fst snd].
  split; [done|]. split; [done|]. destruct Hok as [A1 A2 A3 A4 A5 A6 A7 A8 A9]. by split.
Qed.
Lemma inert_wait polls : inert (wait_idle polls).
Proof. induction polls; cbn [wait_idle]; [by apply spec_ret|]. skip as []; [by apply spec_ret|done]. Qed.
Lemma inert_shutdown_pool ios : inert (shutdown_pool t ios).
Proof.
  unfold shutdown_pool. bind spec_drain with []. rewrite app_nil_r. by apply spec_teardown_members.
Qed.
Lemma inert_shutdown polls ios : inert (shutdown_lifecycle t polls ios).
Proof.
  unfold shutdown_lifecycle. apply spec_skip; [apply inert_close|]. intros _. apply spec_skip; [apply inert_wait|].
  intros []; [|by apply spec_ret]. apply spec_skip; [apply inert_shutdown_pool|]. intros _. by apply spec_ret.
Qed.

(** ** The dispatcher *)

(** The widths of the request's integers ([u8] and [u32]). *)
Definition typed_request (req : SupervisorRequest) : Prop :=
  match req with
  | SupervisorRequest_CreateWorkspace r => 0 <= cw_vcpu_count r <= 255 /\ 0 <= cw_mem_size_mib r <= U32_MAX
  | _ => True
  end.
Lemma inert_dispatch io req : typed_request req ->
  inert (dispatch cfg max_workspace_mem_mib confidential_cvm audit_key generate t version stamps io req).
Proof.
  intros Hr. unfold dispatch. destruct (refusal cfg req); [by apply spec_ret|]. destruct req; cbn [handle].
  - by apply spec_ret.
  - by apply spec_ret.
  - destruct Hr as [[] []]. by apply inert_create.
  - apply inert_terminate.
  - apply inert_run_command.
  - apply inert_write_file.
  - apply inert_read_file.
  - apply inert_list_log.
  - apply inert_pause.
  - apply inert_resume.
  - apply inert_snapshot.
  - apply inert_restore.
  - apply inert_fork.
  - apply inert_pool_status.
  - apply inert_capacity.
  - apply inert_expose.
  - apply inert_unexpose.
  - apply inert_attestation.
Qed.
End Handlers.
