(* ===== verification/Scenario.v ===== *)
(** * A concrete supervisor

    Instances of what the supervisor takes from outside (serialisers, texts, a
    host) and a few requests with the outcomes they meet, on which the theorems
    about the manager are evaluated. *)

From S2P Require Import Prelude Text Profile Fleet Capacity Ownership Lifecycle Json Crypto AuditChain.
From S2P Require Import Snapshot Ingress Network Bytes GuestFiles Wire GuestAgent Attestation Image.
From S2P Require Import Firecracker Pool Protocol Prog Manager Command Resources Actions Handlers.

(** ** JSON values are countable, so the enumeration serialisers apply *)

Fixpoint value_tree (v : Value) : gen_tree (bool + Z + string) :=
  match v with
  | Value_Null => GenNode 0 []
  | Value_Bool b => GenLeaf (inl (inl b))
  | Value_Number n => GenLeaf (inl (inr n))
  | Value_String s => GenLeaf (inr s)
  | Value_Array l => GenNode 1 (value_tree <$> l)
  | Value_Object l => GenNode 2 ((fun '(k, v) => GenNode 3 [GenLeaf (inr k); value_tree v]) <$> l)
  end.
Fixpoint tree_value (t : gen_tree (bool + Z + string)) : Value :=
  match t with
  | GenLeaf (inl (inl b)) => Value_Bool b
  | GenLeaf (inl (inr n)) => Value_Number n
  | GenLeaf (inr s) => Value_String s
  | GenNode 1 l => Value_Array (tree_value <$> l)
  | GenNode 2 l =>
      Value_Object ((fun t => match t with
                              | GenNode _ [GenLeaf (inr k); v] => (k, tree_value v)
                              | _ => (""%string, Value_Null)
                              end) <$> l)
  | GenNode _ _ => Value_Null
  end.
Lemma tree_value_tree : forall v, tree_value (value_tree v) = v.
Proof.
  fix IH 1. intros [| | | |l|l]; cbn; try done; f_equal.
  - induction l as [|v l IHl]; cbn; [done|]. by rewrite IH, IHl.
  - induction l as [|[k v] l IHl]; cbn; [done|]. by rewrite IH, IHl.
Qed.
#[global] Instance Value_eq_dec : EqDecision Value := AgentDemo.retract_dec value_tree tree_value tree_value_tree.
#[global] Instance Value_countable : Countable Value := inj_countable' value_tree tree_value tree_value_tree.
Definition field_code (f : Field Value) : option string + Z + list (string * (string + Z)) + Value :=
  match f with
  | Field_null => inl (inl (inl None))
  | Field_string s => inl (inl (inl (Some s)))
  | Field_number n => inl (inl (inr n))
  | Field_struct l => inl (inr l)
  | Field_value v => inr v
  end.
Lemma field_code_inj f g : field_code f = field_code g -> f = g.
Proof. destruct f, g; cbn; congruence. Qed.
Definition value_vec : JsonVec Value := fun o => Some [Z.pos (encode (prod_map id field_code <$> o))].
Lemma value_vec_laws : JsonVecLaws Value value_vec.
Proof.
  constructor.
  - intros o. by eexists.
  - intros a b x [= <-] [= E]. apply (inj encode) in E. revert b E.
    induction a as [|[k f] a IH]; intros [|[k' f'] b]; cbn; try done. intros [= <- Ef E]. f_equal; [|by apply IH].
    f_equal. by apply field_code_inj.
  - done.
Qed.
Definition event_tuple (e : AuditEvent Value) :=
  (event_id e, timestamp_ms e, event_type e, AuditChain.workspace_id e, payload e, chain_index e,
   prev_hash_hex e, signature_b64 e, signer_pubkey_b64 e).
Definition event_print (e : AuditEvent Value) : string := (bits (encode (event_tuple e)) +:+ "}")%string.
Definition event_parse (s : string) : option (AuditEvent Value) :=
  b ← strip_suffix "}" s;
  '(i, t, ty, w, pl, ci, ph, sg, pk) ← decode (unbits b);
  Some {| event_id := i; timestamp_ms := t; event_type := ty; AuditChain.workspace_id := w; payload := pl;
          chain_index := ci; prev_hash_hex := ph; signature_b64 := sg; signer_pubkey_b64 := pk |}.
Definition value_json : AuditJson Value := {| print_event := fun e => Some (event_print e); parse_event := event_parse |}.
Lemma value_json_laws : AuditJsonLaws Value value_json.
Proof.
  constructor.
  - intros e. by eexists.
  - intros e s [= <-]. change (event_parse (event_print e) = Some e). unfold event_parse, event_print.
    rewrite (proj2 (strip_suffix_Some _ _ _) eq_refl). cbn. rewrite unbits_bits, decode_encode. cbn. by destruct e.
  - intros e s [= <-]. unfold event_print. destruct (bits_plain (encode (event_tuple e))) as [H1 H2].
    split_and!; [|apply utf8_valid_ascii|by eexists].
    + unfold contains_char in *. by rewrite any_char_app, H1.
    + by rewrite all_chars_app, H2.
Qed.
(** Manifests as [SnapshotDemo] writes them, read into fields of their width. *)
Definition typed_strict (b : list Z) : option SnapshotManifest :=
  m ← SnapshotDemo.toy_strict b;
  let g := guest_identity m in
  if (0 <=? gi_vcpu_count g) && (gi_vcpu_count g <=? 255) && (0 <=? gi_mem_size_mib g) && (gi_mem_size_mib g <=? U32_MAX)
  then Some m else None.
Definition typed_json : ManifestJson := {|
  parse_strict := typed_strict; parse_envelope := head; to_vec_pretty := fun m => Some (SnapshotDemo.toy_pretty m) |}.
Lemma typed_json_typed : ManifestTyped typed_json.
Proof.
  constructor. intros b m. cbn. unfold typed_strict. destruct (SnapshotDemo.toy_strict b) as [m'|]; [|done]. cbn.
  destruct (_ && _) eqn:E; [|done]. intros [= <-]. reflect_Z. lia.
Qed.

Module Scenario.
#[export] Existing Instances toy_crypto toy_crypto_laws.
#[export] Instance vec0 : JsonVec unit := toy_vec.
#[export] Instance values0 : JsonVec Value := value_vec.
#[export] Instance values0_laws : JsonVecLaws Value values0 := value_vec_laws.
#[export] Instance events0 : AuditJson Value := value_json.
#[export] Instance events0_laws : AuditJsonLaws Value events0 := value_json_laws.
#[export] Instance codec0 : Codec GuestRequest GuestResponse := AgentDemo.codec.
#[export] Instance manifests0 : ManifestJson := typed_json.
#[export] Instance manifests0_typed : ManifestTyped manifests0 := typed_json_typed.

Definition key0 : SigningKey := 7.
Definition pool0 : WarmPoolConfig :=
  {| tier_name := "small"; base_snapshot_id := "base"; target_size := 2; max_in_flight := 1 |}.
Definition cfg_of (profile : ExecutionProfile) : WorkspaceManagerConfig := {|
  cf_firecracker_binary := ["bin"; "firecracker"]; cf_jailer_binary := ["bin"; "jailer"]; cf_chroot_base := ["srv"];
  cf_image_store := ["store"]; cf_jailer_uid := 1; cf_jailer_gid := 1; cf_openshell_sandbox_binary := ["bin"; "sandbox"];
  cf_default_kernel_boot_args := "quiet"; cf_execution_profile := profile; cf_network := None; cf_state_dir := ["state"];
  cf_warm_pool := Some pool0 |}.
Definition cfg0 : WorkspaceManagerConfig := cfg_of ExecutionProfile_Standard.
Definition texts0 : Texts := {|
  t_quote := fun s => s; t_rpc := fun _ => "rpc"; t_net := fun _ => "network"; t_capacity := fun _ => "capacity";
  t_snapshot := fun _ => "snapshot"; t_attestation := fun _ => "attestation"; t_response := fun _ => "response" |}.
Definition generate0 (r : EvidenceRequest) (now : Z) : result AttestationError Evidence := Err AttestationError_Sign.
Definition stamps0 : AuditRun :=
  {| ar_opened := fresh_log key0;
     ar_stamp := fun n => {| st_now := Some (Z.of_nat n); st_id := "01"; st_io := Io_ok |} |}.

(** *** Images, and the base snapshot of the pool *)

Definition kernel0 : list Z := replicate 64 97.
Definition rootfs0 : list Z := replicate 64 98.
Definition kernel_digest : string := hex_encode (sha256 kernel0).
Definition rootfs_digest : string := hex_encode (sha256 rootfs0).
Definition store0 : Fs :=
  list_to_map
    [(["store"], Node_dir 493); (["store"; "kernels"], Node_dir 493); (["store"; "kernels"; kernel_digest], Node_dir 493);
     (["store"; "kernels"; kernel_digest; "vmlinux"], Node_file 256 kernel0);
     (["store"; "rootfs"], Node_dir 493); (["store"; "rootfs"; rootfs_digest], Node_dir 493);
     (["store"; "rootfs"; rootfs_digest; "rootfs.img"], Node_file 256 rootfs0)].
Definition resolve0 : ResolveIo :=
  {| at_root := store0; at_lstat := store0; at_canonical := store0; at_open := store0; read_io := Ok tt; rewind_io := Ok tt |}.
Definition base_guest : Guest :=
  {| g_fs := {[ [] := Node_dir 493; ["workspace"] := Node_dir 493 ]}; g_hostname := "base"; g_machine_id := "base"; g_seeds := [] |}.
Definition base_files : SnapshotDir :=
  {| mem_file := Some (freeze base_guest).1; vmstate_file := Some (freeze base_guest).2; manifest_file := None |}.
Definition base_dir : SnapshotDir :=
  match write_manifest base_files key0 "base" "w0" "1.9" kernel_digest rootfs_digest
          {| hostname := "w0"; mac := "unset"; guest_vsock_cid := 3; gi_vcpu_count := 1; gi_mem_size_mib := 128 |} "quiet" true with
  | Ok (_, d) => d
  | Err _ => base_files
  end.
Definition host0 : Host :=
  {| h_trees := ∅; h_vms := ∅; h_snapshots := {[ ["state"; "snapshots"; "base"] := base_dir ]}; h_unconfirmed := ∅ |}.

(** *** A host on which everything works *)

Definition spawn0 : SpawnIo :=
  {| sp_claim := {| ci_shared := Ok tt; ci_root := Ok tt; ci_chroot := Ok tt; ci_removed := Ok tt |};
     sp_kernel := FirecrackerDemo.good_stage; sp_rootfs := FirecrackerDemo.good_stage; sp_rollback := true;
     sp_spawn := Ok tt; sp_has_pid := true; sp_polls := [SocketPoll_present]; sp_child := FirecrackerDemo.good_child;
     sp_removed := Ok tt |}.
Definition launch0 : LaunchIo :=
  {| li_spawn := spawn0; li_api := fun _ => FirecrackerDemo.good_api; li_child := FirecrackerDemo.good_child;
     li_removed := Ok tt; li_boot_id := "b1" |}.
Definition terminate0 : TerminateIo := FirecrackerDemo.stubborn.
Definition net0 : NetIo := {| ni_exec := fun _ _ _ => Exec_ok; ni_spawn := fun _ _ => Network.Spawned 9 |}.
Definition exit0 : SandboxExitIo := {| se_grace := Some (Ok tt); se_kill := Ok tt; se_wait := Ok tt |}.
Definition teardown0 : TeardownIo := {| td_terminate := terminate0; td_net := net0; td_sandbox := exit0 |}.
Definition restore_io (boot_id : string) : RestoreIo :=
  {| ri_spawn := spawn0; ri_mkdir := Ok tt; ri_copy_mem := Ok tt; ri_copy_vmstate := Ok tt; ri_chown := Ok tt;
     ri_load := FirecrackerDemo.good_api; ri_child := FirecrackerDemo.good_child; ri_removed := Ok tt; ri_boot_id := boot_id |}.
Definition boot_io (boot_id machine_id : string) : BootIo := {|
  bi_kernel := resolve0; bi_rootfs := resolve0; bi_restore := restore_io boot_id; bi_env := AgentDemo.env0;
  bi_ready := [(AgentDemo.call0, false)]; bi_machine_id := machine_id; bi_entropy := Ok (replicate 32 5);
  bi_reset := AgentDemo.call0; bi_terminate := terminate0 |}.
Definition create_io : CreateIo := {|
  cr_kernel := resolve0; cr_rootfs := resolve0; cr_net := net0; cr_launch := launch0; cr_teardown := teardown0;
  cr_checkouts := []; cr_adopt := terminate0; cr_boot := boot_io "b2" "22222222222222222222222222222222";
  cr_sandbox := {| sx_ssh_addr := "/run/ssh"; sx_secret := "s"; sx_spawn := Ok tt; sx_exit := exit0 |} |}.
Definition call_io : CallIo :=
  {| ca_env := AgentDemo.env0; ca_call := AgentDemo.call0; ca_ssh := Err (OpenShellError_Timeout 1) |}.
Definition snap_io : SnapIo := {|
  sn_pause := FirecrackerDemo.good_api;
  sn_create := {| si_mkdir := Ok tt; si_chown := Ok tt; si_create := FirecrackerDemo.good_api |};
  sn_resume := FirecrackerDemo.good_api; sn_id := "s1"; sn_mkdir := Ok tt; sn_copy_mem := Ok tt; sn_copy_vmstate := Ok tt;
  sn_linked_mem := None; sn_linked_vmstate := None; sn_version := None; sn_signer := Ok key0; sn_write := true;
  sn_live_id := "l1"; sn_boot := boot_io "b3" "33333333333333333333333333333333"; sn_terminate_old := terminate0 |}.
Definition request_io : DispatchIo := {|
  d_uptime_ms := 1; d_now := 1; d_create := create_io; d_teardown := teardown0; d_call := call_io; d_snapshot := snap_io;
  d_restore := {| rq_boot := boot_io "b4" "44444444444444444444444444444444"; rq_teardown := teardown0 |}; d_audit_error := "" |}.

(** *** Requests *)

Definition create_w1 : CreateWorkspaceRequest := {|
  cw_workspace_id := "w1"; cw_kernel_sha256 := kernel_digest; cw_rootfs_sha256 := rootfs_digest; cw_rootfs_read_only := true;
  cw_vcpu_count := 1; cw_mem_size_mib := 128; cw_guest_vsock_cid := 3; cw_kernel_boot_args := None; cw_network := None;
  cw_tier := None |}.
Definition serve (cfg : WorkspaceManagerConfig) (req : SupervisorRequest) : Prog World SupervisorResponse :=
  dispatch cfg 4096 true key0 generate0 texts0 "0.1.0" stamps0 request_io req.
Definition start_of (cfg : WorkspaceManagerConfig) : World :=
  match manager_new cfg host0 {| slots := slots_new; log := [] |} 4 with
  | Ok w => w
  | Err _ => {| w_host := host0; w_ledger := CapacityLedger_new 0; w_forgotten := []; w_tasks := Tasks.new; w_claims := ∅;
                w_instances := ∅; w_pool := None; w_kicks := 0; w_routes := ∅; w_rings := ∅;
                w_net := {| slots := []; log := [] |}; w_permits := 0; w_sandboxes := []; w_strays := []; w_audit := []; w_jobs := [] |}
  end.
Definition after (cfg : WorkspaceManagerConfig) (req : SupervisorRequest) (w : World) : World := snd (run (serve cfg req) w).
Definition answer (cfg : WorkspaceManagerConfig) (req : SupervisorRequest) (w : World) : SupervisorResponse := fst (run (serve cfg req) w).
Definition world1 : World := after cfg0 (SupervisorRequest_CreateWorkspace create_w1) (start_of cfg0).
Definition fork_w2 : SupervisorRequest :=
  SupervisorRequest_ForkWorkspace {| fk_snapshot_id := "base"; fk_new_workspace_id := "w2"; fk_hostname := None |}.
Definition world2 : World := after cfg0 fork_w2 world1.
Definition write_a : SupervisorRequest :=
  SupervisorRequest_WriteFile {| wr_workspace_id := "w1"; wr_path := "a.txt"; wr_content := [1; 2; 3]; wr_guest_port := 0 |}.
Definition world3 : World := after cfg0 write_a world2.
Definition snapshot_w1 (live : bool) : SupervisorRequest :=
  SupervisorRequest_SnapshotWorkspace {| sr_workspace_id := "w1"; sr_live := live |}.
Definition world4 : World := after cfg0 (snapshot_w1 false) world3.
Definition restore_w3 : SupervisorRequest :=
  SupervisorRequest_RestoreWorkspace {| rs_snapshot_id := "s1"; rs_new_workspace_id := "w3" |}.
Definition world5 : World := after cfg0 restore_w3 world4.
End Scenario.
