(* ===== verification/Supervisor.v ===== *)
(** * The supervisor as a whole

    The manager serves any number of requests at once and runs the tasks it
    spawned, the refill loop and the shutdown beside them, while guests run, exit
    and write to their jails and the disk changes.  What holds in every state that
    is reached by any interleaving, and what remains when nothing is in progress. *)

From S2P Require Import Prelude Text Profile Fleet Capacity Ownership Lifecycle Json Crypto AuditChain.
From S2P Require Import Snapshot Ingress Network Bytes GuestFiles Wire GuestAgent Attestation Image.
From S2P Require Import Firecracker Pool Protocol Prog Manager Command Resources Actions Handlers Scenario.

Section Supervisor.
Context {H : Hypervisor} {C : Crypto} {V : JsonVec unit} {VJ : JsonVec Value} {MJ : ManifestJson}.
Context {AJ : AuditJson Value} {K : Codec GuestRequest GuestResponse}.
Context (cfg : WorkspaceManagerConfig) (max_workspace_mem_mib : Z) (confidential_cvm : bool).
Context (audit_key : SigningKey) (generate : EvidenceRequest -> Z -> result AttestationError Evidence).
Context (t : Texts) (version : string) (stamps : AuditRun).

(** What starts at any moment: a request, with whatever its handler meets; a queued task,
    which leaves the queue; the refill loop; the shutdown. *)
Inductive arrives : World -> Prog World (option SupervisorResponse) -> World -> Prop :=
| arrives_request w io req : typed_request req ->
    arrives w (r ← dispatch cfg max_workspace_mem_mib confidential_cvm audit_key generate t version stamps io req;
               Ret (Some r)) w
| arrives_provision w l1 l2 permit io : w_jobs w = l1 ++ Job_provision permit :: l2 ->
    arrives w (provision_job cfg max_workspace_mem_mib audit_key t io permit ;;; Ret None) (set_jobs (l1 ++ l2) w)
| arrives_cleanup w l1 l2 p io : w_jobs w = l1 ++ Job_cleanup p :: l2 ->
    arrives w (cleanup_job t io p ;;; Ret None) (set_jobs (l1 ++ l2) w)
| arrives_refill w wakeups :
    arrives w (spawn_refill cfg max_workspace_mem_mib audit_key wakeups ;;; Ret None) w
| arrives_shutdown w polls ios : arrives w (_ ← shutdown_lifecycle t polls ios; Ret None) w.
(** What happens by itself: a guest runs, a process exits, a jail's owner writes to its tree,
    the snapshot directories and the network change, the relays and the ingress edge report to the
    audit log, a sandbox process that was given up exits. *)
Inductive world_env : World -> World -> Prop :=
| env_guest w c vm vm' : h_vms (w_host w) !! c = Some vm ->
    world_env w (set_host (set_vms (<[c := vm']> (h_vms (w_host w))) (w_host w)) w)
| env_exit w c : world_env w (set_host (set_vms (delete c (h_vms (w_host w))) (w_host w)) w)
| env_tree w r fs fs' : h_trees (w_host w) !! r = Some fs ->
    world_env w (set_host (set_trees (<[r := fs']> (h_trees (w_host w))) (w_host w)) w)
| env_disk w s : world_env w (set_host (set_snapshots s (w_host w)) w)
| env_net w n : world_env w (set_net n w)
| env_audit w c : world_env w (set_audit (c :: w_audit w) w)
| env_stray w l : l `sublist_of` w_strays w -> world_env w (set_strays l w).

(** A manager that just started, on a host where no jail of its own runs. *)
Record started (ceiling : Z) (w : World) : Prop := {
  st_new : exists h n, manager_new cfg h n ceiling = Ok w;
  st_vms : h_vms (w_host w) = ∅;
  st_lost : h_unconfirmed (w_host w) = ∅;
  st_ceiling : 0 <= ceiling;
  st_pool c : cf_warm_pool cfg = Some c -> 0 <= target_size c /\ 0 <= max_in_flight c;
}.
Definition supervisor_reaches (w : World) (x : Sys) : Prop := reaches arrives world_env w x.

(** ** Every reachable state satisfies the invariant *)

Context {MT : ManifestTyped MJ} (ceiling : Z).
Local Abbreviation J := (J cfg ceiling).
Local Abbreviation ok := (ok cfg ceiling).

Lemma J_started w : started ceiling w -> J w [].
Proof.
  intros [(h & n & E) Hv Hl Hc Hp]. unfold manager_new in E. unfold validate_workspace_ceiling in E.
  destruct (Z.ltb_spec U32_MAX ceiling); [done|]. destruct (_ =? 0); [done|]. destruct (_ <? ceiling); [done|]. injection E as <-.
  unfold Resources.J, held. cbn in *. unfold registry_res. rewrite map_to_list_empty. cbn.
  replace (pool_res _) with (@nil Res) by by destruct (cf_warm_pool cfg). cbn.
  split; cbn; try done.
  - split; [|done]. apply inv_initial. by split.
  - split; [by constructor|by constructor|rewrite Hl; set_solver|]. intros c [vm Hvm]. by rewrite Hv, lookup_empty in Hvm.
  - split; [by constructor|done].
  - destruct (cf_warm_pool cfg) as [c|] eqn:Ec; cbn; unfold pool_ok; rewrite Ec; [|done].
    destruct (Hp c eq_refl). split; [by constructor|]. exists (CapacityLedger_new ceiling), 0%nat.
    split; cbn; unfold pending; cbn; try done; lia.
Qed.
Lemma J_env w T w' : J w T -> world_env w w' -> J w' T.
Proof.
  intros HJ He. destruct He as [w c vm vm' Hvm|w c|w r fs fs' Hr|w s|w n|w c|w l _]; unfold Resources.J in *; change (held _) with (held w).
  - apply ok_host; [|done]. eapply jails_grow; [|apply HJ]. by eapply insert_vm_grows.
  - apply ok_host; [|done]. destruct (ok_jails _ _ _ _ HJ) as [A1 A2 A3 A4]. split; [done| |done|].
    + eapply Forall_impl; [exact A2|]. intros [c' x] (Hf & Hx & Hin). split_and!; [done|done|].
      destruct x; cbn in *; try done. destruct Hin as (? & Hn & ?). split_and!; [done| |done].
      destruct (decide (c = c')) as [->|]; [apply lookup_delete_eq|by rewrite lookup_delete_ne].
    + intros c' [vm Hvm]. cbn in Hvm. apply lookup_delete_Some in Hvm as [_ Hvm]. apply A4. by eexists.
  - apply ok_host; [|done]. eapply jails_grow; [|apply HJ]. apply put_tree_grows.
  - apply ok_host; [|done]. eapply jails_grow; [|apply HJ]. apply snapshots_grow.
  - eapply ok_core; [|exact HJ]. by repeat split.
  - eapply ok_core; [|exact HJ]. by repeat split.
  - eapply ok_core; [|exact HJ]. by repeat split.
Qed.
(** A task taken out of the queue owns what the queue held for it. *)
Lemma J_dequeue w T l1 l2 j : J w T -> w_jobs w = l1 ++ j :: l2 -> job_ok j /\ J (set_jobs (l1 ++ l2) w) (job_res j ++ T).
Proof.
  intros HJ E. pose proof (ok_jobs _ _ _ _ HJ) as Hjobs. rewrite E in Hjobs. apply Forall_app in Hjobs as [H1 H2].
  apply Forall_cons in H2 as [Hj H2]. split; [done|].
  assert (held w ++ T ≡ₚ held (set_jobs (l1 ++ l2) w) ++ job_res j ++ T) as Ep.
  { unfold held. cbn. rewrite E, !bind_app. cbn. solve_Permutation. }
  apply (ok_perm _ _ _ _ _ Ep) in HJ. destruct HJ as [A1 A2 A3 A4 A5 A6 A7 A8 A9]. split; try done. by apply Forall_app.
Qed.
Lemma wp_all {A B} u (p : Prog World A) (b : A -> B) :
  spec cfg ceiling u p (fun _ => True) (fun _ => []) -> wp J (a ← p; Ret (b a)) u (all_of J (fun _ => True)).
Proof. intros Hp. apply wp_bind. eapply wp_mono; [|exact Hp]. intros a t' [_ Hs]. by split. Qed.
Lemma supervisor_safe w x : started ceiling w -> supervisor_reaches w x -> safe J (fun _ => True) x.
Proof.
  intros Hw. apply (adequacy J (J_perm cfg ceiling) arrives world_env (fun _ => True)); [|exact J_env|by apply J_started].
  intros w1 T p w' HJ Ha. destruct Ha as [w2 io req Hr|w2 l1 l2 permit io E|w2 l1 l2 pf io E|w2 wakeups|w2 polls ios].
  - exists []. split; [done|]. apply wp_all. by apply inert_dispatch.
  - destruct (J_dequeue _ _ _ _ _ HJ E) as [Hj HJ']. eexists. split; [exact HJ'|]. apply wp_all. by apply spec_provision_job.
  - destruct (J_dequeue _ _ _ _ _ HJ E) as [Hj HJ']. eexists. split; [exact HJ'|]. apply wp_all. by apply spec_cleanup_job.
  - exists []. split; [done|]. apply wp_all. apply inert_spawn_refill.
  - exists []. split; [done|]. apply wp_all. apply inert_shutdown.
Qed.
(** The resources of all tasks; none when there is no task. *)
Lemma supervisor_inv w x : started ceiling w -> supervisor_reaches w x ->
  exists T, ok (world x) (held (world x) ++ T) /\ (threads x = [] -> T = []).
Proof.
  intros Hw Hr. destruct (supervisor_safe _ _ Hw Hr) as [_ (toks & Hf & HJ)]. exists (concat toks). split; [done|].
  intros Ht. rewrite Ht in Hf. by apply Forall2_nil_inv_l in Hf as ->.
Qed.

(** ** Who accounts for a machine *)

Inductive Owner := Owner_entry (e : CapacityEntryId) | Owner_lease (id : string).
#[global] Instance Owner_eq_dec : EqDecision Owner.
Proof. solve_decision. Defined.
Definition owner_of (v : Cover) : option Owner :=
  match v with
  | Cover_lease id _ => Some (Owner_lease id)
  | v => Owner_entry <$> (cover_guard v ≫= guard_entry)
  end.
Definition machine_owner (r : Res) : option (list string * Owner) :=
  match r with Res_machine c _ v => pair c <$> owner_of v | _ => None end.
Definition owners (R : list Res) : list (list string * Owner) := omap machine_owner R.

Lemma elem_of_owners R c o : (c, o) ∈ owners R <-> exists x v, Res_machine c x v ∈ R /\ owner_of v = Some o.
Proof.
  unfold owners. rewrite list_elem_of_omap. split.
  - intros (r & Hr & Ho). destruct r as [|c' x v| | |]; try done. cbn in Ho.
    destruct (owner_of v) as [o'|] eqn:Ev; [|done]. injection Ho as -> ->. eauto.
  - intros (x & v & Hr & Ho). exists (Res_machine c x v). split; [done|]. cbn. by rewrite Ho.
Qed.
Lemma owner_known l v : state_known l v -> is_Some (owner_of v).
Proof.
  destruct v as [g|g st|g|g|id u]; cbn; [intros [i ->]|intros (i & -> & _)|intros [i ->]|intros [i ->]|intros _]; by eexists.
Qed.
Lemma owners_sublist R : (owners R).*1 `sublist_of` (machines R).*1.
Proof.
  induction R as [|r R IH]; [done|]. destruct r as [|c x v| | |]; try done. parts. unfold owners in *. cbn.
  destruct (owner_of v); cbn; [by apply sublist_skip|by apply sublist_cons].
Qed.
Lemma owners_covers R : (owners R).*2 `sublist_of` omap owner_of (covers R).
Proof.
  induction R as [|r R IH]; [done|]. destruct r as [v|c x v| | |]; parts; unfold owners in *; cbn; try done.
  - destruct (owner_of v); [by apply sublist_cons|done].
  - destruct (owner_of v); cbn; [by apply sublist_skip|done].
Qed.
Lemma owner_entry_guard v e : owner_of v = Some (Owner_entry e) -> exists g, cover_guard v = Some g /\ guard_entry g = Some e.
Proof. destruct v as [g|g st|g|g|id u]; cbn; [..|done]; destruct (_ : option CapacityEntryId) eqn:E; try done; intros [= <-]; eauto. Qed.
Lemma owners_nodup (vs : list Cover) :
  NoDup (owned (omap cover_guard vs)) -> NoDup (omap cover_lease vs).*1 -> NoDup (omap owner_of vs).
Proof.
  induction vs as [|v vs IH]; [constructor|]. cbn. intros Hg Hl.
  assert (NoDup (omap owner_of vs)) as Hvs.
  { apply IH.
    - destruct (cover_guard v) as [g|]; [|done]. rewrite owned_cons in Hg. by apply NoDup_app in Hg as (_ & _ & ?).
    - destruct (cover_lease v); [|done]. by apply NoDup_cons in Hl as [_ ?]. }
  destruct (owner_of v) as [o|] eqn:Eo; [|done]. apply NoDup_cons. split; [|done]. intros (v' & Hv' & Ho)%list_elem_of_omap.
  destruct o as [e|id].
  - apply owner_entry_guard in Eo as (g & Hvg & He). apply owner_entry_guard in Ho as (g' & Hvg' & He'). rewrite Hvg in Hg.
    rewrite owned_cons, He in Hg. apply NoDup_cons in Hg as [Hn _]. apply Hn, elem_of_owned. exists g'. split; [|done].
    apply list_elem_of_omap. eauto.
  - destruct v as [g|g st|g|g|id0 u]; cbn in Eo; try (by destruct (_ : option CapacityEntryId)). injection Eo as ->.
    destruct v' as [g|g st|g|g|id0 u']; cbn in Ho; try (by destruct (_ : option CapacityEntryId)). injection Ho as ->.
    cbn in Hl. apply NoDup_cons in Hl as [Hn _]. apply Hn, list_elem_of_fmap. exists (id, u'). split; [done|].
    apply list_elem_of_omap. by exists (Cover_lease id u').
Qed.

Lemma owner_unique w R : ok w R -> NoDup (owners R).*1 /\ NoDup (owners R).*2.
Proof.
  intros Hok. split.
  - eapply sublist_NoDup; [|apply owners_sublist]. apply (ok_jails _ _ _ _ Hok).
  - eapply sublist_NoDup; [|apply owners_covers]. apply owners_nodup.
    + destruct (ok_ledger _ _ _ _ Hok) as [[_ Hd _ _ _] _]. by apply NoDup_app in Hd as (Hd & _).
    + apply (ok_leases _ _ _ _ Hok).
Qed.
Lemma pair_unique {A B} (l : list (A * B)) a a' b : NoDup l.*2 -> (a, b) ∈ l -> (a', b) ∈ l -> a = a'.
Proof.
  induction l as [|[a0 b0] l IH]; [by intros _ ?%not_elem_of_nil|]. cbn. intros [Hn Hd]%NoDup_cons.
  rewrite !elem_of_cons. intros [E|Ha] [E'|Ha']; simplify_eq; auto; exfalso; apply Hn, list_elem_of_fmap; by eexists (_, _).
Qed.
Lemma owner_valid w R c o : ok w R -> (c, o) ∈ owners R ->
  match o with Owner_entry e => is_Some (entry_of (locked (w_ledger w)) e) | Owner_lease id => id ∈ w_claims w end
  /\ is_Some (h_trees (w_host w) !! root_of c).
Proof.
  intros Hok (x & v & Hr & Ho)%elem_of_owners. split.
  - destruct o as [e|id].
    + apply owner_entry_guard in Ho as (g & Hv & He). destruct (ok_ledger _ _ _ _ Hok) as [[_ _ Hown _ _] _].
      rewrite Forall_forall in Hown. destruct (Hown g) with (i := e) as (s & Hs & _); [|done|by eexists].
      apply list_elem_of_omap. exists v. split; [|done]. apply list_elem_of_omap. by exists (Res_machine c x v).
    + destruct v as [g|g st|g|g|id0 u]; cbn in Ho; try (by destruct (_ : option CapacityEntryId)). injection Ho as ->.
      destruct (ok_leases _ _ _ _ Hok) as [_ ->]. apply elem_of_list_to_set, list_elem_of_fmap. exists (id, u). split; [done|].
      apply list_elem_of_omap. exists (Cover_lease id u). split; [|done]. apply list_elem_of_omap. by exists (Res_machine c x (Cover_lease id u)).
  - destruct (ok_jails _ _ _ _ Hok) as [_ Hp _ _]. rewrite Forall_forall in Hp.
    destruct (Hp (c, x)) as (_ & Hx & Hin). { apply list_elem_of_omap. by exists (Res_machine c x v). }
    destruct x; cbn in Hin; [..|done|]; apply Hin || done.
Qed.
(** A process is a machine somebody owns, or its exit was given up on. *)
Lemma process_owned w R c : ok w R -> is_Some (h_vms (w_host w) !! c) ->
  (exists o, (c, o) ∈ owners R) \/ c ∈ h_unconfirmed (w_host w).
Proof.
  intros Hok Hvm. destruct (jo_processes _ _ (ok_jails _ _ _ _ Hok) c Hvm) as [Hm|Hl]; [left|by right].
  apply list_elem_of_omap in Hm as (r & Hr & E). destruct r as [|c' x v| | |]; try done. injection E as -> ->.
  pose proof (ok_states _ _ _ _ Hok) as Hs. rewrite Forall_forall in Hs.
  destruct (owner_known (w_ledger w) v) as [o Ho]. { apply Hs, list_elem_of_omap. by exists (Res_machine c Phase_running v). }
  exists o. apply elem_of_owners. eauto.
Qed.
Lemma held_registered w T id e r : w_instances w !! id = Some e -> r ∈ exec_res e -> r ∈ held w ++ T.
Proof.
  intros He Hr. apply elem_of_app. left. unfold held. apply elem_of_app. left. apply list_elem_of_bind. exists e.
  split; [done|]. apply list_elem_of_fmap. exists (id, e). split; [done|]. by apply elem_of_map_to_list.
Qed.
Lemma held_member w T p m r : w_pool w = Some p -> m ∈ members p -> r ∈ member_res m -> r ∈ held w ++ T.
Proof.
  intros Hp Hm Hr. apply elem_of_app. left. unfold held. rewrite Hp. apply elem_of_app. right. apply elem_of_app. left.
  apply list_elem_of_bind. by exists m.
Qed.
(** C1: Whatever interleaving of requests, background tasks and outcomes led to a state, the machines
    can be accounted for: every jailed process has exactly one owner, a ledger entry that is still
    accounted for or the lease of an operation in progress, or its exit could not be confirmed and it
    is on the list of processes given up on; no two machines have the same owner; a registered
    workspace is owned by the entry of its id and a pool member by a pool entry. *)
Theorem every_machine_is_accounted_for w0 x :
  started ceiling w0 -> supervisor_reaches w0 x ->
  let w := world x in
  exists owner : gmap (list string) Owner,
    (forall c, is_Some (h_vms (w_host w) !! c) -> is_Some (owner !! c) \/ c ∈ h_unconfirmed (w_host w))
    /\ (forall c c' o, owner !! c = Some o -> owner !! c' = Some o -> c = c')
    /\ (forall c o, owner !! c = Some o ->
          match o with Owner_entry e => is_Some (entry_of (locked (w_ledger w)) e) | Owner_lease id => id ∈ w_claims w end
          /\ is_Some (h_trees (w_host w) !! root_of c))
    /\ (forall id i g, w_instances w !! id = Some (WorkspaceExec_Firecracker i g) ->
          owner !! i_jailer_chroot i = Some (Owner_entry (CapacityEntryId_Workspace id)))
    /\ (forall p m i, w_pool w = Some p -> m ∈ members p -> member_instance m = Some i ->
          exists e, owner !! i_jailer_chroot i = Some (Owner_entry e)).
Proof.
  intros Hw Hr w. destruct (supervisor_inv _ _ Hw Hr) as (T & Hok & _). fold w in Hok. set (R := held w ++ T) in *.
  destruct (owner_unique _ _ Hok) as [Hn1 Hn2]. exists (list_to_map (owners R)).
  assert (forall c o, list_to_map (M := gmap _ _) (owners R) !! c = Some o <-> (c, o) ∈ owners R) as Hlook.
  { intros c o. by rewrite elem_of_list_to_map. }
  split_and!.
  - intros c Hc. destruct (process_owned _ _ _ Hok Hc) as [[o Ho]|]; [left|by right]. exists o. by apply Hlook.
  - intros c c' o Hc%Hlook Hc'%Hlook. by eapply pair_unique.
  - intros c o Ho%Hlook. by apply (owner_valid _ _ _ _ Hok).
  - intros id i g He. apply Hlook, elem_of_owners. exists Phase_running, (Cover_registered g (i_lifecycle_state i)).
    split; [eapply held_registered; [exact He|apply list_elem_of_singleton; done]|].
    destruct (ro_exec _ _ _ (ok_registry _ _ _ _ Hok) _ _ He) as (Hg & _). cbn. by rewrite Hg.
  - intros p m i Hp Hm Hi. pose proof (pool_ok_members cfg _ _ _ Hp (ok_pool _ _ _ _ Hok)) as Hms. rewrite Forall_forall in Hms.
    destruct (Hms m Hm) as (i' & g & -> & _). injection Hi as ->.
    assert (Res_machine (i_jailer_chroot i) Phase_running (Cover_ready g) ∈ R) as Hin.
    { eapply held_member; [exact Hp|exact Hm|]. cbn. by apply list_elem_of_singleton. }
    pose proof (ok_states _ _ _ _ Hok) as Hs. rewrite Forall_forall in Hs.
    destruct (Hs (Cover_ready g)) as [e He]. { apply list_elem_of_omap. eexists. split; [exact Hin|done]. }
    exists e. apply Hlook, elem_of_owners. eexists _, _. split; [exact Hin|]. cbn. by rewrite He.
Qed.

(** ** How many machines run *)

Definition owner_entry_id (o : Owner) : option CapacityEntryId := match o with Owner_entry e => Some e | Owner_lease _ => None end.
Definition owner_lease_id (o : Owner) : option string := match o with Owner_entry _ => None | Owner_lease id => Some id end.
Lemma owners_split (l : list Owner) : length l = (length (omap owner_entry_id l) + length (omap owner_lease_id l))%nat.
Proof. induction l as [|[] l IH]; cbn; lia. Qed.
Lemma omap_nodup {A B} (f : A -> option B) l :
  (forall a a' b, f a = Some b -> f a' = Some b -> a = a') -> NoDup l -> NoDup (omap f l).
Proof.
  intros Hf. induction 1 as [|a l Hn _ IH]; cbn; [constructor|]. destruct (f a) as [b|] eqn:E; [|done].
  constructor; [|done]. intros (a' & Ha' & E')%list_elem_of_omap. by rewrite (Hf _ _ _ E E') in Hn.
Qed.
Lemma nodup_length {A} (l l' : list A) : NoDup l -> (forall a, a ∈ l -> a ∈ l') -> (length l <= length l')%nat.
Proof. intros Hn Hi. by apply submseteq_length, NoDup_submseteq. Qed.
Lemma owners_bound w R : ok w R -> list_len (owners R) <= used (locked (w_ledger w)) + Z.of_nat (size (w_claims w)).
Proof.
  intros Hok. destruct (owner_unique _ _ Hok) as [_ Hn]. unfold list_len. rewrite <- (length_fmap snd (owners R)), owners_split, Nat2Z.inj_add.
  assert (forall o, o ∈ (owners R).*2 ->
    match o with Owner_entry e => is_Some (entry_of (locked (w_ledger w)) e) | Owner_lease id => id ∈ w_claims w end) as Hv.
  { intros o ([c o'] & -> & Ho)%list_elem_of_fmap. by apply (owner_valid _ _ c _ Hok). }
  apply Z.add_le_mono.
  - rewrite used_entry_ids. apply inj_le, nodup_length.
    + apply omap_nodup; [|done]. by intros [] [] b [= <-] [= <-].
    + intros e ([e'|] & Ho & E)%list_elem_of_omap; [|done]. injection E as ->. apply elem_of_entry_ids; [|apply (Hv _ Ho)]. apply (books_wf _ _ (ok_ledger _ _ _ _ Hok)).
  - apply inj_le. unfold size, set_size. apply nodup_length.
    + apply omap_nodup; [|done]. by intros [] [] b [= <-] [= <-].
    + intros id ([|id'] & Ho & E)%list_elem_of_omap; [done|]. injection E as ->. apply elem_of_elements. apply (Hv _ Ho).
Qed.
(** C4: In every reachable state the number of jailed processes, those given up on aside, is at most the
    workspace ceiling the manager was started with plus the number of operations in progress that
    hold a lease; in particular, no burst of requests, forks, pool refills and failures makes the
    supervisor run more machines than it admits. *)
Theorem machines_are_bounded w0 x :
  started ceiling w0 -> supervisor_reaches w0 x ->
  let w := world x in
  Z.of_nat (size (dom (h_vms (w_host w)) ∖ h_unconfirmed (w_host w))) <= ceiling + Z.of_nat (size (w_claims w)).
Proof.
  intros Hw Hr w. destruct (supervisor_inv _ _ Hw Hr) as (T & Hok & _). fold w in Hok. set (R := held w ++ T) in *.
  etrans; [|apply Z.add_le_mono_r; destruct (ok_ledger _ _ _ _ Hok) as [Hi Hc]; cbn in Hc; rewrite <- Hc; apply (wf_bound _ (inv_wf _ Hi))].
  etrans; [|exact (owners_bound _ _ Hok)]. unfold list_len. rewrite <- (length_fmap fst (owners R)). apply inj_le.
  unfold size, set_size. apply nodup_length; [apply NoDup_elements|]. intros c Hc%elem_of_elements.
  apply elem_of_difference in Hc as [Hc Hn]. apply elem_of_dom in Hc.
  destruct (process_owned _ _ _ Hok Hc) as [[o Ho]|]; [|done]. apply list_elem_of_fmap. by exists (c, o).
Qed.

(** ** The registry and the ledger *)

Definition exec_state (e : WorkspaceExec) : WorkspaceState :=
  match e with
  | WorkspaceExec_Firecracker i _ => i_lifecycle_state i
  | WorkspaceExec_OpenShell _ _ => WorkspaceState_Running
  end.
Definition exec_guard (e : WorkspaceExec) : RegisteredWorkspaceCapacityGuard :=
  match e with WorkspaceExec_Firecracker _ g | WorkspaceExec_OpenShell _ g => g end.
Lemma exec_cover e : Cover_registered (exec_guard e) (exec_state e) ∈ covers (exec_res e).
Proof. destruct e as [i g|s g]; apply list_elem_of_omap; eexists; (split; [apply list_elem_of_here|done]). Qed.
Lemma registered_state w R id e : ok w R -> (forall r, r ∈ exec_res e -> r ∈ R) -> w_instances w !! id = Some e ->
  entry_of (locked (w_ledger w)) (CapacityEntryId_Workspace id) = Some (inl (WorkspaceCapacityState_Registered (exec_state e))).
Proof.
  intros Hok Hin He. pose proof (exec_cover e) as Hc. pose proof (ok_states _ _ _ _ Hok) as Hs. rewrite Forall_forall in Hs.
  destruct (Hs (Cover_registered (exec_guard e) (exec_state e))) as (i & Hi & Hst).
  { apply list_elem_of_omap in Hc as (r & Hr & Ec). apply list_elem_of_omap. exists r. auto. }
  pose proof (ro_exec _ _ _ (ok_registry _ _ _ _ Hok) _ _ He) as Hx.
  assert (rw_entry_id (exec_guard e) = Some (CapacityEntryId_Workspace id)) as Hid by (destruct e; apply Hx). congruence.
Qed.
(** What the shared state holds is never a lease. *)
Lemma leases_bind {A} (f : A -> list Res) l : (forall a, leases (f a) = []) -> leases (l ≫= f) = [].
Proof. intros Hf. induction l as [|a l IH]; [done|]. cbn. rewrite leases_app, Hf. exact IH. Qed.
Lemma held_leases w : leases (held w) = [].
Proof.
  unfold held. rewrite !leases_app. unfold registry_res. rewrite leases_bind by by intros [].
  replace (leases (pool_res _)) with (@nil (string * LeaseUse)).
  2:{ destruct (w_pool w); [|done]. cbn. rewrite leases_bind; [done|]. by intros [[] []]. }
  rewrite leases_bind; [done|]. intros [[[] ? ? ?]|[[] [[]|] ?]]; done.
Qed.
(** C2: In every reachable state the registry and the capacity ledger tell the same story: a registered
    workspace has the entry of its id, in the lifecycle state of the registered instance, and the
    instance carries that id. An instance that is marked as being snapshotted is held by the lease of a
    snapshot that is still running, or the ledger has failed closed: only then is the mark left
    behind, because the end of a snapshot cannot change the state of an entry any more. *)
Theorem registry_mirrors_ledger w0 x id e :
  started ceiling w0 -> supervisor_reaches w0 x -> w_instances (world x) !! id = Some e ->
  let w := world x in
  entry_of (locked (w_ledger w)) (CapacityEntryId_Workspace id) = Some (inl (WorkspaceCapacityState_Registered (exec_state e)))
  /\ match e with
     | WorkspaceExec_Firecracker i _ => i_workspace_id i = id
         /\ (i_lifecycle_state i = WorkspaceState_Snapshotting ->
               (id ∈ w_claims w /\ threads x <> []) \/ ~ healthy (w_ledger w))
     | WorkspaceExec_OpenShell s _ => sb_workspace_id s = id /\ s ∈ w_sandboxes w
     end.
Proof.
  intros Hw Hr He w. destruct (supervisor_inv _ _ Hw Hr) as (T & Hok & Ht). fold w in Hok. split.
  { eapply registered_state; [exact Hok| |exact He]. intros r Hr'. by eapply held_registered. }
  pose proof (ro_exec _ _ _ (ok_registry _ _ _ _ Hok) _ _ He) as Hx. destruct e as [i g|s g].
  - destruct Hx as (_ & _ & Hid & Hs). split; [done|]. intros Hsn.
    destruct (decide (healthy (w_ledger w))) as [Hh|Hh]; [left|by right]. specialize (Hs Hsn Hh). split.
    + destruct (ok_leases _ _ _ _ Hok) as [_ ->]. apply elem_of_list_to_set, list_elem_of_fmap. exists (id, Lease_marked (i_boot_id i)). by split.
    + intros Hn. rewrite (Ht Hn), app_nil_r, held_leases in Hs. by apply not_elem_of_nil in Hs.
  - destruct Hx as [_ Hid]. split; [done|]. destruct (ok_confidential _ _ _ _ Hok) as (_ & _ & ->).
    apply list_elem_of_omap. exists (Some s). split; [|done]. apply list_elem_of_omap. exists (Res_confidential (Some s)).
    split; [|done]. eapply held_registered; [exact He|]. cbn. set_solver.
Qed.

(** Every sandbox process that may run: the ones the manager holds, and the strays, which were sent a
    kill and given up without their exit having been seen. *)
Definition sandbox_processes (w : World) : list Sandbox := w_sandboxes w ++ w_strays w.
(** C20: At any time, whatever is in progress, the manager holds at most one confidential sandbox, and
    at most one workspace of the confidential profile is registered, whose sandbox it is. Every other
    sandbox process that may still run is a stray: one whose exit was not seen when it was terminated,
    or whose port did not become ready. *)
Theorem confidential_sandbox_is_exclusive w0 x :
  started ceiling w0 -> supervisor_reaches w0 x ->
  let w := world x in
  (length (w_sandboxes w) <= 1)%nat
  /\ (length (sandbox_processes w) <= 1 + length (w_strays w))%nat
  /\ (forall id s g, w_instances w !! id = Some (WorkspaceExec_OpenShell s g) -> w_sandboxes w = [s])
  /\ forall id id' s s' g g', w_instances w !! id = Some (WorkspaceExec_OpenShell s g) ->
       w_instances w !! id' = Some (WorkspaceExec_OpenShell s' g') -> id = id'.
Proof.
  intros Hw Hr w. destruct (supervisor_inv _ _ Hw Hr) as (T & Hok & _). fold w in Hok.
  destruct (ok_confidential _ _ _ _ Hok) as (Hp & Hc & Hs).
  assert (length (w_sandboxes w) <= 1)%nat as Hl.
  { rewrite Hs. unfold list_len in Hc. assert (forall l : list (option Sandbox), length (omap id l) <= length l)%nat as Hom.
    { intros l. induction l as [|[] l IH]; cbn in *; lia. } specialize (Hom (confs (held w ++ T))). lia. }
  assert (forall id s g, w_instances w !! id = Some (WorkspaceExec_OpenShell s g) -> sb_workspace_id s = id /\ s ∈ w_sandboxes w) as Hin.
  { intros id0 s0 g0 H0. pose proof (ro_exec _ _ _ (ok_registry _ _ _ _ Hok) _ _ H0) as [_ Hid]. split; [done|]. rewrite Hs.
    apply list_elem_of_omap. exists (Some s0). split; [|done]. apply list_elem_of_omap. exists (Res_confidential (Some s0)).
    split; [|done]. eapply held_registered; [exact H0|]. cbn. set_solver. }
  assert (forall id s g, w_instances w !! id = Some (WorkspaceExec_OpenShell s g) -> w_sandboxes w = [s]) as Hone.
  { intros id0 s0 g0 [_ Hs1]%Hin. destruct (w_sandboxes w) as [|s1 [|]]; [by apply not_elem_of_nil in Hs1| |cbn in Hl; lia].
    apply list_elem_of_singleton in Hs1. by subst. }
  split_and!; [done|unfold sandbox_processes; rewrite length_app; lia|done|].
  intros id1 id2 s1 s2 g1 g2 He He'. destruct (Hin _ _ _ He) as [<- _], (Hin _ _ _ He') as [<- _].
  apply Hone in He, He'. congruence.
Qed.

(** ** The pool *)

(** C19: In every reachable state the warm pool is inside its configuration: it holds at most the
    target number of ready members and no more provisions are on the way than the configured number,
    also while refills, checkouts and failing provisions race; every member is a complete machine in the running state. *)
Theorem warm_pool_is_bounded w0 x p :
  started ceiling w0 -> supervisor_reaches w0 x -> w_pool (world x) = Some p ->
  exists c, cf_warm_pool cfg = Some c /\ Pool.cfg p = c
    /\ list_len (members p) <= target_size c /\ 0 <= in_flight p <= max_in_flight c
    /\ Forall member_ok (members p).
Proof.
  intros Hw Hr Hp. destruct (supervisor_inv _ _ Hw Hr) as (T & Hok & _). pose proof (ok_pool _ _ _ _ Hok) as Hpool.
  rewrite Hp in Hpool. unfold pool_ok in Hpool. destruct (cf_warm_pool cfg) as [c|]; [|done]. destruct Hpool as (Hm & l & k & [P1 P2 P3 P4 P5 P6]).
  cbn in *. unfold pending in *. cbn in *. pose proof (unstowed_le (flights_in (held (world x) ++ T))) as Hu.
  unfold list_len in *. exists c. split_and!; try done; lia.
Qed.

(** ** Nothing in progress *)

Lemma quiet_held w : w_jobs w = [] -> held w = registry_res (w_instances w) ++ pool_res (w_pool w).
Proof. intros Hj. unfold held. rewrite Hj. by rewrite app_nil_r. Qed.
Lemma elem_of_quiet w r : w_jobs w = [] ->
  r ∈ held w <-> (exists id e, w_instances w !! id = Some e /\ r ∈ exec_res e)
             \/ (exists p m, w_pool w = Some p /\ m ∈ members p /\ r ∈ member_res m).
Proof.
  intros Hj. rewrite (quiet_held _ Hj), elem_of_app. unfold registry_res. rewrite list_elem_of_bind. split.
  - intros [(e & Hr & ([id e'] & -> & He)%list_elem_of_fmap)|Hr].
    + left. exists id, e'. split; [|done]. by apply elem_of_map_to_list.
    + right. destruct (w_pool w) as [p|]; [|by apply not_elem_of_nil in Hr]. cbn in Hr. apply list_elem_of_bind in Hr as (m & Hr & Hm). eauto.
  - intros [(id & e & He & Hr)|(p & m & -> & Hm & Hr)].
    + left. exists e. split; [done|]. apply list_elem_of_fmap. exists (id, e). split; [done|]. by apply elem_of_map_to_list.
    + right. cbn. apply list_elem_of_bind. eauto.
Qed.
Definition member_entry (w : World) (e : CapacityEntryId) : Prop :=
  exists p m g, w_pool w = Some p /\ m ∈ members p /\ member_guard m = Some g /\ rp_entry_id g = Some e.
Lemma quiet_tasks w : w_jobs w = [] -> tasks (held w) = [].
Proof.
  intros Hj. rewrite (quiet_held _ Hj), tasks_app.
  assert (forall A (f : A -> list Res) l, (forall a, tasks (f a) = []) -> tasks (l ≫= f) = []) as Hb.
  { intros A f l Hf. induction l as [|a l IH]; [done|]. cbn. rewrite tasks_app, Hf. exact IH. }
  unfold registry_res. rewrite Hb by by intros []. destruct (w_pool w); [|done]. cbn. apply Hb. by intros [[] []].
Qed.
Lemma quiet_process w R c : ok w R -> R = held w -> w_jobs w = [] -> is_Some (h_vms (w_host w) !! c) ->
  (exists id i g, w_instances w !! id = Some (WorkspaceExec_Firecracker i g) /\ i_jailer_chroot i = c)
  \/ (exists p m i, w_pool w = Some p /\ m ∈ members p /\ member_instance m = Some i /\ i_jailer_chroot i = c)
  \/ c ∈ h_unconfirmed (w_host w).
Proof.
  intros Hok -> Hj Hc. destruct (process_owned _ _ _ Hok Hc) as [[o (x & v & Hin & _)%elem_of_owners]|]; [|by right; right].
  apply (elem_of_quiet _ _ Hj) in Hin as [(id & e & He & Hr)|(p & m & Hp & Hm & Hr)].
  - left. destruct e as [i g|s g]; cbn in Hr; [|set_solver]. apply list_elem_of_singleton in Hr. injection Hr as -> _ _. eauto.
  - right; left. destruct m as [[i|] [g|]]; cbn in Hr; try (by apply not_elem_of_nil in Hr).
    apply list_elem_of_singleton in Hr. injection Hr as -> _ _. by exists p, {| member_instance := Some i; member_guard := Some g |}, i.
Qed.
Lemma quiet_owned w R e : ok w R -> R = held w -> w_jobs w = [] ->
  e ∈ owned (guards R) <-> (exists id, e = CapacityEntryId_Workspace id /\ is_Some (w_instances w !! id)) \/ member_entry w e.
Proof.
  intros Hok -> Hj. rewrite elem_of_owned. unfold guards, covers. setoid_rewrite list_elem_of_omap. setoid_rewrite list_elem_of_omap. split.
  - intros (g & (v & (r & Hr & Hv) & Hg) & He). apply (elem_of_quiet _ _ Hj) in Hr as [(id & ex & Hex & Hr)|(p & m & Hp & Hm & Hr)].
    + left. exists id. split; [|by eexists]. pose proof (ro_exec _ _ _ (ok_registry _ _ _ _ Hok) _ _ Hex) as Hx.
      destruct ex as [i k|s k]; cbn in Hr; [apply list_elem_of_singleton in Hr as ->|apply elem_of_cons in Hr as [->|Hr]];
        [..|apply list_elem_of_singleton in Hr as ->; done]; injection Hv as <-; injection Hg as <-; cbn in *; destruct Hx; congruence.
    + right. destruct m as [[i|] [k|]]; cbn in Hr; try (by apply not_elem_of_nil in Hr). apply list_elem_of_singleton in Hr as ->.
      injection Hv as <-. injection Hg as <-. by exists p, {| member_instance := Some i; member_guard := Some k |}, k.
  - intros [(id & -> & [ex Hex])|(p & m & k & Hp & Hm & Hk & He)].
    + exists (Guard_Registered (exec_guard ex)). split.
      * exists (Cover_registered (exec_guard ex) (exec_state ex)). split; [|done]. pose proof (exec_cover ex) as Hc.
        apply list_elem_of_omap in Hc as (r & Hr & Ec). exists r. split; [|done]. apply (elem_of_quiet _ _ Hj). left. eauto.
      * pose proof (ro_exec _ _ _ (ok_registry _ _ _ _ Hok) _ _ Hex) as Hx. destruct ex; apply Hx.
    + exists (Guard_Ready k). split; [|done]. exists (Cover_ready k). split; [|done].
      pose proof (pool_ok_members cfg _ _ _ Hp (ok_pool _ _ _ _ Hok)) as Hms. rewrite Forall_forall in Hms.
      destruct (Hms m Hm) as (i & k' & -> & _). injection Hk as ->. exists (Res_machine (i_jailer_chroot i) Phase_running (Cover_ready k)).
      split; [|done]. apply (elem_of_quiet _ _ Hj). right. exists p. eexists. split_and!; [done|exact Hm|]. apply list_elem_of_here.
Qed.
(** C3: When no request and no background task is in progress, nothing has leaked: no lease and no tracker
    permit is held; every jailed process is a registered workspace, a ready pool member or one whose
    exit could not be confirmed, which may have no entry; every registered workspace, every ready member and every entry that
    was given up with an unconfirmed process has its ledger entry, and while the ledger is in service
    it has no other; and an instance is marked as being snapshotted only if the ledger has failed
    closed. *)
Theorem idle_supervisor_leaks_nothing w0 x :
  started ceiling w0 -> supervisor_reaches w0 x -> threads x = [] -> w_jobs (world x) = [] ->
  let w := world x in
  w_claims w = ∅ /\ Tasks.active (w_tasks w) = 0
  /\ (forall c, is_Some (h_vms (w_host w) !! c) ->
        (exists id i g, w_instances w !! id = Some (WorkspaceExec_Firecracker i g) /\ i_jailer_chroot i = c)
        \/ (exists p m i, w_pool w = Some p /\ m ∈ members p /\ member_instance m = Some i /\ i_jailer_chroot i = c)
        \/ c ∈ h_unconfirmed (w_host w))
  /\ (forall e,
        (exists id, e = CapacityEntryId_Workspace id /\ is_Some (w_instances w !! id)) \/ member_entry w e \/ e ∈ w_forgotten w ->
        is_Some (entry_of (locked (w_ledger w)) e))
  /\ (healthy (w_ledger w) -> forall e, is_Some (entry_of (locked (w_ledger w)) e) ->
        (exists id, e = CapacityEntryId_Workspace id /\ is_Some (w_instances w !! id)) \/ member_entry w e \/ e ∈ w_forgotten w)
  /\ (forall id e, w_instances w !! id = Some e -> exec_state e = WorkspaceState_Snapshotting -> ~ healthy (w_ledger w)).
Proof.
  intros Hw Hr Ht Hj w. destruct (supervisor_inv _ _ Hw Hr) as (T & Hok & HT). rewrite (HT Ht), app_nil_r in Hok. fold w in Hok, Hj.
  split_and!.
  - destruct (ok_leases _ _ _ _ Hok) as [_ ->]. by rewrite held_leases.
  - destruct (ok_tasks _ _ _ _ Hok) as [_ ->]. by rewrite quiet_tasks.
  - intros c Hc. by eapply quiet_process.
  - intros e Hi. destruct (ok_ledger _ _ _ _ Hok) as [[_ _ Hown Hf Ha] _]. cbn in *. pose proof (quiet_owned w _ e Hok eq_refl Hj) as Hq.
    assert (e ∈ owned (guards (held w)) \/ e ∈ w_forgotten w) as [Ho|Ho] by tauto; [by eapply owned_entry|auto].
  - intros Hh e. destruct (ok_ledger _ _ _ _ Hok) as [[_ _ Hown Hf Ha] _]. cbn in *. pose proof (quiet_owned w _ e Hok eq_refl Hj) as Hq.
    intros [Hi|Hi]%Ha%elem_of_app; [|auto|done]. apply Hq in Hi. tauto.
  - intros id e He Hs Hh. pose proof (ro_exec _ _ _ (ok_registry _ _ _ _ Hok) _ _ He) as Hx. destruct e as [i g|s g]; [|done].
    destruct Hx as (_ & _ & _ & Hl). specialize (Hl Hs Hh). rewrite held_leases in Hl. by apply not_elem_of_nil in Hl.
Qed.
End Supervisor.

(** ** On a concrete supervisor *)

Module SupervisorDemo.
Import Scenario.
Local Abbreviation reaches_from cfg w x := (supervisor_reaches cfg 4096 true key0 generate0 texts0 "0.1.0" stamps0 w x).
Definition idle (w : World) (rs : list (option SupervisorResponse)) : Sys := {| world := w; threads := []; replies := rs |}.
Lemma arrive_one cfg w0 w w1 rs p :
  arrives cfg 4096 true key0 generate0 texts0 "0.1.0" stamps0 w p w1 -> reaches_from cfg w0 (idle w rs) ->
  reaches_from cfg w0 (idle (snd (run p w1)) (fst (run p w1) :: rs)).
Proof.
  intros Ha Hx. unfold supervisor_reaches, reaches in *. etrans; [exact Hx|].
  eapply rtc_l; [by apply (sched_arrive _ _ w p w1)|]. apply sched_runs.
Qed.
Definition task (io : DispatchIo) (cfg : WorkspaceManagerConfig) (req : SupervisorRequest) : Prog World (option SupervisorResponse) :=
  r ← dispatch cfg 4096 true key0 generate0 texts0 "0.1.0" stamps0 io req; Ret (Some r).
Lemma serve_task cfg w0 w rs io req :
  typed_request req -> reaches_from cfg w0 (idle w rs) ->
  reaches_from cfg w0 (idle (snd (run (task io cfg req) w)) (fst (run (task io cfg req) w) :: rs)).
Proof. intros Hr Hx. apply (arrive_one cfg w0 w w rs); [|exact Hx]. by apply arrives_request. Qed.
Lemma serve_request cfg w0 w rs req :
  typed_request req -> reaches_from cfg w0 (idle w rs) ->
  reaches_from cfg w0 (idle (after cfg req w) (Some (answer cfg req w) :: rs)).
Proof.
  intros Hr Hx. pose proof (arrive_one cfg w0 w w rs (r ← serve cfg req; Ret (Some r))) as Ha.
  rewrite run_bind in Ha. unfold answer, after. destruct (run (serve cfg req) w) as [r w']. apply Ha; [|exact Hx]. by apply arrives_request.
Qed.
Lemma started0 profile : started (cfg_of profile) 4 (start_of (cfg_of profile)).
Proof.
  split; [by exists host0, {| slots := slots_new; log := [] |}|done|done|lia|]. intros c [= <-]. cbn. lia.
Qed.
Lemma world3_reached : exists rs, reaches_from cfg0 (start_of cfg0) (idle world3 rs).
Proof.
  eexists. apply serve_request; [done|]. apply serve_request; [done|]. apply serve_request; [|apply rtc_refl].
  cbn. unfold U32_MAX. lia.
Qed.
(** A request that is served while another one is in progress. *)
Definition during (n : nat) (first second : Prog World (option SupervisorResponse)) (w : World) : World :=
  snd (run (fst (run_for n first w)) (snd (run second (snd (run_for n first w))))).
Lemma serve_during cfg w0 w rs n io req io' req' :
  typed_request req -> typed_request req' -> reaches_from cfg w0 (idle w rs) ->
  exists rs', reaches_from cfg w0 (idle (during n (task io cfg req) (task io' cfg req') w) rs').
Proof.
  intros Hr Hr' Hx. eexists. unfold supervisor_reaches, reaches in *. etrans; [exact Hx|].
  eapply rtc_l; [apply (sched_arrive _ _ w (task io cfg req) w); by apply arrives_request|].
  etrans; [apply (sched_runs_for _ _ n)|].
  eapply rtc_l; [apply (sched_arrive _ _ _ (task io' cfg req')); by apply arrives_request|].
  etrans; [apply sched_runs|]. apply sched_runs.
Qed.
(** Neither the kill nor the wait of a process succeeds. *)
Definition lost_io : DispatchIo := {|
  d_uptime_ms := 1; d_now := 1; d_create := create_io; d_call := call_io; d_snapshot := snap_io;
  d_teardown := {|
    td_terminate := {| ti_polls := [TermPoll_running true];
                       ti_child := {| try_wait_io := Ok false; kill_io := Err "kill"; wait_io := Err "wait" |};
                       ti_removed := Ok tt |};
    td_net := net0; td_sandbox := {| se_grace := None; se_kill := Err "kill"; se_wait := Err "wait" |} |};
  d_restore := d_restore request_io; d_audit_error := "" |}.
Definition terminate (id : string) : SupervisorRequest :=
  SupervisorRequest_Terminate {| tr_workspace_id := id; tr_grace_period_ms := 1 |}.
(** While [w1] is snapshotted, the termination of [w2] fails and the ledger with it. *)
Definition world_f : World := during 5 (task request_io cfg0 (snapshot_w1 false)) (task lost_io cfg0 (terminate "w2")) world3.
Lemma world_f_reached : exists rs, reaches_from cfg0 (start_of cfg0) (idle world_f rs).
Proof. destruct world3_reached as [rs Hr]. by apply (serve_during _ _ _ rs). Qed.
Lemma every_machine_is_accounted_for_witness :
  exists owner : gmap (list string) Owner,
    owner !! ["srv"; "firecracker"; "w1"; "root"] = Some (Owner_entry (CapacityEntryId_Workspace "w1"))
    /\ is_Some (owner !! ["srv"; "firecracker"; "w2"; "root"]).
Proof.
  destruct world3_reached as [rs Hr].
  destruct (every_machine_is_accounted_for cfg0 4096 true key0 generate0 texts0 "0.1.0" stamps0 4 (start_of cfg0) (idle world3 rs)
    (started0 ExecutionProfile_Standard) Hr) as (owner & Hp & _ & _ & Hi & _).
  exists owner. split.
  - assert (exists i g, w_instances world3 !! "w1" = Some (WorkspaceExec_Firecracker i g) /\ i_jailer_chroot i = ["srv"; "firecracker"; "w1"; "root"])
      as (i & g & Hw & Hc) by (do 2 eexists; split; vm_compute; reflexivity).
    rewrite <- Hc. exact (Hi _ _ _ Hw).
  - destruct (Hp ["srv"; "firecracker"; "w2"; "root"]) as [Ho|Hu]; [|exact Ho|].
    + eexists. vm_compute. reflexivity.
    + exfalso. revert Hu. change (["srv"; "firecracker"; "w2"; "root"] ∈ h_unconfirmed (w_host world3) -> False).
      assert (h_unconfirmed (w_host world3) = ∅) as -> by (vm_compute; reflexivity). apply not_elem_of_empty.
Defined.
Lemma machines_are_bounded_witness :
  size (dom (h_vms (w_host world3)) ∖ h_unconfirmed (w_host world3)) = 2%nat
  /\ Z.of_nat (size (dom (h_vms (w_host world3)) ∖ h_unconfirmed (w_host world3))) <= 4 + Z.of_nat (size (w_claims world3)).
Proof.
  split; [vm_compute; reflexivity|]. destruct world3_reached as [rs Hr].
  exact (machines_are_bounded cfg0 4096 true key0 generate0 texts0 "0.1.0" stamps0 4 (start_of cfg0) (idle world3 rs)
    (started0 ExecutionProfile_Standard) Hr).
Defined.
Lemma registry_mirrors_ledger_witness :
  entry_of (locked (w_ledger world3)) (CapacityEntryId_Workspace "w1")
    = Some (inl (WorkspaceCapacityState_Registered WorkspaceState_Running))
  /\ exists i g, w_instances world_f !! "w1" = Some (WorkspaceExec_Firecracker i g)
       /\ i_lifecycle_state i = WorkspaceState_Snapshotting /\ ~ healthy (w_ledger world_f).
Proof.
  split; [destruct world3_reached as [rs Hr]|destruct world_f_reached as [rs Hr]].
  2:{ assert (exists i g, w_instances world_f !! "w1" = Some (WorkspaceExec_Firecracker i g) /\ i_lifecycle_state i = WorkspaceState_Snapshotting)
        as (i & g & Hw & Hs) by (do 2 eexists; split; vm_compute; reflexivity).
      exists i, g. split; [exact Hw|]. split; [exact Hs|].
      destruct (registry_mirrors_ledger cfg0 4096 true key0 generate0 texts0 "0.1.0" stamps0 4 (start_of cfg0)
        (idle world_f rs) "w1" _ (started0 ExecutionProfile_Standard) Hr Hw) as (_ & _ & Hm).
      destruct (Hm Hs) as [[_ Ht]|Hh]; [by destruct Ht|exact Hh]. }
  assert (exists i g, w_instances world3 !! "w1" = Some (WorkspaceExec_Firecracker i g) /\ i_lifecycle_state i = WorkspaceState_Running)
    as (i & g & Hw & Hs) by (do 2 eexists; split; vm_compute; reflexivity).
  rewrite <- Hs. exact (proj1 (registry_mirrors_ledger cfg0 4096 true key0 generate0 texts0 "0.1.0" stamps0 4 (start_of cfg0)
    (idle world3 rs) "w1" _ (started0 ExecutionProfile_Standard) Hr Hw)).
Defined.
Lemma idle_supervisor_leaks_nothing_witness :
  w_claims world3 = ∅ /\ is_Some (entry_of (locked (w_ledger world3)) (CapacityEntryId_Workspace "w2")).
Proof.
  destruct world3_reached as [rs Hr].
  assert (w_jobs world3 = []) as Hj by (vm_compute; reflexivity).
  destruct (idle_supervisor_leaks_nothing cfg0 4096 true key0 generate0 texts0 "0.1.0" stamps0 4 (start_of cfg0) (idle world3 rs)
    (started0 ExecutionProfile_Standard) Hr eq_refl Hj) as (Hc & _ & _ & He & _).
  split; [exact Hc|]. apply He. left. exists "w2". split; [reflexivity|]. eexists. vm_compute. reflexivity.
Defined.

(** A confidential supervisor with its one workspace. *)
Definition cfg1 : WorkspaceManagerConfig := cfg_of ExecutionProfile_ConfidentialAzure.
Definition create_c1 : SupervisorRequest := SupervisorRequest_CreateWorkspace {|
  cw_workspace_id := "c1"; cw_kernel_sha256 := ""; cw_rootfs_sha256 := ""; cw_rootfs_read_only := true;
  cw_vcpu_count := 0; cw_mem_size_mib := 0; cw_guest_vsock_cid := 0; cw_kernel_boot_args := None; cw_network := None;
  cw_tier := None |}.
Definition world_c : World := after cfg1 create_c1 (start_of cfg1).
Definition create_c2 : SupervisorRequest := SupervisorRequest_CreateWorkspace {|
  cw_workspace_id := "c2"; cw_kernel_sha256 := ""; cw_rootfs_sha256 := ""; cw_rootfs_read_only := true;
  cw_vcpu_count := 0; cw_mem_size_mib := 0; cw_guest_vsock_cid := 0; cw_kernel_boot_args := None; cw_network := None;
  cw_tier := None |}.
(** Its sandbox is given up, and another workspace is created. *)
Definition world_s : World := after cfg1 create_c2 (snd (run (task lost_io cfg1 (terminate "c1")) world_c)).
Lemma confidential_sandbox_is_exclusive_witness :
  (exists s g, w_instances world_s !! "c2" = Some (WorkspaceExec_OpenShell s g) /\ w_sandboxes world_s = [s])
  /\ sb_workspace_id <$> w_strays world_s = ["c1"] /\ (length (sandbox_processes world_s) <= 2)%nat.
Proof.
  assert (exists rs, reaches_from cfg1 (start_of cfg1) (idle world_s rs)) as [rs Hr].
  { eexists. apply serve_request; [cbn; unfold U32_MAX; lia|]. apply serve_task; [done|].
    apply serve_request; [cbn; unfold U32_MAX; lia|]. apply rtc_refl. }
  assert (exists s g, w_instances world_s !! "c2" = Some (WorkspaceExec_OpenShell s g)) as (s & g & Hs)
    by (do 2 eexists; vm_compute; reflexivity).
  destruct (confidential_sandbox_is_exclusive cfg1 4096 true key0 generate0 texts0 "0.1.0" stamps0 4 (start_of cfg1)
    (idle world_s rs) (started0 ExecutionProfile_ConfidentialAzure) Hr) as (_ & Hl & Ho & _).
  split; [exists s, g; split; [exact Hs|exact (Ho _ _ _ Hs)]|]. split; [vm_compute; reflexivity|].
  assert (length (w_strays world_s) = 1%nat) as Hn by (vm_compute; reflexivity). cbn [idle world] in Hl. lia.
Defined.

(** The pool after one turn of the refill loop and the provision it queued. *)
Definition refilled : World := snd (run (spawn_refill cfg0 4096 key0 [true] ;;; Ret (A := option SupervisorResponse) None) (start_of cfg0)).
Definition provision_io : ProvisionIo :=
  {| pv_ulid := "01"; pv_boot := boot_io "b5" "55555555555555555555555555555555"; pv_terminate := terminate0 |}.
Definition stocked : World :=
  match w_jobs refilled with
  | Job_provision permit :: rest =>
      snd (run (provision_job cfg0 4096 key0 texts0 provision_io permit ;;; Ret (A := option SupervisorResponse) None) (set_jobs rest refilled))
  | _ => refilled
  end.
Lemma stocked_reached : exists rs, reaches_from cfg0 (start_of cfg0) (idle stocked rs).
Proof.
  assert (exists rs, reaches_from cfg0 (start_of cfg0) (idle refilled rs)) as [rs Hr].
  { eexists. apply (arrive_one cfg0 _ (start_of cfg0)); [apply arrives_refill|apply rtc_refl]. }
  unfold stocked. destruct (w_jobs refilled) as [|[permit|p] rest] eqn:E; [by eexists| |by eexists].
  eexists. eapply arrive_one; [|exact Hr]. by apply (arrives_provision _ _ _ _ _ _ _ _ refilled [] rest).
Qed.
Lemma warm_pool_is_bounded_witness :
  exists p, w_pool stocked = Some p /\ list_len (members p) = 1 /\ list_len (members p) <= 2.
Proof.
  destruct stocked_reached as [rs Hr].
  assert (exists p, w_pool stocked = Some p /\ list_len (members p) = 1) as (p & Hp & Hl)
    by (eexists; split; vm_compute; reflexivity).
  exists p. split; [exact Hp|]. split; [exact Hl|].
  destruct (warm_pool_is_bounded cfg0 4096 true key0 generate0 texts0 "0.1.0" stamps0 4 (start_of cfg0) (idle stocked rs) p
    (started0 ExecutionProfile_Standard) Hr Hp) as (c & Hc & _ & Ht & _).
  injection Hc as <-. exact Ht.
Defined.
End SupervisorDemo.
