(* ===== verification/ApiAuth.v ===== *)
(** * API keys and the start-up posture ([crates/ne-api/src/auth.rs], the guard of
    [crates/ne-api/src/lib.rs], [crates/ne/src/apikey.rs])

    The key file holds SHA-256 digests; [load] parses it, [verify] checks a
    presented token, [generate_api_key] is what the operator's command appends.
    [guard] decides whether the front door may start; [auth_of] is the store its
    two servers then enforce.  SHA-256, hex and base64 are interfaces. *)

From S2P Require Import Prelude Text Crypto Bytes.

(** [str::lines]: a line ends with a line feed, or a carriage return and a line feed. *)
Definition newline : ascii := "010".
Definition carriage_return : string := String "013" EmptyString.
Definition strip_cr (s : string) : string := default s (strip_suffix carriage_return s).
Fixpoint lines_of (ps : list string) : list string :=
  match ps with
  | [] => []
  | [l] => if is_empty l then [] else [l]
  | l :: r => strip_cr l :: lines_of r
  end.
Definition lines (s : string) : list string := lines_of (split_on newline s).

Record ApiKeyStore := { digests : gset (list Z); labels : gmap (list Z) string }.
Definition empty_store : ApiKeyStore := {| digests := ∅; labels := ∅ |}.

Section Keys.
Context {C : Crypto} (hex_decode : string -> option (list Z)).

(** One line of the key file: nothing, or a digest and its label. *)
Definition line_error (i : Z) (what : string) : string := "api key file line " +:+ show_uint (i + 1) +:+ ": " +:+ what.
Definition parse_key_line (i : Z) (raw : string) : result string (option (list Z * string)) :=
  let line := trim raw in
  if is_empty line || starts_with "#" line then Ok None
  else
    let '(hash_part, label) :=
      match split_once "#" line with
      | Some (h, l) => (trim h, trim l)
      | None => (line, EmptyString)
      end in
    rest ← ok_or (strip_prefix "sha256:" hash_part) (line_error i "expected `sha256:<hex>`");
    bytes ← ok_or (hex_decode (trim rest)) (line_error i "invalid hex digest");
    arr ← ok_or (to_array 32 bytes) (line_error i "digest must be 32 bytes");
    Ok (Some (arr, label)).
Definition insert_key (k : list Z * string) (s : ApiKeyStore) : ApiKeyStore :=
  {| digests := {[k.1]} ∪ digests s;
     labels := if is_empty k.2 then labels s else <[k.1 := k.2]> (labels s) |}.
Fixpoint load_lines (i : Z) (ls : list string) (s : ApiKeyStore) : result string ApiKeyStore :=
  match ls with
  | [] => Ok s
  | raw :: rest =>
      k ← parse_key_line i raw;
      load_lines (i + 1) rest (match k with Some k => insert_key k s | None => s end)
  end.
(** [ApiKeyStore::load] of the text of the file. *)
Definition load (text : string) : result string ApiKeyStore := load_lines 0 (lines text) empty_store.

Definition verify (s : ApiKeyStore) (token : string) : option string :=
  let digest := sha256 (bytes_of token) in
  if decide (digest ∈ digests s) then Some (default EmptyString (labels s !! digest)) else None.

(** The token of an [Authorization] value. *)
Definition bearer_from_str (header : string) : option string :=
  if String.eqb (to_ascii_lowercase (String.substring 0 7 header)) "bearer "
  then let token := trim (String.substring 7 (String.length header - 7) header) in
       if is_empty token then None else Some token
  else None.
(** The check both servers make before anything else; the value is the header when it is text. *)
Definition authorized (store : ApiKeyStore) (authorization : option string) : bool :=
  match authorization ≫= bearer_from_str with
  | Some t => bool_decide (is_Some (verify store t))
  | None => false
  end.

(** [generate_api_key]: the token, and the text appended to the key file. *)
Definition generate_api_key (b64url : list Z -> string) (raw : list Z) (ulid : string) : string * string :=
  let token := "nee_" +:+ b64url raw in
  (token, "sha256:" +:+ hex_encode (sha256 (bytes_of token)) +:+ "  # generated " +:+ ulid +:+ String newline EmptyString).
End Keys.

(** ** The start-up posture *)

Inductive IpAddr := IpAddr_V4 (a b c d : Z) | IpAddr_V6 (segments : list Z).
Definition is_loopback (ip : IpAddr) : bool :=
  match ip with
  | IpAddr_V4 a _ _ _ => a =? 127
  | IpAddr_V6 s => bool_decide (s = [0; 0; 0; 0; 0; 0; 0; 1])
  end.
Record SocketAddr := { sa_ip : IpAddr; sa_port : Z }.
Record ApiConfig := {
  grpc_bind : SocketAddr;
  rest_bind : SocketAddr;
  supervisor_socket : list string;
  dev_mode : bool;
  api_keys : ApiKeyStore;
  api_tls : option (list Z * list Z);
}.
(** [allow_public] is whether [NE_DEV_ALLOW_PUBLIC_BIND] is set. *)
Definition guard (show : SocketAddr -> string) (allow_public : bool) (c : ApiConfig) : result string unit :=
  let grpc_lo := is_loopback (sa_ip (grpc_bind c)) in
  let rest_lo := is_loopback (sa_ip (rest_bind c)) in
  if dev_mode c then
    if (negb grpc_lo || negb rest_lo) && negb allow_public
    then Err ("refusing to start: dev mode disables authentication and a non-loopback bind (grpc="
              +:+ show (grpc_bind c) +:+ ", rest=" +:+ show (rest_bind c)
              +:+ ") would expose an unauthenticated API to the network. Bind both listeners to loopback, or set NE_DEV_ALLOW_PUBLIC_BIND=1 to override for intentional LAN development.")
    else Ok tt
  else if bool_decide (digests (api_keys c) = ∅)
  then Err "refusing to start: no API keys configured and --dev-mode not set. Provide --api-key-file with at least one key (see `nee api-key generate`), or pass --dev-mode for local development."
  else
    match api_tls c with
    | Some _ => Ok tt
    | None =>
        if grpc_lo && rest_lo then Ok tt
        else Err ("refusing to start: no in-process TLS configured and a non-loopback bind is in use (grpc="
                  +:+ show (grpc_bind c) +:+ ", rest=" +:+ show (rest_bind c)
                  +:+ "). Either pass --tls-cert/--tls-key (see `nee tls generate-cert` for dev), or bind both listeners to loopback and front them with a TLS-terminating proxy.")
    end.
(** [serve] after the guard: the key store the servers enforce. *)
Definition auth_of (c : ApiConfig) : option ApiKeyStore := if dev_mode c then None else Some (api_keys c).

(** ** Trimming *)

Lemma skip_ws_spaces n l : skip_ws (replicate n 32 ++ l) = skip_ws l.
Proof. induction n; [done|]. exact IHn. Qed.
Lemma skip_ws_rev_spaces n l : skip_ws_rev (replicate n 32 ++ l) = skip_ws_rev l.
Proof. induction n; [done|]. exact IHn. Qed.
Lemma rev_replicate n (x : Z) : rev (replicate n x) = replicate n x.
Proof. induction n; [done|]. cbn. by rewrite IHn, <- replicate_cons_app. Qed.
Definition graphic (b : Z) : Prop := 33 <= b <= 126.
(** Text between spaces, with printable ASCII at both ends. *)
Lemma trim_padded n m a l z s :
  graphic a -> graphic z -> (exists k, a :: l = k ++ [z]) ->
  bytes_of s = replicate n 32 ++ (a :: l) ++ replicate m 32 -> trim s = string_of (a :: l).
Proof.
  intros Ha Hz [k Hk] Hs. unfold trim. rewrite Hs, skip_ws_spaces. cbn [app]. rewrite skip_ws_head by done.
  rewrite app_comm_cons, rev_app_distr.
  rewrite rev_replicate, skip_ws_rev_spaces, Hk, rev_app_distr. cbn [app rev]. rewrite skip_ws_rev_head by done.
  cbn [rev app]. by rewrite rev_involutive.
Qed.
Lemma bytes_of_spaces_r s n : bytes_of (s +:+ string_of (replicate n 32)) = bytes_of s ++ replicate n 32.
Proof.
  rewrite bytes_of_app. f_equal. apply bytes_of_string_of. apply Forall_replicate. lia.
Qed.
Definition graphic_text (s : string) : Prop := s <> EmptyString /\ all_chars is_ascii_graphic s = true.
Lemma graphic_bytes s : all_chars is_ascii_graphic s = true -> Forall graphic (bytes_of s).
Proof.
  induction s as [|c s IH]; cbn; [constructor|]. intros [Hc Hs]%andb_true_iff. constructor; [|by apply IH].
  unfold is_ascii_graphic, in_class in Hc. apply andb_true_iff in Hc as [H1%Z.leb_le H2%Z.leb_le]. split; lia.
Qed.
(** A text that starts and ends with printable ASCII is what trimming leaves of it between spaces. *)
Definition framed (s : string) : Prop :=
  exists a l z k, bytes_of s = a :: l /\ a :: l = k ++ [z] /\ graphic a /\ graphic z.
Lemma trim_framed n m s :
  framed s -> trim (string_of (replicate n 32) +:+ s +:+ string_of (replicate m 32)) = s.
Proof.
  intros (a & l & z & k & Hs & Hk & Ha & Hz). rewrite (trim_padded n m a l z); [|done|done|by exists k|].
  - by rewrite <- Hs, string_of_bytes_of.
  - rewrite bytes_of_app, bytes_of_spaces_r, Hs, bytes_of_string_of; [done|]. apply Forall_replicate. lia.
Qed.
Lemma framed_words a mid b : graphic_text a -> graphic_text b -> framed (a +:+ mid +:+ b).
Proof.
  intros [Ha1 Ha2] [Hb1 Hb2]. pose proof (graphic_bytes _ Ha2) as Hga. pose proof (graphic_bytes _ Hb2) as Hgb.
  destruct (bytes_of a) as [|x l] eqn:Ea; [by destruct a|].
  destruct (exists_last (l := bytes_of b)) as (k & z & Eb); [by destruct b|].
  exists x, (l ++ bytes_of mid ++ bytes_of b), z, (x :: l ++ bytes_of mid ++ k). split_and!.
  - by rewrite !bytes_of_app, Ea.
  - rewrite Eb. cbn. by rewrite <- !app_assoc.
  - by apply Forall_inv in Hga.
  - rewrite Eb in Hgb. apply Forall_app in Hgb as [_ Hz]. by apply Forall_inv in Hz.
Qed.
Lemma framed_text a : graphic_text a -> framed a.
Proof.
  intros [Ha1 Ha2]. pose proof (graphic_bytes _ Ha2) as Hg. destruct (bytes_of a) as [|x l] eqn:Ea; [by destruct a|].
  destruct (exists_last (l := x :: l)) as (k & z & Eb); [done|]. exists x, l, z, k. split_and!; try done.
  - by apply Forall_inv in Hg.
  - rewrite Eb in Hg. apply Forall_app in Hg as [_ Hz]. by apply Forall_inv in Hz.
Qed.

(** ** The key file *)

Lemma lines_of_complete ps : lines_of (ps ++ [EmptyString]) = strip_cr <$> ps.
Proof.
  induction ps as [|p ps IH]; [done|]. cbn [app fmap list_fmap lines_of].
  destruct (ps ++ [EmptyString]) as [|q qs] eqn:E; [by destruct ps|]. rewrite IH. by destruct qs.
Qed.
(** A text whose last line is ended. *)
Definition complete (text : string) : Prop := text = EmptyString \/ exists t, text = t +:+ String newline EmptyString.
Lemma lines_append text line :
  complete text -> contains_char newline line = false ->
  lines (text +:+ line +:+ String newline EmptyString) = lines text ++ [strip_cr line].
Proof.
  intros Ht Hl. unfold lines.
  assert (split_on newline (line +:+ String newline EmptyString) = [line; EmptyString]) as Hs.
  { rewrite split_on_sep, split_on_single by done. done. }
  destruct Ht as [->|[t ->]].
  - change (EmptyString +:+ ?x) with x. by rewrite Hs.
  - rewrite string_app_assoc. cbn [String.append]. rewrite (split_on_sep newline t (line +:+ _)), Hs, (split_on_sep newline t EmptyString). cbn [split_on].
    change [line; EmptyString] with ([line] ++ [EmptyString]). rewrite app_assoc, !lines_of_complete. by rewrite fmap_app.
Qed.
Lemma strip_cr_graphic s b : graphic_text b -> strip_cr (s +:+ b) = s +:+ b.
Proof.
  intros [Hb1 Hb2]. unfold strip_cr. destruct (strip_suffix _ _) as [p|] eqn:E; [|done]. exfalso.
  apply strip_suffix_Some in E. apply (f_equal bytes_of) in E. rewrite !bytes_of_app in E.
  pose proof (graphic_bytes _ Hb2) as Hg. destruct (exists_last (l := bytes_of b)) as (k & z & Eb); [by destruct b|].
  rewrite Eb, app_assoc in E. apply app_inj_2 in E as [_ E]; [|done]. injection E as ->. rewrite Eb in Hg.
  apply Forall_app in Hg as [_ Hg]. apply Forall_inv in Hg. destruct Hg as [Hg _]. by compute in Hg.
Qed.

(** What the hex crate documents: lower-case digits, and decoding inverts encoding. *)
Class HexLaws (C : Crypto) (hex_decode : string -> option (list Z)) : Prop := {
  hex_alphanumeric l : is_bytes l -> all_chars is_ascii_alphanumeric (hex_encode l) = true;
  hex_round_trip l : is_bytes l -> hex_decode (hex_encode l) = Some l;
  sha256_length m : length (sha256 m) = 32%nat;
}.
Section KeyLemmas.
Context {C : Crypto} {L : CryptoLaws C} (hex_decode : string -> option (list Z)) {HL : HexLaws C hex_decode}.

Lemma load_lines_app i a b s :
  load_lines hex_decode i (a ++ b) s
  = (s' ← load_lines hex_decode i a s; load_lines hex_decode (i + Z.of_nat (length a)) b s').
Proof.
  revert i s. induction a as [|x a IH]; intros i s; [cbn; by rewrite Z.add_0_r|]. cbn [app load_lines length].
  destruct (parse_key_line _ _ _) as [k|e]; [|done]. cbn. rewrite IH.
  replace (i + 1 + Z.of_nat (length a)) with (i + Z.of_nat (S (length a))) by lia. done.
Qed.
Lemma alphanumeric_graphic c : is_ascii_alphanumeric c = true -> is_ascii_graphic c = true.
Proof.
  unfold is_ascii_alphanumeric, is_ascii_graphic, is_ascii_digit, is_ascii_lowercase, is_ascii_uppercase, in_class. lia.
Qed.
Lemma alphanumeric_text s : s <> EmptyString -> all_chars is_ascii_alphanumeric s = true -> graphic_text s.
Proof. intros Hs Ha. split; [done|]. eapply all_chars_impl; [|exact Ha]. apply alphanumeric_graphic. Qed.
Lemma hex_text m : graphic_text ("sha256:" +:+ hex_encode (sha256 m)).
Proof.
  split; [done|]. rewrite all_chars_app. apply andb_true_iff. split; [done|].
  eapply all_chars_impl; [apply alphanumeric_graphic|]. apply hex_alphanumeric, sha256_bytes.
Qed.
Lemma hex_not_hash m : contains_char "#" ("sha256:" +:+ hex_encode (sha256 m) +:+ "  ") = false.
Proof.
  unfold contains_char. rewrite !any_char_app. cbn [any_char Ascii.eqb Bool.eqb orb]. rewrite orb_false_r.
  apply (all_chars_not_contains is_ascii_alphanumeric); [done|]. apply hex_alphanumeric, sha256_bytes.
Qed.
Lemma trim_hex s : all_chars is_ascii_alphanumeric s = true -> trim s = s.
Proof. intros H. destruct (decide (s = EmptyString)) as [->|Hs]; [done|]. apply trim_graphic; apply alphanumeric_text; done. Qed.
Lemma split_once_first c a b : contains_char c a = false -> split_once c (a +:+ String c b) = Some (a, b).
Proof. intros H. apply split_once_Some. done. Qed.

(** The line of a generated key is read as its digest and its label. *)
Lemma parse_generated i m ulid :
  graphic_text ulid ->
  parse_key_line hex_decode i ("sha256:" +:+ hex_encode (sha256 m) +:+ "  # generated " +:+ ulid)
  = Ok (Some (sha256 m, "generated " +:+ ulid)).
Proof.
  intros Hu. unfold parse_key_line. pose proof (hex_text m) as Hx. set (h := hex_encode (sha256 m)) in *.
  assert (all_chars is_ascii_alphanumeric h = true) as Hh by (apply hex_alphanumeric, sha256_bytes).
  assert (trim ("sha256:" +:+ h +:+ "  # generated " +:+ ulid) = "sha256:" +:+ h +:+ "  # generated " +:+ ulid) as ->.
  { pose proof (trim_framed 0 0 _ (framed_words ("sha256:" +:+ h) "  # generated " ulid Hx Hu)) as Ht.
    cbn [replicate string_of] in Ht. change (EmptyString +:+ ?x) with x in Ht. by rewrite string_app_nil_r, string_app_assoc in Ht. }
  change (is_empty _ || starts_with "#" _) with false. cbv iota.
  replace ("sha256:" +:+ h +:+ "  # generated " +:+ ulid) with
    (("sha256:" +:+ h +:+ "  ") +:+ String "#" (" generated " +:+ ulid)) by (by rewrite !string_app_assoc).
  rewrite split_once_first by apply hex_not_hash. cbv beta iota.
  assert (trim ("sha256:" +:+ h +:+ "  ") = "sha256:" +:+ h) as -> by (by apply (trim_framed 0 2 ("sha256:" +:+ h)), framed_text).
  assert (trim (" generated " +:+ ulid) = "generated " +:+ ulid) as ->.
  { pose proof (trim_framed 1 0 _ (framed_words "generated" " " ulid ltac:(done) Hu)) as Ht. cbn [replicate string_of] in Ht.
    by rewrite string_app_nil_r in Ht. }
  assert (strip_prefix "sha256:" ("sha256:" +:+ h) = Some h) as -> by (by apply strip_prefix_Some).
  cbn. rewrite trim_hex by done. unfold h. rewrite hex_round_trip by apply sha256_bytes. cbn.
  rewrite to_array_Some by apply sha256_length. done.
Qed.
Lemma verify_insert k s t :
  is_Some (verify (insert_key k s) t) <-> is_Some (verify s t) \/ sha256 (bytes_of t) = k.1.
Proof.
  unfold verify. cbn [digests insert_key]. repeat case_decide; split; try (by intros [? ?]); intros; try set_solver.
Qed.
Lemma bytes_of_inj a b : bytes_of a = bytes_of b -> a = b.
Proof. intros H. by rewrite <- (string_of_bytes_of a), H, string_of_bytes_of. Qed.
Lemma bearer_token token : graphic_text token -> bearer_from_str ("Bearer " +:+ token) = Some token.
Proof.
  intros Ht. unfold bearer_from_str. cbn [String.append String.substring String.length].
  assert (forall s, String.substring 0 0 s = EmptyString) as Hz by (by intros []).
  rewrite Hz. cbn [String.eqb to_ascii_lowercase map_chars]. change (String.eqb _ _) with true. cbv iota.
  cbn [Nat.sub]. rewrite ?Nat.sub_0_r. assert (String.substring 0 (String.length token) token = token) as ->.
  { clear. induction token; cbn; [done|]. by rewrite IHtoken. }
  rewrite trim_graphic by apply Ht. by destruct token; destruct Ht.
Qed.

(** C38: A generated key works.  After [nee api-key generate] appended its line to a key file that loads
    and whose last line is ended, the file loads, the printed token is accepted with its label and as
    a bearer token, every token accepted before is still accepted, and no other token is accepted
    unless it collides with the new one under SHA-256. *)
Theorem generated_key_is_accepted b64url raw ulid text s token line :
  graphic_text (b64url raw) -> graphic_text ulid -> contains_char newline ulid = false ->
  complete text -> load hex_decode text = Ok s -> generate_api_key b64url raw ulid = (token, line) ->
  exists s', load hex_decode (text +:+ line) = Ok s'
    /\ verify s' token = Some ("generated " +:+ ulid)
    /\ authorized s' (Some ("Bearer " +:+ token)) = true
    /\ (forall t, is_Some (verify s t) -> is_Some (verify s' t))
    /\ (forall t, is_Some (verify s' t) -> is_Some (verify s t) \/ t = token \/ sha256_collision).
Proof.
  intros Hb Hu Hn Ht Hs Hg. pose proof (f_equal fst Hg) as Htoken. pose proof (f_equal snd Hg) as Hline.
  unfold generate_api_key in Htoken, Hline. cbn [fst snd] in Htoken, Hline. rewrite Htoken in Hline.
  set (d := sha256 (bytes_of token)) in *.
  exists (insert_key (d, "generated " +:+ ulid) s).
  assert (verify (insert_key (d, "generated " +:+ ulid) s) token = Some ("generated " +:+ ulid)) as Hv.
  { unfold verify. cbn. rewrite decide_True by set_solver. by rewrite lookup_insert_eq. }
  split_and!; [|done| | |].
  - set (body := "sha256:" +:+ hex_encode d +:+ "  # generated " +:+ ulid).
    assert (line = body +:+ String newline EmptyString) as -> by (rewrite <- Hline; unfold body; by rewrite !string_app_assoc).
    assert (contains_char newline body = false) as Hl.
    { unfold body, contains_char. rewrite !any_char_app. fold (contains_char newline ulid). rewrite Hn.
      fold (contains_char newline (hex_encode d)).
      rewrite (all_chars_not_contains is_ascii_alphanumeric); [done|done|]. apply hex_alphanumeric, sha256_bytes. }
    assert (strip_cr body = body) as Hcr.
    { assert (body = ("sha256:" +:+ hex_encode d +:+ "  # generated ") +:+ ulid) as -> by (unfold body; by rewrite !string_app_assoc).
      by apply strip_cr_graphic. }
    unfold load in *. rewrite lines_append, load_lines_app, Hs, Hcr by done.
    cbn [mbind result_bind load_lines]. unfold body, d. by rewrite parse_generated by done.
  - unfold authorized. cbn [mbind option_bind]. rewrite bearer_token, Hv; [by apply bool_decide_eq_true|].
    rewrite <- Htoken. split; [done|]. rewrite all_chars_app. apply andb_true_iff. split; [done|apply Hb].
  - intros t Hvt. apply verify_insert. by left.
  - intros t [Hvt|Hd]%verify_insert; [by left|right]. destruct (decide (t = token)) as [|Hne]; [by left|right].
    exists (bytes_of t), (bytes_of token). split; [|done]. by intros ?%bytes_of_inj.
Qed.
End KeyLemmas.

Module ApiAuthDemo.
(** Lower-case hex, and digests of 32 bytes. *)
Definition nibble (v : Z) : ascii := char_of (if v <? 10 then 48 + v else 87 + v).
Definition unnibble (c : ascii) : option Z :=
  let b := byte_of c in
  if (48 <=? b) && (b <=? 57) then Some (b - 48) else if (97 <=? b) && (b <=? 102) then Some (b - 87) else None.
Fixpoint hex_of (l : list Z) : string :=
  match l with [] => EmptyString | b :: r => String (nibble (b / 16)) (String (nibble (b mod 16)) (hex_of r)) end.
Fixpoint unhex (s : string) : option (list Z) :=
  match s with
  | EmptyString => Some []
  | String x (String y r) => a ← unnibble x; b ← unnibble y; l ← unhex r; Some (16 * a + b :: l)
  | _ => None
  end.
Definition digest32 (m : list Z) : list Z := take 32 (((fun b => b mod 256) <$> m) ++ replicate 32 0).
Definition hex_crypto : Crypto := {|
  SigningKey := Z; VerifyingKey := Z; verifying_key := @verifying_key toy_crypto; vk_to_bytes := @vk_to_bytes toy_crypto;
  vk_from_bytes := @vk_from_bytes toy_crypto; sign := @sign toy_crypto; verify_strict := @verify_strict toy_crypto;
  sha256 := digest32; hex_encode := hex_of; b64_encode := string_of; b64_decode := fun s => Some (bytes_of s) |}.

Lemma nibble_ok v : 0 <= v < 16 -> unnibble (nibble v) = Some v /\ is_ascii_alphanumeric (nibble v) = true.
Proof.
  intros Hv. assert (v ∈ seqZ 0 16) as H by (apply elem_of_seqZ; lia). clear Hv. revert v H.
  rewrite <- (Forall_forall (fun v => unnibble (nibble v) = Some v /\ is_ascii_alphanumeric (nibble v) = true)).
  by repeat constructor.
Qed.
Lemma byte_nibbles b : is_byte b -> 0 <= b / 16 < 16 /\ 0 <= b mod 16 < 16.
Proof. intros [? ?]. split; [split; [apply Z.div_pos; lia|apply Z.div_lt_upper_bound; lia]|apply Z.mod_pos_bound; lia]. Qed.
Lemma unhex_hex l : is_bytes l -> unhex (hex_of l) = Some l.
Proof.
  induction 1 as [|b l Hb Hl IH]; [done|]. cbn [hex_of unhex]. destruct (byte_nibbles b Hb) as [H1 H2].
  rewrite (proj1 (nibble_ok _ H1)), (proj1 (nibble_ok _ H2)), IH. cbn. do 2 f_equal. pose proof (Z.div_mod b 16). lia.
Qed.
Lemma hex_crypto_laws : CryptoLaws hex_crypto.
Proof.
  pose proof toy_crypto_laws as L. constructor; try apply L.
  - intros m. apply Forall_take, Forall_app. split; [|by apply (is_bytes_replicate 32)].
    apply Forall_fmap, Forall_true. intros x. apply is_byte_mod.
  - intros a b Ha Hb H. apply (f_equal unhex) in H. cbn in H. rewrite !unhex_hex in H by done. by injection H.
Qed.
Lemma hex_laws : HexLaws hex_crypto unhex.
Proof.
  constructor.
  - intros l. induction 1 as [|b l Hb Hl IH]; [done|]. cbn. destruct (byte_nibbles b Hb) as [H1 H2].
    rewrite (proj2 (nibble_ok _ H1)), (proj2 (nibble_ok _ H2)). done.
  - apply unhex_hex.
  - intros m. cbn. unfold digest32. rewrite length_take, length_app, length_replicate. lia.
Qed.

Definition token0 : string := "nee_AAEC".
Definition line0 : string := snd (@generate_api_key hex_crypto (fun _ => "AAEC") [0; 1; 2] "01J0").
Lemma generated_key_is_accepted_witness :
  exists s', @load unhex ("# keys" +:+ String newline EmptyString +:+ line0) = Ok s'
    /\ @verify hex_crypto s' token0 = Some "generated 01J0".
Proof.
  destruct (@generated_key_is_accepted hex_crypto hex_crypto_laws unhex hex_laws (fun _ => "AAEC") [0; 1; 2] "01J0"
    ("# keys" +:+ String newline EmptyString) empty_store token0 line0) as (s' & Hl & Hv & _).
  - by split.
  - by split.
  - reflexivity.
  - right. by exists "# keys".
  - vm_compute. reflexivity.
  - vm_compute. reflexivity.
  - exists s'. split; [exact Hl|exact Hv].
Defined.
End ApiAuthDemo.
