(* ===== verification/ApiCore.v ===== *)
(** * The runtime core of the API daemon ([crates/ne-api/src/core.rs])

    The layer both front doors call: it validates a request, turns it into one
    supervisor request, and unpacks the typed response.  An operation is a [Prog]
    over the state of whatever answers the supervisor socket, which is the
    parameter [supervisor]; so the same definitions run against a recording
    stub, or against the supervisor itself over the line protocol. *)

From S2P Require Import Prelude Text Profile Fleet Capacity AuditChain Crypto Bytes Attestation Protocol Prog.

Definition DEFAULT_GUEST_PORT : Z := 52.

(** ** Errors *)

(** [SupervisorClientError]; IO and JSON errors carry their text. *)
Inductive SupervisorClientError :=
| SupervisorClientError_Io (e : string)
| SupervisorClientError_Serde (e : string)
| SupervisorClientError_Supervisor (kind : SupervisorErrorKind) (message : string)
| SupervisorClientError_Unexpected (e : string).
Definition SupervisorClientError_to_string (e : SupervisorClientError) : string :=
  match e with
  | SupervisorClientError_Io e => "io: " +:+ e
  | SupervisorClientError_Serde e => "serde: " +:+ e
  | SupervisorClientError_Supervisor _ m => "supervisor error: " +:+ m
  | SupervisorClientError_Unexpected e => "unexpected supervisor response: " +:+ e
  end.
Inductive CoreError :=
| CoreError_Validation (m : string)
| CoreError_Supervisor (kind : SupervisorErrorKind) (message : string)
| CoreError_Transport (e : SupervisorClientError).
Definition supervisor_kind_code (k : SupervisorErrorKind) : string :=
  match k with
  | SupervisorErrorKind_Unauthorized => "UNAUTHORIZED"
  | SupervisorErrorKind_InvalidRequest => "INVALID_REQUEST"
  | SupervisorErrorKind_InvalidImageDigest => "INVALID_IMAGE_DIGEST"
  | SupervisorErrorKind_ImageNotFound => "IMAGE_NOT_FOUND"
  | SupervisorErrorKind_ImageRejected => "IMAGE_REJECTED"
  | SupervisorErrorKind_ImageDigestMismatch => "IMAGE_DIGEST_MISMATCH"
  | SupervisorErrorKind_ImageStageFailed => "IMAGE_STAGE_FAILED"
  | SupervisorErrorKind_Unsupported => "UNSUPPORTED"
  | SupervisorErrorKind_UnsupportedForProfile => "UNSUPPORTED_FOR_PROFILE"
  | SupervisorErrorKind_WorkspaceAlreadyExists => "WORKSPACE_ALREADY_EXISTS"
  | SupervisorErrorKind_WorkspaceNotFound => "WORKSPACE_NOT_FOUND"
  | SupervisorErrorKind_TierNotFound => "TIER_NOT_FOUND"
  | SupervisorErrorKind_ConfidentialCapacityExceeded => "CONFIDENTIAL_CAPACITY_EXCEEDED"
  | SupervisorErrorKind_GuestUnreachable => "GUEST_UNREACHABLE"
  | SupervisorErrorKind_Timeout => "TIMEOUT"
  | SupervisorErrorKind_PathRejected => "PATH_REJECTED"
  | SupervisorErrorKind_FileTooLarge => "FILE_TOO_LARGE"
  | SupervisorErrorKind_FileNotFound => "FILE_NOT_FOUND"
  | SupervisorErrorKind_SnapshotFailed => "SNAPSHOT_FAILED"
  | SupervisorErrorKind_RestoreFailed => "RESTORE_FAILED"
  | SupervisorErrorKind_InvalidSnapshot => "INVALID_SNAPSHOT"
  | SupervisorErrorKind_WorkspaceNotPaused => "WORKSPACE_NOT_PAUSED"
  | SupervisorErrorKind_WorkspaceAlreadyPaused => "WORKSPACE_ALREADY_PAUSED"
  | SupervisorErrorKind_ForkFailed => "FORK_FAILED"
  | SupervisorErrorKind_WorkspaceNotNetworked => "WORKSPACE_NOT_NETWORKED"
  | SupervisorErrorKind_IngressPortNotFound => "INGRESS_PORT_NOT_FOUND"
  | SupervisorErrorKind_AttestationReplay => "ATTESTATION_REPLAY"
  | _ => "INTERNAL"
  end.
Definition CoreError_code (e : CoreError) : string :=
  match e with
  | CoreError_Validation _ => "VALIDATION"
  | CoreError_Supervisor k _ => supervisor_kind_code k
  | CoreError_Transport (SupervisorClientError_Io _) => "SUPERVISOR_UNAVAILABLE"
  | CoreError_Transport (SupervisorClientError_Supervisor k _) => supervisor_kind_code k
  | CoreError_Transport _ => "INTERNAL"
  end.
Definition CoreError_message (e : CoreError) : string :=
  match e with
  | CoreError_Validation m => m
  | CoreError_Supervisor _ m => m
  | CoreError_Transport e => SupervisorClientError_to_string e
  end.

(** ** Inputs *)

Record PingOutcome := {
  po_api_version : string; po_api_uptime_ms : Z; po_supervisor_version : string; po_supervisor_uptime_ms : Z }.
Record NetworkInput := {
  in_enable_egress : bool; in_allow_cidrs : list string; in_allow_hostnames : list string; in_privacy_router : bool;
  in_exposed_ports : list ExposedPort }.
Record CreateWorkspaceInput := {
  ci_workspace_id : string;
  ci_kernel_sha256 : string;
  ci_rootfs_sha256 : string;
  ci_rootfs_read_only : bool;
  ci_vcpu_count : Z;
  ci_mem_size_mib : Z;
  ci_guest_vsock_cid : Z;
  ci_kernel_boot_args : option string;
  ci_network : option NetworkInput;
  ci_tier : option string;
}.
Record ExecuteCommandInput := {
  ei_workspace_id : string; ei_command : string; ei_args : list string; ei_timeout_ms : Z; ei_guest_port : Z }.
Record WriteFileInput := { wi_workspace_id : string; wi_path : string; wi_content : list Z; wi_guest_port : Z }.
Record ReadFileInput := { ri_workspace_id : string; ri_path : string; ri_max_bytes : Z; ri_guest_port : Z }.
Record ExposePortInput := { xi_workspace_id : string; xi_port : Z; xi_inject_headers : list (string * string) }.

(** ** Requests *)

Definition guest_port_or_default (p : Z) : Z := if p =? 0 then DEFAULT_GUEST_PORT else p.
Definition network_config (n : NetworkInput) : NetworkConfig :=
  {| nc_enable_egress := in_enable_egress n; nc_allow_cidrs := in_allow_cidrs n; nc_allow_hostnames := in_allow_hostnames n;
     nc_privacy_router := if in_privacy_router n then Some tt else None; nc_exposed_ports := in_exposed_ports n |}.
Definition create_request (i : CreateWorkspaceInput) : result CoreError SupervisorRequest :=
  if U8_MAX <? ci_vcpu_count i
  then Err (CoreError_Validation ("vcpu_count must fit in u8, got " +:+ show_uint (ci_vcpu_count i)))
  else Ok (SupervisorRequest_CreateWorkspace
    {| cw_workspace_id := ci_workspace_id i; cw_kernel_sha256 := ci_kernel_sha256 i; cw_rootfs_sha256 := ci_rootfs_sha256 i;
       cw_rootfs_read_only := ci_rootfs_read_only i; cw_vcpu_count := ci_vcpu_count i; cw_mem_size_mib := ci_mem_size_mib i;
       cw_guest_vsock_cid := ci_guest_vsock_cid i; cw_kernel_boot_args := ci_kernel_boot_args i;
       cw_network := network_config <$> ci_network i; cw_tier := ci_tier i |}).
Definition execute_request (i : ExecuteCommandInput) : SupervisorRequest :=
  SupervisorRequest_RunCommand
    {| rr_workspace_id := ei_workspace_id i; rr_guest_port := guest_port_or_default (ei_guest_port i);
       rr_command := ei_command i; rr_args := ei_args i; rr_timeout_ms := ei_timeout_ms i |}.
Definition write_request (i : WriteFileInput) : result CoreError SupervisorRequest :=
  if MAX_INLINE_FILE_BYTES <? blen (wi_content i)
  then Err (CoreError_Validation ("content length " +:+ show_uint (blen (wi_content i)) +:+ " exceeds inline cap of "
              +:+ show_uint MAX_INLINE_FILE_BYTES +:+ " bytes"))
  else Ok (SupervisorRequest_WriteFile
    {| wr_workspace_id := wi_workspace_id i; wr_guest_port := guest_port_or_default (wi_guest_port i);
       wr_path := wi_path i; wr_content := wi_content i |}).
Definition read_request (i : ReadFileInput) : SupervisorRequest :=
  SupervisorRequest_ReadFile
    {| rd_workspace_id := ri_workspace_id i; rd_guest_port := guest_port_or_default (ri_guest_port i); rd_path := ri_path i;
       rd_max_bytes := if ri_max_bytes i =? 0 then 0 else Z.min (ri_max_bytes i) MAX_INLINE_FILE_BYTES |}.
Definition port_error : CoreError := CoreError_Validation "port must be 1..=65535".
Definition expose_request (i : ExposePortInput) : result CoreError SupervisorRequest :=
  if xi_port i =? 0 then Err port_error
  else Ok (SupervisorRequest_ExposePort
    {| xp_workspace_id := xi_workspace_id i;
       xp_port := {| ep_port := xi_port i;
                     ep_inject_headers := (fun h => {| hi_name := h.1; hi_value := h.2 |}) <$> xi_inject_headers i |} |}).
Definition unexpose_request (workspace_id : string) (port : Z) : result CoreError SupervisorRequest :=
  if port =? 0 then Err port_error
  else Ok (SupervisorRequest_UnexposePort {| up_workspace_id := workspace_id; up_port := port |}).
Definition attestation_request (workspace_id : string) (nonce : list Z) : result CoreError SupervisorRequest :=
  if negb ((16 <=? blen nonce) && (blen nonce <=? 64)) then Err (CoreError_Validation "nonce must be 16..=64 bytes")
  else Ok (SupervisorRequest_GetAttestationEvidence {| ga_workspace_id := workspace_id; ga_nonce := nonce |}).

(** ** Operations *)

Section Core.
Context {W : Type} (supervisor : SupervisorRequest -> Prog W (result SupervisorClientError SupervisorResponse)).
Context (api_version : string) (elapsed_ms : Z).
Local Abbreviation Op A := (Prog W (result CoreError A)).

(** [RuntimeCore::call]. *)
Definition classify (r : result SupervisorClientError SupervisorResponse) : result CoreError SupervisorResponse :=
  match r with
  | Err e => Err (CoreError_Transport e)
  | Ok (SupervisorResponse_Error kind message) => Err (CoreError_Supervisor kind message)
  | Ok resp => Ok resp
  end.
Definition call (req : SupervisorRequest) : Op SupervisorResponse := r ← supervisor req; Ret (classify r).
Definition unexpected (op : string) : CoreError :=
  CoreError_Transport (SupervisorClientError_Unexpected ("supervisor returned unexpected variant for " +:+ op)).
(** What every operation does: validate, call, unpack the one expected variant. *)
Definition perform {A} (op : string) (unpack : SupervisorResponse -> option A) (req : result CoreError SupervisorRequest)
    : Op A :=
  match req with
  | Err e => Ret (Err e)
  | Ok req => let! resp ← call req; Ret (ok_or (unpack resp) (unexpected op))
  end.

Definition api_uptime_ms : Z := Z.min elapsed_ms U64_MAX.
Definition ping : Op PingOutcome :=
  perform "Ping" (fun r => match r with
    | SupervisorResponse_Pong version uptime_ms =>
        Some {| po_api_version := api_version; po_api_uptime_ms := api_uptime_ms; po_supervisor_version := version;
                po_supervisor_uptime_ms := uptime_ms |}
    | _ => None end) (Ok SupervisorRequest_Ping).
Definition runtime_capabilities : Op RuntimeCapabilitiesInfo :=
  perform "GetCapabilities" (fun r => match r with SupervisorResponse_Capabilities c => Some c | _ => None end)
    (Ok SupervisorRequest_GetCapabilities).
Definition create_workspace (i : CreateWorkspaceInput) : Op WorkspaceCreated :=
  perform "CreateWorkspace" (fun r => match r with SupervisorResponse_WorkspaceCreated c => Some c | _ => None end)
    (create_request i).
Definition destroy_workspace (workspace_id : string) (grace_period_ms : Z) : Op string :=
  perform "DestroyWorkspace" (fun r => match r with SupervisorResponse_WorkspaceTerminated w => Some w | _ => None end)
    (Ok (SupervisorRequest_Terminate {| tr_workspace_id := workspace_id; tr_grace_period_ms := grace_period_ms |})).
Definition execute_command (i : ExecuteCommandInput) : Op CommandCompleted :=
  perform "ExecuteCommand" (fun r => match r with SupervisorResponse_CommandCompleted c => Some c | _ => None end)
    (Ok (execute_request i)).
Definition write_file (i : WriteFileInput) : Op FileWritten :=
  perform "WriteFile" (fun r => match r with SupervisorResponse_FileWritten w => Some w | _ => None end) (write_request i).
Definition read_file (i : ReadFileInput) : Op FileRead :=
  perform "ReadFile" (fun r => match r with SupervisorResponse_FileRead x => Some x | _ => None end) (Ok (read_request i)).
Definition pause_workspace (workspace_id : string) : Op string :=
  perform "PauseWorkspace" (fun r => match r with SupervisorResponse_WorkspacePaused w => Some w | _ => None end)
    (Ok (SupervisorRequest_PauseWorkspace {| rf_workspace_id := workspace_id |})).
Definition resume_workspace (workspace_id : string) : Op string :=
  perform "ResumeWorkspace" (fun r => match r with SupervisorResponse_WorkspaceResumed w => Some w | _ => None end)
    (Ok (SupervisorRequest_ResumeWorkspace {| rf_workspace_id := workspace_id |})).
Definition snapshot_workspace (workspace_id : string) (live : bool) : Op SnapshotInfo :=
  perform "SnapshotWorkspace" (fun r => match r with SupervisorResponse_SnapshotCreated i => Some i | _ => None end)
    (Ok (SupervisorRequest_SnapshotWorkspace {| sr_workspace_id := workspace_id; sr_live := live |})).
Definition fork_workspace (snapshot_id new_workspace_id : string) (hostname : option string) : Op ForkInfo :=
  perform "ForkWorkspace" (fun r => match r with SupervisorResponse_WorkspaceForked i => Some i | _ => None end)
    (Ok (SupervisorRequest_ForkWorkspace
       {| fk_snapshot_id := snapshot_id; fk_new_workspace_id := new_workspace_id; fk_hostname := hostname |})).
Definition restore_workspace (snapshot_id new_workspace_id : string) : Op WorkspaceCreated :=
  perform "RestoreWorkspace" (fun r => match r with SupervisorResponse_WorkspaceRestored c => Some c | _ => None end)
    (Ok (SupervisorRequest_RestoreWorkspace {| rs_snapshot_id := snapshot_id; rs_new_workspace_id := new_workspace_id |})).
Definition list_events (workspace_id : option string) (since limit : Z) : Op (list (AuditEvent Value)) :=
  perform "ListEvents" (fun r => match r with SupervisorResponse_Events e => Some e | _ => None end)
    (Ok (SupervisorRequest_ListEvents
       {| AuditChain.req_workspace_id := workspace_id; since_chain_index := since; limit := limit |})).
Definition pool_status : Op PoolStatusInfo :=
  perform "PoolStatus" (fun r => match r with SupervisorResponse_PoolStatus i => Some i | _ => None end)
    (Ok SupervisorRequest_PoolStatus).
Definition expose_port (i : ExposePortInput) : Op (string * Z) :=
  perform "ExposePort" (fun r => match r with SupervisorResponse_PortExposed w p => Some (w, p) | _ => None end)
    (expose_request i).
Definition unexpose_port (workspace_id : string) (port : Z) : Op (string * Z) :=
  perform "UnexposePort" (fun r => match r with SupervisorResponse_PortUnexposed w p => Some (w, p) | _ => None end)
    (unexpose_request workspace_id port).
Definition get_attestation_evidence (workspace_id : string) (nonce : list Z) : Op Evidence :=
  perform "GetAttestationEvidence"
    (fun r => match r with SupervisorResponse_AttestationEvidenceIssued e => Some e | _ => None end)
    (attestation_request workspace_id nonce).

(** An operation alone: nothing happens when the request is refused, otherwise one call. *)
Lemma run_perform {A} op (unpack : SupervisorResponse -> option A) req w :
  run (perform op unpack req) w =
  match req with
  | Err e => (Err e, w)
  | Ok q => let '(r, w') := run (supervisor q) w in ((resp ← classify r; ok_or (unpack resp) (unexpected op)), w')
  end.
Proof.
  destruct req as [q|e]; [|done]. unfold perform, try_bind, call. rewrite !run_bind.
  destruct (run (supervisor q) w) as [r w']. cbn. by destruct (classify r).
Qed.
End Core.
