(* ===== verification/ApiGrpc.v ===== *)
(** * The gRPC front door ([crates/ne-api/src/server.rs])

    The messages of [proto/ne/runtime/v1/runtime.proto], the [Runtime] service
    with one definition per method, and the mapping of errors to statuses.  A
    method translates its message, calls the core and translates the result;
    the only checks of its own are on ports. *)

From S2P Require Import Prelude Text Profile Fleet Capacity AuditChain Crypto Bytes Attestation Protocol PublicEvidence.
From S2P Require Import Prog ApiAuth ApiCore.

(** ** Messages *)

Record PbPingResponse := {
  pbp_api_version : string; pbp_api_uptime_ms : Z; pbp_supervisor_version : string; pbp_supervisor_uptime_ms : Z }.
Record PbCapabilities := {
  pbc_runtime_version : string;
  pbc_execution_profile : Z;
  pbc_execution_backend : Z;
  pbc_attestation_backend : Z;
  pbc_supported_operations : list Z;
  pbc_hard_workspace_capacity : option Z;
  pbc_confidential_snapshot_supported : bool;
  pbc_evidence_schema_version : Z;
}.
Record PbHeaderInjection := { pbh_name : string; pbh_value : string }.
Record PbExposedPort := { pbe_port : Z; pbe_inject_headers : list PbHeaderInjection }.
Record PbNetworkConfig := {
  pbn_enable_egress : bool; pbn_allow_cidrs : list string; pbn_allow_hostnames : list string;
  pbn_privacy_router : option unit; pbn_exposed_ports : list PbExposedPort }.
Record PbCreateWorkspaceRequest := {
  pbw_workspace_id : string;
  pbw_kernel_sha256 : string;
  pbw_rootfs_sha256 : string;
  pbw_rootfs_read_only : bool;
  pbw_vcpu_count : Z;
  pbw_mem_size_mib : Z;
  pbw_guest_vsock_cid : Z;
  pbw_kernel_boot_args : option string;
  pbw_network : option PbNetworkConfig;
  pbw_tier : option string;
}.
Record PbWorkspaceNetwork := {
  pbwn_netns_path : string; pbwn_tap_device : string; pbwn_host_ip : string; pbwn_guest_ip : string; pbwn_prefix : Z }.
Record PbCreateWorkspaceResponse := {
  pbcr_workspace_id : string; pbcr_firecracker_pid : Z; pbcr_vsock_host_socket : string; pbcr_jailer_chroot : string;
  pbcr_network : option PbWorkspaceNetwork }.
Record PbDestroyWorkspaceRequest := { pbd_workspace_id : string; pbd_grace_period_ms : Z }.
Record PbExecuteCommandRequest := {
  pbx_workspace_id : string; pbx_command : string; pbx_args : list string; pbx_timeout_ms : Z; pbx_guest_port : Z }.
Record PbExecuteCommandResponse := {
  pbxr_workspace_id : string; pbxr_stdout : string; pbxr_stderr : string; pbxr_exit_code : Z; pbxr_elapsed_ms : Z;
  pbxr_truncated : bool }.
Record PbListEventsRequest := { pbl_workspace_id : option string; pbl_since_chain_index : Z; pbl_limit : Z }.
Record PbAuditEvent := {
  pba_event_id : string;
  pba_timestamp_ms : Z;
  pba_event_type : string;
  pba_workspace_id : option string;
  pba_payload_json : string;
  pba_chain_index : Z;
  pba_prev_hash_hex : string;
  pba_signature_b64 : string;
  pba_signer_pubkey_b64 : string;
}.
Record PbWriteFileRequest := { pbf_workspace_id : string; pbf_path : string; pbf_content : list Z; pbf_guest_port : Z }.
Record PbWriteFileResponse := { pbfr_workspace_id : string; pbfr_bytes_written : Z; pbfr_absolute_path : string }.
Record PbReadFileRequest := { pbr_workspace_id : string; pbr_path : string; pbr_max_bytes : Z; pbr_guest_port : Z }.
Record PbReadFileResponse := {
  pbrr_workspace_id : string; pbrr_content : list Z; pbrr_size_bytes : Z; pbrr_truncated : bool }.
Record PbSnapshotWorkspaceRequest := { pbs_workspace_id : string; pbs_live : bool }.
Record PbSnapshotWorkspaceResponse := {
  pbsr_snapshot_id : string; pbsr_created_from_workspace_id : string; pbsr_mem_sha256 : string;
  pbsr_vmstate_sha256 : string; pbsr_size_bytes : Z; pbsr_firecracker_pid : option Z }.
Record PbRestoreWorkspaceRequest := { pbrs_snapshot_id : string; pbrs_new_workspace_id : string }.
Record PbRestoreWorkspaceResponse := {
  pbrsr_workspace_id : string; pbrsr_firecracker_pid : Z; pbrsr_vsock_host_socket : string; pbrsr_jailer_chroot : string }.
Record PbForkWorkspaceRequest := { pbk_snapshot_id : string; pbk_new_workspace_id : string; pbk_hostname : string }.
Record PbForkWorkspaceResponse := {
  pbkr_workspace_id : string; pbkr_firecracker_pid : Z; pbkr_vsock_host_socket : string; pbkr_jailer_chroot : string;
  pbkr_source_snapshot_id : string; pbkr_hostname : string; pbkr_machine_id : string; pbkr_guest_vsock_cid : Z }.
Record PbPoolStatus := {
  pbps_configured : bool; pbps_tier : string; pbps_target_size : Z; pbps_available : Z; pbps_in_flight : Z }.
Record PbExposePortRequest := { pbep_workspace_id : string; pbep_port : option PbExposedPort }.
Record PbUnexposePortRequest := { pbup_workspace_id : string; pbup_port : Z }.
Record PbPortResponse := { pbpr_workspace_id : string; pbpr_port : Z }.
Record PbAttestationRequest := { pbat_workspace_id : string; pbat_nonce : list Z }.
Record PbAttestationProof := {
  pbl_signature : list Z; pbl_signer_pubkey : list Z; pbl_sev_snp_report : list Z; pbl_sev_snp_vcek_chain : list Z }.
Record PbAttestationEvidence := {
  pble_provider_type : string;
  pble_workspace_id : string;
  pble_measurement : list Z;
  pble_nonce : list Z;
  pble_issued_at : Z;
  pble_report_data : list Z;
  pble_proof : option PbAttestationProof;
}.
Record PbAttestationResponse := {
  pbar_evidence : option PbAttestationEvidence; pbar_public_evidence : option PbPublicEvidence }.

(** A call, one constructor per method of the service, and the replies. *)
Inductive GrpcCall :=
| Grpc_ping
| Grpc_get_runtime_capabilities
| Grpc_create_workspace (r : PbCreateWorkspaceRequest)
| Grpc_destroy_workspace (r : PbDestroyWorkspaceRequest)
| Grpc_execute_command (r : PbExecuteCommandRequest)
| Grpc_list_events (r : PbListEventsRequest)
| Grpc_write_file (r : PbWriteFileRequest)
| Grpc_read_file (r : PbReadFileRequest)
| Grpc_pause_workspace (workspace_id : string)
| Grpc_resume_workspace (workspace_id : string)
| Grpc_snapshot_workspace (r : PbSnapshotWorkspaceRequest)
| Grpc_restore_workspace (r : PbRestoreWorkspaceRequest)
| Grpc_fork_workspace (r : PbForkWorkspaceRequest)
| Grpc_get_pool_status
| Grpc_expose_port (r : PbExposePortRequest)
| Grpc_unexpose_port (r : PbUnexposePortRequest)
| Grpc_get_attestation_evidence (r : PbAttestationRequest).
Inductive GrpcReply :=
| Reply_ping (m : PbPingResponse)
| Reply_capabilities (m : PbCapabilities)
| Reply_created (m : PbCreateWorkspaceResponse)
| Reply_workspace_id (workspace_id : string)
| Reply_exec (m : PbExecuteCommandResponse)
| Reply_events (m : list PbAuditEvent)
| Reply_write (m : PbWriteFileResponse)
| Reply_read (m : PbReadFileResponse)
| Reply_snapshot (m : PbSnapshotWorkspaceResponse)
| Reply_restored (m : PbRestoreWorkspaceResponse)
| Reply_fork (m : PbForkWorkspaceResponse)
| Reply_pool (m : PbPoolStatus)
| Reply_port (m : PbPortResponse)
| Reply_attestation (m : PbAttestationResponse).

(** ** Statuses *)

(** The status codes the service answers with. *)
Inductive Code :=
| Code_InvalidArgument
| Code_DeadlineExceeded
| Code_NotFound
| Code_AlreadyExists
| Code_PermissionDenied
| Code_FailedPrecondition
| Code_Unimplemented
| Code_Internal
| Code_Unavailable
| Code_Unauthenticated.
Record Status := { st_code : Code; st_message : string }.
Definition kind_to_code (k : SupervisorErrorKind) : Code :=
  match k with
  | SupervisorErrorKind_Unauthorized => Code_PermissionDenied
  | SupervisorErrorKind_InvalidRequest | SupervisorErrorKind_InvalidImageDigest
  | SupervisorErrorKind_PathRejected | SupervisorErrorKind_FileTooLarge => Code_InvalidArgument
  | SupervisorErrorKind_Unsupported => Code_Unimplemented
  | SupervisorErrorKind_WorkspaceAlreadyExists => Code_AlreadyExists
  | SupervisorErrorKind_WorkspaceNotFound | SupervisorErrorKind_FileNotFound | SupervisorErrorKind_ImageNotFound
  | SupervisorErrorKind_TierNotFound | SupervisorErrorKind_IngressPortNotFound => Code_NotFound
  | SupervisorErrorKind_Timeout => Code_DeadlineExceeded
  | SupervisorErrorKind_GuestUnreachable => Code_Unavailable
  | SupervisorErrorKind_ImageRejected | SupervisorErrorKind_ImageDigestMismatch | SupervisorErrorKind_InvalidSnapshot
  | SupervisorErrorKind_WorkspaceNotPaused | SupervisorErrorKind_WorkspaceAlreadyPaused
  | SupervisorErrorKind_WorkspaceNotNetworked | SupervisorErrorKind_AttestationReplay
  | SupervisorErrorKind_UnsupportedForProfile | SupervisorErrorKind_ConfidentialCapacityExceeded =>
      Code_FailedPrecondition
  | _ => Code_Internal
  end.
Definition kind_to_status (k : SupervisorErrorKind) (message : string) : Status :=
  {| st_code := kind_to_code k; st_message := message |}.
Definition core_error_to_status (e : CoreError) : Status :=
  let message := CoreError_message e in
  match e with
  | CoreError_Validation _ => {| st_code := Code_InvalidArgument; st_message := message |}
  | CoreError_Transport (SupervisorClientError_Io _) =>
      {| st_code := Code_Unavailable; st_message := "supervisor io: " +:+ message |}
  | CoreError_Transport (SupervisorClientError_Serde _) =>
      {| st_code := Code_Internal; st_message := "supervisor protocol: " +:+ message |}
  | CoreError_Transport (SupervisorClientError_Unexpected _) => {| st_code := Code_Internal; st_message := message |}
  | CoreError_Transport (SupervisorClientError_Supervisor kind _) | CoreError_Supervisor kind _ =>
      kind_to_status kind message
  end.
Definition invalid_argument (m : string) : Status := {| st_code := Code_InvalidArgument; st_message := m |}.
Definition internal (m : string) : Status := {| st_code := Code_Internal; st_message := m |}.

(** ** Translations *)

(** [format!("{:?}", event_type)]: the derived [Debug] prints the variant's name. *)
Definition event_type_debug (t : EventType) : string :=
  match t with
  | EventType_WorkspaceCreated => "WorkspaceCreated"
  | EventType_WorkspaceTerminated => "WorkspaceTerminated"
  | EventType_CommandExecuted => "CommandExecuted"
  | EventType_CommandFailed => "CommandFailed"
  | EventType_NetworkSetup => "NetworkSetup"
  | EventType_NetworkTeardown => "NetworkTeardown"
  | EventType_DnsAllowed => "DnsAllowed"
  | EventType_DnsDenied => "DnsDenied"
  | EventType_DnsMalformed => "DnsMalformed"
  | EventType_PrivacyAudited => "PrivacyAudited"
  | EventType_PrivacyRedacted => "PrivacyRedacted"
  | EventType_PrivacyBlocked => "PrivacyBlocked"
  | EventType_PrivacyAllowed => "PrivacyAllowed"
  | EventType_FileWritten => "FileWritten"
  | EventType_FileRead => "FileRead"
  | EventType_FileOpFailed => "FileOpFailed"
  | EventType_WorkspacePaused => "WorkspacePaused"
  | EventType_WorkspaceResumed => "WorkspaceResumed"
  | EventType_SnapshotCreated => "SnapshotCreated"
  | EventType_WorkspaceRestored => "WorkspaceRestored"
  | EventType_WorkspaceForked => "WorkspaceForked"
  | EventType_SnapshotFailed => "SnapshotFailed"
  | EventType_PoolMemberProvisioned => "PoolMemberProvisioned"
  | EventType_PoolHit => "PoolHit"
  | EventType_PoolMiss => "PoolMiss"
  | EventType_PoolMemberEvicted => "PoolMemberEvicted"
  | EventType_IngressRouteAllowed => "IngressRouteAllowed"
  | EventType_IngressRouteDenied => "IngressRouteDenied"
  | EventType_IngressPortExposed => "IngressPortExposed"
  | EventType_IngressPortUnexposed => "IngressPortUnexposed"
  | EventType_AttestationEvidenceIssued => "AttestationEvidenceIssued"
  | EventType_AttestationFailed => "AttestationFailed"
  | EventType_AttestationReplayed => "AttestationReplayed"
  end.
(** The [flat_map] over the characters after the first; the names are ASCII. *)
Fixpoint snake_tail (s : string) : string :=
  match s with
  | EmptyString => EmptyString
  | String c s =>
      if is_ascii_uppercase c then String "_"%char (String (to_ascii_lower c) (snake_tail s))
      else String (to_ascii_lower c) (snake_tail s)
  end.
Definition snake (s : string) : string :=
  match s with EmptyString => EmptyString | String c s => String (to_ascii_lower c) (snake_tail s) end.
(** [value_to_string] is the [Display] of [serde_json::Value]. *)
Definition audit_event_to_proto (value_to_string : Value -> string) (e : AuditEvent Value) : PbAuditEvent :=
  {| pba_event_id := event_id e;
     pba_timestamp_ms := timestamp_ms e;
     pba_event_type := snake (event_type_debug (event_type e));
     pba_workspace_id := AuditChain.workspace_id e;
     pba_payload_json := value_to_string (payload e);
     pba_chain_index := chain_index e;
     pba_prev_hash_hex := prev_hash_hex e;
     pba_signature_b64 := signature_b64 e;
     pba_signer_pubkey_b64 := signer_pubkey_b64 e |}.
(** The numbers of the protobuf enums; 0 is unspecified in each. *)
Definition profile_to_pb (p : ExecutionProfile) : Z :=
  match p with ExecutionProfile_Standard => 1 | ExecutionProfile_ConfidentialAzure => 2 end.
Definition backend_to_pb (b : ExecutionBackend) : Z :=
  match b with ExecutionBackend_Firecracker => 1 | ExecutionBackend_OpenShell => 2 end.
Definition attestation_to_pb (a : AttestationBackend) : Z :=
  match a with
  | AttestationBackend_Software => 1 | AttestationBackend_SevSnpDirect => 2 | AttestationBackend_SevSnpAzure => 3
  end.
Definition operation_to_pb (o : WorkspaceOperation) : Z :=
  match o with
  | WorkspaceOperation_Create => 1
  | WorkspaceOperation_Destroy => 2
  | WorkspaceOperation_Execute => 3
  | WorkspaceOperation_WriteFile => 4
  | WorkspaceOperation_ReadFile => 5
  | WorkspaceOperation_Pause => 6
  | WorkspaceOperation_Resume => 7
  | WorkspaceOperation_Snapshot => 8
  | WorkspaceOperation_Restore => 9
  | WorkspaceOperation_Fork => 10
  | WorkspaceOperation_WarmPool => 11
  | WorkspaceOperation_Ingress => 12
  | WorkspaceOperation_Attest => 13
  end.
Definition capabilities_to_pb (c : RuntimeCapabilitiesInfo) : PbCapabilities :=
  {| pbc_runtime_version := runtime_version c;
     pbc_execution_profile := profile_to_pb (info_execution_profile c);
     pbc_execution_backend := backend_to_pb (info_execution_backend c);
     pbc_attestation_backend := attestation_to_pb (info_attestation_backend c);
     pbc_supported_operations := operation_to_pb <$> info_supported_operations c;
     pbc_hard_workspace_capacity := info_hard_workspace_capacity c;
     pbc_confidential_snapshot_supported := confidential_snapshot_supported c;
     pbc_evidence_schema_version := evidence_schema_version c |}.
Definition evidence_to_pb (ev : Evidence) : result Status PbPublicEvidence :=
  public ← map_err (fun e => internal ("encode public attestation evidence: " +:+ PublicAttestationError_to_string e))
             (public_of_evidence ev);
  map_err (fun e => internal ("encode protobuf attestation evidence: " +:+ PublicAttestationError_to_string e))
    (pb_of_public public).
Definition legacy_proof (p : PublicAttestationProof) : option PbAttestationProof :=
  match p with
  | PublicAttestationProof_Software signature signer_pubkey =>
      Some {| pbl_signature := signature; pbl_signer_pubkey := signer_pubkey; pbl_sev_snp_report := [];
              pbl_sev_snp_vcek_chain := [] |}
  | PublicAttestationProof_SevSnpDirect report vcek_cert_chain =>
      Some {| pbl_signature := []; pbl_signer_pubkey := []; pbl_sev_snp_report := report;
              pbl_sev_snp_vcek_chain := vcek_cert_chain |}
  | PublicAttestationProof_SevSnpAzure _ _ _ _ _ _ => None
  end.
Definition legacy_provider (p : PublicAttestationProvider) : option string :=
  match p with
  | PublicAttestationProvider_Software => Some "software"
  | PublicAttestationProvider_SevSnpDirect => Some "sev_snp"
  | PublicAttestationProvider_SevSnpAzure => None
  end.
Definition legacy_evidence_to_pb (ev : Evidence) : result Status (option PbAttestationEvidence) :=
  public ← map_err (fun e => internal ("encode legacy attestation evidence: " +:+ PublicAttestationError_to_string e))
             (public_of_evidence ev);
  match legacy_proof (pe_proof public), legacy_provider (pe_provider public) with
  | Some proof, Some provider_type =>
      Ok (Some {| pble_provider_type := provider_type; pble_workspace_id := pe_workspace_id public;
                  pble_measurement := pe_workspace_measurement public; pble_nonce := pe_nonce public;
                  pble_issued_at := pe_issued_at public; pble_report_data := pe_report_data public;
                  pble_proof := Some proof |})
  | _, _ => Ok None
  end.
(** [u16::try_from] of a [u32]. *)
Definition to_u16 (v : Z) : option Z := if v <=? U16_MAX then Some v else None.
(** The [filter_map] over the ports of a request: one that is no port is left out. *)
Definition valid_port (p : PbExposedPort) : option ExposedPort :=
  port ← to_u16 (pbe_port p);
  if port =? 0 then None
  else Some {| ep_port := port;
               ep_inject_headers := (fun h => {| hi_name := pbh_name h; hi_value := pbh_value h |}) <$> pbe_inject_headers p |}.
Definition pb_network_input (n : PbNetworkConfig) : NetworkInput :=
  {| in_enable_egress := pbn_enable_egress n; in_allow_cidrs := pbn_allow_cidrs n;
     in_allow_hostnames := pbn_allow_hostnames n; in_privacy_router := bool_decide (is_Some (pbn_privacy_router n));
     in_exposed_ports := omap valid_port (pbn_exposed_ports n) |}.
Definition pb_create_input (r : PbCreateWorkspaceRequest) : CreateWorkspaceInput :=
  {| ci_workspace_id := pbw_workspace_id r; ci_kernel_sha256 := pbw_kernel_sha256 r;
     ci_rootfs_sha256 := pbw_rootfs_sha256 r; ci_rootfs_read_only := pbw_rootfs_read_only r;
     ci_vcpu_count := pbw_vcpu_count r; ci_mem_size_mib := pbw_mem_size_mib r;
     ci_guest_vsock_cid := pbw_guest_vsock_cid r; ci_kernel_boot_args := pbw_kernel_boot_args r;
     ci_network := pb_network_input <$> pbw_network r; ci_tier := pbw_tier r |}.
Definition pb_network (n : WorkspaceNetwork) : PbWorkspaceNetwork :=
  {| pbwn_netns_path := wn_netns_path n; pbwn_tap_device := wn_tap_device n; pbwn_host_ip := wn_host_ip n;
     pbwn_guest_ip := wn_guest_ip n; pbwn_prefix := wn_prefix n |}.

(** ** The service *)

Section Service.
Context {W : Type} (supervisor : SupervisorRequest -> Prog W (result SupervisorClientError SupervisorResponse)).
Context (api_version : string) (elapsed_ms : Z) (value_to_string : Value -> string).
Local Abbreviation Rpc A := (Prog W (result Status A)).

(** [.await.map_err(core_error_to_status)?], then the response. *)
Definition answer {A B} (p : Prog W (result CoreError A)) (f : A -> result Status B) : Rpc B :=
  r ← p; Ret (a ← map_err core_error_to_status r; f a).

Definition grpc_ping : Rpc PbPingResponse :=
  answer (ping supervisor api_version elapsed_ms) (fun out => Ok
    {| pbp_api_version := po_api_version out; pbp_api_uptime_ms := po_api_uptime_ms out;
       pbp_supervisor_version := po_supervisor_version out; pbp_supervisor_uptime_ms := po_supervisor_uptime_ms out |}).
Definition grpc_get_runtime_capabilities : Rpc PbCapabilities :=
  answer (runtime_capabilities supervisor) (fun c => Ok (capabilities_to_pb c)).
Definition grpc_create_workspace (r : PbCreateWorkspaceRequest) : Rpc PbCreateWorkspaceResponse :=
  answer (create_workspace supervisor (pb_create_input r)) (fun c => Ok
    {| pbcr_workspace_id := wc_workspace_id c; pbcr_firecracker_pid := wc_firecracker_pid c;
       pbcr_vsock_host_socket := wc_vsock_host_socket c; pbcr_jailer_chroot := wc_jailer_chroot c;
       pbcr_network := pb_network <$> wc_network c |}).
Definition grpc_execute_command (r : PbExecuteCommandRequest) : Rpc PbExecuteCommandResponse :=
  answer (execute_command supervisor
    {| ei_workspace_id := pbx_workspace_id r; ei_command := pbx_command r; ei_args := pbx_args r;
       ei_timeout_ms := pbx_timeout_ms r; ei_guest_port := pbx_guest_port r |}) (fun c => Ok
    {| pbxr_workspace_id := cc_workspace_id c; pbxr_stdout := cc_stdout c; pbxr_stderr := cc_stderr c;
       pbxr_exit_code := cc_exit_code c; pbxr_elapsed_ms := cc_elapsed_ms c; pbxr_truncated := cc_truncated c |}).
Definition grpc_destroy_workspace (r : PbDestroyWorkspaceRequest) : Rpc string :=
  answer (destroy_workspace supervisor (pbd_workspace_id r) (pbd_grace_period_ms r)) Ok.
Definition grpc_list_events (r : PbListEventsRequest) : Rpc (list PbAuditEvent) :=
  answer (list_events supervisor (pbl_workspace_id r) (pbl_since_chain_index r) (pbl_limit r))
    (fun e => Ok (audit_event_to_proto value_to_string <$> e)).
Definition grpc_write_file (r : PbWriteFileRequest) : Rpc PbWriteFileResponse :=
  answer (write_file supervisor
    {| wi_workspace_id := pbf_workspace_id r; wi_path := pbf_path r; wi_content := pbf_content r;
       wi_guest_port := pbf_guest_port r |}) (fun w => Ok
    {| pbfr_workspace_id := fw_workspace_id w; pbfr_bytes_written := fw_bytes_written w;
       pbfr_absolute_path := fw_absolute_path w |}).
Definition grpc_read_file (r : PbReadFileRequest) : Rpc PbReadFileResponse :=
  answer (read_file supervisor
    {| ri_workspace_id := pbr_workspace_id r; ri_path := pbr_path r; ri_max_bytes := pbr_max_bytes r;
       ri_guest_port := pbr_guest_port r |}) (fun x => Ok
    {| pbrr_workspace_id := fr_workspace_id x; pbrr_content := fr_content x; pbrr_size_bytes := fr_size_bytes x;
       pbrr_truncated := fr_truncated x |}).
Definition grpc_pause_workspace (workspace_id : string) : Rpc string :=
  answer (pause_workspace supervisor workspace_id) Ok.
Definition grpc_resume_workspace (workspace_id : string) : Rpc string :=
  answer (resume_workspace supervisor workspace_id) Ok.
Definition grpc_snapshot_workspace (r : PbSnapshotWorkspaceRequest) : Rpc PbSnapshotWorkspaceResponse :=
  answer (snapshot_workspace supervisor (pbs_workspace_id r) (pbs_live r)) (fun i => Ok
    {| pbsr_snapshot_id := sn_snapshot_id i; pbsr_created_from_workspace_id := sn_created_from_workspace_id i;
       pbsr_mem_sha256 := sn_mem_sha256 i; pbsr_vmstate_sha256 := sn_vmstate_sha256 i;
       pbsr_size_bytes := sn_size_bytes i; pbsr_firecracker_pid := sn_firecracker_pid i |}).
Definition grpc_restore_workspace (r : PbRestoreWorkspaceRequest) : Rpc PbRestoreWorkspaceResponse :=
  answer (restore_workspace supervisor (pbrs_snapshot_id r) (pbrs_new_workspace_id r)) (fun c => Ok
    {| pbrsr_workspace_id := wc_workspace_id c; pbrsr_firecracker_pid := wc_firecracker_pid c;
       pbrsr_vsock_host_socket := wc_vsock_host_socket c; pbrsr_jailer_chroot := wc_jailer_chroot c |}).
Definition grpc_fork_workspace (r : PbForkWorkspaceRequest) : Rpc PbForkWorkspaceResponse :=
  let hostname := if String.eqb (pbk_hostname r) "" then None else Some (pbk_hostname r) in
  answer (fork_workspace supervisor (pbk_snapshot_id r) (pbk_new_workspace_id r) hostname) (fun i => Ok
    {| pbkr_workspace_id := fi_workspace_id i; pbkr_firecracker_pid := fi_firecracker_pid i;
       pbkr_vsock_host_socket := fi_vsock_host_socket i; pbkr_jailer_chroot := fi_jailer_chroot i;
       pbkr_source_snapshot_id := fi_source_snapshot_id i; pbkr_hostname := fi_hostname i;
       pbkr_machine_id := fi_machine_id i; pbkr_guest_vsock_cid := fi_guest_vsock_cid i |}).
Definition grpc_get_pool_status : Rpc PbPoolStatus :=
  answer (pool_status supervisor) (fun s => Ok
    {| pbps_configured := ps_configured s; pbps_tier := default "" (ps_tier s); pbps_target_size := ps_target_size s;
       pbps_available := ps_available s; pbps_in_flight := ps_in_flight s |}).
Definition grpc_expose_port (r : PbExposePortRequest) : Rpc PbPortResponse :=
  match pbep_port r with
  | None => Ret (Err (invalid_argument "port is required"))
  | Some port =>
      match to_u16 (pbe_port port) with
      | None => Ret (Err (invalid_argument "port out of range (1..=65535)"))
      | Some port_u16 =>
          answer (expose_port supervisor
            {| xi_workspace_id := pbep_workspace_id r; xi_port := port_u16;
               xi_inject_headers := (fun h => (pbh_name h, pbh_value h)) <$> pbe_inject_headers port |}) (fun o => Ok
            {| pbpr_workspace_id := o.1; pbpr_port := o.2 |})
      end
  end.
Definition grpc_unexpose_port (r : PbUnexposePortRequest) : Rpc PbPortResponse :=
  match to_u16 (pbup_port r) with
  | None => Ret (Err (invalid_argument "port out of range (1..=65535)"))
  | Some port_u16 =>
      answer (unexpose_port supervisor (pbup_workspace_id r) port_u16) (fun o => Ok
        {| pbpr_workspace_id := o.1; pbpr_port := o.2 |})
  end.
Definition grpc_get_attestation_evidence (r : PbAttestationRequest) : Rpc PbAttestationResponse :=
  answer (get_attestation_evidence supervisor (pbat_workspace_id r) (pbat_nonce r)) (fun evidence =>
    public_evidence ← evidence_to_pb evidence;
    legacy ← legacy_evidence_to_pb evidence;
    Ok {| pbar_evidence := legacy; pbar_public_evidence := Some public_evidence |}).

(** The reply of a method, as one of the service's. *)
Definition wrap {A} (reply : A -> GrpcReply) (p : Rpc A) : Rpc GrpcReply :=
  r ← p; Ret (m ← r; Ok (reply m)).
Definition runtime_service (c : GrpcCall) : Rpc GrpcReply :=
  match c with
  | Grpc_ping => wrap Reply_ping grpc_ping
  | Grpc_get_runtime_capabilities => wrap Reply_capabilities grpc_get_runtime_capabilities
  | Grpc_create_workspace r => wrap Reply_created (grpc_create_workspace r)
  | Grpc_destroy_workspace r => wrap Reply_workspace_id (grpc_destroy_workspace r)
  | Grpc_execute_command r => wrap Reply_exec (grpc_execute_command r)
  | Grpc_list_events r => wrap Reply_events (grpc_list_events r)
  | Grpc_write_file r => wrap Reply_write (grpc_write_file r)
  | Grpc_read_file r => wrap Reply_read (grpc_read_file r)
  | Grpc_pause_workspace w => wrap Reply_workspace_id (grpc_pause_workspace w)
  | Grpc_resume_workspace w => wrap Reply_workspace_id (grpc_resume_workspace w)
  | Grpc_snapshot_workspace r => wrap Reply_snapshot (grpc_snapshot_workspace r)
  | Grpc_restore_workspace r => wrap Reply_restored (grpc_restore_workspace r)
  | Grpc_fork_workspace r => wrap Reply_fork (grpc_fork_workspace r)
  | Grpc_get_pool_status => wrap Reply_pool grpc_get_pool_status
  | Grpc_expose_port r => wrap Reply_port (grpc_expose_port r)
  | Grpc_unexpose_port r => wrap Reply_port (grpc_unexpose_port r)
  | Grpc_get_attestation_evidence r => wrap Reply_attestation (grpc_get_attestation_evidence r)
  end.
(** [make_grpc_auth_interceptor]: the value is the [authorization] metadata when it is text. *)
Definition auth_interceptor `{Crypto} (store : ApiKeyStore) (authorization : option string) : result Status unit :=
  if authorized store authorization then Ok tt
  else Err {| st_code := Code_Unauthenticated; st_message := "missing or invalid API key" |}.
(** [serve_grpc]: the service alone, or behind the interceptor. *)
Definition serve_grpc `{Crypto} (auth : option ApiKeyStore) (authorization : option string) (c : GrpcCall) : Rpc GrpcReply :=
  match auth with
  | Some store =>
      match auth_interceptor store authorization with
      | Ok _ => runtime_service c
      | Err st => Ret (Err st)
      end
  | None => runtime_service c
  end.
End Service.
