(* ===== verification/ApiRest.v ===== *)
(** * The REST front door ([crates/ne-api/src/rest.rs])

    Bodies, query strings and responses of the JSON gateway, its handlers, the
    mapping of errors to HTTP statuses, and the router with and without the
    API-key middleware.  A handler receives its path parameters, query and body
    decoded (by axum and serde); binary content is base64 text. *)

From S2P Require Import Prelude Text Profile Fleet Capacity AuditChain Crypto Bytes Attestation Protocol PublicEvidence.
From S2P Require Import Prog ApiAuth ApiCore.

(** ** Bodies, queries and responses *)

Record HeaderInjectionBody := { hb_name : string; hb_value : string }.
Record ExposedPortBody := { eb_port : Z; eb_inject_headers : list HeaderInjectionBody }.
Record NetworkBody := {
  nb_enable_egress : bool; nb_allow_cidrs : list string; nb_allow_hostnames : list string;
  nb_privacy_router : option Value; nb_exposed_ports : list ExposedPortBody }.
Record CreateWorkspaceBody := {
  cb_workspace_id : string;
  cb_kernel_sha256 : string;
  cb_rootfs_sha256 : string;
  cb_rootfs_read_only : bool;
  cb_vcpu_count : Z;
  cb_mem_size_mib : Z;
  cb_guest_vsock_cid : Z;
  cb_kernel_boot_args : option string;
  cb_network : option NetworkBody;
  cb_tier : option string;
}.
Record WorkspaceNetworkResponse := {
  nr_netns_path : string; nr_tap_device : string; nr_host_ip : string; nr_guest_ip : string; nr_prefix : Z }.
Record CreateWorkspaceResponse := {
  cr_workspace_id : string; cr_firecracker_pid : Z; cr_vsock_host_socket : string; cr_jailer_chroot : string;
  cr_network : option WorkspaceNetworkResponse }.
Record HealthResponse := {
  hr_api_version : string; hr_api_uptime_ms : Z; hr_supervisor_version : string; hr_supervisor_uptime_ms : Z }.
Record ExecBody := { xb_command : string; xb_args : list string; xb_timeout_ms : Z; xb_guest_port : Z }.
Record ExecResponse := {
  xr_workspace_id : string; xr_stdout : string; xr_stderr : string; xr_exit_code : Z; xr_elapsed_ms : Z;
  xr_truncated : bool }.
Record WriteFileBody := { wb_path : string; wb_content : string; wb_guest_port : Z }.
Record WriteFileResponse := { wfr_workspace_id : string; wfr_bytes_written : Z; wfr_absolute_path : string }.
Record ReadFileQuery := { rq_path : string; rq_max_bytes : Z; rq_guest_port : Z }.
Record ReadFileResponse := {
  rfr_workspace_id : string; rfr_content : string; rfr_size_bytes : Z; rfr_truncated : bool }.
Record ListEventsQuery := { lq_workspace_id : option string; lq_since_chain_index : Z; lq_limit : Z }.
Record SnapshotResponse := {
  sp_snapshot_id : string; sp_created_from_workspace_id : string; sp_mem_sha256 : string; sp_vmstate_sha256 : string;
  sp_size_bytes : Z; sp_firecracker_pid : option Z }.
Record ForkBody := { fb_new_workspace_id : string; fb_hostname : option string }.
Record ForkResponse := {
  fkr_workspace_id : string; fkr_firecracker_pid : Z; fkr_vsock_host_socket : string; fkr_jailer_chroot : string;
  fkr_source_snapshot_id : string; fkr_hostname : string; fkr_machine_id : string; fkr_guest_vsock_cid : Z }.
Record PoolStatusResponse := {
  pr_configured : bool; pr_tier : option string; pr_target_size : Z; pr_available : Z; pr_in_flight : Z }.
Record ExposeResponse := { er_workspace_id : string; er_port : Z }.
Record ErrorDetail := { ed_code : string; ed_message : string }.

(** A request, one constructor per route: its path parameters, then its query or body. *)
Inductive RestCall :=
| Rest_health
| Rest_runtime_capabilities
| Rest_create_workspace (body : CreateWorkspaceBody)
| Rest_destroy_workspace (workspace_id : string) (grace_period_ms : Z)
| Rest_execute_command (workspace_id : string) (body : ExecBody)
| Rest_write_file (workspace_id : string) (body : WriteFileBody)
| Rest_read_file (workspace_id : string) (q : ReadFileQuery)
| Rest_pause_workspace (workspace_id : string)
| Rest_resume_workspace (workspace_id : string)
| Rest_snapshot_workspace (workspace_id : string) (live : option bool)
| Rest_restore_workspace (snapshot_id new_workspace_id : string)
| Rest_fork_workspace (snapshot_id : string) (body : ForkBody)
| Rest_list_events (q : ListEventsQuery)
| Rest_pool_status
| Rest_expose_port (workspace_id : string) (port : Z) (inject_headers : list HeaderInjectionBody)
| Rest_unexpose_port (workspace_id : string) (port : Z)
| Rest_get_attestation (workspace_id nonce : string).
Inductive RestBody :=
| Body_health (b : HealthResponse)
| Body_capabilities (b : RuntimeCapabilitiesInfo)
| Body_workspace (b : CreateWorkspaceResponse)
| Body_workspace_id (workspace_id : string)
| Body_exec (b : ExecResponse)
| Body_write (b : WriteFileResponse)
| Body_read (b : ReadFileResponse)
| Body_snapshot (b : SnapshotResponse)
| Body_fork (b : ForkResponse)
| Body_events (b : list (AuditEvent Value))
| Body_pool (b : PoolStatusResponse)
| Body_port (b : ExposeResponse)
| Body_evidence (b : PublicAttestationEvidence)
| Body_error (b : ErrorDetail).
Record HttpResponse := { http_status : Z; http_body : RestBody }.

(** ** Errors *)

Definition OK : Z := 200.
Definition CREATED : Z := 201.
Definition BAD_REQUEST : Z := 400.
Definition UNAUTHORIZED : Z := 401.
Definition FORBIDDEN : Z := 403.
Definition NOT_FOUND : Z := 404.
Definition CONFLICT : Z := 409.
Definition INTERNAL_SERVER_ERROR : Z := 500.
Definition NOT_IMPLEMENTED : Z := 501.
Definition SERVICE_UNAVAILABLE : Z := 503.
Definition GATEWAY_TIMEOUT : Z := 504.
Definition kind_to_http (k : SupervisorErrorKind) : Z :=
  match k with
  | SupervisorErrorKind_Unauthorized => FORBIDDEN
  | SupervisorErrorKind_InvalidRequest | SupervisorErrorKind_InvalidImageDigest
  | SupervisorErrorKind_PathRejected | SupervisorErrorKind_FileTooLarge => BAD_REQUEST
  | SupervisorErrorKind_Unsupported => NOT_IMPLEMENTED
  | SupervisorErrorKind_WorkspaceAlreadyExists | SupervisorErrorKind_ImageRejected
  | SupervisorErrorKind_ImageDigestMismatch | SupervisorErrorKind_InvalidSnapshot
  | SupervisorErrorKind_WorkspaceNotPaused | SupervisorErrorKind_WorkspaceAlreadyPaused
  | SupervisorErrorKind_WorkspaceNotNetworked | SupervisorErrorKind_AttestationReplay
  | SupervisorErrorKind_UnsupportedForProfile | SupervisorErrorKind_ConfidentialCapacityExceeded => CONFLICT
  | SupervisorErrorKind_WorkspaceNotFound | SupervisorErrorKind_FileNotFound | SupervisorErrorKind_ImageNotFound
  | SupervisorErrorKind_TierNotFound | SupervisorErrorKind_IngressPortNotFound => NOT_FOUND
  | SupervisorErrorKind_Timeout => GATEWAY_TIMEOUT
  | SupervisorErrorKind_GuestUnreachable => SERVICE_UNAVAILABLE
  | _ => INTERNAL_SERVER_ERROR
  end.
Definition core_error_to_http (e : CoreError) : Z :=
  match e with
  | CoreError_Validation _ => BAD_REQUEST
  | CoreError_Transport (SupervisorClientError_Io _) => SERVICE_UNAVAILABLE
  | CoreError_Transport (SupervisorClientError_Supervisor kind _) | CoreError_Supervisor kind _ => kind_to_http kind
  | CoreError_Transport _ => INTERNAL_SERVER_ERROR
  end.
(** [IntoResponse for ApiError]. *)
Definition error_response (e : CoreError) : HttpResponse :=
  {| http_status := core_error_to_http e;
     http_body := Body_error {| ed_code := CoreError_code e; ed_message := CoreError_message e |} |}.

(** ** Handlers *)

(** The [filter_map] over the ports of a body. *)
Definition valid_port_body (p : ExposedPortBody) : option ExposedPort :=
  if (U16_MAX <? eb_port p) || (eb_port p =? 0) then None
  else Some {| ep_port := eb_port p;
               ep_inject_headers := (fun h => {| hi_name := hb_name h; hi_value := hb_value h |}) <$> eb_inject_headers p |}.
Definition network_input (n : NetworkBody) : NetworkInput :=
  {| in_enable_egress := nb_enable_egress n; in_allow_cidrs := nb_allow_cidrs n;
     in_allow_hostnames := nb_allow_hostnames n; in_privacy_router := bool_decide (is_Some (nb_privacy_router n));
     in_exposed_ports := omap valid_port_body (nb_exposed_ports n) |}.
Definition create_input (b : CreateWorkspaceBody) : CreateWorkspaceInput :=
  {| ci_workspace_id := cb_workspace_id b; ci_kernel_sha256 := cb_kernel_sha256 b;
     ci_rootfs_sha256 := cb_rootfs_sha256 b; ci_rootfs_read_only := cb_rootfs_read_only b;
     ci_vcpu_count := cb_vcpu_count b; ci_mem_size_mib := cb_mem_size_mib b;
     ci_guest_vsock_cid := cb_guest_vsock_cid b; ci_kernel_boot_args := cb_kernel_boot_args b;
     ci_network := network_input <$> cb_network b; ci_tier := cb_tier b |}.
Definition network_response (n : WorkspaceNetwork) : WorkspaceNetworkResponse :=
  {| nr_netns_path := wn_netns_path n; nr_tap_device := wn_tap_device n; nr_host_ip := wn_host_ip n;
     nr_guest_ip := wn_guest_ip n; nr_prefix := wn_prefix n |}.

Section Handlers.
Context {C : Crypto} {W : Type}.
Context (supervisor : SupervisorRequest -> Prog W (result SupervisorClientError SupervisorResponse)).
Context (api_version : string) (elapsed_ms : Z).
(** The text of a base64 error. *)
Context (b64_error : string -> string).
Local Abbreviation Http := (Prog W HttpResponse).

(** [?] on the core's result, then a response of status [status]. *)
Definition respond {A} (status : Z) (p : Prog W (result CoreError A)) (f : A -> result CoreError RestBody) : Http :=
  r ← p;
  Ret match (a ← r; f a) with
      | Ok b => {| http_status := status; http_body := b |}
      | Err e => error_response e
      end.

Definition rest_health : Http :=
  respond OK (ping supervisor api_version elapsed_ms) (fun out => Ok (Body_health
    {| hr_api_version := po_api_version out; hr_api_uptime_ms := po_api_uptime_ms out;
       hr_supervisor_version := po_supervisor_version out; hr_supervisor_uptime_ms := po_supervisor_uptime_ms out |})).
Definition rest_runtime_capabilities : Http :=
  respond OK (runtime_capabilities supervisor) (fun c => Ok (Body_capabilities c)).
Definition rest_create_workspace (body : CreateWorkspaceBody) : Http :=
  respond CREATED (create_workspace supervisor (create_input body)) (fun c => Ok (Body_workspace
    {| cr_workspace_id := wc_workspace_id c; cr_firecracker_pid := wc_firecracker_pid c;
       cr_vsock_host_socket := wc_vsock_host_socket c; cr_jailer_chroot := wc_jailer_chroot c;
       cr_network := network_response <$> wc_network c |})).
Definition rest_destroy_workspace (workspace_id : string) (grace_period_ms : Z) : Http :=
  respond OK (destroy_workspace supervisor workspace_id grace_period_ms) (fun w => Ok (Body_workspace_id w)).
Definition rest_execute_command (workspace_id : string) (body : ExecBody) : Http :=
  respond OK (execute_command supervisor
    {| ei_workspace_id := workspace_id; ei_command := xb_command body; ei_args := xb_args body;
       ei_timeout_ms := xb_timeout_ms body; ei_guest_port := xb_guest_port body |}) (fun c => Ok (Body_exec
    {| xr_workspace_id := cc_workspace_id c; xr_stdout := cc_stdout c; xr_stderr := cc_stderr c;
       xr_exit_code := cc_exit_code c; xr_elapsed_ms := cc_elapsed_ms c; xr_truncated := cc_truncated c |})).
Definition rest_write_file (workspace_id : string) (body : WriteFileBody) : Http :=
  match b64_decode (wb_content body) with
  | None => Ret (error_response (CoreError_Validation ("content is not valid base64: " +:+ b64_error (wb_content body))))
  | Some content =>
      respond OK (write_file supervisor
        {| wi_workspace_id := workspace_id; wi_path := wb_path body; wi_content := content;
           wi_guest_port := wb_guest_port body |}) (fun w => Ok (Body_write
        {| wfr_workspace_id := fw_workspace_id w; wfr_bytes_written := fw_bytes_written w;
           wfr_absolute_path := fw_absolute_path w |}))
  end.
Definition rest_read_file (workspace_id : string) (q : ReadFileQuery) : Http :=
  respond OK (read_file supervisor
    {| ri_workspace_id := workspace_id; ri_path := rq_path q; ri_max_bytes := rq_max_bytes q;
       ri_guest_port := rq_guest_port q |}) (fun x => Ok (Body_read
    {| rfr_workspace_id := fr_workspace_id x; rfr_content := b64_encode (fr_content x);
       rfr_size_bytes := fr_size_bytes x; rfr_truncated := fr_truncated x |})).
Definition rest_list_events (q : ListEventsQuery) : Http :=
  respond OK (list_events supervisor (lq_workspace_id q) (lq_since_chain_index q) (lq_limit q))
    (fun e => Ok (Body_events e)).
Definition rest_pause_workspace (workspace_id : string) : Http :=
  respond OK (pause_workspace supervisor workspace_id) (fun w => Ok (Body_workspace_id w)).
Definition rest_resume_workspace (workspace_id : string) : Http :=
  respond OK (resume_workspace supervisor workspace_id) (fun w => Ok (Body_workspace_id w)).
Definition rest_snapshot_workspace (workspace_id : string) (body : option bool) : Http :=
  respond CREATED (snapshot_workspace supervisor workspace_id (default false body)) (fun i => Ok (Body_snapshot
    {| sp_snapshot_id := sn_snapshot_id i; sp_created_from_workspace_id := sn_created_from_workspace_id i;
       sp_mem_sha256 := sn_mem_sha256 i; sp_vmstate_sha256 := sn_vmstate_sha256 i; sp_size_bytes := sn_size_bytes i;
       sp_firecracker_pid := sn_firecracker_pid i |})).
Definition rest_restore_workspace (snapshot_id new_workspace_id : string) : Http :=
  respond CREATED (restore_workspace supervisor snapshot_id new_workspace_id) (fun c => Ok (Body_workspace
    {| cr_workspace_id := wc_workspace_id c; cr_firecracker_pid := wc_firecracker_pid c;
       cr_vsock_host_socket := wc_vsock_host_socket c; cr_jailer_chroot := wc_jailer_chroot c; cr_network := None |})).
Definition rest_fork_workspace (snapshot_id : string) (body : ForkBody) : Http :=
  respond CREATED (fork_workspace supervisor snapshot_id (fb_new_workspace_id body) (fb_hostname body))
    (fun i => Ok (Body_fork
    {| fkr_workspace_id := fi_workspace_id i; fkr_firecracker_pid := fi_firecracker_pid i;
       fkr_vsock_host_socket := fi_vsock_host_socket i; fkr_jailer_chroot := fi_jailer_chroot i;
       fkr_source_snapshot_id := fi_source_snapshot_id i; fkr_hostname := fi_hostname i;
       fkr_machine_id := fi_machine_id i; fkr_guest_vsock_cid := fi_guest_vsock_cid i |})).
Definition rest_pool_status : Http :=
  respond OK (pool_status supervisor) (fun s => Ok (Body_pool
    {| pr_configured := ps_configured s; pr_tier := ps_tier s; pr_target_size := ps_target_size s;
       pr_available := ps_available s; pr_in_flight := ps_in_flight s |})).
Definition rest_expose_port (workspace_id : string) (port : Z) (inject_headers : list HeaderInjectionBody) : Http :=
  respond OK (expose_port supervisor
    {| xi_workspace_id := workspace_id; xi_port := port;
       xi_inject_headers := (fun h => (hb_name h, hb_value h)) <$> inject_headers |})
    (fun o => Ok (Body_port {| er_workspace_id := o.1; er_port := o.2 |})).
Definition rest_unexpose_port (workspace_id : string) (port : Z) : Http :=
  respond OK (unexpose_port supervisor workspace_id port)
    (fun o => Ok (Body_port {| er_workspace_id := o.1; er_port := o.2 |})).
Definition rest_get_attestation (workspace_id nonce : string) : Http :=
  match b64_decode nonce with
  | None => Ret (error_response (CoreError_Validation "nonce must be valid base64"))
  | Some nonce =>
      respond OK (get_attestation_evidence supervisor workspace_id nonce) (fun evidence =>
        public ← map_err (fun e => CoreError_Supervisor SupervisorErrorKind_Internal
                            ("encode public attestation evidence: " +:+ PublicAttestationError_to_string e))
                   (public_of_evidence evidence);
        Ok (Body_evidence public))
  end.

(** [router]: the handler of each route. *)
Definition router (c : RestCall) : Http :=
  match c with
  | Rest_health => rest_health
  | Rest_runtime_capabilities => rest_runtime_capabilities
  | Rest_create_workspace body => rest_create_workspace body
  | Rest_destroy_workspace w grace => rest_destroy_workspace w grace
  | Rest_execute_command w body => rest_execute_command w body
  | Rest_write_file w body => rest_write_file w body
  | Rest_read_file w q => rest_read_file w q
  | Rest_pause_workspace w => rest_pause_workspace w
  | Rest_resume_workspace w => rest_resume_workspace w
  | Rest_snapshot_workspace w live => rest_snapshot_workspace w live
  | Rest_restore_workspace s w => rest_restore_workspace s w
  | Rest_fork_workspace s body => rest_fork_workspace s body
  | Rest_list_events q => rest_list_events q
  | Rest_pool_status => rest_pool_status
  | Rest_expose_port w port headers => rest_expose_port w port headers
  | Rest_unexpose_port w port => rest_unexpose_port w port
  | Rest_get_attestation w nonce => rest_get_attestation w nonce
  end.
(** The middleware: the next handler runs for a request that carries a known key. *)
Definition api_key_guard (store : ApiKeyStore) (authorization : option string) (next : Http) : Http :=
  if authorized store authorization then next
  else Ret {| http_status := UNAUTHORIZED;
              http_body := Body_error {| ed_code := "UNAUTHENTICATED"; ed_message := "missing or invalid API key" |} |}.
Definition authed_router (store : ApiKeyStore) (authorization : option string) (c : RestCall) : Http :=
  api_key_guard store authorization (router c).
(** The router [run] selects. *)
Definition serve_rest (auth : option ApiKeyStore) (authorization : option string) (c : RestCall) : Http :=
  match auth with Some store => authed_router store authorization c | None => router c end.
End Handlers.
