(* ===== verification/Api.v ===== *)
(** * The API daemon ([crates/ne-api/src/lib.rs])

    The two front doors side by side.  They agree: the same operation asked over
    REST and over gRPC has the same effect and the same answer.  They are thin:
    whatever is asked, only requests within the supervisor's limits are sent.
    And they are closed: a daemon that starts on an address that is not
    loopback answers nothing without a key, and only under TLS. *)

From S2P Require Import Prelude Text Profile Fleet Capacity AuditChain Crypto Bytes Attestation Protocol PublicEvidence.
From S2P Require Import Prog ApiAuth ApiCore ApiGrpc ApiRest.

(** ** The same call through both doors *)

Definition pb_header (h : HeaderInjectionBody) : PbHeaderInjection := {| pbh_name := hb_name h; pbh_value := hb_value h |}.
Definition pb_port (p : ExposedPortBody) : PbExposedPort :=
  {| pbe_port := eb_port p; pbe_inject_headers := pb_header <$> eb_inject_headers p |}.
Definition pb_network_of (n : NetworkBody) : PbNetworkConfig :=
  {| pbn_enable_egress := nb_enable_egress n; pbn_allow_cidrs := nb_allow_cidrs n;
     pbn_allow_hostnames := nb_allow_hostnames n; pbn_privacy_router := (fun _ => tt) <$> nb_privacy_router n;
     pbn_exposed_ports := pb_port <$> nb_exposed_ports n |}.
Definition pb_create_of (b : CreateWorkspaceBody) : PbCreateWorkspaceRequest :=
  {| pbw_workspace_id := cb_workspace_id b; pbw_kernel_sha256 := cb_kernel_sha256 b;
     pbw_rootfs_sha256 := cb_rootfs_sha256 b; pbw_rootfs_read_only := cb_rootfs_read_only b;
     pbw_vcpu_count := cb_vcpu_count b; pbw_mem_size_mib := cb_mem_size_mib b;
     pbw_guest_vsock_cid := cb_guest_vsock_cid b; pbw_kernel_boot_args := cb_kernel_boot_args b;
     pbw_network := pb_network_of <$> cb_network b; pbw_tier := cb_tier b |}.
(** The gRPC call with the fields of a REST call.  There is none for content or a
    nonce that is not base64, for a port that is no [u16], and for a fork whose
    host name is present and empty, which gRPC cannot express. *)
Definition grpc_of_rest `{Crypto} (c : RestCall) : option GrpcCall :=
  match c with
  | Rest_health => Some Grpc_ping
  | Rest_runtime_capabilities => Some Grpc_get_runtime_capabilities
  | Rest_create_workspace b => Some (Grpc_create_workspace (pb_create_of b))
  | Rest_destroy_workspace w grace =>
      Some (Grpc_destroy_workspace {| pbd_workspace_id := w; pbd_grace_period_ms := grace |})
  | Rest_execute_command w b => Some (Grpc_execute_command
      {| pbx_workspace_id := w; pbx_command := xb_command b; pbx_args := xb_args b; pbx_timeout_ms := xb_timeout_ms b;
         pbx_guest_port := xb_guest_port b |})
  | Rest_write_file w b => content ← b64_decode (wb_content b); Some (Grpc_write_file
      {| pbf_workspace_id := w; pbf_path := wb_path b; pbf_content := content; pbf_guest_port := wb_guest_port b |})
  | Rest_read_file w q => Some (Grpc_read_file
      {| pbr_workspace_id := w; pbr_path := rq_path q; pbr_max_bytes := rq_max_bytes q; pbr_guest_port := rq_guest_port q |})
  | Rest_pause_workspace w => Some (Grpc_pause_workspace w)
  | Rest_resume_workspace w => Some (Grpc_resume_workspace w)
  | Rest_snapshot_workspace w live =>
      Some (Grpc_snapshot_workspace {| pbs_workspace_id := w; pbs_live := default false live |})
  | Rest_restore_workspace s w =>
      Some (Grpc_restore_workspace {| pbrs_snapshot_id := s; pbrs_new_workspace_id := w |})
  | Rest_fork_workspace s b =>
      hostname ← match fb_hostname b with
                 | None => Some "" | Some h => if String.eqb h "" then None else Some h end;
      Some (Grpc_fork_workspace
        {| pbk_snapshot_id := s; pbk_new_workspace_id := fb_new_workspace_id b; pbk_hostname := hostname |})
  | Rest_list_events q => Some (Grpc_list_events
      {| pbl_workspace_id := lq_workspace_id q; pbl_since_chain_index := lq_since_chain_index q; pbl_limit := lq_limit q |})
  | Rest_pool_status => Some Grpc_get_pool_status
  | Rest_expose_port w port headers =>
      p ← to_u16 port; Some (Grpc_expose_port
        {| pbep_workspace_id := w; pbep_port := Some {| pbe_port := p; pbe_inject_headers := pb_header <$> headers |} |})
  | Rest_unexpose_port w port =>
      p ← to_u16 port; Some (Grpc_unexpose_port {| pbup_workspace_id := w; pbup_port := p |})
  | Rest_get_attestation w nonce =>
      n ← b64_decode nonce; Some (Grpc_get_attestation_evidence {| pbat_workspace_id := w; pbat_nonce := n |})
  end.

(** The HTTP status that stands for a gRPC code. *)
Definition http_of_code (c : Code) : Z :=
  match c with
  | Code_InvalidArgument => BAD_REQUEST
  | Code_DeadlineExceeded => GATEWAY_TIMEOUT
  | Code_NotFound => NOT_FOUND
  | Code_AlreadyExists | Code_FailedPrecondition => CONFLICT
  | Code_PermissionDenied => FORBIDDEN
  | Code_Unimplemented => NOT_IMPLEMENTED
  | Code_Internal => INTERNAL_SERVER_ERROR
  | Code_Unavailable => SERVICE_UNAVAILABLE
  | Code_Unauthenticated => UNAUTHORIZED
  end.

Section Doors.
Context {C : Crypto} {W : Type}.
Context (supervisor : SupervisorRequest -> Prog W (result SupervisorClientError SupervisorResponse)).
Context (api_version : string) (elapsed_ms : Z) (value_to_string : Value -> string) (b64_error : string -> string).

(** An audit event and its message have the same fields; the type is serde's name of it. *)
Definition event_agrees (e : AuditEvent Value) (m : PbAuditEvent) : Prop :=
  pba_event_id m = event_id e /\ pba_timestamp_ms m = timestamp_ms e
  /\ pba_event_type m = event_type_name (event_type e) /\ pba_workspace_id m = AuditChain.workspace_id e
  /\ pba_payload_json m = value_to_string (payload e) /\ pba_chain_index m = chain_index e
  /\ pba_prev_hash_hex m = prev_hash_hex e /\ pba_signature_b64 m = signature_b64 e
  /\ pba_signer_pubkey_b64 m = signer_pubkey_b64 e.
(** A response body and a reply with the same content. *)
Inductive agrees : RestBody -> GrpcReply -> Prop :=
| agrees_health a u v t :
    agrees
      (Body_health {| hr_api_version := a; hr_api_uptime_ms := u; hr_supervisor_version := v;
                      hr_supervisor_uptime_ms := t |})
      (Reply_ping {| pbp_api_version := a; pbp_api_uptime_ms := u; pbp_supervisor_version := v;
                     pbp_supervisor_uptime_ms := t |})
| agrees_capabilities c :
    agrees (Body_capabilities c) (Reply_capabilities
      {| pbc_runtime_version := runtime_version c; pbc_execution_profile := profile_to_pb (info_execution_profile c);
         pbc_execution_backend := backend_to_pb (info_execution_backend c);
         pbc_attestation_backend := attestation_to_pb (info_attestation_backend c);
         pbc_supported_operations := operation_to_pb <$> info_supported_operations c;
         pbc_hard_workspace_capacity := info_hard_workspace_capacity c;
         pbc_confidential_snapshot_supported := confidential_snapshot_supported c;
         pbc_evidence_schema_version := evidence_schema_version c |})
| agrees_created w pid vsock chroot (net : option WorkspaceNetwork) :
    agrees
      (Body_workspace {| cr_workspace_id := w; cr_firecracker_pid := pid; cr_vsock_host_socket := vsock;
                         cr_jailer_chroot := chroot; cr_network := network_response <$> net |})
      (Reply_created {| pbcr_workspace_id := w; pbcr_firecracker_pid := pid; pbcr_vsock_host_socket := vsock;
                        pbcr_jailer_chroot := chroot; pbcr_network := pb_network <$> net |})
| agrees_restored w pid vsock chroot :
    agrees
      (Body_workspace {| cr_workspace_id := w; cr_firecracker_pid := pid; cr_vsock_host_socket := vsock;
                         cr_jailer_chroot := chroot; cr_network := None |})
      (Reply_restored {| pbrsr_workspace_id := w; pbrsr_firecracker_pid := pid; pbrsr_vsock_host_socket := vsock;
                         pbrsr_jailer_chroot := chroot |})
| agrees_workspace_id w : agrees (Body_workspace_id w) (Reply_workspace_id w)
| agrees_exec w out err code ms t :
    agrees
      (Body_exec {| xr_workspace_id := w; xr_stdout := out; xr_stderr := err; xr_exit_code := code; xr_elapsed_ms := ms;
                    xr_truncated := t |})
      (Reply_exec {| pbxr_workspace_id := w; pbxr_stdout := out; pbxr_stderr := err; pbxr_exit_code := code;
                     pbxr_elapsed_ms := ms; pbxr_truncated := t |})
| agrees_write w n p :
    agrees (Body_write {| wfr_workspace_id := w; wfr_bytes_written := n; wfr_absolute_path := p |})
      (Reply_write {| pbfr_workspace_id := w; pbfr_bytes_written := n; pbfr_absolute_path := p |})
| agrees_read w content n t :
    agrees
      (Body_read {| rfr_workspace_id := w; rfr_content := b64_encode content; rfr_size_bytes := n; rfr_truncated := t |})
      (Reply_read {| pbrr_workspace_id := w; pbrr_content := content; pbrr_size_bytes := n; pbrr_truncated := t |})
| agrees_snapshot s w m v n pid :
    agrees
      (Body_snapshot {| sp_snapshot_id := s; sp_created_from_workspace_id := w; sp_mem_sha256 := m;
                        sp_vmstate_sha256 := v; sp_size_bytes := n; sp_firecracker_pid := pid |})
      (Reply_snapshot {| pbsr_snapshot_id := s; pbsr_created_from_workspace_id := w; pbsr_mem_sha256 := m;
                         pbsr_vmstate_sha256 := v; pbsr_size_bytes := n; pbsr_firecracker_pid := pid |})
| agrees_fork w pid vsock chroot s h m cid :
    agrees
      (Body_fork {| fkr_workspace_id := w; fkr_firecracker_pid := pid; fkr_vsock_host_socket := vsock;
                    fkr_jailer_chroot := chroot; fkr_source_snapshot_id := s; fkr_hostname := h; fkr_machine_id := m;
                    fkr_guest_vsock_cid := cid |})
      (Reply_fork {| pbkr_workspace_id := w; pbkr_firecracker_pid := pid; pbkr_vsock_host_socket := vsock;
                     pbkr_jailer_chroot := chroot; pbkr_source_snapshot_id := s; pbkr_hostname := h;
                     pbkr_machine_id := m; pbkr_guest_vsock_cid := cid |})
| agrees_events es ms : Forall2 event_agrees es ms -> agrees (Body_events es) (Reply_events ms)
| agrees_pool c t n a f :
    agrees
      (Body_pool {| pr_configured := c; pr_tier := t; pr_target_size := n; pr_available := a; pr_in_flight := f |})
      (Reply_pool {| pbps_configured := c; pbps_tier := default "" t; pbps_target_size := n; pbps_available := a;
                     pbps_in_flight := f |})
| agrees_port w p :
    agrees (Body_port {| er_workspace_id := w; er_port := p |})
      (Reply_port {| pbpr_workspace_id := w; pbpr_port := p |})
| agrees_evidence p m legacy :
    pb_of_public p = Ok m ->
    agrees (Body_evidence p) (Reply_attestation {| pbar_evidence := legacy; pbar_public_evidence := Some m |}).
(** The status and the body of an error: the same class, and the same message up to the prefix gRPC
    gives a transport error. *)
Definition error_agrees (h : HttpResponse) (st : Status) : Prop :=
  http_status h = http_of_code (st_code st)
  /\ exists code message prefix,
       http_body h = Body_error {| ed_code := code; ed_message := message |}
       /\ st_message st = prefix +:+ message /\ prefix ∈ [""; "supervisor io: "; "supervisor protocol: "].
Definition answers_agree (h : HttpResponse) (r : result Status GrpcReply) : Prop :=
  match r with
  | Ok m => (http_status h = OK \/ http_status h = CREATED) /\ agrees (http_body h) m
  | Err st => error_agrees h st
  end.

Lemma error_response_agrees e : error_agrees (error_response e) (core_error_to_status e).
Proof.
  split; [by destruct e as [m|[]|[| |[]|]]|]. exists (CoreError_code e), (CoreError_message e).
  destruct e as [m|k m|[]];
    (exists "" + exists "supervisor io: " + exists "supervisor protocol: "); (split_and!; [reflexivity..|set_solver]).
Qed.
Lemma doors_agree {A B} status (p : Prog W (result CoreError A)) f (g : A -> result Status B) reply w :
  status = OK \/ status = CREATED ->
  (forall a, fst (run p w) = Ok a ->
     match f a, g a with
     | Ok b, Ok m => agrees b (reply m)
     | Err e, Err st => st = core_error_to_status e
     | _, _ => False
     end) ->
  snd (run (respond status p f) w) = snd (run (wrap reply (answer p g)) w)
  /\ answers_agree (fst (run (respond status p f) w)) (fst (run (wrap reply (answer p g)) w)).
Proof.
  intros Hs H. unfold respond, wrap, answer. rewrite !run_bind. destruct (run p w) as [[a|e] w']; cbn in *.
  - specialize (H a eq_refl). split; [done|]. destruct (f a), (g a); try done. subst. apply error_response_agrees.
  - split; [done|]. apply error_response_agrees.
Qed.
Lemma event_type_text t : snake (event_type_debug t) = event_type_name t.
Proof. by destruct t. Qed.
Lemma ports_agree p : valid_port (pb_port p) = valid_port_body p.
Proof.
  unfold valid_port, valid_port_body, to_u16, pb_port. cbn. rewrite Z.ltb_antisym.
  destruct (eb_port p <=? U16_MAX); cbn; [|done]. destruct (eb_port p =? 0); [done|]. by rewrite <- list_fmap_compose.
Qed.
Lemma create_inputs_agree b : pb_create_input (pb_create_of b) = create_input b.
Proof.
  unfold pb_create_input, create_input. cbn. f_equal. rewrite <- option_fmap_compose. destruct (cb_network b) as [n|]; [|done].
  cbn. unfold pb_network_input, network_input. cbn. do 2 f_equal.
  - by destruct (nb_privacy_router n).
  - induction (nb_exposed_ports n) as [|p l IH]; [done|]. cbn. rewrite ports_agree, IH. done.
Qed.
(** The evidence a supervisor issues has the array sizes of its type. *)
Definition issues_sized : Prop := forall q w ev w',
  run (supervisor q) w = (Ok (SupervisorResponse_AttestationEvidenceIssued ev), w') -> sized ev.
Lemma issued_sized w nonce st ev : issues_sized ->
  fst (run (get_attestation_evidence supervisor w nonce) st) = Ok ev -> sized ev.
Proof.
  intros Hs. unfold get_attestation_evidence. rewrite run_perform. destruct (attestation_request w nonce); [|done].
  destruct (run (supervisor _) st) as [[r|] st'] eqn:E; [|done]. destruct r; try done. cbn. intros [= <-].
  by eapply Hs.
Qed.
Lemma legacy_total ev p : public_of_evidence ev = Ok p -> exists l, legacy_evidence_to_pb ev = Ok l.
Proof.
  unfold legacy_evidence_to_pb. intros ->. cbn. destruct (legacy_proof (pe_proof p)), (legacy_provider (pe_provider p)); eauto.
Qed.
Lemma evidence_agrees ev : sized ev ->
  match (public ← map_err (fun e => CoreError_Supervisor SupervisorErrorKind_Internal
                            ("encode public attestation evidence: " +:+ PublicAttestationError_to_string e))
                   (public_of_evidence ev);
         Ok (Body_evidence public)),
        (public_evidence ← evidence_to_pb ev;
         legacy ← legacy_evidence_to_pb ev;
         Ok {| pbar_evidence := legacy; pbar_public_evidence := Some public_evidence |}) with
  | Ok b, Ok m => agrees b (Reply_attestation m)
  | Err e, Err st => st = core_error_to_status e
  | _, _ => False
  end.
Proof.
  intros Hs. unfold evidence_to_pb. destruct (public_of_evidence ev) as [p|] eqn:E; [|done]. cbn.
  destruct (legacy_total _ _ E) as [l ->]. apply public_evidence_inverse in E; [|done].
  unfold pb_of_public. rewrite E. cbn. constructor. unfold pb_of_public. by rewrite E.
Qed.

(** C8: The two front doors of the API cannot drift apart: a REST request and the gRPC call with the same
    fields leave the supervisor and everything behind it in the same state, and are answered alike.
    Either both succeed with the same content, field by field (events under the same type names,
    file content and nonces base64-encoded over REST, evidence in the envelope that converts to the
    message), or both fail with the same class of error, the HTTP status being the image of the
    gRPC code, and the same message. *)
Theorem front_doors_agree c g w :
  issues_sized -> grpc_of_rest c = Some g ->
  let rest := run (router supervisor api_version elapsed_ms b64_error c) w in
  let grpc := run (runtime_service supervisor api_version elapsed_ms value_to_string g) w in
  snd rest = snd grpc /\ answers_agree (fst rest) (fst grpc).
Proof.
  intros Hs Hg rest grpc. subst rest grpc.
  destruct c; cbn [grpc_of_rest] in Hg; try (injection Hg as <-; apply doors_agree; [by auto|intros a _; by constructor]).
  - injection Hg as <-. cbn [router runtime_service]. unfold rest_create_workspace, grpc_create_workspace.
    rewrite create_inputs_agree. apply doors_agree; [by auto|intros a _; by constructor].
  - cbn [router]. unfold rest_write_file. destruct (b64_decode _) as [content|]; [|done]. injection Hg as <-.
    apply doors_agree; [by auto|intros a _; by constructor].
  - cbn [router]. unfold rest_fork_workspace. destruct (fb_hostname body) as [h|]; cbn in Hg.
    + destruct (String.eqb h "") eqn:E; [done|]. injection Hg as <-. cbn [runtime_service]. unfold grpc_fork_workspace.
      cbn [pbk_hostname]. rewrite E. apply doors_agree; [by auto|intros a _; by constructor].
    + injection Hg as <-. apply doors_agree; [by auto|intros a _; by constructor].
  - injection Hg as <-. apply doors_agree; [by auto|intros es _]. constructor.
    apply Forall2_fmap_r, Forall_Forall2_diag, Forall_true. intros e. unfold event_agrees. cbn.
    by rewrite event_type_text.
  - unfold to_u16 in Hg. destruct (port <=? U16_MAX) eqn:E; [|done]. injection Hg as <-. cbn [router runtime_service].
    unfold rest_expose_port, grpc_expose_port, to_u16. cbn [pbep_port pbe_port pbe_inject_headers pbep_workspace_id].
    rewrite E, <- list_fmap_compose. apply doors_agree; [by auto|intros [] _; by constructor].
  - unfold to_u16 in Hg. destruct (port <=? U16_MAX) eqn:E; [|done]. injection Hg as <-. cbn [router runtime_service].
    unfold rest_unexpose_port, grpc_unexpose_port, to_u16. cbn [pbup_port pbup_workspace_id].
    rewrite E. apply doors_agree; [by auto|intros [] _; by constructor].
  - cbn [router]. unfold rest_get_attestation. destruct (b64_decode nonce) as [n|]; [|done]. injection Hg as <-.
    apply doors_agree; [by auto|]. intros ev Hev. apply evidence_agrees. by eapply issued_sized.
Qed.
End Doors.

(** ** What is sent *)

Definition u32 (v : Z) : Prop := 0 <= v <= U32_MAX.
Definition u64 (v : Z) : Prop := 0 <= v <= U64_MAX.
(** The widths of the decoded fields of a call. *)
Definition rest_typed (c : RestCall) : Prop :=
  match c with
  | Rest_create_workspace b =>
      u32 (cb_vcpu_count b) /\ u32 (cb_mem_size_mib b) /\ u32 (cb_guest_vsock_cid b)
      /\ match cb_network b with Some n => Forall (fun p => u32 (eb_port p)) (nb_exposed_ports n) | None => True end
  | Rest_destroy_workspace _ grace => u32 grace
  | Rest_execute_command _ b => u32 (xb_timeout_ms b) /\ u32 (xb_guest_port b)
  | Rest_write_file _ b => u32 (wb_guest_port b)
  | Rest_read_file _ q => u64 (rq_max_bytes q) /\ u32 (rq_guest_port q)
  | Rest_list_events q => u64 (lq_since_chain_index q) /\ u32 (lq_limit q)
  | Rest_expose_port _ port _ | Rest_unexpose_port _ port => 0 <= port <= U16_MAX
  | _ => True
  end.
Definition grpc_typed (c : GrpcCall) : Prop :=
  match c with
  | Grpc_create_workspace r =>
      u32 (pbw_vcpu_count r) /\ u32 (pbw_mem_size_mib r) /\ u32 (pbw_guest_vsock_cid r)
      /\ match pbw_network r with Some n => Forall (fun p => u32 (pbe_port p)) (pbn_exposed_ports n) | None => True end
  | Grpc_destroy_workspace r => u32 (pbd_grace_period_ms r)
  | Grpc_execute_command r => u32 (pbx_timeout_ms r) /\ u32 (pbx_guest_port r)
  | Grpc_write_file r => u32 (pbf_guest_port r)
  | Grpc_read_file r => u64 (pbr_max_bytes r) /\ u32 (pbr_guest_port r)
  | Grpc_list_events r => u64 (pbl_since_chain_index r) /\ u32 (pbl_limit r)
  | Grpc_expose_port r => match pbep_port r with Some p => u32 (pbe_port p) | None => True end
  | Grpc_unexpose_port r => u32 (pbup_port r)
  | _ => True
  end.
Definition tcp_port (p : Z) : Prop := 1 <= p <= U16_MAX.
Definition guest_port (p : Z) : Prop := 1 <= p <= U32_MAX.
(** A request within the types and the limits of the supervisor's protocol. *)
Definition sendable (q : SupervisorRequest) : Prop :=
  match q with
  | SupervisorRequest_CreateWorkspace r =>
      0 <= cw_vcpu_count r <= U8_MAX /\ u32 (cw_mem_size_mib r) /\ u32 (cw_guest_vsock_cid r)
      /\ match cw_network r with Some n => Forall (fun p => tcp_port (ep_port p)) (nc_exposed_ports n) | None => True end
  | SupervisorRequest_Terminate r => u32 (tr_grace_period_ms r)
  | SupervisorRequest_RunCommand r => guest_port (rr_guest_port r) /\ u32 (rr_timeout_ms r)
  | SupervisorRequest_WriteFile r => guest_port (wr_guest_port r) /\ blen (wr_content r) <= MAX_INLINE_FILE_BYTES
  | SupervisorRequest_ReadFile r => guest_port (rd_guest_port r) /\ 0 <= rd_max_bytes r <= MAX_INLINE_FILE_BYTES
  | SupervisorRequest_ListEvents r => u64 (since_chain_index r) /\ u32 (limit r)
  | SupervisorRequest_ExposePort r => tcp_port (ep_port (xp_port r))
  | SupervisorRequest_UnexposePort r => tcp_port (up_port r)
  | SupervisorRequest_GetAttestationEvidence r => 16 <= blen (ga_nonce r) <= 64
  | _ => True
  end.

Section Sent.
Context {C : Crypto} {W : Type}.
Context (sup sup' : SupervisorRequest -> Prog W (result SupervisorClientError SupervisorResponse)).
Hypothesis Hsup : forall q, sendable q -> sup q = sup' q.

Lemma perform_sent {A} op (unpack : SupervisorResponse -> option A) req :
  (forall q, req = Ok q -> sendable q) -> perform sup op unpack req = perform sup' op unpack req.
Proof. intros H. destruct req as [q|]; [|done]. cbn. unfold call. by rewrite Hsup by by apply H. Qed.
Lemma answer_sent {A B} op (unpack : SupervisorResponse -> option A) req (f : A -> result Status B) :
  (forall q, req = Ok q -> sendable q) -> answer (perform sup op unpack req) f = answer (perform sup' op unpack req) f.
Proof. intros H. by rewrite perform_sent. Qed.
Lemma respond_sent {A} status op (unpack : SupervisorResponse -> option A) req f :
  (forall q, req = Ok q -> sendable q) ->
  respond status (perform sup op unpack req) f = respond status (perform sup' op unpack req) f.
Proof. intros H. by rewrite perform_sent. Qed.
Lemma guest_port_sent p : u32 p -> guest_port (guest_port_or_default p).
Proof. unfold guest_port_or_default, guest_port, u32. destruct (Z.eqb_spec p 0); [done|lia]. Qed.
Lemma create_sent i q :
  u32 (ci_vcpu_count i) -> u32 (ci_mem_size_mib i) -> u32 (ci_guest_vsock_cid i) ->
  match ci_network i with Some n => Forall (fun p => tcp_port (ep_port p)) (in_exposed_ports n) | None => True end ->
  create_request i = Ok q -> sendable q.
Proof.
  intros Hv Hm Hc Hn. unfold create_request. destruct (Z.ltb_spec U8_MAX (ci_vcpu_count i)); [done|]. intros [= <-]. cbn.
  unfold u32 in Hv. split_and!; [lia..|done|done|]. by destruct (ci_network i).
Qed.
Lemma valid_ports l : Forall (fun p => u32 (pbe_port p)) l -> Forall (fun p => tcp_port (ep_port p)) (omap valid_port l).
Proof.
  induction 1 as [|p l Hp _ IH]; [done|]. cbn. unfold valid_port at 1, to_u16. unfold u32 in Hp.
  destruct (Z.leb_spec (pbe_port p) U16_MAX); [|done]. cbn. destruct (Z.eqb_spec (pbe_port p) 0); [done|].
  constructor; [|done]. unfold tcp_port. cbn. lia.
Qed.
Lemma write_sent i q : u32 (wi_guest_port i) -> write_request i = Ok q -> sendable q.
Proof.
  intros Hp. unfold write_request. destruct (Z.ltb_spec MAX_INLINE_FILE_BYTES (blen (wi_content i))); [done|].
  intros [= <-]. split; [by apply guest_port_sent|]. cbn. lia.
Qed.
Lemma read_sent i : u64 (ri_max_bytes i) -> u32 (ri_guest_port i) -> sendable (read_request i).
Proof.
  intros Hm Hp. split; [by apply guest_port_sent|]. cbn. unfold u64 in Hm. unfold MAX_INLINE_FILE_BYTES.
  destruct (Z.eqb_spec (ri_max_bytes i) 0); lia.
Qed.
Lemma expose_sent i q : 0 <= xi_port i <= U16_MAX -> expose_request i = Ok q -> sendable q.
Proof.
  intros Hp. unfold expose_request. destruct (Z.eqb_spec (xi_port i) 0); [done|]. intros [= <-]. unfold sendable, tcp_port.
  cbn. lia.
Qed.
Lemma unexpose_sent w p q : 0 <= p <= U16_MAX -> unexpose_request w p = Ok q -> sendable q.
Proof.
  intros Hp. unfold unexpose_request. destruct (Z.eqb_spec p 0); [done|]. intros [= <-]. unfold sendable, tcp_port. cbn. lia.
Qed.
Lemma attestation_sent w n q : attestation_request w n = Ok q -> sendable q.
Proof.
  unfold attestation_request. destruct (_ && _) eqn:E; [|done]. cbn. intros [= <-]. cbn.
  apply andb_true_iff in E as [?%Z.leb_le ?%Z.leb_le]. lia.
Qed.
Ltac sent := first [intros ? [= <-]; first [done|by apply read_sent|cbn; by auto using guest_port_sent]
                   |intros ?; first [by apply write_sent|by apply expose_sent|by apply unexpose_sent|by apply attestation_sent]].
Lemma grpc_sent api_version elapsed_ms value_to_string c : grpc_typed c ->
  runtime_service sup api_version elapsed_ms value_to_string c
  = runtime_service sup' api_version elapsed_ms value_to_string c.
Proof.
  intros Hc. destruct c; cbn [runtime_service grpc_typed] in *; f_equal;
    try (apply answer_sent; solve [sent|destruct Hc; sent]).
  - unfold grpc_create_workspace. f_equal. apply perform_sent. intros q. destruct Hc as (Hv & Hm & Hc & Hn).
    apply create_sent; [done..|]. cbn. destruct (pbw_network r); [|done]. by apply valid_ports.
  - unfold grpc_expose_port. destruct (pbep_port r) as [p|]; [|done]. unfold to_u16. unfold u32 in Hc.
    destruct (Z.leb_spec (pbe_port p) U16_MAX); [|done]. f_equal. apply perform_sent. intros q. apply expose_sent. cbn. lia.
  - unfold grpc_unexpose_port, to_u16. unfold u32 in Hc. destruct (Z.leb_spec (pbup_port r) U16_MAX); [|done]. f_equal.
    apply perform_sent. intros q. apply unexpose_sent. lia.
Qed.
Lemma rest_sent api_version elapsed_ms b64_error c : rest_typed c ->
  router sup api_version elapsed_ms b64_error c = router sup' api_version elapsed_ms b64_error c.
Proof.
  intros Hc. destruct c; cbn [router rest_typed] in *;
    try (apply respond_sent; solve [sent|destruct Hc; sent]).
  - unfold rest_create_workspace. rewrite <- create_inputs_agree. f_equal. apply perform_sent. intros q.
    destruct Hc as (Hv & Hm & Hc & Hn). apply create_sent; [done..|]. cbn. rewrite <- option_fmap_compose.
    destruct (cb_network body) as [n|]; [|done]. apply valid_ports, Forall_fmap. by eapply Forall_impl.
  - unfold rest_write_file. destruct (b64_decode _); [|done]. f_equal. apply perform_sent. sent.
  - unfold rest_get_attestation. destruct (b64_decode _); [|done]. f_equal. apply perform_sent. sent.
Qed.
End Sent.

(** C24: The API sends only well-typed requests: whatever a client asks for with fields of their declared
    widths, through either door, what reaches the supervisor is within the protocol: a vCPU count of
    one byte, ports in 1..=65535, a guest port that is not zero, file contents and read limits of at
    most 10 MiB, a nonce of 16 to 64 bytes.  Two supervisors that treat those requests alike are
    not told apart by any client. *)
Theorem only_sendable_requests {C : Crypto} {W} (sup sup' : SupervisorRequest -> Prog W (result SupervisorClientError SupervisorResponse))
    api_version elapsed_ms value_to_string b64_error :
  (forall q, sendable q -> sup q = sup' q) ->
  (forall c, rest_typed c ->
     router sup api_version elapsed_ms b64_error c = router sup' api_version elapsed_ms b64_error c)
  /\ (forall c, grpc_typed c ->
        runtime_service sup api_version elapsed_ms value_to_string c
        = runtime_service sup' api_version elapsed_ms value_to_string c).
Proof. intros Hs. split; intros c Hc; [by apply rest_sent|by apply grpc_sent]. Qed.

(** ** Who is let in *)

Lemma authorized_iff `{Crypto} store h :
  authorized store h = true <-> exists header t, h = Some header /\ bearer_from_str header = Some t /\ is_Some (verify store t).
Proof.
  unfold authorized. destruct h as [header|]; cbn; [|split; [done|by intros (? & ? & [=] & _)]].
  destruct (bearer_from_str header) as [t|] eqn:E; cbn.
  - rewrite bool_decide_eq_true. split; [eauto|]. intros (? & t' & [= <-] & Ht & Hv). rewrite E in Ht. by injection Ht as <-.
  - split; [done|]. intros (? & t' & [= <-] & Ht & Hv). by rewrite E in Ht.
Qed.
Definition exposed (c : ApiConfig) : Prop :=
  is_loopback (sa_ip (grpc_bind c)) = false \/ is_loopback (sa_ip (rest_bind c)) = false.
(** Closed: a request without a known key is refused before it reaches the supervisor, and one with a
    known key is handled as without the check. *)
Definition closed {C : Crypto} {W} (sup : SupervisorRequest -> Prog W (result SupervisorClientError SupervisorResponse))
    (api_version : string) (elapsed_ms : Z) (value_to_string : Value -> string) (b64_error : string -> string) (cfg : ApiConfig) : Prop :=
  forall h w,
    let known := exists header t, h = Some header /\ bearer_from_str header = Some t /\ is_Some (verify (api_keys cfg) t) in
    (forall c, let served := serve_rest sup api_version elapsed_ms b64_error (auth_of cfg) h c in
       (known -> served = router sup api_version elapsed_ms b64_error c)
       /\ (~ known -> exists body, run served w = ({| http_status := UNAUTHORIZED; http_body := Body_error body |}, w)))
    /\ (forall c, let served := serve_grpc sup api_version elapsed_ms value_to_string (auth_of cfg) h c in
          (known -> served = runtime_service sup api_version elapsed_ms value_to_string c)
          /\ (~ known -> exists m, run served w = (Err {| st_code := Code_Unauthenticated; st_message := m |}, w))).
(** C23: A daemon that starts with a listener on an address that is not loopback holds at least one key,
    serves under TLS, and is closed: a request that carries no known key is answered with 401, or the
    status for unauthenticated, and never reaches the supervisor, whatever it asks; one that carries a
    known key is handled as without the check. The one exception is a daemon in development mode
    whose operator also set the override for public binds: it checks no key at all. *)
Theorem exposed_daemon_is_closed {C : Crypto} {W} (sup : SupervisorRequest -> Prog W (result SupervisorClientError SupervisorResponse))
    api_version elapsed_ms value_to_string b64_error show allow_public cfg :
  guard show allow_public cfg = Ok tt -> exposed cfg ->
  (dev_mode cfg = true /\ allow_public = true /\ auth_of cfg = None)
  \/ (digests (api_keys cfg) <> ∅ /\ is_Some (api_tls cfg)
      /\ closed sup api_version elapsed_ms value_to_string b64_error cfg).
Proof.
  intros Hg He. unfold guard in Hg. destruct (dev_mode cfg) eqn:Hd.
  { left. split; [done|]. split; [|unfold auth_of; by rewrite Hd].
    destruct allow_public; [done|]. destruct He as [He|He]; rewrite He in Hg; cbn in Hg; [done|].
    by destruct (is_loopback (sa_ip (grpc_bind cfg))). }
  right. case_bool_decide as Hk; [done|]. split; [done|]. split.
  { destruct (api_tls cfg); [done|]. destruct He as [He|He]; rewrite He, ?andb_false_r in Hg; done. }
  intros h w known. unfold auth_of. rewrite Hd. unfold known. setoid_rewrite <- authorized_iff.
  split; intros c; cbn [serve_rest serve_grpc]; unfold authed_router, api_key_guard, auth_interceptor;
    (destruct (authorized (api_keys cfg) h); split; [done|by intros []|done|]); intros _; by eexists.
Qed.

(** ** A concrete daemon *)

Module ApiDemo.
#[local] Existing Instance toy_crypto.
(** A supervisor that keeps files. *)
Definition store : Type := list (string * list Z).
Definition files (q : SupervisorRequest) : Prog store (result SupervisorClientError SupervisorResponse) :=
  act (fun s =>
    match q with
    | SupervisorRequest_WriteFile r =>
        (Ok (SupervisorResponse_FileWritten
           {| fw_workspace_id := wr_workspace_id r; fw_bytes_written := blen (wr_content r); fw_absolute_path := wr_path r |}),
         (wr_path r, wr_content r) :: s)
    | SupervisorRequest_Ping => (Ok (SupervisorResponse_Pong "0.1.0" 7), s)
    | _ => (Err (SupervisorClientError_Io "closed"), s)
    end).
Lemma files_issue_nothing : issues_sized files.
Proof. intros q w ev w'. cbn. by destruct q. Qed.
Definition put : RestCall :=
  Rest_write_file "w1" {| wb_path := "a"; wb_content := b64_encode [1; 2]; wb_guest_port := 0 |}.
Lemma front_doors_agree_witness :
  let rest := run (router files "0.1.0" 5 (fun _ => "") put) [] in
  let grpc := run (runtime_service files "0.1.0" 5 (fun _ => "") (Grpc_write_file
    {| pbf_workspace_id := "w1"; pbf_path := "a"; pbf_content := [1; 2]; pbf_guest_port := 0 |})) [] in
  snd rest = snd grpc /\ answers_agree (fun _ => "") (fst rest) (fst grpc) /\ snd rest = [("a", [1; 2])].
Proof.
  cbn zeta. destruct (front_doors_agree (C := toy_crypto) files "0.1.0" 5 (fun _ => "") (fun _ => "") put (Grpc_write_file
    {| pbf_workspace_id := "w1"; pbf_path := "a"; pbf_content := [1; 2]; pbf_guest_port := 0 |}) []
    files_issue_nothing ltac:(vm_compute; reflexivity)) as [H1 H2].
  split; [exact H1|]. split; [exact H2|]. vm_compute. reflexivity.
Defined.

(** One that treats a port of zero in its own way. *)
Definition odd_files (q : SupervisorRequest) : Prog store (result SupervisorClientError SupervisorResponse) :=
  match q with
  | SupervisorRequest_UnexposePort r => if up_port r =? 0 then Ret (Ok (SupervisorResponse_PortUnexposed "" 0)) else files q
  | _ => files q
  end.
Lemma only_sendable_requests_witness :
  router files "0.1.0" 5 (fun _ => "") (Rest_unexpose_port "w1" 0)
  = router odd_files "0.1.0" 5 (fun _ => "") (Rest_unexpose_port "w1" 0).
Proof.
  apply (proj1 (only_sendable_requests (C := toy_crypto) files odd_files "0.1.0" 5 (fun _ => "") (fun _ => "")
    ltac:(intros [] H; try reflexivity; cbn in *; unfold tcp_port in H; by rewrite (proj2 (Z.eqb_neq _ 0)) by lia))).
  cbn. unfold U16_MAX. lia.
Defined.

Definition everywhere (port : Z) : SocketAddr := {| sa_ip := IpAddr_V4 0 0 0 0; sa_port := port |}.
Definition config : ApiConfig :=
  {| grpc_bind := everywhere 7300; rest_bind := everywhere 7301; supervisor_socket := ["run"; "supervisor.sock"];
     dev_mode := false; api_keys := insert_key (sha256 (bytes_of "nee_key"), "ci") empty_store; api_tls := Some ([1], [2]) |}.
Lemma exposed_daemon_is_closed_witness :
  (exists body, run (serve_rest files "0.1.0" 5 (fun _ => "") (auth_of config) (Some "Bearer guess") put) []
     = ({| http_status := 401; http_body := Body_error body |}, []))
  /\ serve_rest files "0.1.0" 5 (fun _ => "") (auth_of config) (Some "Bearer nee_key") put
     = router files "0.1.0" 5 (fun _ => "") put.
Proof.
  destruct (exposed_daemon_is_closed (C := toy_crypto) files "0.1.0" 5 (fun _ => "") (fun _ => "") (fun _ => "") false config
    ltac:(vm_compute; reflexivity) ltac:(left; reflexivity)) as [(Hd & _)|(_ & _ & H)]; [discriminate Hd|]. split.
  - apply (proj2 (proj1 (H (Some "Bearer guess") []) put)). intros Hk. apply authorized_iff in Hk. vm_compute in Hk. discriminate.
  - apply (proj1 (proj1 (H (Some "Bearer nee_key") []) put)). apply authorized_iff. vm_compute. reflexivity.
Defined.
End ApiDemo.
