(* ===== verification/Deployment.v ===== *)
(** * The whole stack: API daemon, supervisor and guest

    The API's supervisor client connected to the supervisor's socket, behind
    which the dispatcher drives the manager and the guests.  A call over the
    socket is the dispatcher's answer; so what holds of the manager holds for a
    client of the API.  The theorems follow requests through every layer: a file
    put over REST is the file got over REST, a fork has the identity the client
    is told, and evidence answers the client's challenge once. *)

From S2P Require Import Prelude Text Profile Fleet Capacity Ownership Lifecycle Json Crypto AuditChain.
From S2P Require Import Snapshot Ingress Network Bytes GuestFiles Wire GuestAgent Attestation Image.
From S2P Require Import Firecracker Pool Protocol PublicEvidence Prog Manager Command.
From S2P Require Import ApiAuth ApiCore ApiGrpc ApiRest Api.

Section Stack.
Context {H : Hypervisor} {C : Crypto} {CL : CryptoLaws C} {V : JsonVec unit} {VJ : JsonVec Value} {MJ : ManifestJson}
  {AJ : AuditJson Value}.
Context {K : Codec GuestRequest GuestResponse} {KL : CodecLaws GuestRequest GuestResponse K}.
Context {SC : Codec SupervisorRequest SupervisorResponse} {SL : CodecLaws SupervisorRequest SupervisorResponse SC}.
Context (cfg : WorkspaceManagerConfig) (max_workspace_mem_mib : Z) (confidential_cvm : bool).
Context (audit_key : SigningKey) (generate : EvidenceRequest -> Z -> result AttestationError Evidence).
Context (t : Texts) (version : string) (stamps : AuditRun).
(** The API daemon: its version and uptime, and the texts of IO, JSON and base64 errors. *)
Context (api_version : string) (elapsed_ms : Z) (io_text serde_text : string) (b64_error : string -> string).

Definition dispatched (io : DispatchIo) (q : SupervisorRequest) : World -> SupervisorResponse * World :=
  run (dispatch cfg max_workspace_mem_mib confidential_cvm audit_key generate t version stamps io q).
(** The supervisor's end of a connection ([ipc.rs]). *)
Definition supervisor_peer (auth : PeerAuth) (uid : Z) (io : DispatchIo) (w : World) (input : list Z) : list Z * World :=
  let '(_, w', out) :=
    ipc_handle_connection (dispatched io) (error SupervisorErrorKind_InvalidRequest)
      (error SupervisorErrorKind_Unauthorized) auth uid writes_pass w input in
  (out, w').
(** [SupervisorClient::call] of the API daemon, on one new connection. *)
Definition client_error (e : CallError) : SupervisorClientError :=
  match e with CallError_Io => SupervisorClientError_Io io_text | CallError_Serde => SupervisorClientError_Serde serde_text end.
Definition connect (auth : PeerAuth) (uid : Z) (io : DispatchIo) (q : SupervisorRequest)
    : Prog World (result SupervisorClientError SupervisorResponse) :=
  act (fun w =>
    let '(r, w') := supervisor_call (supervisor_peer auth uid io) true q w in (map_err client_error r, w')).

(** The API daemon runs as the user the supervisor expects. *)
Definition accepted (auth : PeerAuth) (uid : Z) : Prop :=
  match auth with PeerAuth_RequireUid expected => uid = expected | PeerAuth_DevDisabled => True end.
Definition line_fits (q : SupervisorRequest) : Prop := forall b, encode_req q = Some b -> blen b + 1 <= MAX_IPC_FRAME_BYTES.
Lemma connection_serves auth uid io : accepted auth uid ->
  supervisor_peer auth uid io = served (dispatched io) (error SupervisorErrorKind_InvalidRequest) MAX_IPC_FRAME_BYTES.
Proof.
  intros Ha. unfold supervisor_peer, served, ipc_handle_connection. destruct auth; [|done]. cbn in Ha. subst. by rewrite Z.eqb_refl.
Qed.
Lemma run_connect auth uid io q w : accepted auth uid -> line_fits q ->
  run (connect auth uid io q) w = (Ok (fst (dispatched io q w)), snd (dispatched io q w)).
Proof.
  intros Ha Hq. unfold connect, act. cbn [run]. rewrite connection_serves by done. by rewrite supervisor_call_dispatches.
Qed.

Lemma refusal_is_error q r : refusal cfg q = Some r -> exists k m, r = error k m.
Proof.
  unfold refusal. destruct (workspace_operation q); [|done]. cbn. destruct (supports _ _); [done|]. intros [= <-]. eauto.
Qed.

(** ** Capabilities *)

Definition rest (auth : PeerAuth) (uid : Z) (io : DispatchIo) (c : RestCall) : World -> HttpResponse * World :=
  run (router (connect auth uid io) api_version elapsed_ms b64_error c).
Lemma run_respond {A} status op (unpack : SupervisorResponse -> option A) q f auth uid io w :
  accepted auth uid -> line_fits q ->
  run (respond status (perform (connect auth uid io) op unpack (Ok q)) f) w
  = (match (resp ← classify (Ok (fst (dispatched io q w))); a ← ok_or (unpack resp) (unexpected op); f a) with
     | Ok b => {| http_status := status; http_body := b |}
     | Err e => error_response e
     end, snd (dispatched io q w)).
Proof.
  intros Ha Hq. unfold respond. rewrite run_bind, run_perform, run_connect by done. cbn [run].
  by destruct (classify _).
Qed.
Lemma advertised_iff op v n : op ∈ info_supported_operations (capabilities (cf_execution_profile cfg) v n)
  <-> supports (cf_execution_profile cfg) op = true.
Proof. rewrite list_elem_of_In. apply filtered_operations_spec. Qed.

(** C26: What the runtime advertises is what it does: the capabilities a client reads over the API are
    exactly the gate of the dispatcher.  A request for an operation that is not listed is refused
    with the kind for an unsupported profile and changes nothing; a request for a listed operation
    goes to its handler. *)
Theorem capabilities_are_enforced auth uid io w :
  accepted auth uid -> line_fits SupervisorRequest_GetCapabilities ->
  exists c, rest auth uid io Rest_runtime_capabilities w = ({| http_status := OK; http_body := Body_capabilities c |}, w)
    /\ forall q op, workspace_operation q = Some op ->
         (op ∉ info_supported_operations c ->
            exists m, dispatched io q w = (error SupervisorErrorKind_UnsupportedForProfile m, w))
         /\ (op ∈ info_supported_operations c ->
              dispatched io q w
              = run (handle cfg max_workspace_mem_mib confidential_cvm audit_key generate t version stamps io q) w).
Proof.
  intros Ha Hl. eexists. split.
  - unfold rest. cbn [router]. unfold rest_runtime_capabilities, runtime_capabilities. rewrite run_respond by done. reflexivity.
  - intros q op Hop. rewrite advertised_iff. unfold dispatched, dispatch, refusal. rewrite Hop. cbn [mbind option_bind].
    destruct (supports _ op); split; [done|done| |done]. intros _. by eexists.
Qed.

(** The standard profile lists pause and resume, which no request can have. *)
Lemma pause_is_listed_but_unsupported io r w :
  cf_execution_profile cfg = ExecutionProfile_Standard ->
  WorkspaceOperation_Pause ∈ info_supported_operations (capabilities (cf_execution_profile cfg) version PUBLIC_EVIDENCE_SCHEMA_VERSION)
  /\ exists k m, fst (dispatched io (SupervisorRequest_PauseWorkspace r) w) = error k m.
Proof.
  intros Hp. split; [apply advertised_iff; by rewrite Hp|]. unfold dispatched, dispatch.
  destruct (refusal _ _) eqn:Er; [by apply refusal_is_error in Er|]. cbn [handle]. unfold pause, run_tracked_lifecycle.
  rewrite run_bind. destruct (run (begin_task false) w) as [[[]|[]] w']; cbn; eauto.
Qed.

(** ** Files *)

(** A workspace whose machine runs, with the agent [g] inside. *)
Definition running (w : World) (ws : string) (chroot : path) (vm : Vm) (g : Guest) : Prop :=
  exists instance guard, w_instances w !! ws = Some (WorkspaceExec_Firecracker instance guard)
  /\ parent_of (i_vsock_host_socket instance) = chroot
  /\ h_vms (w_host w) !! chroot = Some vm /\ vm_guest vm = Some g /\ vm_paused vm = false.
Definition put_guest (chroot : path) (vm : Vm) (g : Guest) (w : World) : World :=
  set_host (set_vms (<[chroot := set_guest g vm]> (h_vms (w_host w))) (w_host w)) w.
Lemma running_put w ws chroot vm g g' :
  running w ws chroot vm g -> running (put_guest chroot vm g' w) ws chroot (set_guest g' vm) g'.
Proof.
  intros (i & guard & Hi & Hc & Hv & Hg & Hp). exists i, guard. split_and!; [done|done| |done|done]. cbn.
  by rewrite lookup_insert_eq.
Qed.
Lemma running_audit w ws chroot vm g a : running (set_audit a w) ws chroot vm g <-> running w ws chroot vm g.
Proof. done. Qed.
Lemma run_guest_call env c q timeout w ws chroot vm g i guard :
  w_instances w !! ws = Some (WorkspaceExec_Firecracker i guard) -> parent_of (i_vsock_host_socket i) = chroot ->
  h_vms (w_host w) !! chroot = Some vm -> vm_guest vm = Some g -> vm_paused vm = false ->
  usable c -> call_fits env c q g ->
  run (drive (guest_call env c q timeout (i_vsock_host_socket i))) w
  = (Ok (fst (guest_dispatch env q g)), put_guest chroot vm (snd (guest_dispatch env q g)) w).
Proof.
  intros Hi Hc Hv Hg Hp Hu Hf. unfold drive. rewrite run_zoom by (done || by intros []). unfold guest_call, act. cbn [run].
  rewrite Hc, Hv. cbn [mbind option_bind]. rewrite Hg. cbn [mbind option_bind]. rewrite Hp.
  by rewrite (guest_rpc_dispatches env c q timeout g Hu Hf).
Qed.
Lemma run_file_call op io ws q p w chroot vm g :
  running w ws chroot vm g -> usable (ca_call io) -> call_fits (ca_env io) (ca_call io) q g ->
  let '(resp, g') := guest_dispatch (ca_env io) q g in
  match resp with
  | GuestResponse_Error _ _ => exists k m w', run (file_call t op io ws q p) w = (Err (error k m), w')
  | _ => run (file_call t op io ws q p) w = (Ok resp, put_guest chroot vm g' w)
  end.
Proof.
  intros (i & guard & Hi & Hc & Hv & Hg & Hp) Hu Hf.
  assert (run (file_call t op io ws q p) w =
    run match fst (guest_dispatch (ca_env io) q g) with
        | GuestResponse_Error kind message =>
            file_failed op ws p (guest_kind_name kind) message (timeout_origin kind) ;;;
            Ret (Err (error (guest_kind_to_supervisor_kind kind) message))
        | resp => Ret (Ok resp)
        end (put_guest chroot vm (snd (guest_dispatch (ca_env io) q g)) w)) as ->.
  { unfold file_call, try_bind. rewrite run_bind. cbn [run workspace_control reads act]. rewrite Hi.
    unfold file_over_control. rewrite !run_bind, (run_guest_call _ _ _ _ _ _ _ _ _ _ _ Hi Hc Hv Hg Hp Hu Hf). cbn [run map_err].
    by destruct (fst (guest_dispatch (ca_env io) q g)). }
  destruct (guest_dispatch (ca_env io) q g) as [[] g']; try done. cbn [fst snd].
  do 2 eexists. eexists. reflexivity.
Qed.
Lemma write_dispatched io ws port path content w chroot vm g w' x :
  running w ws chroot vm g -> usable (ca_call (d_call io)) ->
  call_fits (ca_env (d_call io)) (ca_call (d_call io)) (GuestRequest_WriteFile {| wf_path := path; wf_content := content |}) g ->
  dispatched io (SupervisorRequest_WriteFile
    {| wr_workspace_id := ws; wr_guest_port := port; wr_path := path; wr_content := content |}) w
  = (SupervisorResponse_FileWritten x, w') ->
  exists written g',
    GuestAgent.write_file (ca_env (d_call io)) {| wf_path := path; wf_content := content |} g
      = (GuestResponse_FileWritten written, g')
    /\ running w' ws chroot (set_guest g' vm) g'.
Proof.
  intros Hr Hu Hf. unfold dispatched, dispatch. destruct (refusal _ _) eqn:Er; [by intros [= -> _]; apply refusal_is_error in Er as (? & ? & ?)|].
  cbn [handle]. unfold Manager.write_file. cbn [wr_workspace_id wr_path wr_content]. destruct (_ <? _); [done|].
  unfold or_return. rewrite run_bind. pose proof (run_file_call "write_file" (d_call io) ws _ path w chroot vm g Hr Hu Hf) as Hc.
  cbn [guest_dispatch] in Hc. destruct (GuestAgent.write_file _ _ g) as [resp g'].
  destruct resp; try (rewrite Hc; done).
  - rewrite Hc. intros [= <- <-]. exists w0, g'. split; [done|]. exact (running_put w ws chroot vm g g' Hr).
  - destruct Hc as (k & m & w1 & ->). done.
Qed.
Lemma read_dispatched io ws port path max_bytes w chroot vm g read :
  running w ws chroot vm g -> usable (ca_call (d_call io)) ->
  call_fits (ca_env (d_call io)) (ca_call (d_call io)) (GuestRequest_ReadFile {| rf_path := path; rf_max_bytes := max_bytes |}) g ->
  supports (cf_execution_profile cfg) WorkspaceOperation_ReadFile = true ->
  GuestAgent.read_file (ca_env (d_call io)) {| rf_path := path; rf_max_bytes := max_bytes |} g = GuestResponse_FileRead read ->
  fst (dispatched io (SupervisorRequest_ReadFile
    {| rd_workspace_id := ws; rd_guest_port := port; rd_path := path; rd_max_bytes := max_bytes |}) w)
  = SupervisorResponse_FileRead
      {| Protocol.fr_workspace_id := ws; Protocol.fr_content := GuestAgent.fr_content read;
         Protocol.fr_size_bytes := GuestAgent.fr_size_bytes read; Protocol.fr_truncated := GuestAgent.fr_truncated read |}.
Proof.
  intros Hr Hu Hf Hs Hg. unfold dispatched, dispatch, refusal. cbn [workspace_operation mbind option_bind]. rewrite Hs.
  cbn [handle]. unfold Manager.read_file. cbn [rd_workspace_id rd_path rd_max_bytes].
  unfold or_return. rewrite run_bind. pose proof (run_file_call "read_file" (d_call io) ws _ path w chroot vm g Hr Hu Hf) as Hc.
  cbn [guest_dispatch] in Hc. rewrite Hg in Hc. rewrite Hc. done.
Qed.
Lemma written_supported io r w x w' :
  dispatched io (SupervisorRequest_WriteFile r) w = (SupervisorResponse_FileWritten x, w') ->
  supports (cf_execution_profile cfg) WorkspaceOperation_ReadFile = true.
Proof. intros _. by destruct (cf_execution_profile cfg). Qed.
Lemma error_status_not_ok e : http_status (error_response e) <> OK.
Proof. by destruct e as [m|[]|[| |[]|]]. Qed.
Lemma put_ok auth uid io ws body content w w1 h :
  accepted auth uid -> b64_decode (wb_content body) = Some content ->
  let q := {| wr_workspace_id := ws; wr_guest_port := guest_port_or_default (wb_guest_port body);
              wr_path := wb_path body; wr_content := content |} in
  line_fits (SupervisorRequest_WriteFile q) ->
  rest auth uid io (Rest_write_file ws body) w = (h, w1) -> http_status h = OK ->
  blen content <= MAX_INLINE_FILE_BYTES
  /\ exists x, dispatched io (SupervisorRequest_WriteFile q) w = (SupervisorResponse_FileWritten x, w1).
Proof.
  intros Ha Hb q Hl. unfold rest. cbn [router]. unfold rest_write_file. rewrite Hb. unfold write_file, write_request.
  cbn [wi_content wi_workspace_id wi_guest_port wi_path].
  destruct (Z.ltb_spec MAX_INLINE_FILE_BYTES (blen content)) as [|Hlen]; [by intros [= <- _]|].
  rewrite run_respond by done. fold q. destruct (dispatched io (SupervisorRequest_WriteFile q) w) as [r w'].
  cbn [fst snd]. intros [= <- <-] Hs. split; [done|].
  destruct r; first [exfalso; exact (error_status_not_ok _ Hs)|by eexists].
Qed.

(** C5: A file put over the API is the file got over the API, through every layer: once a REST write is
    answered with 200, a read of the same path that meets a working guest returns, base64-encoded,
    the bytes that were sent, up to the limit asked for (10 MiB when none is given, which no accepted
    write exceeds), with the true size and whether it was cut.  In between lie the API's validation,
    the line protocol of the supervisor's socket, the dispatcher, the guest channel and the file
    system of the guest; a link of the file's name in the guest is the only way to get something
    else. *)
Theorem put_then_get auth uid io io' ws body q content w w1 h chroot vm g :
  let put := {| wf_path := wb_path body; wf_content := content |} in
  let max_bytes := if rq_max_bytes q =? 0 then 0 else Z.min (rq_max_bytes q) MAX_INLINE_FILE_BYTES in
  let get := {| rf_path := wb_path body; rf_max_bytes := max_bytes |} in
  accepted auth uid -> running w ws chroot vm g ->
  usable (ca_call (d_call io)) -> usable (ca_call (d_call io')) -> read_fate (ca_env (d_call io')) = TaskFate_done ->
  call_fits (ca_env (d_call io)) (ca_call (d_call io)) (GuestRequest_WriteFile put) g ->
  call_fits (ca_env (d_call io')) (ca_call (d_call io')) (GuestRequest_ReadFile get)
    (snd (guest_dispatch (ca_env (d_call io)) (GuestRequest_WriteFile put) g)) ->
  (forall rel p a l, validate_relative_path (wb_path body) = Ok rel ->
     g_fs g !! p = Some (Node_symlink a l) -> last p <> last rel) ->
  b64_decode (wb_content body) = Some content -> rq_path q = wb_path body -> 0 <= rq_max_bytes q ->
  line_fits (SupervisorRequest_WriteFile
    {| wr_workspace_id := ws; wr_guest_port := guest_port_or_default (wb_guest_port body);
       wr_path := wb_path body; wr_content := content |}) ->
  line_fits (SupervisorRequest_ReadFile
    {| rd_workspace_id := ws; rd_guest_port := guest_port_or_default (rq_guest_port q); rd_path := wb_path body;
       rd_max_bytes := max_bytes |}) ->
  rest auth uid io (Rest_write_file ws body) w = (h, w1) -> http_status h = OK ->
  let cap := if rq_max_bytes q =? 0 then MAX_INLINE_FILE_BYTES else Z.min (rq_max_bytes q) MAX_INLINE_FILE_BYTES in
  blen content <= MAX_INLINE_FILE_BYTES
  /\ fst (rest auth uid io' (Rest_read_file ws q) w1)
     = {| http_status := OK; http_body := Body_read
            {| rfr_workspace_id := ws; rfr_content := b64_encode (take (Z.to_nat cap) content);
               rfr_size_bytes := blen content; rfr_truncated := cap <? blen content |} |}.
Proof.
  intros put max_bytes get Ha Hr Hu Hu' Hd Hf Hf' Hlinks Hb Hq Hm Hl Hl' Hput Hok cap.
  destruct (put_ok _ _ _ _ _ _ _ _ _ Ha Hb Hl Hput Hok) as (Hlen & x & Hx). split; [done|].
  destruct (write_dispatched _ _ _ _ _ _ _ _ _ _ _ Hr Hu Hf Hx) as (written & g' & Hw & Hr').
  assert (0 <= max_bytes) as Hmax by (unfold max_bytes; destruct (_ =? _); unfold MAX_INLINE_FILE_BYTES; lia).
  destruct (guest_write_then_read _ (ca_env (d_call io')) _ _ max_bytes _ _ _ Hd Hmax Hlinks Hw) as [_ Hg].
  cbn [guest_dispatch] in Hf'. unfold put in Hf'. rewrite Hw in Hf'. cbn [snd] in Hf'.
  pose proof (read_dispatched io' ws (guest_port_or_default (rq_guest_port q)) _ _ _ _ _ _ _ Hr' Hu' Hf'
    (written_supported _ _ _ _ _ Hx) Hg) as Hres.
  unfold rest. cbn [router]. unfold rest_read_file, read_file, read_request. cbn [ri_workspace_id ri_guest_port ri_path ri_max_bytes].
  rewrite Hq. fold max_bytes. rewrite run_respond by done. rewrite Hres. cbn [fst classify mbind result_bind ok_or].
  assert ((if max_bytes =? 0 then DEFAULT_MAX_BYTES else max_bytes) = cap) as ->; [|done].
  unfold max_bytes, cap. destruct (Z.eqb_spec (rq_max_bytes q) 0); [done|].
  destruct (Z.eqb_spec (Z.min (rq_max_bytes q) MAX_INLINE_FILE_BYTES) 0) as [E|]; [|done]. unfold MAX_INLINE_FILE_BYTES in E. lia.
Qed.

(** ** Files over the cap of the socket *)

(** A line over the cap ends the connection, and the client reads an empty line. *)
Lemma oversized_call auth uid io q b w :
  accepted auth uid -> encode_req q = Some b -> MAX_IPC_FRAME_BYTES < blen b -> decode_resp "" = None ->
  run (connect auth uid io q) w = (Err (SupervisorClientError_Serde serde_text), w).
Proof.
  intros Ha Hb Hl Hd. destruct (req_line _ _ Hb) as (_ & _ & Hn & _). unfold connect, act. cbn [run].
  unfold supervisor_call. cbn [negb]. rewrite Hb. rewrite connection_serves by done. unfold served.
  destruct (oversized_line_is_refused (dispatched io) (error SupervisorErrorKind_InvalidRequest) MAX_IPC_FRAME_BYTES
    writes_pass 0 w (b ++ [10])) as [e ->].
  - done.
  - rewrite blen_app. change (blen [10]) with 1. lia.
  - rewrite takeZ_app_lt by lia. intros Hi. apply Hn. rewrite <- (takeZ_dropZ (MAX_IPC_FRAME_BYTES + 1) b). set_solver.
  - change (from_utf8 (read_until_newline (blen [] + 1) []).1) with (Some EmptyString). cbn. unfold map_err. by rewrite Hd.
Qed.

(** C27: The file size that the API promises is out of reach: the supervisor's socket takes lines of at
    most 1 MiB, and JSON writes the contents of a file as an array of numbers, at least two
    characters each.  So a write of 512 KiB or more, which the 10 MiB cap of the API lets pass, is
    always answered with a transport error and never reaches the supervisor. *)
Theorem large_files_are_unwritable auth uid io ws body content w :
  accepted auth uid -> b64_decode (wb_content body) = Some content ->
  (forall r b, encode_req (SupervisorRequest_WriteFile r) = Some b -> 2 * blen (wr_content r) < blen b) ->
  decode_resp "" = None ->
  512 * 1024 <= blen content <= MAX_INLINE_FILE_BYTES ->
  exists e, rest auth uid io (Rest_write_file ws body) w = (error_response (CoreError_Transport e), w).
Proof.
  intros Ha Hb Hsize Hd Hlen. unfold rest. cbn [router]. unfold rest_write_file. rewrite Hb. unfold write_file, write_request.
  cbn [wi_content wi_workspace_id wi_guest_port wi_path]. rewrite (proj2 (Z.ltb_ge MAX_INLINE_FILE_BYTES _)) by lia.
  set (q := SupervisorRequest_WriteFile _). destruct (encode_req_total q) as [b Hq]. specialize (Hsize _ _ Hq). cbn in Hsize.
  unfold respond. rewrite run_bind, run_perform, (oversized_call _ _ _ _ _ _ Ha Hq); [by eexists| |done].
  unfold MAX_IPC_FRAME_BYTES. lia.
Qed.

(** ** Forks *)

(** The outcome of a task that runs alone. *)
Definition ends {A} (p : Prog World A) (w : World) (Q : A -> World -> Prop) : Prop := Q (fst (run p w)) (snd (run p w)).
Lemma ends_bind {A B} (p : Prog World A) (k : A -> Prog World B) w Q :
  ends p w (fun a w' => ends (k a) w' Q) -> ends (p ≫= k) w Q.
Proof. unfold ends. rewrite run_bind. by destruct (run p w). Qed.
Lemma ends_impl {A} (p : Prog World A) w (Q Q' : A -> World -> Prop) :
  ends p w Q -> (forall a w', Q a w' -> Q' a w') -> ends p w Q'.
Proof. unfold ends. eauto. Qed.
Lemma ends_any {A} (p : Prog World A) w (Q : A -> World -> Prop) : (forall a w', Q a w') -> ends p w Q.
Proof. unfold ends. eauto. Qed.

(** The guest of a machine has been given its host name, its machine id and fresh entropy. *)
Definition identified (w : World) (i : Instance) (hostname machine_id : string) (seed : list Z) : Prop :=
  identity_valid {| ri_hostname := hostname; ri_machine_id := machine_id; ri_entropy_seed := seed |}
  /\ exists vm g, h_vms (w_host w) !! parent_of (i_vsock_host_socket i) = Some vm /\ vm_guest vm = Some g
  /\ g_hostname g = hostname /\ g_machine_id g = machine_id +:+ newline_text /\ last (g_seeds g) = Some seed.
Lemma identified_host w w' i h m seed : w_host w' = w_host w -> identified w i h m seed -> identified w' i h m seed.
Proof. unfold identified. by intros ->. Qed.
Definition reset_request (io : BootIo) (hostname : string) (seed : list Z) : GuestRequest :=
  GuestRequest_ResetIdentity {| ri_hostname := hostname; ri_machine_id := bi_machine_id io; ri_entropy_seed := seed |}.
(** The call that resets the identity works, whatever the guest. *)
Definition reset_works (io : BootIo) (hostname : string) (seed : list Z) : Prop :=
  bi_entropy io = Ok seed /\ usable (bi_reset io)
  /\ forall g, call_fits (bi_env io) (bi_reset io) (reset_request io hostname seed) g.
Lemma reset_identified io hostname seed i w :
  reset_works io hostname seed ->
  ends (drive (guest_call (bi_env io) (bi_reset io) (reset_request io hostname seed) 30000 (i_vsock_host_socket i))) w
    (fun r w' => forall h m, r = Ok (GuestResponse_IdentityReset h m) -> identified w' i hostname (bi_machine_id io) seed).
Proof.
  intros (_ & Hu & Hf). unfold ends, drive. rewrite run_zoom by (done || by intros []). unfold guest_call, act. cbn [run].
  destruct (h_vms (w_host w) !! parent_of (i_vsock_host_socket i)) as [vm|] eqn:Ev; [|done]. cbn [mbind option_bind].
  destruct (vm_guest vm) as [g|] eqn:Eg; [|done]. cbn [mbind option_bind].
  destruct (vm_paused vm).
  { unfold guest_rpc, vsock_request_response. cbn [expire c_fate fst snd]. done. }
  rewrite (guest_rpc_dispatches _ _ _ _ _ Hu (Hf g)). cbn [fst snd]. intros h m Hr.
  pose proof (identity_reset_is_complete (bi_env io)
    {| ri_hostname := hostname; ri_machine_id := bi_machine_id io; ri_entropy_seed := seed |} g) as Hc.
  fold (reset_request io hostname seed) in Hc. destruct (guest_dispatch _ _ g) as [resp g']. injection Hr as ->.
  destruct Hc as (Hok & Hc & _). destruct (Hc _ _ eq_refl) as (-> & -> & ->). split; [by apply Hok; eauto|]. cbn [ri_hostname ri_machine_id ri_entropy_seed].
  eexists _, _. cbn [w_host set_host h_vms set_vms]. rewrite lookup_insert_eq. split_and!; [done..|]. cbn.
  by rewrite last_snoc.
Qed.
Lemma discard_fails {T} io i k m w (Q : result (SupervisorErrorKind * string) T -> World -> Prop) :
  (forall e w', Q (Err e) w') -> ends (discard t io i k m) w Q.
Proof. intros HQ. apply ends_bind, ends_any. intros r w'. apply HQ. Qed.
Lemma boot_identified io prepared hostname seed w :
  reset_works io hostname seed ->
  ends (boot_prepared_ready_reset t io prepared hostname) w (fun r w' =>
    match r with Ok (i, m) => m = bi_machine_id io /\ identified w' i hostname m seed | Err _ => True end).
Proof.
  intros Hw. unfold boot_prepared_ready_reset. apply ends_bind, ends_any. intros [i|e] w1; [|done].
  apply ends_bind, ends_any. intros [?|e] w2; [|by apply discard_fails].
  pose proof Hw as (-> & _). apply ends_bind. fold (reset_request io hostname seed).
  eapply ends_impl; [by apply reset_identified|]. intros [[]|] w3 Hr; try (by apply discard_fails).
  split; [done|]. by eapply Hr.
Qed.
Definition is_error (r : SupervisorResponse) : Prop := exists k m, r = error k m.
Hint Extern 1 (is_error _) => (do 2 eexists; reflexivity) : core.
Lemma register_keeps_host io id i r w :
  ends (register_pending_firecracker t io id (pending_reserved i r None)) w (fun x w' =>
    match x with
    | Ok _ => w_host w' = w_host w /\ exists guard, w_instances w' !! id = Some (WorkspaceExec_Firecracker i guard)
    | Err e => is_error e
    end).
Proof.
  unfold register_pending_firecracker. cbn [pf_instance pending_reserved]. apply ends_bind.
  unfold pending_register. cbn [pf_capacity_owner pending_reserved]. apply ends_bind. unfold on_ledger, act, ends at 1.
  cbn [run]. destruct (register_in_place _ _ _) as [[[e guard]|e] l]; cbn [fst snd]; unfold ends at 1; cbn [run fst snd].
  - apply ends_bind. unfold ends at 1. cbn [run act fst snd set_owner into_workspace pf_instance pf_capacity_owner].
    destruct (w_instances _ !! id) eqn:E; cbn [fst snd].
    + apply ends_bind, ends_any. intros _ w2. unfold ends. cbn. auto.
    + split; [done|]. exists guard. cbn. by rewrite lookup_insert_eq.
  - apply ends_bind, ends_any. intros _ w2. unfold ends. cbn. auto.
Qed.
Lemma reserved_boot {T} id v m (boot : Prog World (result SupervisorResponse T)) w (Q : T -> World -> Prop) :
  (forall w1, ends boot w1 (fun r w' => match r with Ok x => Q x w' | Err e => is_error e end)) ->
  ends (boot_with_reserved_capacity t id v m boot) w (fun r w' => match r with Ok (x, _) => Q x w' | Err e => is_error e end).
Proof.
  intros Hb. unfold boot_with_reserved_capacity, try_bind. apply ends_bind.
  assert (ends (reserve_workspace_capacity t id v m) w (fun r _ => match r with Ok _ => True | Err e => is_error e end)) as Hr.
  { unfold reserve_workspace_capacity. destruct (capacity_dimensions v m) as [[]|]; [|unfold ends; cbn; auto].
    apply ends_bind, ends_any. intros [|[]] w1; unfold ends; cbn; auto. }
  eapply ends_impl; [exact Hr|]. intros [res|e] w1 H1; [|exact H1]. apply ends_bind. eapply ends_impl; [apply Hb|].
  intros [x|e] w2 H2; [exact H2|]. by apply ends_bind, ends_any.
Qed.
Lemma boot_fork_identified io prepared hostname seed w :
  reset_works io hostname seed ->
  ends (boot_fork t io prepared hostname) w (fun r w' =>
    match r with Ok x => x.2 = bi_machine_id io /\ identified w' x.1 hostname x.2 seed | Err e => is_error e end).
Proof.
  intros Hw. unfold boot_fork. apply ends_bind. eapply ends_impl; [by apply boot_identified|].
  intros [[i m]|[k m]] w1 H1; [exact H1|]. unfold ends. cbn. auto.
Qed.
(** A fork that was created: registered under the id asked for, and identified. *)
Definition forked (io : RestoreReqIo) (r : ForkRequest) (seed : list Z) (info : ForkInfo) (w : World) : Prop :=
  fi_hostname info = default (fk_new_workspace_id r) (fk_hostname r)
  /\ fi_machine_id info = bi_machine_id (rq_boot io)
  /\ exists i guard, w_instances w !! fk_new_workspace_id r = Some (WorkspaceExec_Firecracker i guard)
     /\ identified w i (fi_hostname info) (fi_machine_id info) seed.
Definition fork_outcome (io : RestoreReqIo) (r : ForkRequest) (seed : list Z) (resp : SupervisorResponse) (w : World) : Prop :=
  (exists info, resp = SupervisorResponse_WorkspaceForked info /\ forked io r seed info w) \/ is_error resp.
Lemma fork_claimed_outcome io r seed w :
  reset_works (rq_boot io) (default (fk_new_workspace_id r) (fk_hostname r)) seed ->
  ends (fork_claimed cfg max_workspace_mem_mib audit_key t io r) w (fork_outcome io r seed).
Proof.
  intros Hw. unfold fork_claimed. apply ends_bind, ends_any. intros [prepared|e] w1.
  2: { apply ends_bind, ends_any. intros _ w2. destruct (kind_and_message _ _). right. unfold ends. cbn. auto. }
  apply ends_bind. eapply ends_impl.
  { apply reserved_boot. intros w2. by apply boot_fork_identified. }
  intros [[[i m] res]|e] w2; cbn beta iota.
  2: { intros He. apply ends_bind, ends_any. intros _ w3. by right. }
  cbn [fst snd]. intros [Hm Hi]. unfold or_return. apply ends_bind. eapply ends_impl; [apply register_keeps_host|].
  intros [[]|e] w3; cbn beta iota; [|by right]. intros [Hh [guard Hg]]. left. eexists. split; [reflexivity|].
  cbn. split_and!; [done|done|]. exists i, guard. split; [done|]. by eapply identified_host, Hi.
Qed.
(** The lease and the tracker around it change neither the registry nor the host. *)
Lemma forked_frame io r seed info w w' :
  w_host w' = w_host w -> w_instances w' = w_instances w -> forked io r seed info w -> forked io r seed info w'.
Proof. unfold forked, identified. by intros -> ->. Qed.
Lemma claim_boot_error id w : ends (claim_boot id) w (fun r _ => match r with Ok _ => True | Err e => is_error e end).
Proof.
  unfold claim_boot. apply ends_bind, ends_any. intros [] w1; [|unfold ends; cbn; auto]. apply ends_bind, ends_any.
  intros [] w2; [|done]. apply ends_bind, ends_any. intros [] w3. unfold ends. cbn. auto.
Qed.
Lemma fork_dispatched io r seed w :
  reset_works (rq_boot (d_restore io)) (default (fk_new_workspace_id r) (fk_hostname r)) seed ->
  fork_outcome (d_restore io) r seed (fst (dispatched io (SupervisorRequest_ForkWorkspace r) w))
    (snd (dispatched io (SupervisorRequest_ForkWorkspace r) w)).
Proof.
  intros Hw. unfold dispatched, dispatch. destruct (refusal _ _) eqn:Er; [by right; apply refusal_is_error in Er|].
  cbn [handle]. change (ends (fork cfg max_workspace_mem_mib audit_key t (d_restore io) r) w (fork_outcome (d_restore io) r seed)).
  unfold fork, run_tracked_lifecycle. apply ends_bind, ends_any. intros [[]|[]] w1; try (right; unfold ends; cbn; by auto).
  apply ends_bind. unfold fork_inner, with_boot_lease, or_return. apply ends_bind.
  eapply ends_impl; [apply claim_boot_error|]. intros [[]|e] w2 He; [|by right]. apply ends_bind.
  eapply ends_impl; [by apply fork_claimed_outcome|]. intros resp w3 [(info & -> & Hf)|Herr]; [left|by right].
  exists info. split; [done|]. by apply (forked_frame _ _ _ _ w3).
Qed.

(** C6: A fork never goes out with the identity of its source: when the API answers a fork with 201, the
    workspace is registered under the id asked for, and the guest in its machine has the host name
    and the machine id the answer names (the host name asked for, the workspace id when none was),
    both well-formed, and has mixed in the fresh seed of at least 32 bytes; a guest that could not be
    reached, refused, or acknowledged anything else is torn down and the client gets an error. *)
Theorem fork_has_its_own_identity auth uid io snapshot_id body w h w1 seed :
  let id := fb_new_workspace_id body in
  let hostname := default id (fb_hostname body) in
  let machine_id := bi_machine_id (rq_boot (d_restore io)) in
  accepted auth uid ->
  line_fits (SupervisorRequest_ForkWorkspace
    {| fk_snapshot_id := snapshot_id; fk_new_workspace_id := id; fk_hostname := fb_hostname body |}) ->
  reset_works (rq_boot (d_restore io)) hostname seed ->
  rest auth uid io (Rest_fork_workspace snapshot_id body) w = (h, w1) -> http_status h = CREATED ->
  identity_valid {| ri_hostname := hostname; ri_machine_id := machine_id; ri_entropy_seed := seed |}
  /\ exists b i guard vm g,
     http_body h = Body_fork b /\ fkr_hostname b = hostname /\ fkr_machine_id b = machine_id
     /\ w_instances w1 !! id = Some (WorkspaceExec_Firecracker i guard)
     /\ h_vms (w_host w1) !! parent_of (i_vsock_host_socket i) = Some vm /\ vm_guest vm = Some g
     /\ g_hostname g = hostname /\ g_machine_id g = machine_id +:+ newline_text /\ last (g_seeds g) = Some seed.
Proof.
  intros id hostname machine_id Ha Hl Hw Hr Hs. unfold rest in Hr. cbn [router] in Hr. unfold rest_fork_workspace, fork_workspace in Hr.
  rewrite run_respond in Hr by done. set (r := {| fk_snapshot_id := snapshot_id; fk_new_workspace_id := _; fk_hostname := _ |}) in *.
  pose proof (fork_dispatched io r seed w Hw) as Hf.
  destruct (dispatched _ _ w) as [resp w']. cbn [fst snd] in *. injection Hr as <- <-.
  destruct Hf as [(info & -> & Hh & Hm & i & guard & Hi & Hid)|(k & m & ->)]; [|by exfalso; destruct k].
  rewrite Hh, Hm in Hid. destruct Hid as (Hv & vm & g & Hid). split; [done|].
  eexists _, i, guard, vm, g. split; [reflexivity|]. by cbn.
Qed.

(** ** Challenges *)

Context {E : AttestEnv} {VL : JsonVecLaws unit V}.
Definition ring (w : World) (ws : string) : Nonces.NonceRing := default Nonces.empty_ring (w_rings w !! ws).
Definition attest (auth : PeerAuth) (uid : Z) (io : DispatchIo) (ws nonce : string) : World -> HttpResponse * World :=
  rest auth uid io (Rest_get_attestation ws nonce).
Definition challenge (ws : string) (nonce : list Z) : SupervisorRequest :=
  SupervisorRequest_GetAttestationEvidence {| ga_workspace_id := ws; ga_nonce := nonce |}.
(** The dispatcher on a nonce of an accepted length. *)
Lemma attest_dispatched io ws nonce exec w :
  supports (cf_execution_profile cfg) WorkspaceOperation_Attest = true -> 16 <= blen nonce <= 64 ->
  w_instances w !! ws = Some exec ->
  let '(resp, w') := dispatched io (challenge ws nonce) w in
  w_instances w' = w_instances w /\ ring w' ws = snd (Nonces.record (sha256 nonce) (ring w ws))
  /\ resp = if fst (Nonces.record (sha256 nonce) (ring w ws))
            then error SupervisorErrorKind_AttestationReplay "nonce already used for this workspace"
            else match generate {| req_workspace_id := ws; req_measurement := exec_measurement exec; req_nonce := nonce |}
                         (Z.min (d_now io) I64_MAX) with
                 | Ok ev => SupervisorResponse_AttestationEvidenceIssued ev
                 | Err e => error SupervisorErrorKind_Internal ("attestation generation failed: " +:+ t_attestation t e)
                 end.
Proof.
  intros Hs Hn Hi. unfold challenge, dispatched, dispatch, refusal. cbn [ workspace_operation mbind option_bind]. rewrite Hs.
  cbn [handle]. unfold Manager.get_attestation_evidence. cbn [ga_nonce ga_workspace_id]. unfold Nonce_new.
  rewrite (proj2 (Z.leb_le 16 (blen nonce))), (proj2 (Z.leb_le (blen nonce) 64)) by lia. cbn [andb].
  rewrite run_bind. cbn [run reads act]. rewrite Hi.
  change (exec_measurement <$> Some exec) with (Some (exec_measurement exec)). cbv iota. rewrite run_bind. cbn [run act].
  unfold ring. destruct (Nonces.record (sha256 nonce) (default Nonces.empty_ring (w_rings w !! ws))) as [[] r'];
    [|destruct (generate _ _)]; cbn; rewrite lookup_insert_eq; done.
Qed.
Lemma attest_run auth uid io ws nonce n exec w :
  accepted auth uid -> supports (cf_execution_profile cfg) WorkspaceOperation_Attest = true ->
  w_instances w !! ws = Some exec -> b64_decode nonce = Some n -> 16 <= blen n <= 64 -> line_fits (challenge ws n) ->
  attest auth uid io ws nonce w
  = (match (resp ← classify (Ok (fst (dispatched io (challenge ws n) w)));
            ev ← ok_or (match resp with SupervisorResponse_AttestationEvidenceIssued e => Some e | _ => None end)
                   (unexpected "GetAttestationEvidence");
            public ← map_err (fun e => CoreError_Supervisor SupervisorErrorKind_Internal
                                 ("encode public attestation evidence: " +:+ PublicAttestationError_to_string e))
                       (public_of_evidence ev);
            Ok (Body_evidence public)) with
     | Ok b => {| http_status := OK; http_body := b |}
     | Err e => error_response e
     end, snd (dispatched io (challenge ws n) w)).
Proof.
  intros Ha Hs Hi Hb Hn Hl. unfold attest, rest. cbn [router]. unfold rest_get_attestation. rewrite Hb.
  unfold get_attestation_evidence, attestation_request.
  rewrite (proj2 (Z.leb_le 16 (blen n))), (proj2 (Z.leb_le (blen n) 64)) by lia. cbn [andb negb].
  by rewrite run_respond.
Qed.
(** A nonce the ring remembers, with at most [k] younger ones. *)
Definition remembered (ws : string) (exec : WorkspaceExec) (h : list Z) (k : nat) (w : World) : Prop :=
  w_instances w !! ws = Some exec /\ Nonces.ring_ok (ring w ws)
  /\ exists a b, Nonces.order (ring w ws) = a ++ h :: b /\ (length b <= k)%nat.
Lemma attest_remembers auth uid io ws exec h k nonce w :
  accepted auth uid -> supports (cf_execution_profile cfg) WorkspaceOperation_Attest = true ->
  (forall n, b64_decode nonce = Some n -> line_fits (challenge ws n)) -> (k < 255)%nat ->
  remembered ws exec h k w -> remembered ws exec h (S k) (snd (attest auth uid io ws nonce w)).
Proof.
  intros Ha Hs Hl Hk (Hi & Hr & a & b & Ho & Hb).
  assert (remembered ws exec h (S k) w) as Hsame by (split_and!; [done..|]; exists a, b; split; [done|lia]).
  destruct (b64_decode nonce) as [n|] eqn:E1; [|unfold attest, rest; cbn [router]; unfold rest_get_attestation; by rewrite E1].
  destruct (decide (16 <= blen n <= 64)) as [Hn|Hn].
  - rewrite (attest_run _ _ _ _ _ n exec) by auto. cbn [snd]. pose proof (attest_dispatched io ws n exec w Hs Hn Hi) as Hd.
    destruct (dispatched _ _ w) as [resp w']. destruct Hd as (Hi' & Hr' & _). cbn [snd].
    unfold remembered. rewrite Hi', Hr'. split_and!; [done|by apply Nonces.ring_ok_record|].
    destruct (Nonces.record_keeps h (sha256 n) _ a b Hr Ho) as (a' & b' & Ho' & Hb'); [unfold Nonces.CAP; lia|].
    exists a', b'. split; [done|lia].
  - unfold attest, rest. cbn [router]. unfold rest_get_attestation. rewrite E1.
    unfold get_attestation_evidence, attestation_request.
    destruct (Z.leb_spec 16 (blen n)), (Z.leb_spec (blen n) 64); cbn [andb negb]; [lia|done..].
Qed.
Lemma attests_remember auth uid io ws exec h others : forall k w,
  accepted auth uid -> supports (cf_execution_profile cfg) WorkspaceOperation_Attest = true ->
  Forall (fun nonce => forall n, b64_decode nonce = Some n -> line_fits (challenge ws n)) others ->
  (k + length others <= 255)%nat -> remembered ws exec h k w ->
  remembered ws exec h 255 (fold_left (fun w n => snd (attest auth uid io ws n w)) others w).
Proof.
  induction others as [|x others IH]; intros k w Ha Hs Hf Hk Hr; cbn [fold_left].
  - destruct Hr as (Hi & Hr & a & b & Ho & Hb). split_and!; [done..|]. exists a, b. split; [done|]. cbn in Hk. lia.
  - apply Forall_cons in Hf as [Hx Hf]. cbn in Hk. apply (IH (S k)); auto; [lia|]. apply attest_remembers; auto. lia.
Qed.
Lemma remembered_refused auth uid io ws exec nonce n w :
  accepted auth uid -> supports (cf_execution_profile cfg) WorkspaceOperation_Attest = true ->
  b64_decode nonce = Some n -> 16 <= blen n <= 64 -> line_fits (challenge ws n) ->
  remembered ws exec (sha256 n) 255 w ->
  fst (attest auth uid io ws nonce w)
  = error_response (CoreError_Supervisor SupervisorErrorKind_AttestationReplay "nonce already used for this workspace").
Proof.
  intros Ha Hs Hb Hn Hl (Hi & Hr & a & b & Ho & _). rewrite (attest_run _ _ _ _ _ n exec) by auto. cbn [fst].
  pose proof (attest_dispatched io ws n exec w Hs Hn Hi) as Hd. destruct (dispatched _ _ w) as [resp w'].
  destruct Hd as (_ & _ & Hresp). cbn [fst]. rewrite Hresp. unfold Nonces.record. rewrite decide_True; [done|].
  apply (Nonces.ring_seen _ Hr). rewrite Ho. set_solver.
Qed.
Lemma recorded_remembered io ws nonce exec w :
  supports (cf_execution_profile cfg) WorkspaceOperation_Attest = true -> 16 <= blen nonce <= 64 ->
  w_instances w !! ws = Some exec -> Nonces.ring_ok (ring w ws) -> sha256 nonce ∉ Nonces.seen (ring w ws) ->
  remembered ws exec (sha256 nonce) 0 (snd (dispatched io (challenge ws nonce) w)).
Proof.
  intros Hs Hn Hi Hr Hf. pose proof (attest_dispatched io ws nonce exec w Hs Hn Hi) as Hd.
  destruct (dispatched _ _ w) as [resp w']. destruct Hd as (Hi' & Hr' & _). cbn [snd]. unfold remembered.
  rewrite Hi', Hr'. split_and!; [done|by apply Nonces.ring_ok_record|].
  unfold Nonces.record. rewrite decide_False by done. cbn. eexists _, []. done.
Qed.

Lemma software_evidence_public sk r ts ev :
  software_generate (J := V) sk r ts = Ok ev -> 16 <= blen (req_nonce r) <= 64 -> length (req_measurement r) = 32%nat ->
  exists p, public_of_evidence ev = Ok p /\ evidence_of_public p = Ok ev.
Proof.
  unfold software_generate. case_bool_decide; [done|]. intros [= <-] Hn Hm.
  destruct (public_of_evidence _) as [p|] eqn:Ep.
  - exists p. split; [done|]. apply public_evidence_inverse; [|done]. split; [done|]. cbn.
    split; [apply sign_bytes_ok|apply vk_bytes_ok].
  - exfalso. revert Ep. unfold public_of_evidence, nonce_length_ok. cbn [nonce].
    by rewrite (proj2 (Z.leb_le 16 (blen (req_nonce r)))), (proj2 (Z.leb_le (blen (req_nonce r)) 64)) by lia.
Qed.

(** C7: A challenge is answered, and answered once.  With the software provider, a client that sends a
    fresh nonce of 16 to 64 bytes for a registered workspace gets a 200 whose envelope converts to
    evidence that the verifier accepts, for this nonce, the measurement of this workspace and the
    provider's key; and the same nonce presented again, after up to 255 other challenges to that
    workspace, is refused with 409 and the code for a replay. *)
Theorem challenge_is_answered_once auth uid io io' ws nonce n exec sk params others w :
  accepted auth uid -> supports (cf_execution_profile cfg) WorkspaceOperation_Attest = true ->
  (forall r ts, generate r ts = software_generate (J := V) sk r ts) ->
  w_instances w !! ws = Some exec -> length (exec_measurement exec) = 32%nat ->
  Nonces.ring_ok (ring w ws) -> sha256 n ∉ Nonces.seen (ring w ws) -> b64_decode nonce = Some n ->
  Forall (fun nonce => forall n, b64_decode nonce = Some n -> line_fits (challenge ws n)) (nonce :: others) ->
  params_match {| req_workspace_id := ws; req_measurement := exec_measurement exec; req_nonce := n |}
    ProviderType_Software (Z.min (d_now io) I64_MAX) params ->
  trust_anchor params = TrustAnchor_Software (Crypto.verifying_key sk) -> (length others <= 255)%nat ->
  let '(h, w1) := attest auth uid io ws nonce w in
  (exists p ev, h = {| http_status := OK; http_body := Body_evidence p |}
     /\ evidence_of_public p = Ok ev /\ Attestation.verify (J := V) ev params = VerifyOutcome_Verified)
  /\ fst (attest auth uid io' ws nonce (fold_left (fun w n => snd (attest auth uid io' ws n w)) others w1))
     = {| http_status := CONFLICT;
          http_body := Body_error {| ed_code := "ATTESTATION_REPLAY"; ed_message := "nonce already used for this workspace" |} |}.
Proof.
  intros Ha Hs Hgen Hi Hlen Hr Hfresh Hb Hf Hp Hanchor Hothers. apply Forall_cons in Hf as [Hl Hf]. specialize (Hl n Hb).
  pose proof (match_nonce_length _ _ _ _ Hp) as Hn. cbn [req_nonce] in Hn.
  pose proof (attest_run auth uid io ws nonce n exec w Ha Hs Hi Hb Hn Hl) as Hrun.
  pose proof (recorded_remembered io ws n exec w Hs Hn Hi Hr Hfresh) as Hrem.
  destruct (attest auth uid io ws nonce w) as [h w1]. injection Hrun as -> ->. split.
  - pose proof (attest_dispatched io ws n exec w Hs Hn Hi) as Hd. destruct (dispatched _ _ w) as [resp w'].
    destruct Hd as (_ & _ & ->). cbn [fst]. unfold Nonces.record. rewrite decide_False by done. cbn [fst].
    rewrite Hgen. destruct (proj1 (generated_evidence_verifies (J := V) _ _ _) sk Hp Hanchor) as (ev & Hev & Hv). rewrite Hev.
    destruct (software_evidence_public _ _ _ _ Hev) as (p & Hpub & Hback); [done..|].
    exists p, ev. cbn [classify mbind result_bind ok_or]. by rewrite Hpub.
  - apply (remembered_refused _ _ _ _ exec _ n); auto. by apply (attests_remember _ _ _ _ _ _ _ 0).
Qed.

(** ** The audit trail *)

Context {VJL : JsonVecLaws Value VJ} {AJL : AuditJsonLaws Value AJ}.
(** No write of the log file was torn: each one went through, or failed before a byte was written. *)
Definition untorn_run : Prop := forall n k, st_io (ar_stamp stamps n) <> Io_write_error k.
(** An event is recorded unless the clock or the opening of the file fails it. *)
Definition recorded_at (n : nat) : bool :=
  match st_now (ar_stamp stamps n), st_io (ar_stamp stamps n) with Some _, Io_ok => true | _, _ => false end.
(** The reports that are recorded, oldest first. *)
Fixpoint recorded (calls : list AuditCall) : list AuditCall :=
  match calls with
  | [] => []
  | c :: earlier => recorded earlier ++ (if recorded_at (length earlier) then [c] else [])
  end.
Lemma recorded_all calls : (forall n, recorded_at n = true) -> recorded calls = rev calls.
Proof. intros Hn. induction calls as [|c calls IH]; [done|]. cbn. by rewrite Hn, IH. Qed.
Lemma recorded_length calls : (length (recorded calls) <= length calls)%nat.
Proof. induction calls as [|c calls IH]; [done|]. cbn. rewrite length_app. destruct (recorded_at _); cbn; lia. Qed.
Definition said (c : AuditCall) : EventType * option string * Value := (au_type c, au_workspace c, au_payload c).
Lemma log_after_inv calls es0 :
  untorn_run -> log_inv (ar_opened stamps) es0 -> Z.of_nat (length es0) + list_len calls <= U64_MAX ->
  exists es, log_inv (log_after stamps calls) (es0 ++ es)%list /\ about <$> es = said <$> recorded calls.
Proof.
  intros Hs H0. unfold list_len. induction calls as [|c calls IH]; cbn [log_after recorded]; intros Hl.
  - exists []. by rewrite app_nil_r.
  - cbn [length] in Hl. destruct IH as (es & Hinv & Ha); [lia|].
    assert (length es = length (recorded calls)) as He by (apply (f_equal length) in Ha; by rewrite !length_fmap in Ha).
    pose proof (recorded_length calls) as Hr. unfold recorded_at. specialize (Hs (length calls)).
    destruct (st_now (ar_stamp stamps (length calls))) as [now|]; [|exists es; by rewrite app_nil_r].
    destruct (st_io (ar_stamp stamps (length calls))) as [| |k]; [| |by destruct (Hs k)].
    + destruct (emit_ok_inv now (st_id (ar_stamp stamps (length calls))) (au_type c) (au_workspace c) (au_payload c)
        _ _ Hinv) as (e & Hab & Hinv'); [rewrite length_app; lia|].
      exists (es ++ [e])%list. rewrite app_assoc. split; [done|]. rewrite !fmap_app, Ha. cbn. by rewrite Hab.
    + exists es. rewrite app_nil_r. split; [|done]. cbn. by repeat case_match.
Qed.
Lemma wanted_all (es : list (AuditEvent Value)) n : chain_index <$> es = seqZ 0 (Z.of_nat (length es)) ->
  List.filter (wanted {| AuditChain.req_workspace_id := None; since_chain_index := 0; limit := n |}) es = es.
Proof.
  intros Hi. assert (Forall (fun e => 0 <= chain_index e) es) as Hf.
  { apply (Forall_fmap chain_index (fun i => 0 <= i)). rewrite Hi. apply Forall_forall. intros i ?%elem_of_seqZ. lia. }
  clear Hi. induction Hf as [|e es He _ IH]; [done|]. cbn [List.filter]. unfold wanted at 1. cbn.
  rewrite (proj2 (Z.ltb_ge (chain_index e) 0)) by lia. cbn. by f_equal.
Qed.

(** C9: The audit trail a client sees is complete and verifies. The log that was opened at the start
    holds a chain of events, none on a first start; since then the manager, the relays of the network
    children and the ingress edge have reported to it. As long as no write of the log file was torn,
    the events listed over the API, from the first on and with a limit that covers them, are the
    earlier ones followed by one event per report that was recorded, in order, each with the type, the
    workspace and the payload it was reported with; only reports that the clock or the opening of the
    file failed are missing; and the whole list verifies as a signed hash chain. *)
Theorem audit_trail_is_complete auth uid io w n es0 :
  let q := {| lq_workspace_id := None; lq_since_chain_index := 0; lq_limit := n |} in
  accepted auth uid -> untorn_run -> log_inv (ar_opened stamps) es0 ->
  0 < n -> Z.of_nat (length es0) + list_len (w_audit w) <= n <= U32_MAX ->
  line_fits (SupervisorRequest_ListEvents {| AuditChain.req_workspace_id := None; since_chain_index := 0; limit := n |}) ->
  exists es, rest auth uid io (Rest_list_events q) w = ({| http_status := OK; http_body := Body_events (es0 ++ es) |}, w)
    /\ about <$> es = said <$> recorded (w_audit w)
    /\ ((forall n, recorded_at n = true) -> about <$> es = said <$> rev (w_audit w))
    /\ ok (verify_chain (es0 ++ es)%list) = true.
Proof.
  intros q Ha Hs H0 Hn Hl Hline. destruct (log_after_inv (w_audit w) es0 Hs H0) as (es & Hinv & Hab).
  { unfold U64_MAX, U32_MAX in *. lia. }
  exists es. split_and!; [|done|intros Hall; by rewrite <- (recorded_all (w_audit w) Hall)|by eapply log_inv_verifies].
  unfold rest. cbn [router]. unfold rest_list_events, list_events. cbn [lq_workspace_id lq_since_chain_index lq_limit q].
  rewrite run_respond by done.
  assert (dispatched io (SupervisorRequest_ListEvents
    {| AuditChain.req_workspace_id := None; since_chain_index := 0; limit := n |}) w = (SupervisorResponse_Events (es0 ++ es), w)) as ->; [|done].
  unfold dispatched, dispatch, refusal. cbn [workspace_operation mbind option_bind handle]. unfold list_log, reads, act. cbn [run].
  rewrite (list_events_inv _ _ _ Hinv) by (cbn; lia). rewrite wanted_all by apply (li_index _ _ Hinv). cbn [limit].
  rewrite (proj2 (Z.eqb_neq n 0)) by lia. rewrite take_ge; [done|].
  assert (length es = length (recorded (w_audit w))) as He by (apply (f_equal length) in Hab; by rewrite !length_fmap in Hab).
  pose proof (recorded_length (w_audit w)). rewrite length_app. unfold list_len in Hl. lia.
Qed.
End Stack.
