(* ===== verification/MessageCodec.v ===== *)
(** * A codec for the supervisor's messages

    The requests and responses of [Protocol] are countable, so the enumeration
    codec of [Wire] carries them.  The theorems about the socket ask for a codec
    that decodes what it encodes; this is one. *)

From S2P Require Import Prelude Text Profile Fleet Capacity Ownership Lifecycle Json Crypto AuditChain.
From S2P Require Import Snapshot Ingress Network Bytes GuestFiles Wire GuestAgent Attestation Image.
From S2P Require Import Firecracker Pool PublicEvidence Prog Manager Command Resources Actions Handlers Scenario.
From S2P Require Import Protocol.
From stdpp Require Import finite.

#[export] Instance HeaderInjection_dec : EqDecision HeaderInjection.
Proof. solve_decision. Defined.
#[export] Instance HeaderInjection_countable : Countable HeaderInjection.
Proof.
  refine (inj_countable' (fun r => (hi_name r, hi_value r))
    (fun '(a0, a1) => Build_HeaderInjection a0 a1) _). by intros [].
Defined.
#[export] Instance ExposedPort_dec : EqDecision ExposedPort.
Proof. solve_decision. Defined.
#[export] Instance ExposedPort_countable : Countable ExposedPort.
Proof.
  refine (inj_countable' (fun r => (ep_port r, ep_inject_headers r))
    (fun '(a0, a1) => Build_ExposedPort a0 a1) _). by intros [].
Defined.
#[export] Instance NetworkConfig_dec : EqDecision NetworkConfig.
Proof. solve_decision. Defined.
#[export] Instance NetworkConfig_countable : Countable NetworkConfig.
Proof.
  refine (inj_countable' (fun r => (nc_enable_egress r, nc_allow_cidrs r, nc_allow_hostnames r,
      nc_privacy_router r, nc_exposed_ports r))
    (fun '(a0, a1, a2, a3, a4) => Build_NetworkConfig a0 a1 a2 a3 a4) _). by intros [].
Defined.
#[export] Instance CreateWorkspaceRequest_dec : EqDecision CreateWorkspaceRequest.
Proof. solve_decision. Defined.
#[export] Instance CreateWorkspaceRequest_countable : Countable CreateWorkspaceRequest.
Proof.
  refine (inj_countable' (fun r => (cw_workspace_id r, cw_kernel_sha256 r, cw_rootfs_sha256 r,
      cw_rootfs_read_only r, cw_vcpu_count r, cw_mem_size_mib r, cw_guest_vsock_cid r, cw_kernel_boot_args r,
      cw_network r, cw_tier r))
    (fun '(a0, a1, a2, a3, a4, a5, a6, a7, a8,
      a9) => Build_CreateWorkspaceRequest a0 a1 a2 a3 a4 a5 a6 a7 a8 a9) _). by intros [].
Defined.
#[export] Instance ExposePortRequest_dec : EqDecision ExposePortRequest.
Proof. solve_decision. Defined.
#[export] Instance ExposePortRequest_countable : Countable ExposePortRequest.
Proof.
  refine (inj_countable' (fun r => (xp_workspace_id r, xp_port r))
    (fun '(a0, a1) => Build_ExposePortRequest a0 a1) _). by intros [].
Defined.
#[export] Instance UnexposePortRequest_dec : EqDecision UnexposePortRequest.
Proof. solve_decision. Defined.
#[export] Instance UnexposePortRequest_countable : Countable UnexposePortRequest.
Proof.
  refine (inj_countable' (fun r => (up_workspace_id r, up_port r))
    (fun '(a0, a1) => Build_UnexposePortRequest a0 a1) _). by intros [].
Defined.
#[export] Instance GetAttestationEvidenceRequest_dec : EqDecision GetAttestationEvidenceRequest.
Proof. solve_decision. Defined.
#[export] Instance GetAttestationEvidenceRequest_countable : Countable GetAttestationEvidenceRequest.
Proof.
  refine (inj_countable' (fun r => (ga_workspace_id r, ga_nonce r))
    (fun '(a0, a1) => Build_GetAttestationEvidenceRequest a0 a1) _). by intros [].
Defined.
#[export] Instance WorkspaceRef_dec : EqDecision WorkspaceRef.
Proof. solve_decision. Defined.
#[export] Instance WorkspaceRef_countable : Countable WorkspaceRef.
Proof. refine (inj_countable' (fun r => rf_workspace_id r) Build_WorkspaceRef _). by intros []. Defined.
#[export] Instance SnapshotRequest_dec : EqDecision SnapshotRequest.
Proof. solve_decision. Defined.
#[export] Instance SnapshotRequest_countable : Countable SnapshotRequest.
Proof.
  refine (inj_countable' (fun r => (sr_workspace_id r, sr_live r))
    (fun '(a0, a1) => Build_SnapshotRequest a0 a1) _). by intros [].
Defined.
#[export] Instance RestoreRequest_dec : EqDecision RestoreRequest.
Proof. solve_decision. Defined.
#[export] Instance RestoreRequest_countable : Countable RestoreRequest.
Proof.
  refine (inj_countable' (fun r => (rs_snapshot_id r, rs_new_workspace_id r))
    (fun '(a0, a1) => Build_RestoreRequest a0 a1) _). by intros [].
Defined.
#[export] Instance ForkRequest_dec : EqDecision ForkRequest.
Proof. solve_decision. Defined.
#[export] Instance ForkRequest_countable : Countable ForkRequest.
Proof.
  refine (inj_countable' (fun r => (fk_snapshot_id r, fk_new_workspace_id r, fk_hostname r))
    (fun '(a0, a1, a2) => Build_ForkRequest a0 a1 a2) _). by intros [].
Defined.
#[export] Instance TerminateRequest_dec : EqDecision TerminateRequest.
Proof. solve_decision. Defined.
#[export] Instance TerminateRequest_countable : Countable TerminateRequest.
Proof.
  refine (inj_countable' (fun r => (tr_workspace_id r, tr_grace_period_ms r))
    (fun '(a0, a1) => Build_TerminateRequest a0 a1) _). by intros [].
Defined.
#[export] Instance RunCommandRequest_dec : EqDecision RunCommandRequest.
Proof. solve_decision. Defined.
#[export] Instance RunCommandRequest_countable : Countable RunCommandRequest.
Proof.
  refine (inj_countable' (fun r => (rr_workspace_id r, rr_guest_port r, rr_command r, rr_args r, rr_timeout_ms r))
    (fun '(a0, a1, a2, a3, a4) => Build_RunCommandRequest a0 a1 a2 a3 a4) _). by intros [].
Defined.
#[export] Instance WriteFileRequest_dec : EqDecision WriteFileRequest.
Proof. solve_decision. Defined.
#[export] Instance WriteFileRequest_countable : Countable WriteFileRequest.
Proof.
  refine (inj_countable' (fun r => (wr_workspace_id r, wr_guest_port r, wr_path r, wr_content r))
    (fun '(a0, a1, a2, a3) => Build_WriteFileRequest a0 a1 a2 a3) _). by intros [].
Defined.
#[export] Instance ReadFileRequest_dec : EqDecision ReadFileRequest.
Proof. solve_decision. Defined.
#[export] Instance ReadFileRequest_countable : Countable ReadFileRequest.
Proof.
  refine (inj_countable' (fun r => (rd_workspace_id r, rd_guest_port r, rd_path r, rd_max_bytes r))
    (fun '(a0, a1, a2, a3) => Build_ReadFileRequest a0 a1 a2 a3) _). by intros [].
Defined.
#[export] Instance ListEventsRequest_dec : EqDecision ListEventsRequest.
Proof. solve_decision. Defined.
#[export] Instance ListEventsRequest_countable : Countable ListEventsRequest.
Proof.
  refine (inj_countable' (fun r => (AuditChain.req_workspace_id r, AuditChain.since_chain_index r,
      AuditChain.limit r))
    (fun '(a0, a1, a2) => Build_ListEventsRequest a0 a1 a2) _). by intros [].
Defined.
#[export] Instance SupervisorRequest_dec : EqDecision SupervisorRequest.
Proof. solve_decision. Defined.
#[export] Instance SupervisorRequest_countable : Countable SupervisorRequest.
Proof.
  refine (inj_countable' (fun r => match r with
  | SupervisorRequest_Ping => inl (inl (inl (inl tt)))
  | SupervisorRequest_GetCapabilities => inl (inl (inl (inr tt)))
  | SupervisorRequest_CreateWorkspace a0 => inl (inl (inr (inl a0)))
  | SupervisorRequest_Terminate a0 => inl (inl (inr (inr a0)))
  | SupervisorRequest_RunCommand a0 => inl (inr (inl (inl a0)))
  | SupervisorRequest_WriteFile a0 => inl (inr (inl (inr a0)))
  | SupervisorRequest_ReadFile a0 => inl (inr (inr (inl a0)))
  | SupervisorRequest_ListEvents a0 => inl (inr (inr (inr (inl a0))))
  | SupervisorRequest_PauseWorkspace a0 => inl (inr (inr (inr (inr a0))))
  | SupervisorRequest_ResumeWorkspace a0 => inr (inl (inl (inl a0)))
  | SupervisorRequest_SnapshotWorkspace a0 => inr (inl (inl (inr a0)))
  | SupervisorRequest_RestoreWorkspace a0 => inr (inl (inr (inl a0)))
  | SupervisorRequest_ForkWorkspace a0 => inr (inl (inr (inr a0)))
  | SupervisorRequest_PoolStatus => inr (inr (inl (inl tt)))
  | SupervisorRequest_CapacitySnapshot => inr (inr (inl (inr tt)))
  | SupervisorRequest_ExposePort a0 => inr (inr (inr (inl a0)))
  | SupervisorRequest_UnexposePort a0 => inr (inr (inr (inr (inl a0))))
  | SupervisorRequest_GetAttestationEvidence a0 => inr (inr (inr (inr (inr a0))))
  end) (fun c => match c with
  | inl (inl (inl (inl tt))) => SupervisorRequest_Ping
  | inl (inl (inl (inr tt))) => SupervisorRequest_GetCapabilities
  | inl (inl (inr (inl a0))) => SupervisorRequest_CreateWorkspace a0
  | inl (inl (inr (inr a0))) => SupervisorRequest_Terminate a0
  | inl (inr (inl (inl a0))) => SupervisorRequest_RunCommand a0
  | inl (inr (inl (inr a0))) => SupervisorRequest_WriteFile a0
  | inl (inr (inr (inl a0))) => SupervisorRequest_ReadFile a0
  | inl (inr (inr (inr (inl a0)))) => SupervisorRequest_ListEvents a0
  | inl (inr (inr (inr (inr a0)))) => SupervisorRequest_PauseWorkspace a0
  | inr (inl (inl (inl a0))) => SupervisorRequest_ResumeWorkspace a0
  | inr (inl (inl (inr a0))) => SupervisorRequest_SnapshotWorkspace a0
  | inr (inl (inr (inl a0))) => SupervisorRequest_RestoreWorkspace a0
  | inr (inl (inr (inr a0))) => SupervisorRequest_ForkWorkspace a0
  | inr (inr (inl (inl tt))) => SupervisorRequest_PoolStatus
  | inr (inr (inl (inr tt))) => SupervisorRequest_CapacitySnapshot
  | inr (inr (inr (inl a0))) => SupervisorRequest_ExposePort a0
  | inr (inr (inr (inr (inl a0)))) => SupervisorRequest_UnexposePort a0
  | inr (inr (inr (inr (inr a0)))) => SupervisorRequest_GetAttestationEvidence a0
  end) _). by intros [].
Defined.
#[export] Instance ExecutionProfile_finite : Finite ExecutionProfile.
Proof.
  refine {| enum := [ExecutionProfile_Standard; ExecutionProfile_ConfidentialAzure] |};
    [apply (bool_decide_unpack _); by vm_compute|intros []; apply (bool_decide_unpack _); by vm_compute].
Defined.
#[export] Instance ExecutionBackend_finite : Finite ExecutionBackend.
Proof.
  refine {| enum := [ExecutionBackend_Firecracker; ExecutionBackend_OpenShell] |};
    [apply (bool_decide_unpack _); by vm_compute|intros []; apply (bool_decide_unpack _); by vm_compute].
Defined.
#[export] Instance AttestationBackend_finite : Finite AttestationBackend.
Proof.
  refine {| enum := [AttestationBackend_Software; AttestationBackend_SevSnpDirect; AttestationBackend_SevSnpAzure] |};
    [apply (bool_decide_unpack _); by vm_compute|intros []; apply (bool_decide_unpack _); by vm_compute].
Defined.
#[export] Instance WorkspaceOperation_finite : Finite WorkspaceOperation.
Proof.
  refine {| enum := [WorkspaceOperation_Create; WorkspaceOperation_Destroy; WorkspaceOperation_Execute;
     WorkspaceOperation_WriteFile; WorkspaceOperation_ReadFile; WorkspaceOperation_Pause;
     WorkspaceOperation_Resume; WorkspaceOperation_Snapshot; WorkspaceOperation_Restore;
     WorkspaceOperation_Fork; WorkspaceOperation_WarmPool; WorkspaceOperation_Ingress;
     WorkspaceOperation_Attest] |};
    [apply (bool_decide_unpack _); by vm_compute|intros []; apply (bool_decide_unpack _); by vm_compute].
Defined.
#[export] Instance RuntimeCapabilitiesInfo_dec : EqDecision RuntimeCapabilitiesInfo.
Proof. solve_decision. Defined.
#[export] Instance RuntimeCapabilitiesInfo_countable : Countable RuntimeCapabilitiesInfo.
Proof.
  refine (inj_countable' (fun r => (runtime_version r, info_execution_profile r, info_execution_backend r,
      info_attestation_backend r, info_supported_operations r, info_hard_workspace_capacity r,
      confidential_snapshot_supported r, evidence_schema_version r))
    (fun '(a0, a1, a2, a3, a4, a5, a6, a7) => Build_RuntimeCapabilitiesInfo a0 a1 a2 a3 a4 a5 a6 a7) _). by intros [].
Defined.
#[export] Instance RunnerCapacity_dec : EqDecision RunnerCapacity.
Proof. solve_decision. Defined.
#[export] Instance RunnerCapacity_countable : Countable RunnerCapacity.
Proof.
  refine (inj_countable' (fun r => (revision r, configured_workspace_ceiling r, registered_workspaces r,
      resident_workspaces r, runnable_workspaces r, allocated_cpu_millicores r, allocated_memory_bytes r,
      warm_pool_reserved_slots r, profiles r, operations r))
    (fun '(a0, a1, a2, a3, a4, a5, a6, a7, a8,
      a9) => Build_RunnerCapacity a0 a1 a2 a3 a4 a5 a6 a7 a8 a9) _). by intros [].
Defined.
#[export] Instance WorkspaceNetwork_dec : EqDecision WorkspaceNetwork.
Proof. solve_decision. Defined.
#[export] Instance WorkspaceNetwork_countable : Countable WorkspaceNetwork.
Proof.
  refine (inj_countable' (fun r => (wn_netns_path r, wn_tap_device r, wn_host_ip r, wn_guest_ip r, wn_prefix r))
    (fun '(a0, a1, a2, a3, a4) => Build_WorkspaceNetwork a0 a1 a2 a3 a4) _). by intros [].
Defined.
#[export] Instance WorkspaceCreated_dec : EqDecision WorkspaceCreated.
Proof. solve_decision. Defined.
#[export] Instance WorkspaceCreated_countable : Countable WorkspaceCreated.
Proof.
  refine (inj_countable' (fun r => (wc_workspace_id r, wc_firecracker_pid r, wc_vsock_host_socket r,
      wc_jailer_chroot r, wc_network r, wc_exec_backend r, wc_control_socket r))
    (fun '(a0, a1, a2, a3, a4, a5, a6) => Build_WorkspaceCreated a0 a1 a2 a3 a4 a5 a6) _). by intros [].
Defined.
#[export] Instance ForkInfo_dec : EqDecision ForkInfo.
Proof. solve_decision. Defined.
#[export] Instance ForkInfo_countable : Countable ForkInfo.
Proof.
  refine (inj_countable' (fun r => (fi_workspace_id r, fi_firecracker_pid r, fi_vsock_host_socket r,
      fi_jailer_chroot r, fi_source_snapshot_id r, fi_hostname r, fi_machine_id r, fi_guest_vsock_cid r))
    (fun '(a0, a1, a2, a3, a4, a5, a6, a7) => Build_ForkInfo a0 a1 a2 a3 a4 a5 a6 a7) _). by intros [].
Defined.
#[export] Instance PoolStatusInfo_dec : EqDecision PoolStatusInfo.
Proof. solve_decision. Defined.
#[export] Instance PoolStatusInfo_countable : Countable PoolStatusInfo.
Proof.
  refine (inj_countable' (fun r => (ps_configured r, ps_tier r, ps_target_size r, ps_available r, ps_in_flight r))
    (fun '(a0, a1, a2, a3, a4) => Build_PoolStatusInfo a0 a1 a2 a3 a4) _). by intros [].
Defined.
#[export] Instance SnapshotInfo_dec : EqDecision SnapshotInfo.
Proof. solve_decision. Defined.
#[export] Instance SnapshotInfo_countable : Countable SnapshotInfo.
Proof.
  refine (inj_countable' (fun r => (sn_snapshot_id r, sn_created_from_workspace_id r, sn_mem_sha256 r,
      sn_vmstate_sha256 r, sn_size_bytes r, sn_firecracker_pid r))
    (fun '(a0, a1, a2, a3, a4, a5) => Build_SnapshotInfo a0 a1 a2 a3 a4 a5) _). by intros [].
Defined.
#[export] Instance CommandCompleted_dec : EqDecision CommandCompleted.
Proof. solve_decision. Defined.
#[export] Instance CommandCompleted_countable : Countable CommandCompleted.
Proof.
  refine (inj_countable' (fun r => (cc_workspace_id r, cc_stdout r, cc_stderr r, cc_exit_code r, cc_elapsed_ms r,
      cc_truncated r))
    (fun '(a0, a1, a2, a3, a4, a5) => Build_CommandCompleted a0 a1 a2 a3 a4 a5) _). by intros [].
Defined.
#[export] Instance FileWritten_dec : EqDecision FileWritten.
Proof. solve_decision. Defined.
#[export] Instance FileWritten_countable : Countable FileWritten.
Proof.
  refine (inj_countable' (fun r => (fw_workspace_id r, fw_bytes_written r, fw_absolute_path r))
    (fun '(a0, a1, a2) => Build_FileWritten a0 a1 a2) _). by intros [].
Defined.
#[export] Instance FileRead_dec : EqDecision FileRead.
Proof. solve_decision. Defined.
#[export] Instance FileRead_countable : Countable FileRead.
Proof.
  refine (inj_countable' (fun r => (fr_workspace_id r, fr_content r, fr_size_bytes r, fr_truncated r))
    (fun '(a0, a1, a2, a3) => Build_FileRead a0 a1 a2 a3) _). by intros [].
Defined.
#[export] Instance ProviderType_finite : Finite ProviderType.
Proof.
  refine {| enum := [ProviderType_Software; ProviderType_SevSnp] |};
    [apply (bool_decide_unpack _); by vm_compute|intros []; apply (bool_decide_unpack _); by vm_compute].
Defined.
#[export] Instance EvidenceProof_dec : EqDecision EvidenceProof.
Proof. solve_decision. Defined.
#[export] Instance EvidenceProof_countable : Countable EvidenceProof.
Proof.
  refine (inj_countable' (fun r => match r with
  | Proof_Software a0 a1 => inl ((a0, a1))
  | Proof_SevSnp a0 a1 => inr (inl ((a0, a1)))
  | Proof_SevSnpAzure a0 a1 a2 a3 a4 a5 => inr (inr ((a0, a1, a2, a3, a4, a5)))
  end) (fun c => match c with
  | inl ((a0, a1)) => Proof_Software a0 a1
  | inr (inl ((a0, a1))) => Proof_SevSnp a0 a1
  | inr (inr ((a0, a1, a2, a3, a4, a5))) => Proof_SevSnpAzure a0 a1 a2 a3 a4 a5
  end) _). by intros [].
Defined.
#[export] Instance Evidence_dec : EqDecision Evidence.
Proof. solve_decision. Defined.
#[export] Instance Evidence_countable : Countable Evidence.
Proof.
  refine (inj_countable' (fun r => (Attestation.provider_type r, Attestation.workspace_id r,
      Attestation.measurement r, Attestation.nonce r, Attestation.issued_at r, Attestation.report_data r,
      Attestation.proof r))
    (fun '(a0, a1, a2, a3, a4, a5, a6) => Build_Evidence a0 a1 a2 a3 a4 a5 a6) _). by intros [].
Defined.
#[export] Instance SupervisorErrorKind_finite : Finite SupervisorErrorKind.
Proof.
  refine {| enum := [SupervisorErrorKind_Unauthorized; SupervisorErrorKind_InvalidRequest;
     SupervisorErrorKind_InvalidImageDigest; SupervisorErrorKind_ImageNotFound;
     SupervisorErrorKind_ImageRejected; SupervisorErrorKind_ImageDigestMismatch;
     SupervisorErrorKind_ImageStageFailed; SupervisorErrorKind_Unsupported;
     SupervisorErrorKind_UnsupportedForProfile; SupervisorErrorKind_WorkspaceAlreadyExists;
     SupervisorErrorKind_WorkspaceNotFound; SupervisorErrorKind_LaunchFailed;
     SupervisorErrorKind_GuestUnreachable; SupervisorErrorKind_GuestProtocolError;
     SupervisorErrorKind_Timeout; SupervisorErrorKind_Internal; SupervisorErrorKind_PathRejected;
     SupervisorErrorKind_FileTooLarge; SupervisorErrorKind_FileNotFound; SupervisorErrorKind_IoError;
     SupervisorErrorKind_SnapshotFailed; SupervisorErrorKind_RestoreFailed;
     SupervisorErrorKind_InvalidSnapshot; SupervisorErrorKind_WorkspaceNotPaused;
     SupervisorErrorKind_WorkspaceAlreadyPaused; SupervisorErrorKind_ForkFailed;
     SupervisorErrorKind_TierNotFound; SupervisorErrorKind_CapacityExceeded;
     SupervisorErrorKind_ConfidentialCapacityExceeded; SupervisorErrorKind_WorkspaceNotNetworked;
     SupervisorErrorKind_IngressPortNotFound; SupervisorErrorKind_AttestationReplay] |};
    [apply (bool_decide_unpack _); by vm_compute|intros []; apply (bool_decide_unpack _); by vm_compute].
Defined.
#[export] Instance EventType_finite : Finite EventType.
Proof.
  refine {| enum := [EventType_WorkspaceCreated; EventType_WorkspaceTerminated; EventType_CommandExecuted;
     EventType_CommandFailed; EventType_NetworkSetup; EventType_NetworkTeardown; EventType_DnsAllowed;
     EventType_DnsDenied; EventType_DnsMalformed; EventType_PrivacyAudited; EventType_PrivacyRedacted;
     EventType_PrivacyBlocked; EventType_PrivacyAllowed; EventType_FileWritten; EventType_FileRead;
     EventType_FileOpFailed; EventType_WorkspacePaused; EventType_WorkspaceResumed;
     EventType_SnapshotCreated; EventType_WorkspaceRestored; EventType_WorkspaceForked;
     EventType_SnapshotFailed; EventType_PoolMemberProvisioned; EventType_PoolHit; EventType_PoolMiss;
     EventType_PoolMemberEvicted; EventType_IngressRouteAllowed; EventType_IngressRouteDenied;
     EventType_IngressPortExposed; EventType_IngressPortUnexposed; EventType_AttestationEvidenceIssued;
     EventType_AttestationFailed; EventType_AttestationReplayed] |};
    [apply (bool_decide_unpack _); by vm_compute|intros []; apply (bool_decide_unpack _); by vm_compute].
Defined.
#[export] Instance AuditEvent_dec : EqDecision (AuditEvent Value).
Proof. solve_decision. Defined.
#[export] Instance AuditEvent_countable : Countable (AuditEvent Value).
Proof.
  refine (inj_countable' (fun e => (event_id e, timestamp_ms e, event_type e, AuditChain.workspace_id e, payload e,
      chain_index e, prev_hash_hex e, signature_b64 e, signer_pubkey_b64 e))
    (fun '(a, b, c, d, e, f, g, h, i) => Build_AuditEvent a b c d e f g h i) _). by intros [].
Defined.
#[export] Instance SupervisorResponse_dec : EqDecision SupervisorResponse.
Proof. solve_decision. Defined.
#[export] Instance SupervisorResponse_countable : Countable SupervisorResponse.
Proof.
  refine (inj_countable' (fun r => match r with
  | SupervisorResponse_Pong a0 a1 => inl (inl (inl (inl ((a0, a1)))))
  | SupervisorResponse_Capabilities a0 => inl (inl (inl (inr a0)))
  | SupervisorResponse_WorkspaceCreated a0 => inl (inl (inr (inl a0)))
  | SupervisorResponse_WorkspaceTerminated a0 => inl (inl (inr (inr a0)))
  | SupervisorResponse_CommandCompleted a0 => inl (inr (inl (inl a0)))
  | SupervisorResponse_FileWritten a0 => inl (inr (inl (inr a0)))
  | SupervisorResponse_FileRead a0 => inl (inr (inr (inl a0)))
  | SupervisorResponse_Events a0 => inl (inr (inr (inr (inl a0))))
  | SupervisorResponse_WorkspacePaused a0 => inl (inr (inr (inr (inr a0))))
  | SupervisorResponse_WorkspaceResumed a0 => inr (inl (inl (inl a0)))
  | SupervisorResponse_SnapshotCreated a0 => inr (inl (inl (inr a0)))
  | SupervisorResponse_WorkspaceRestored a0 => inr (inl (inr (inl a0)))
  | SupervisorResponse_WorkspaceForked a0 => inr (inl (inr (inr (inl a0))))
  | SupervisorResponse_PoolStatus a0 => inr (inl (inr (inr (inr a0))))
  | SupervisorResponse_CapacitySnapshot a0 => inr (inr (inl (inl a0)))
  | SupervisorResponse_PortExposed a0 a1 => inr (inr (inl (inr ((a0, a1)))))
  | SupervisorResponse_PortUnexposed a0 a1 => inr (inr (inr (inl ((a0, a1)))))
  | SupervisorResponse_AttestationEvidenceIssued a0 => inr (inr (inr (inr (inl a0))))
  | SupervisorResponse_Error a0 a1 => inr (inr (inr (inr (inr ((a0, a1))))))
  end) (fun c => match c with
  | inl (inl (inl (inl ((a0, a1))))) => SupervisorResponse_Pong a0 a1
  | inl (inl (inl (inr a0))) => SupervisorResponse_Capabilities a0
  | inl (inl (inr (inl a0))) => SupervisorResponse_WorkspaceCreated a0
  | inl (inl (inr (inr a0))) => SupervisorResponse_WorkspaceTerminated a0
  | inl (inr (inl (inl a0))) => SupervisorResponse_CommandCompleted a0
  | inl (inr (inl (inr a0))) => SupervisorResponse_FileWritten a0
  | inl (inr (inr (inl a0))) => SupervisorResponse_FileRead a0
  | inl (inr (inr (inr (inl a0)))) => SupervisorResponse_Events a0
  | inl (inr (inr (inr (inr a0)))) => SupervisorResponse_WorkspacePaused a0
  | inr (inl (inl (inl a0))) => SupervisorResponse_WorkspaceResumed a0
  | inr (inl (inl (inr a0))) => SupervisorResponse_SnapshotCreated a0
  | inr (inl (inr (inl a0))) => SupervisorResponse_WorkspaceRestored a0
  | inr (inl (inr (inr (inl a0)))) => SupervisorResponse_WorkspaceForked a0
  | inr (inl (inr (inr (inr a0)))) => SupervisorResponse_PoolStatus a0
  | inr (inr (inl (inl a0))) => SupervisorResponse_CapacitySnapshot a0
  | inr (inr (inl (inr ((a0, a1))))) => SupervisorResponse_PortExposed a0 a1
  | inr (inr (inr (inl ((a0, a1))))) => SupervisorResponse_PortUnexposed a0 a1
  | inr (inr (inr (inr (inl a0)))) => SupervisorResponse_AttestationEvidenceIssued a0
  | inr (inr (inr (inr (inr ((a0, a1)))))) => SupervisorResponse_Error a0 a1
  end) _). by intros [].
Defined.

Definition supervisor_codec : Codec SupervisorRequest SupervisorResponse := toy_codec.
Lemma supervisor_codec_laws : CodecLaws SupervisorRequest SupervisorResponse supervisor_codec.
Proof. apply toy_codec_laws. Qed.

(** ** A codec with the size of JSON

    Requests padded with leading spaces, so that a write takes two characters for each byte of the
    file, as an array of numbers does. *)
Definition padding (q : SupervisorRequest) : nat :=
  match q with SupervisorRequest_WriteFile r => (2 * length (wr_content r))%nat | _ => 0%nat end.
Fixpoint drop_spaces (s : string) : string :=
  match s with String c r => if Ascii.eqb c " " then drop_spaces r else s | EmptyString => s end.
Definition spaced_codec : Codec SupervisorRequest SupervisorResponse := {|
  encode_req := fun q => Some (replicate (padding q) 32%Z ++ bytes_of (toy_text q));
  decode_req := fun s => match toy_untext (drop_spaces s) with Some q => Ok q | None => Err "malformed" end;
  encode_resp := fun p => Some (bytes_of (toy_text p));
  decode_resp := toy_untext;
|}.
Lemma drop_spaces_text {T} `{Countable T} n (x : T) : drop_spaces (string_of (replicate n 32%Z ++ bytes_of (toy_text x))) = toy_text x.
Proof.
  induction n as [|n IH]; [|exact IH]. cbn [replicate app]. rewrite string_of_bytes_of. unfold toy_text. by destruct (encode x).
Qed.
Lemma spaced_line n b : json_line b -> json_line (replicate n 32%Z ++ b).
Proof.
  intros H. induction n as [|n (Hb & Hu & Hn & Hl)]; [done|]. cbn [replicate app]. split_and!.
  - constructor; [by unfold is_byte|done].
  - exact Hu.
  - rewrite not_elem_of_cons. done.
  - by rewrite last_cons, Hl.
Qed.
Lemma spaced_codec_laws : CodecLaws SupervisorRequest SupervisorResponse spaced_codec.
Proof.
  constructor; [by eexists|by eexists|..].
  - intros q b [= <-]. apply spaced_line, toy_text_line.
  - intros p b [= <-]. apply toy_text_line.
  - intros q b [= <-]. cbn [decode_req spaced_codec]. by rewrite drop_spaces_text, toy_untext_text.
  - intros p b [= <-]. cbn. by rewrite string_of_bytes_of, toy_untext_text.
Qed.
Lemma spaced_write_size r b : encode_req (Codec := spaced_codec) (SupervisorRequest_WriteFile r) = Some b ->
  (2 * blen (wr_content r) < blen b)%Z.
Proof.
  intros Hb. apply (inj Some) in Hb as <-. rewrite blen_app. assert (0 < blen (bytes_of (toy_text (SupervisorRequest_WriteFile r))))%Z as H.
  { unfold toy_text. rewrite bytes_of_app, blen_app. change (blen (bytes_of "}")) with 1%Z. unfold blen at 1. lia. }
  assert (blen (replicate (padding (SupervisorRequest_WriteFile r)) 32%Z) = 2 * blen (wr_content r))%Z as ->; [|lia].
  unfold blen. rewrite length_replicate. cbn [padding]. lia.
Qed.
