(* ===== verification/StackDemo.v ===== *)
(** * The stack at work

    The theorems of [Api] and [Deployment] on concrete requests: the supervisor
    of [Scenario] behind its socket, with the codec of [MessageCodec]. *)

From S2P Require Import Prelude Text Profile Fleet Capacity Ownership Lifecycle Json Crypto AuditChain.
From S2P Require Import Snapshot Ingress Network Bytes GuestFiles Wire GuestAgent Attestation Image.
From S2P Require Import Firecracker Pool Protocol PublicEvidence Prog Manager Command Resources Actions Handlers Scenario Supervisor.
From S2P Require Import ApiAuth ApiCore ApiGrpc ApiRest Api Deployment MessageCodec.

Module StackDemo.
Import Scenario.
#[local] Existing Instances supervisor_codec supervisor_codec_laws AgentDemo.codec_laws AttestDemo.toy_env toy_vec_laws.

Definition call (io : DispatchIo) (c : RestCall) (w : World) : HttpResponse * World :=
  rest cfg0 4096 true key0 generate0 texts0 "0.1.0" stamps0 "0.1.0" 5 "io" "serde" (fun _ => "base64")
    (PeerAuth_RequireUid 998) 998 io c w.
Lemma fits_line q b : encode_req q = Some b -> (blen b + 1 <=? MAX_IPC_FRAME_BYTES) = true -> line_fits q.
Proof. intros Hb Hl x Hx. rewrite Hb in Hx. injection Hx as <-. by apply Z.leb_le. Qed.

Lemma capabilities_are_enforced_witness :
  exists c, fst (call request_io Rest_runtime_capabilities world1) = {| http_status := 200; http_body := Body_capabilities c |}.
Proof.
  destruct (capabilities_are_enforced cfg0 4096 true key0 generate0 texts0 "0.1.0" stamps0 "0.1.0" 5 "io" "serde"
    (fun _ => "base64") (PeerAuth_RequireUid 998) 998 request_io world1 eq_refl) as (c & Hc & _).
  - eapply fits_line; [vm_compute; reflexivity|vm_compute; reflexivity].
  - exists c. unfold call. rewrite Hc. reflexivity.
Defined.

Definition body0 : WriteFileBody := {| wb_path := "a.txt"; wb_content := b64_encode [1; 2; 3]; wb_guest_port := 0 |}.
Definition query0 : ReadFileQuery := {| rq_path := "a.txt"; rq_max_bytes := 2; rq_guest_port := 0 |}.
Definition chroot1 : path := ["srv"; "firecracker"; "w1"; "root"].
Definition vm1 : Vm := default {| vm_pid := 0; vm_calls := []; vm_guest := None; vm_paused := true |} (h_vms (w_host world1) !! chroot1).
Definition guest1 : Guest := default base_guest (vm_guest vm1).
Definition after_put : World := snd (call request_io (Rest_write_file "w1" body0) world1).
Lemma running1 : running world1 "w1" chroot1 vm1 guest1.
Proof. do 2 eexists. split; [vm_compute; reflexivity|]. split_and!; vm_compute; reflexivity. Qed.
Lemma no_links1 p a l : g_fs guest1 !! p <> Some (Node_symlink a l).
Proof.
  assert (forallb (fun x => match x.2 with Node_symlink _ _ => false | _ => true end) (map_to_list (g_fs guest1)) = true) as H
    by (vm_compute; reflexivity).
  intros Hp%elem_of_map_to_list%list_elem_of_In. by apply (proj1 (forallb_forall _ _) H) in Hp.
Qed.
Lemma put_fits : call_fits (ca_env call_io) (ca_call call_io) (GuestRequest_WriteFile {| wf_path := "a.txt"; wf_content := [1; 2; 3] |}) guest1.
Proof. eapply AgentDemo.fits0; [vm_compute; reflexivity|vm_compute; reflexivity|vm_compute; reflexivity]. Qed.
Lemma get_fits : call_fits (ca_env call_io) (ca_call call_io) (GuestRequest_ReadFile {| rf_path := "a.txt"; rf_max_bytes := 2 |})
  (snd (guest_dispatch (ca_env call_io) (GuestRequest_WriteFile {| wf_path := "a.txt"; wf_content := [1; 2; 3] |}) guest1)).
Proof. eapply AgentDemo.fits0; [vm_compute; reflexivity|vm_compute; reflexivity|vm_compute; reflexivity]. Qed.
Lemma put_line : line_fits (SupervisorRequest_WriteFile
  {| wr_workspace_id := "w1"; wr_guest_port := 52; wr_path := "a.txt"; wr_content := [1; 2; 3] |}).
Proof. eapply fits_line; [vm_compute; reflexivity|vm_compute; reflexivity]. Qed.
Lemma get_line : line_fits (SupervisorRequest_ReadFile
  {| rd_workspace_id := "w1"; rd_guest_port := 52; rd_path := "a.txt"; rd_max_bytes := 2 |}).
Proof. eapply fits_line; [vm_compute; reflexivity|vm_compute; reflexivity]. Qed.
Lemma put_then_get_witness :
  fst (call request_io (Rest_read_file "w1" query0) after_put)
  = {| http_status := 200; http_body := Body_read
         {| rfr_workspace_id := "w1"; rfr_content := b64_encode [1; 2]; rfr_size_bytes := 3; rfr_truncated := true |} |}.
Proof.
  refine (proj2 (put_then_get cfg0 4096 true key0 generate0 texts0 "0.1.0" stamps0 "0.1.0" 5 "io" "serde" (fun _ => "base64")
    (PeerAuth_RequireUid 998) 998 request_io request_io "w1" body0 query0 [1; 2; 3] world1 after_put
    (fst (call request_io (Rest_write_file "w1" body0) world1)) chroot1 vm1 guest1
    eq_refl running1 AgentDemo.usable0 AgentDemo.usable0 eq_refl put_fits get_fits _ eq_refl eq_refl _ put_line get_line _ _)).
  - intros rel p a l _ Hp. by apply no_links1 in Hp.
  - cbn. lia.
  - apply surjective_pairing.
  - vm_compute. reflexivity.
Defined.

Definition fork0 : ForkBody := {| fb_new_workspace_id := "w2"; fb_hostname := None |}.
Lemma reset_works0 : reset_works (rq_boot (d_restore request_io)) "w2" (replicate 32 5).
Proof.
  split; [reflexivity|]. split; [exact AgentDemo.usable0|]. intros g. eapply AgentDemo.fits0; [vm_compute; reflexivity|..].
  - cbn [guest_dispatch reset_request]. unfold reset_identity. vm_compute. reflexivity.
  - vm_compute. reflexivity.
Qed.
Lemma fork_line : line_fits (SupervisorRequest_ForkWorkspace
  {| fk_snapshot_id := "base"; fk_new_workspace_id := "w2"; fk_hostname := None |}).
Proof. eapply fits_line; [vm_compute; reflexivity|vm_compute; reflexivity]. Qed.
Lemma fork_run :
  http_status (fst (call request_io (Rest_fork_workspace "base" fork0) world1)) = CREATED
  /\ snd (call request_io (Rest_fork_workspace "base" fork0) world1) = world2.
Proof.
  unfold call, rest. cbn [router]. unfold rest_fork_workspace, fork_workspace.
  rewrite run_respond by (reflexivity || exact fork_line). split; [vm_compute; reflexivity|reflexivity].
Qed.
Lemma fork_has_its_own_identity_witness :
  exists vm g, h_vms (w_host world2) !! ["srv"; "firecracker"; "w2"; "root"] = Some vm /\ vm_guest vm = Some g
    /\ g_hostname g = "w2" /\ g_machine_id g = "44444444444444444444444444444444" +:+ newline_text.
Proof.
  destruct (fork_has_its_own_identity cfg0 4096 true key0 generate0 texts0 "0.1.0" stamps0 "0.1.0" 5 "io" "serde"
    (fun _ => "base64") (PeerAuth_RequireUid 998) 998 request_io "base" fork0 world1
    (fst (call request_io (Rest_fork_workspace "base" fork0) world1))
    (snd (call request_io (Rest_fork_workspace "base" fork0) world1)) (replicate 32 5)
    eq_refl fork_line reset_works0 (surjective_pairing _) (proj1 fork_run))
    as (_ & b & i & guard & vm & g & _ & _ & _ & Hi & Hv & Hg & Hh & Hm & _).
  rewrite (proj2 fork_run) in Hi, Hv. exists vm, g. split_and!; [|exact Hg|exact Hh|exact Hm].
  assert (match w_instances world2 !! "w2" with
          | Some (WorkspaceExec_Firecracker i _) => parent_of (i_vsock_host_socket i) | _ => [] end
          = ["srv"; "firecracker"; "w2"; "root"]) as Hp by (vm_compute; reflexivity).
  cbn [fb_new_workspace_id fork0] in Hi. rewrite Hi in Hp. rewrite <- Hp. exact Hv.
Defined.
Lemma list_line : line_fits (SupervisorRequest_ListEvents
  {| AuditChain.req_workspace_id := None; since_chain_index := 0; limit := 100 |}).
Proof. eapply fits_line; [vm_compute; reflexivity|vm_compute; reflexivity]. Qed.
Lemma audit_trail_is_complete_witness :
  exists es, fst (call request_io (Rest_list_events {| lq_workspace_id := None; lq_since_chain_index := 0; lq_limit := 100 |}) world1)
    = {| http_status := 200; http_body := Body_events es |} /\ AuditChain.ok (verify_chain es) = true.
Proof.
  destruct (audit_trail_is_complete cfg0 4096 true key0 generate0 texts0 "0.1.0" stamps0 "0.1.0" 5 "io" "serde"
    (fun _ => "base64") (PeerAuth_RequireUid 998) 998 request_io world1 100 [] eq_refl) as (es & Hes & _ & _ & Hok).
  - intros n k. discriminate.
  - by constructor.
  - lia.
  - vm_compute. split; discriminate.
  - exact list_line.
  - exists es. split; [exact (f_equal fst Hes)|exact Hok].
Defined.

(** *** A file of 512 KiB *)

Definition big : list Z := replicate (Pos.to_nat 524288) 0.
Definition big_body : WriteFileBody := {| wb_path := "a.bin"; wb_content := b64_encode big; wb_guest_port := 0 |}.
Lemma big_bytes : is_bytes big.
Proof. apply Forall_replicate. by unfold is_byte. Qed.
Lemma big_length : blen big = 524288.
Proof. unfold blen, big. rewrite length_replicate. lia. Qed.
Lemma large_files_are_unwritable_witness :
  exists e, fst (rest (SC := spaced_codec) cfg0 4096 true key0 generate0 texts0 "0.1.0" stamps0 "0.1.0" 5 "io" "serde" (fun _ => "base64")
    (PeerAuth_RequireUid 998) 998 request_io (Rest_write_file "w1" big_body) world1) = error_response (CoreError_Transport e).
Proof.
  destruct (large_files_are_unwritable (SC := spaced_codec) (SL := spaced_codec_laws) cfg0 4096 true key0 generate0 texts0 "0.1.0" stamps0
    "0.1.0" 5 "io" "serde" (fun _ => "base64") (PeerAuth_RequireUid 998) 998 request_io "w1" big_body big world1 eq_refl)
    as [e He].
  - exact (b64_round_trip big big_bytes).
  - exact spaced_write_size.
  - reflexivity.
  - rewrite big_length. vm_compute. split; discriminate.
  - exists e. by rewrite He.
Defined.

(** *** A challenge to a confidential workspace *)

Definition nonce1 : string := "0123456789abcdef".
Definition others1 : list string := ["fedcba9876543210"; "short"].
Definition attest1 (nonce : string) (w : World) : HttpResponse * World :=
  attest SupervisorDemo.cfg1 4096 true key0 (software_generate (J := vec0) key0) texts0 "0.1.0" stamps0 "0.1.0" 5 "io" "serde"
    (fun _ => "base64") (PeerAuth_RequireUid 998) 998 request_io "c1" nonce w.
Definition params1 : VerifyParams :=
  {| expected_nonce := bytes_of nonce1; expected_measurement := Some (replicate 32 0);
     accept_provider_types := [ProviderType_Software]; freshness := 300; now := 2;
     trust_anchor := TrustAnchor_Software (Crypto.verifying_key key0) |}.
Lemma challenge_lines : Forall (fun nonce => forall n, b64_decode nonce = Some n -> line_fits (challenge "c1" n)) (nonce1 :: others1).
Proof.
  repeat constructor; intros n [= <-]; (eapply fits_line; [vm_compute; reflexivity|vm_compute; reflexivity]).
Qed.
Lemma params1_match : params_match
  {| req_workspace_id := "c1"; req_measurement := replicate 32 0; req_nonce := bytes_of nonce1 |} ProviderType_Software
  (Z.min (d_now request_io) I64_MAX) params1.
Proof. constructor; cbn; unfold I64_MIN, I64_MAX, U64_MAX; try lia; try reflexivity; [by left|vm_compute; split; discriminate]. Qed.
Lemma challenge_is_answered_once_witness :
  let '(h, w1) := attest1 nonce1 SupervisorDemo.world_c in
  (exists p ev, h = {| http_status := OK; http_body := Body_evidence p |}
     /\ evidence_of_public p = Ok ev /\ Attestation.verify (J := vec0) ev params1 = VerifyOutcome_Verified)
  /\ http_status (fst (attest1 nonce1 (fold_left (fun w n => snd (attest1 n w)) others1 w1))) = 409.
Proof.
  assert (exists s g, w_instances SupervisorDemo.world_c !! "c1" = Some (WorkspaceExec_OpenShell s g)) as (s & g & Hi)
    by (do 2 eexists; vm_compute; reflexivity).
  pose proof (challenge_is_answered_once SupervisorDemo.cfg1 4096 true key0 (software_generate (J := vec0) key0) texts0 "0.1.0" stamps0
    "0.1.0" 5 "io" "serde" (fun _ => "base64") (PeerAuth_RequireUid 998) 998 request_io request_io "c1" nonce1
    (bytes_of nonce1) (WorkspaceExec_OpenShell s g) key0 params1 others1 SupervisorDemo.world_c eq_refl eq_refl
    (fun _ _ => eq_refl) Hi eq_refl) as H.
  assert (ring SupervisorDemo.world_c "c1" = Nonces.empty_ring) as Hr by (vm_compute; reflexivity). rewrite Hr in H.
  specialize (H Nonces.ring_ok_empty (not_elem_of_empty _) eq_refl challenge_lines params1_match eq_refl).
  specialize (H ltac:(cbn; lia)). fold (attest1 nonce1 SupervisorDemo.world_c) in H.
  generalize dependent (attest1 nonce1 SupervisorDemo.world_c). intros [h w1] [H1 H2]. split; [exact H1|]. unfold attest1. by rewrite H2.
Defined.
End StackDemo.
