(* ===== verification/Startup.v ===== *)
(** * Starting the supervisor ([crates/ne-supervisor/src/serve.rs],
    [crates/ne-supervisor/src/attestation_factory.rs],
    [crates/ne-supervisor/src/signing.rs], the guard of
    [crates/ne-ingress/src/tls.rs])

    From the configuration and the host to a supervisor that serves: the host's
    signing key, the requirements of the execution profile, the attestation
    provider, the admission ceilings, the ingress edge and the socket.  [serve]
    is the code up to its serving loop, in the order of the source,
    with every early return; what the host answers is the record [StartIo].
    The theorems say when it starts, that what starts is closed, and that the
    manager it starts is the one whose executions [Supervisor] is about. *)

From S2P Require Import Prelude Text Profile Fleet Capacity Ownership Lifecycle Json Crypto AuditChain.
From S2P Require Import Snapshot Ingress Network Bytes GuestFiles Wire GuestAgent Attestation Image.
From S2P Require Import Firecracker Pool Protocol Prog Manager Command Resources Actions Handlers Scenario Supervisor.
From S2P Require Import ApiAuth.

(** An [anyhow] error: its messages, the outermost context first. *)
Definition Chain : Type := list string.
Definition context {A} (what : string) (r : result Chain A) : result Chain A := map_err (cons what) r.
Definition bail {A} (what : string) : result Chain A := Err [what].

(** ** The signing key *)

(** [SigningKey::to_bytes] and [SigningKey::from_bytes] of [ed25519-dalek]. *)
Class KeyBytes (C : Crypto) := {
  sk_to_bytes : SigningKey -> list Z;
  sk_from_bytes : list Z -> SigningKey;
}.
Class KeyBytesLaws (C : Crypto) (B : KeyBytes C) : Prop := {
  sk_round_trip k : sk_from_bytes (sk_to_bytes k) = k;
  sk_length k : length (sk_to_bytes k) = 32%nat;
}.

Inductive KeyError := KeyError_Io (e : string) | KeyError_Key (message : string).
Definition KeyError_to_string (e : KeyError) : string :=
  match e with KeyError_Io e => "io: " +:+ e | KeyError_Key m => "key error: " +:+ m end.
(** The two files of the keys directory, each with its mode and its content. *)
Record KeysDir := { kd_priv : option (Z * list Z); kd_pub : option (Z * list Z) }.
Definition set_priv (f : option (Z * list Z)) (d : KeysDir) : KeysDir := {| kd_priv := f; kd_pub := kd_pub d |}.
Definition set_pub (f : option (Z * list Z)) (d : KeysDir) : KeysDir := {| kd_priv := kd_priv d; kd_pub := f |}.
(** A [tokio::fs::write] of a whole file: done, not opened, or stopped after some bytes. *)
Inductive WriteOutcome := Write_done | Write_refused (e : string) | Write_torn (n : nat) (e : string).
Definition write_whole (io : WriteOutcome) (umask_mode : Z) (content : list Z) (old : option (Z * list Z))
    : result string unit * option (Z * list Z) :=
  let mode := match old with Some f => f.1 | None => umask_mode end in
  match io with
  | Write_done => (Ok tt, Some (mode, content))
  | Write_refused e => (Err e, old)
  | Write_torn n e => (Err e, Some (mode, take n content))
  end.
Record KeyIo := {
  kio_read : result string unit; kio_write_priv : WriteOutcome; kio_write_pub : WriteOutcome;
  kio_chmod : result string unit }.

Section Signing.
Context {C : Crypto} {B : KeyBytes C} (umask_mode : Z) (priv_path : string).
Definition load_or_create_signing_key (io : KeyIo) (generated : SigningKey) : M KeysDir KeyError SigningKey := fun d =>
  match kd_priv d with
  | Some (_, bytes) =>
      match kio_read io with
      | Err e => (Err (KeyError_Io e), d)
      | Ok _ =>
          if negb (length bytes =? 32)%nat
          then (Err (KeyError_Key (priv_path +:+ " has " +:+ show_uint (blen bytes) +:+ " bytes, expected 32")), d)
          else (Ok (sk_from_bytes bytes), d)
      end
  | None =>
      let '(r, priv) := write_whole (kio_write_priv io) umask_mode (sk_to_bytes generated) (kd_priv d) in
      let d1 := set_priv priv d in
      match r with
      | Err e => (Err (KeyError_Io e), d1)
      | Ok _ =>
          let '(r, pub) :=
            write_whole (kio_write_pub io) umask_mode (vk_to_bytes (Crypto.verifying_key generated)) (kd_pub d1) in
          let d2 := set_pub pub d1 in
          match r with
          | Err e => (Err (KeyError_Io e), d2)
          | Ok _ =>
              match kio_chmod io with
              | Err e => (Err (KeyError_Io e), d2)
              | Ok _ => (Ok generated, set_priv (Some (384, sk_to_bytes generated)) d2)
              end
          end
      end
  end.
End Signing.

(** ** Attestation provider and requirements *)

Inductive ProviderSource := ProviderSource_Software | ProviderSource_SevGuestIoctl | ProviderSource_AzureVtpm.
Record StartupRequirements := {
  rq_linux_x86_64 : bool;
  rq_kvm : bool;
  rq_azure_vtpm : bool;
  rq_firecracker : bool;
  rq_jailer : bool;
  rq_openshell_sandbox : bool;
  rq_openshell_policy_rules : bool;
  rq_openshell_policy_data : bool;
  rq_sandbox_user : bool;
}.
Inductive ProfileStartupError :=
| ProfileStartupError_LegacyConfidentialSwitch
| ProfileStartupError_ProviderInit (backend : AttestationBackend) (message : string)
| ProfileStartupError_RequirementMissing (profile : ExecutionProfile) (requirement : string)
| ProfileStartupError_RequirementConflict (profile : ExecutionProfile) (message : string).
Definition backend_debug (b : AttestationBackend) : string :=
  match b with
  | AttestationBackend_Software => "Software"
  | AttestationBackend_SevSnpDirect => "SevSnpDirect"
  | AttestationBackend_SevSnpAzure => "SevSnpAzure"
  end.
Definition ProfileStartupError_to_string (e : ProfileStartupError) : string :=
  match e with
  | ProfileStartupError_LegacyConfidentialSwitch =>
      "NE_CONFIDENTIAL_MODE is no longer supported; set NE_EXECUTION_PROFILE=confidential-azure"
  | ProfileStartupError_ProviderInit b m =>
      "attestation provider initialization failed for " +:+ backend_debug b +:+ ": " +:+ m
  | ProfileStartupError_RequirementMissing p r =>
      "execution profile " +:+ profile_to_string p +:+ " is missing requirement " +:+ r
  | ProfileStartupError_RequirementConflict p m =>
      "execution profile " +:+ profile_to_string p +:+ " conflicts with host state: " +:+ m
  end.

Definition validate_legacy_confidential_switch (present : bool) : result ProfileStartupError unit :=
  if present then Err ProfileStartupError_LegacyConfidentialSwitch else Ok tt.
Definition provider_source (b : AttestationBackend) : ProviderSource :=
  match b with
  | AttestationBackend_Software => ProviderSource_Software
  | AttestationBackend_SevSnpDirect => ProviderSource_SevGuestIoctl
  | AttestationBackend_SevSnpAzure => ProviderSource_AzureVtpm
  end.
Definition require (profile : ExecutionProfile) (requirement : string) (present : bool) : result ProfileStartupError unit :=
  if present then Ok tt else Err (ProfileStartupError_RequirementMissing profile requirement).
Definition validate_startup_requirements (profile : ExecutionProfile) (r : StartupRequirements)
    : result ProfileStartupError unit :=
  if negb (rq_linux_x86_64 r)
  then Err (ProfileStartupError_RequirementConflict profile "supported runtime hosts are Linux x86_64")
  else
    match profile with
    | ExecutionProfile_Standard =>
        _ ← require profile "kvm" (rq_kvm r);
        _ ← require profile "firecracker" (rq_firecracker r);
        require profile "jailer" (rq_jailer r)
    | ExecutionProfile_ConfidentialAzure =>
        _ ← require profile "azure-vtpm" (rq_azure_vtpm r);
        _ ← require profile "openshell-sandbox" (rq_openshell_sandbox r);
        _ ← require profile "openshell-policy-rules" (rq_openshell_policy_rules r);
        _ ← require profile "openshell-policy-data" (rq_openshell_policy_data r);
        require profile "sandbox-user" (rq_sandbox_user r)
    end.

Section Provider.
Context {C : Crypto} {E : AttestEnv} {V : JsonVec unit}.
(** The device of the direct source, and the certificate service behind its cache. *)
Definition SnpSource : Type := list Z -> result AttestationError SnpReport.
Definition VcekFetcher : Type := list Z -> Z -> result Vcek.VcekError (list Z).
Inductive Provider :=
| Provider_Software (signing_key : SigningKey)
| Provider_SevSnp (source : SnpSource) (vcek : VcekFetcher)
| Provider_Azure (tpm : Tpm2) (vcek : VcekFetcher).
(** [AttestationProvider::generate]. *)
Definition provider_generate (p : Provider) : EvidenceRequest -> Z -> result AttestationError Evidence :=
  match p with
  | Provider_Software k => software_generate k
  | Provider_SevSnp source vcek => sev_snp_generate source vcek
  | Provider_Azure tpm vcek => generate_azure tpm vcek
  end.
Definition build_provider (sev_open : result string SnpSource) (tpm : Tpm2) (vcek : VcekFetcher)
    (backend : AttestationBackend) (signing_key : SigningKey) : result ProfileStartupError Provider :=
  match provider_source backend with
  | ProviderSource_Software => Ok (Provider_Software signing_key)
  | ProviderSource_SevGuestIoctl =>
      source ← map_err (ProfileStartupError_ProviderInit backend) sev_open;
      Ok (Provider_SevSnp source vcek)
  | ProviderSource_AzureVtpm =>
      _ ← map_err (ProfileStartupError_ProviderInit backend) (azure_open tpm);
      Ok (Provider_Azure tpm vcek)
  end.
End Provider.

(** ** The configuration and the host *)

Record SupervisorConfig := {
  sc_execution_profile : ExecutionProfile;
  sc_socket : path;
  sc_expected_peer_uid : option Z;
  sc_dev_mode : bool;
  sc_firecracker_binary : path;
  sc_jailer_binary : path;
  sc_jailer_chroot_base : path;
  sc_image_store : path;
  sc_jailer_uid : Z;
  sc_jailer_gid : Z;
  sc_openshell_sandbox_binary : path;
  sc_state_dir : path;
  sc_max_workspaces : Z;
  sc_max_workspace_mem_mib : Z;
  sc_enable_networking : bool;
  sc_upstream_iface : string;
  sc_dns_filter_binary : option string;
  sc_dns_upstream : string;
  sc_privacy_router_binary : option string;
  sc_privacy_router_policy : option string;
  sc_warm_pool_tier : option string;
  sc_warm_pool_snapshot : option string;
  sc_warm_pool_size : Z;
  sc_warm_pool_max_in_flight : Z;
  sc_ingress_domain : option string;
  sc_ingress_listen : SocketAddr;
  sc_ingress_max_connections : Z;
  sc_ingress_tls_cert : option path;
  sc_ingress_tls_key : option path;
}.
Definition resolve_auth (c : SupervisorConfig) : result Chain PeerAuth :=
  match sc_dev_mode c, sc_expected_peer_uid c with
  | true, _ => Ok PeerAuth_DevDisabled
  | false, Some uid => Ok (PeerAuth_RequireUid uid)
  | false, None =>
      bail "refusing to start: production mode requires --expected-peer-uid; pass --dev-mode for local development"
  end.

(** [Path::exists], [Path::is_file] and the mode of an executable follow links. *)
Definition stat (fs : Fs) (p : path) : option Node :=
  match resolve_path fs p with Ok q => node fs q | Err _ => None end.
Definition path_exists (fs : Fs) (p : path) : bool := bool_decide (is_Some (stat fs p)).
Definition path_is_file (fs : Fs) (p : path) : bool :=
  match stat fs p with Some (Node_file _ _) => true | _ => false end.
Definition path_is_executable (fs : Fs) (p : path) : bool :=
  match stat fs p with Some (Node_file mode _) => negb (Z.land mode 73 =? 0) | _ => false end.

Section Serve.
Context {H : Hypervisor} {C : Crypto} {B : KeyBytes C} {E : AttestEnv} {V : JsonVec unit} {VJ : JsonVec Value}
  {MJ : ManifestJson} {AJ : AuditJson Value}.

(** What start-up meets: three environment variables, the platform, [getent], the file system,
    [/proc/meminfo], the state directory, the devices and services of the attestation providers,
    and the outcome of binding, loading TLS material and installing the two signal handlers. *)
Record StartIo := {
  si_confidential_mode : bool;
  si_allow_software : bool;
  si_allow_public_bind : bool;
  si_linux_x86_64 : bool;
  si_getent_sandbox : bool;
  si_fs : Fs;
  si_meminfo : option string;
  si_keys_dir : result string unit;
  si_key : KeyIo;
  si_umask_mode : Z;
  si_generated : SigningKey;
  si_sev_open : result string SnpSource;
  si_tpm : Tpm2;
  si_vcek : VcekFetcher;
  si_ingress_bind : result string unit;
  si_tls : result string unit;
  si_ipc_bind : result string unit;
  si_sigterm : result string unit;
  si_sigint : result string unit;
}.
Definition probe_startup_requirements (io : StartIo) (c : SupervisorConfig) : StartupRequirements := {|
  rq_linux_x86_64 := si_linux_x86_64 io;
  rq_kvm := path_exists (si_fs io) ["dev"; "kvm"];
  rq_azure_vtpm := path_exists (si_fs io) ["dev"; "tpmrm0"];
  rq_firecracker := path_is_executable (si_fs io) (sc_firecracker_binary c);
  rq_jailer := path_is_executable (si_fs io) (sc_jailer_binary c);
  rq_openshell_sandbox := path_is_executable (si_fs io) (sc_openshell_sandbox_binary c);
  rq_openshell_policy_rules := path_is_file (si_fs io) (sc_state_dir c ++ ["openshell"; "policy.rego"]);
  rq_openshell_policy_data := path_is_file (si_fs io) (sc_state_dir c ++ ["openshell"; "policy.yaml"]);
  rq_sandbox_user := si_getent_sandbox io |}.

Definition FALLBACK_MIB : Z := 2048.
Definition mem_total (contents : string) : option Z :=
  rest ← head (omap (strip_prefix "MemTotal:") (lines contents));
  kb_str ← head (split_whitespace rest);
  kb ← parse_uint U64_MAX kb_str;
  let mib := kb / 1024 in
  if 0 <? mib then Some mib else None.
Definition read_host_ram_mib (meminfo : option string) : Z :=
  match meminfo with
  | None => FALLBACK_MIB
  | Some contents => default FALLBACK_MIB (mem_total contents)
  end.
Definition resolved_workspaces (io : StartIo) (c : SupervisorConfig) : Z :=
  if sc_max_workspaces c =? 0 then derive_max_workspaces (read_host_ram_mib (si_meminfo io)) else sc_max_workspaces c.
Definition resolved_mem_mib (io : StartIo) (c : SupervisorConfig) : Z :=
  if sc_max_workspace_mem_mib c =? 0 then Z.min (read_host_ram_mib (si_meminfo io)) 32768
  else sc_max_workspace_mem_mib c.

Definition network_of (c : SupervisorConfig) : option Inner :=
  if sc_enable_networking c
  then Some {| upstream_iface := sc_upstream_iface c; dns_filter_binary := sc_dns_filter_binary c;
               dns_upstream := sc_dns_upstream c; privacy_router_binary := sc_privacy_router_binary c;
               privacy_router_policy := sc_privacy_router_policy c; Network.audit := true |}
  else None.
Definition warm_pool_of (c : SupervisorConfig) : result Chain (option WarmPoolConfig) :=
  let incomplete := bail
    "incomplete warm-pool config: set --warm-pool-tier, --warm-pool-snapshot, and --warm-pool-size together" in
  match sc_warm_pool_tier c, sc_warm_pool_snapshot c with
  | Some tier, Some snapshot =>
      if 0 <? sc_warm_pool_size c
      then Ok (Some {| tier_name := tier; base_snapshot_id := snapshot; target_size := sc_warm_pool_size c;
                       max_in_flight := Z.max (sc_warm_pool_max_in_flight c) 1 |})
      else incomplete
  | None, None => if sc_warm_pool_size c =? 0 then Ok None else incomplete
  | _, _ => incomplete
  end.
Definition software_gate (io : StartIo) (c : SupervisorConfig) : result Chain unit :=
  match attestation_backend (sc_execution_profile c) with
  | AttestationBackend_Software =>
      if software_provider_allowed (sc_dev_mode c) (si_allow_software io) then Ok tt
      else bail "software attestation refused: not in dev mode and NE_ATTEST_ALLOW_SOFTWARE is not set. Set it to explicitly permit non-firmware-rooted (software) attestation in this deployment, or configure a hardware attestation provider."
  | _ => Ok tt
  end.
Definition manager_config (c : SupervisorConfig) (pool : option WarmPoolConfig) : WorkspaceManagerConfig := {|
  cf_firecracker_binary := sc_firecracker_binary c;
  cf_jailer_binary := sc_jailer_binary c;
  cf_chroot_base := sc_jailer_chroot_base c;
  cf_image_store := sc_image_store c;
  cf_jailer_uid := sc_jailer_uid c;
  cf_jailer_gid := sc_jailer_gid c;
  cf_openshell_sandbox_binary := sc_openshell_sandbox_binary c;
  cf_default_kernel_boot_args := "console=ttyS0 reboot=k panic=1 pci=off";
  cf_execution_profile := sc_execution_profile c;
  cf_network := network_of c;
  cf_state_dir := sc_state_dir c;
  cf_warm_pool := pool |}.

(** [plaintext_listener_allowed] of the ingress crate. *)
Definition plaintext_listener_allowed (bind : IpAddr) (dev_mode allow_public_bind : bool) : result string unit :=
  if is_loopback bind || (dev_mode && allow_public_bind) then Ok tt
  else Err "plaintext ingress refused on non-loopback bind in production".
Inductive IngressMode := Ingress_https | Ingress_plaintext.
Record IngressEdge := { ie_domain : string; ie_listen : SocketAddr; ie_max_connections : Z; ie_mode : IngressMode }.
Definition start_ingress (io : StartIo) (c : SupervisorConfig) : result Chain (option IngressEdge) :=
  match sc_ingress_domain c with
  | None => Ok None
  | Some domain =>
      let edge mode := {| ie_domain := domain; ie_listen := sc_ingress_listen c;
                          ie_max_connections := sc_ingress_max_connections c; ie_mode := mode |} in
      _ ← context "bind ingress listener" (map_err (fun e => [e]) (si_ingress_bind io));
      match sc_ingress_tls_cert c, sc_ingress_tls_key c with
      | Some _, Some _ =>
          _ ← context "load ingress TLS cert/key" (map_err (fun e => [e]) (si_tls io));
          Ok (Some (edge Ingress_https))
      | None, None =>
          _ ← context "plaintext ingress guard" (map_err (fun e => [e])
                (plaintext_listener_allowed (sa_ip (sc_ingress_listen c)) (sc_dev_mode c) (si_allow_public_bind io)));
          Ok (Some (edge Ingress_plaintext))
      | _, _ => bail "ingress TLS requires BOTH --ingress-tls-cert and --ingress-tls-key (or neither for plaintext)"
      end
  end.

(** ** Start-up *)

(** What start-up changes outside the process: the keys directory, whether the refill loop was
    started, and whether the service manager was told that the daemon is ready.  The audit log is
    only read. *)
Record Boot := { bt_keys : KeysDir; bt_log : File; bt_refill : bool; bt_ready : bool }.
Definition set_keys (k : KeysDir) (b : Boot) : Boot :=
  {| bt_keys := k; bt_log := bt_log b; bt_refill := bt_refill b; bt_ready := bt_ready b |}.
Definition refilling (b : Boot) : Boot :=
  {| bt_keys := bt_keys b; bt_log := bt_log b; bt_refill := true; bt_ready := bt_ready b |}.
Definition notified_ready (b : Boot) : Boot :=
  {| bt_keys := bt_keys b; bt_log := bt_log b; bt_refill := bt_refill b; bt_ready := true |}.
(** What the serving loop then runs on. *)
Record Serving := {
  sv_auth : PeerAuth;
  sv_audit : AuditLog;
  sv_provider : Provider;
  sv_config : WorkspaceManagerConfig;
  sv_ceiling : Z;
  sv_mem_mib : Z;
  sv_world : World;
  sv_ingress : option IngressEdge;
}.

(** [AuditLog::open]; [audit_text] is the text of an error of the log. *)
Definition open_audit (io : StartIo) (audit_text : AuditError -> string) (priv_path : string) : M Boot Chain AuditLog := fun b =>
  match si_keys_dir io with
  | Err _ => (Err [audit_text AuditError_Io], b)
  | Ok _ =>
      let '(r, keys) := load_or_create_signing_key (si_umask_mode io) priv_path (si_key io) (si_generated io) (bt_keys b) in
      let b' := set_keys keys b in
      match r with
      | Err e => (Err ["key: " +:+ KeyError_to_string e], b')
      | Ok sk => (map_err (fun e => [audit_text e]) (AuditChain.open sk (bt_log b)), b')
      end
  end.
Definition profile_step (r : result ProfileStartupError unit) : M Boot Chain unit :=
  lift (map_err (fun e => [ProfileStartupError_to_string e]) r).
(** [serve], up to the serving loop.  It reports itself ready, an attempt whose failure is ignored,
    before it installs the signal handlers. *)
Definition serve (io : StartIo) (audit_text : AuditError -> string) (priv_path : string) (h : Host) (c : SupervisorConfig) : M Boot Chain Serving :=
  auth ← lift (resolve_auth c);
  profile_step (validate_legacy_confidential_switch (si_confidential_mode io)) ;;;
  let profile := sc_execution_profile c in
  profile_step (validate_startup_requirements profile (probe_startup_requirements io c)) ;;;
  audit ← (fun b => let '(r, b') := open_audit io audit_text priv_path b in
                    (context "opening audit log + signing key under --state-dir" r, b'));
  provider ← lift (context "construct profile-selected attestation provider"
    (map_err (fun e => [ProfileStartupError_to_string e])
       (build_provider (si_sev_open io) (si_tpm io) (si_vcek io) (attestation_backend profile) (signing_key audit))));
  pool ← lift (warm_pool_of c);
  lift (software_gate io c) ;;;
  ceiling ← lift (map_err (fun e => [e]) (validate_workspace_ceiling (resolved_workspaces io c)));
  let cfg := manager_config c pool in
  world ← lift (context "construct workspace manager" (map_err (fun e => [e])
            (manager_new cfg h {| slots := slots_new; log := [] |} ceiling)));
  modify refilling ;;;
  ingress ← lift (start_ingress io c);
  lift (context "binding supervisor IPC socket" (map_err (fun e => [e]) (si_ipc_bind io))) ;;;
  modify notified_ready ;;;
  lift (context "install SIGTERM handler" (map_err (fun e => [e]) (si_sigterm io))) ;;;
  lift (context "install SIGINT handler" (map_err (fun e => [e]) (si_sigint io))) ;;;
  mret {| sv_auth := auth; sv_audit := audit; sv_provider := provider; sv_config := cfg; sv_ceiling := ceiling;
          sv_mem_mib := resolved_mem_mib io c; sv_world := world; sv_ingress := ingress |}.
End Serve.

(** ** The key survives restarts *)

Section KeyProofs.
Context {C : Crypto} {B : KeyBytes C} {BL : KeyBytesLaws C B} (umask_mode : Z) (priv_path : string).
Local Abbreviation load := (load_or_create_signing_key umask_mode priv_path).

Lemma load_existing io gen d mode bytes :
  kd_priv d = Some (mode, bytes) -> kio_read io = Ok tt -> length bytes = 32%nat ->
  load io gen d = (Ok (sk_from_bytes bytes), d).
Proof. intros Hd Hr Hl. unfold load_or_create_signing_key. by rewrite Hd, Hr, Hl. Qed.
Lemma load_stored io gen d mode k :
  kd_priv d = Some (mode, sk_to_bytes k) -> kio_read io = Ok tt -> load io gen d = (Ok k, d).
Proof. intros Hd Hr. by rewrite (load_existing _ _ _ _ _ Hd Hr (sk_length k)), sk_round_trip. Qed.

(** The host keeps its signing identity: once a start loaded or created a key, every later start that
    can read the file gets the same key and leaves the directory alone; a key that was created is
    stored with mode 0600. *)
Theorem restart_keeps_identity io gen d k d' io2 gen2 :
  load io gen d = (Ok k, d') -> kio_read io2 = Ok tt ->
  load io2 gen2 d' = (Ok k, d') /\ (kd_priv d = None -> fst <$> kd_priv d' = Some 384).
Proof.
  intros Hl Hr. unfold load_or_create_signing_key in Hl. destruct (kd_priv d) as [[mode bytes]|] eqn:Ed.
  - destruct (kio_read io); [|done]. destruct (Nat.eqb_spec (length bytes) 32); [|done]. injection Hl as <- <-.
    split; [by eapply load_existing|done].
  - destruct (kio_write_priv io); [|done..]. cbn in Hl. destruct (kio_write_pub io); [|done..]. cbn in Hl.
    destruct (kio_chmod io); [|done]. injection Hl as <- <-. split; [|done].
    by eapply load_stored.
Qed.

(** C37: A first start that is interrupted leaves a mark.  When writing the private key stops half way, no
    later start succeeds; when a step after it fails, every later start succeeds and the private key
    keeps the mode the process creates files with, since only the start that generates a key
    restricts it. *)
Theorem interrupted_first_start io gen d :
  kd_priv d = None ->
  (forall n e, kio_write_priv io = Write_torn n e -> (n < 32)%nat ->
     exists d', load io gen d = (Err (KeyError_Io e), d')
       /\ forall io2 gen2, exists err, load io2 gen2 d' = (Err err, d'))
  /\ (kio_write_priv io = Write_done -> kio_write_pub io <> Write_done \/ (exists e, kio_chmod io = Err e) ->
     exists err d', load io gen d = (Err err, d')
       /\ forall io2 gen2, kio_read io2 = Ok tt ->
            load io2 gen2 d' = (Ok gen, d') /\ fst <$> kd_priv d' = Some umask_mode).
Proof.
  intros Hd. unfold load_or_create_signing_key at 1 3. rewrite Hd. split.
  - intros n e -> Hn. cbn. eexists. split; [done|]. intros io2 gen2. unfold load_or_create_signing_key. cbn.
    destruct (kio_read io2); [|by eexists].
    assert (length (take n (sk_to_bytes gen)) <> 32%nat) as Hl by (rewrite length_take, sk_length; lia).
    apply Nat.eqb_neq in Hl. rewrite Hl. by eexists.
  - intros -> Hf.
    assert (forall d', kd_priv d' = Some (umask_mode, sk_to_bytes gen) -> forall io2 gen2, kio_read io2 = Ok tt ->
      load io2 gen2 d' = (Ok gen, d') /\ fst <$> kd_priv d' = Some umask_mode) as Hlater.
    { intros d' Hd' io2 gen2 Hr. split; [by eapply load_stored|by rewrite Hd']. }
    cbn. destruct (kio_write_pub io) as [|e|n e]; cbn.
    + destruct Hf as [Hf|[e ->]]; [done|]. do 2 eexists. split; [done|]. by apply Hlater.
    + do 2 eexists. split; [done|]. by apply Hlater.
    + do 2 eexists. split; [done|]. by apply Hlater.
Qed.
End KeyProofs.

(** ** Evidence comes from the provider of the profile *)

Section ProviderProofs.
Context {C : Crypto} {E : AttestEnv} {V : JsonVec unit}.
Lemma azure_evidence tpm vcek r ts ev :
  provider_generate (Provider_Azure tpm vcek) r ts = Ok ev ->
  exists a b c d e f, proof ev = Proof_SevSnpAzure a b c d e f.
Proof.
  cbn. unfold generate_azure. destruct (bool_decide _); [done|]. destruct (get_azure_evidence _ _); [|done].
  cbn [mbind result_bind]. destruct (vcek _ _); [|done]. cbn. intros [= <-]. by repeat eexists.
Qed.
End ProviderProofs.

(** ** When it starts *)

Section ServeProofs.
Context {H : Hypervisor} {C : Crypto} {B : KeyBytes C} {E : AttestEnv} {V : JsonVec unit} {VJ : JsonVec Value}
  {MJ : ManifestJson} {AJ : AuditJson Value}.
Context (audit_text : AuditError -> string) (priv_path : string).

(** The requirements of a profile, as properties of the host. *)
Definition host_ready (io : StartIo) (c : SupervisorConfig) : Prop :=
  si_linux_x86_64 io = true /\
  match sc_execution_profile c with
  | ExecutionProfile_Standard =>
      path_exists (si_fs io) ["dev"; "kvm"] = true
      /\ path_is_executable (si_fs io) (sc_firecracker_binary c) = true
      /\ path_is_executable (si_fs io) (sc_jailer_binary c) = true
  | ExecutionProfile_ConfidentialAzure =>
      path_exists (si_fs io) ["dev"; "tpmrm0"] = true
      /\ path_is_executable (si_fs io) (sc_openshell_sandbox_binary c) = true
      /\ path_is_file (si_fs io) (sc_state_dir c ++ ["openshell"; "policy.rego"]) = true
      /\ path_is_file (si_fs io) (sc_state_dir c ++ ["openshell"; "policy.yaml"]) = true
      /\ si_getent_sandbox io = true
  end.
Lemma requirements_iff io c :
  validate_startup_requirements (sc_execution_profile c) (probe_startup_requirements io c) = Ok tt <-> host_ready io c.
Proof.
  unfold validate_startup_requirements, host_ready, require. cbn [rq_linux_x86_64 probe_startup_requirements rq_kvm rq_firecracker
    rq_jailer rq_azure_vtpm rq_openshell_sandbox rq_openshell_policy_rules rq_openshell_policy_data rq_sandbox_user].
  destruct (si_linux_x86_64 io); cbn [negb]; [|naive_solver].
  destruct (sc_execution_profile c); repeat (destruct (path_exists _ _) || destruct (path_is_executable _ _)
    || destruct (path_is_file _ _) || destruct (si_getent_sandbox _)); cbn; naive_solver.
Qed.

(** Everything a start needs, with what it starts. *)
Record starts (io : StartIo) (h : Host) (c : SupervisorConfig) (b : Boot) (sv : Serving) (keys : KeysDir) : Prop := {
  st_auth : resolve_auth c = Ok (sv_auth sv);
  st_legacy : si_confidential_mode io = false;
  st_host : host_ready io c;
  st_keys_dir : si_keys_dir io = Ok tt;
  st_key : load_or_create_signing_key (si_umask_mode io) priv_path (si_key io) (si_generated io) (bt_keys b)
           = (Ok (signing_key (sv_audit sv)), keys);
  st_log : AuditChain.open (signing_key (sv_audit sv)) (bt_log b) = Ok (sv_audit sv);
  st_provider : build_provider (si_sev_open io) (si_tpm io) (si_vcek io)
                  (attestation_backend (sc_execution_profile c)) (signing_key (sv_audit sv)) = Ok (sv_provider sv);
  st_software : software_gate io c = Ok tt;
  st_pool_config : exists pool, warm_pool_of c = Ok pool /\ sv_config sv = manager_config c pool;
  st_ceiling_is : sv_ceiling sv = resolved_workspaces io c;
  st_ceiling_range : sv_ceiling sv <> 0 /\ sv_ceiling sv <= MAX_RUNNER_WORKSPACES;
  st_mem : sv_mem_mib sv = resolved_mem_mib io c;
  st_world : manager_new (sv_config sv) h {| slots := slots_new; log := [] |} (sv_ceiling sv) = Ok (sv_world sv);
  st_ingress : start_ingress io c = Ok (sv_ingress sv);
  st_ipc : si_ipc_bind io = Ok tt;
  st_sigterm : si_sigterm io = Ok tt;
  st_sigint : si_sigint io = Ok tt;
}.
Lemma ceiling_iff v x : validate_workspace_ceiling v = Ok x <-> x = v /\ v <> 0 /\ v <= MAX_RUNNER_WORKSPACES.
Proof.
  unfold validate_workspace_ceiling, MAX_RUNNER_WORKSPACES, U32_MAX.
  destruct (Z.ltb_spec 4294967295 v); [naive_solver lia|]. destruct (Z.eqb_spec v 0); [naive_solver|].
  destruct (Z.ltb_spec 1000000 v); naive_solver lia.
Qed.
Lemma open_key sk f l : AuditChain.open sk f = Ok l -> signing_key l = sk.
Proof. unfold AuditChain.open. destruct (recover_chain_head f); [|done]. by intros [= <-]. Qed.
Lemma manager_new_Ok cfg h n v : validate_workspace_ceiling v = Ok v -> exists w, manager_new cfg h n v = Ok w.
Proof. intros Hv. unfold manager_new. rewrite Hv. by eexists. Qed.

#[local] Arguments manager_new : simpl never.
#[local] Arguments manager_config : simpl never.
#[local] Arguments slots_new : simpl never.

(** [serve] gets to its loop exactly when everything it needs is there, and then serves what was
    configured, having reported itself ready. *)
Theorem serve_ready_iff io h c b sv b' :
  serve io audit_text priv_path h c b = (Ok sv, b')
  <-> exists keys, starts io h c b sv keys /\ b' = notified_ready (refilling (set_keys keys b)).
Proof.
  unfold serve, profile_step. unfold_m. split.
  - destruct (resolve_auth c) as [auth|] eqn:Ea; [|done]. destruct (si_confidential_mode io) eqn:El; [done|]. cbn.
    destruct (validate_startup_requirements _ _) as [[]|] eqn:Er; [|done]. apply requirements_iff in Er. cbn.
    unfold open_audit. destruct (si_keys_dir io) as [[]|] eqn:Ed; [|done].
    destruct (load_or_create_signing_key (si_umask_mode io) priv_path (si_key io) (si_generated io) (bt_keys b)) as [[sk|] keys] eqn:Ek; [|done].
    destruct (AuditChain.open sk (bt_log b)) as [l|] eqn:Eo; [|done]. cbn.
    pose proof (open_key _ _ _ Eo) as Hsk. rewrite Hsk.
    destruct (build_provider _ _ _ _ _) as [p|] eqn:Ep; [|done]. cbn.
    destruct (warm_pool_of c) as [pool|] eqn:Ew; [|done]. destruct (software_gate io c) as [[]|] eqn:Es; [|done].
    destruct (validate_workspace_ceiling _) as [v|] eqn:Ev; [|done]. apply ceiling_iff in Ev as (-> & Hv). cbn.
    destruct (manager_new _ _ _ _) as [w|] eqn:Em; [|done]. cbn.
    destruct (start_ingress io c) as [i|] eqn:Ei; [|done]. destruct (si_ipc_bind io) as [[]|] eqn:Eb; [|done]. cbn.
    destruct (si_sigterm io) as [[]|] eqn:Eg; [|done]. cbn.
    destruct (si_sigint io) as [[]|] eqn:Eg'; [|done]. cbn. intros [= <- <-]. exists keys. split; [|done].
    constructor; cbn; rewrite ?Hsk; eauto.
  - intros (keys & [Ha Hl Hh Hd Hk Ho Hp Hs (pool & Hw & Hc) Hv Hr Hm Hn Hi Hb Hg Hg'] & ->).
    rewrite Ha, Hl. cbn. rewrite (proj2 (requirements_iff io c) Hh). cbn. unfold open_audit. rewrite Hd, Hk, Ho. cbn.
    rewrite Hp. cbn. rewrite Hw, Hs. rewrite <- Hv, (proj2 (ceiling_iff _ (sv_ceiling sv))) by done. cbn.
    rewrite <- Hc, Hn. cbn. rewrite Hi, Hb. cbn. rewrite Hg, Hg'. cbn. rewrite <- Hm. by destruct sv.
Qed.

Lemma pool_sizes c pool : warm_pool_of c = Ok (Some pool) -> 0 < target_size pool /\ 0 < max_in_flight pool.
Proof.
  unfold warm_pool_of. destruct (sc_warm_pool_tier c), (sc_warm_pool_snapshot c); try done.
  - destruct (Z.ltb_spec 0 (sc_warm_pool_size c)); [|done]. intros [= <-]. cbn. lia.
  - by destruct (_ =? 0).
Qed.
Lemma host_ram_positive m : 0 < read_host_ram_mib m.
Proof.
  unfold read_host_ram_mib, FALLBACK_MIB. destruct m as [s|]; [|lia]. destruct (mem_total s) as [mib|] eqn:Em; cbn; [|lia].
  revert Em. unfold mem_total, mbind, option_bind. do 3 (case_match; [|done]).
  case_match eqn:El; [|done]. apply Z.ltb_lt in El. by intros [= <-].
Qed.
(** The ceilings an operator leaves to the host are positive and bounded. *)
Lemma derived_ceilings io c :
  (sc_max_workspaces c = 0 -> 1 <= resolved_workspaces io c <= 1024)
  /\ (sc_max_workspace_mem_mib c = 0 -> 1 <= resolved_mem_mib io c <= 32768).
Proof.
  unfold resolved_workspaces, resolved_mem_mib, derive_max_workspaces. pose proof (host_ram_positive (si_meminfo io)).
  split; intros ->; cbn; lia.
Qed.

(** C25: A supervisor that starts is closed and accounted for.  When [serve] gets to its loop on a host
    where none of its machines runs: outside dev mode the socket admits exactly the configured user; the
    tools, devices and policies of the profile are there; evidence of a confidential host always
    carries the hardware proof, and a software signer serves only in dev mode or where the operator
    opted in; an ingress edge without TLS listens on loopback, unless dev mode and the override ask
    for more; and the manager is a freshly started one with a ceiling between 1 and the protocol's
    maximum, so that everything shown of its executions applies. *)
Theorem started_supervisor_is_closed io h c b sv b' :
  serve io audit_text priv_path h c b = (Ok sv, b') ->
  0 <= sc_max_workspaces c -> h_vms h = ∅ -> h_unconfirmed h = ∅ ->
  (sc_dev_mode c = false -> exists uid, sc_expected_peer_uid c = Some uid /\ sv_auth sv = PeerAuth_RequireUid uid)
  /\ host_ready io c
  /\ match sc_execution_profile c with
     | ExecutionProfile_Standard =>
         sv_provider sv = Provider_Software (signing_key (sv_audit sv))
         /\ (sc_dev_mode c = true \/ si_allow_software io = true)
     | ExecutionProfile_ConfidentialAzure =>
         forall r ts ev, provider_generate (sv_provider sv) r ts = Ok ev ->
           exists report chain var_data ak msg sig, proof ev = Proof_SevSnpAzure report chain var_data ak msg sig
     end
  /\ (forall edge, sv_ingress sv = Some edge -> ie_mode edge = Ingress_plaintext ->
        is_loopback (sa_ip (ie_listen edge)) = true \/ (sc_dev_mode c = true /\ si_allow_public_bind io = true))
  /\ 1 <= sv_ceiling sv <= MAX_RUNNER_WORKSPACES
  /\ started (sv_config sv) (sv_ceiling sv) (sv_world sv).
Proof.
  intros Hs Hc Hv Hu. apply serve_ready_iff in Hs as (keys & [Ha Hl Hh Hd Hk Ho Hp Hg (pool & Hw & Hcfg) Hceil Hr Hm Hn Hi Hb Hsig Hsig'] & _).
  assert (1 <= sv_ceiling sv) as Hpos.
  { rewrite Hceil in Hr |- *. unfold resolved_workspaces in *. destruct (_ =? 0) eqn:Ez; [|lia].
    unfold derive_max_workspaces. lia. }
  split_and!; [..|lia|by apply Hr|].
  - intros Hdev. unfold resolve_auth in Ha. rewrite Hdev in Ha. destruct (sc_expected_peer_uid c); [|done].
    injection Ha as Ha. by eexists.
  - done.
  - unfold software_gate, software_provider_allowed in Hg. destruct (sc_execution_profile c).
    + injection Hp as <-. split; [done|]. destruct (sc_dev_mode c), (si_allow_software io); try done; auto.
    + intros r ts ev Hev. unfold build_provider in Hp. cbn in Hp. destruct (azure_open _); [|done]. injection Hp as Hp.
      rewrite <- Hp in Hev. by eapply azure_evidence.
  - intros edge He Hmode. unfold start_ingress in Hi. rewrite He in Hi. destruct (sc_ingress_domain c); [|done].
    destruct (si_ingress_bind io); [|done]. cbn in Hi. destruct (sc_ingress_tls_cert c), (sc_ingress_tls_key c); try done.
    + destruct (si_tls io); [|done]. injection Hi as <-. done.
    + unfold plaintext_listener_allowed in Hi. destruct (is_loopback _ || _) eqn:El; [|done]. injection Hi as <-. cbn.
      apply orb_true_iff in El as [|[]%andb_true_iff]; auto.
  - assert (w_host (sv_world sv) = h) as Hw'.
    { revert Hn. unfold manager_new. destruct (validate_workspace_ceiling _); [|done]. by intros [= <-]. }
    constructor; rewrite ?Hw'; [by do 2 eexists|done|done|lia|]. intros p Hpool. rewrite Hcfg in Hpool.
    unfold manager_config in Hpool. cbn in Hpool. subst pool. apply pool_sizes in Hw. lia.
Qed.

(** The start [io], with other outcomes of the last three steps. *)
Definition ending (ipc sigterm sigint : result string unit) (io : StartIo) : StartIo := {|
  si_confidential_mode := si_confidential_mode io; si_allow_software := si_allow_software io;
  si_allow_public_bind := si_allow_public_bind io; si_linux_x86_64 := si_linux_x86_64 io;
  si_getent_sandbox := si_getent_sandbox io; si_fs := si_fs io; si_meminfo := si_meminfo io;
  si_keys_dir := si_keys_dir io; si_key := si_key io; si_umask_mode := si_umask_mode io; si_generated := si_generated io;
  si_sev_open := si_sev_open io; si_tpm := si_tpm io; si_vcek := si_vcek io; si_ingress_bind := si_ingress_bind io;
  si_tls := si_tls io; si_ipc_bind := ipc; si_sigterm := sigterm; si_sigint := sigint |}.
(** What those steps answer, in their order, and whether the daemon had reported itself ready. *)
Definition last_steps (ipc sigterm sigint : result string unit) : option Chain * bool :=
  match ipc, sigterm, sigint with
  | Err e, _, _ => (Some ["binding supervisor IPC socket"; e], false)
  | Ok _, Err e, _ => (Some ["install SIGTERM handler"; e], true)
  | Ok _, Ok _, Err e => (Some ["install SIGINT handler"; e], true)
  | Ok _, Ok _, Ok _ => (None, true)
  end.
(** The refill loop is started before the ingress edge and the socket, and the daemon reports itself
    ready before the signal handlers are there: a start that fails in its last steps returns an error
    with the loop running, without the shutdown that reaps what it boots, and a failed handler does so
    after the report. *)
Theorem failed_start_leaves_refill_running io h c b sv b' ipc sigterm sigint :
  serve io audit_text priv_path h c b = (Ok sv, b') ->
  exists b'', serve (ending ipc sigterm sigint io) audit_text priv_path h c b
              = (from_option Err (Ok sv) (fst (last_steps ipc sigterm sigint)), b'')
    /\ bt_refill b'' = true /\ bt_ready b'' = (bt_ready b || snd (last_steps ipc sigterm sigint)).
Proof.
  intros (keys & [Ha Hl Hh Hd Hk Ho Hp Hs (pool & Hw & Hc) Hv Hr Hm Hn Hi Hb Hg Hg'] & ->)%serve_ready_iff.
  set (io' := ending ipc sigterm sigint io).
  unfold serve, profile_step. unfold_m. rewrite Ha. subst io'. cbn [ending si_confidential_mode]. rewrite Hl. cbn.
  rewrite (proj2 (requirements_iff (ending ipc sigterm sigint io) c) Hh). cbn.
  unfold open_audit. cbn. rewrite Hd, Hk, Ho. cbn. rewrite Hp. cbn. rewrite Hw.
  change (software_gate (ending ipc sigterm sigint io) c) with (software_gate io c). rewrite Hs.
  change (resolved_workspaces (ending ipc sigterm sigint io) c) with (resolved_workspaces io c).
  rewrite <- Hv, (proj2 (ceiling_iff _ (sv_ceiling sv))) by done. cbn. rewrite <- Hc, Hn. cbn.
  change (start_ingress (ending ipc sigterm sigint io) c) with (start_ingress io c). rewrite Hi. cbn.
  change (resolved_mem_mib (ending ipc sigterm sigint io) c) with (resolved_mem_mib io c). rewrite <- Hm.
  destruct ipc as [[]|], sigterm as [[]|], sigint as [[]|]; cbn; rewrite ?orb_true_r, ?orb_false_r; eexists;
    (split; [by destruct sv|done]).
Qed.
End ServeProofs.

Module StartupDemo.
#[local] Existing Instances toy_crypto AttestDemo.toy_env FirecrackerDemo.toy_hypervisor Scenario.vec0 Scenario.values0
  Scenario.manifests0 Scenario.events0.
#[local] Instance key_bytes : KeyBytes toy_crypto :=
  @Build_KeyBytes toy_crypto (fun k : Z => k :: replicate 31 0) (fun l => default 0 (head l)).
#[local] Instance key_bytes_laws : KeyBytesLaws toy_crypto key_bytes.
Proof. by split. Qed.

Definition executable : Node := Node_file 493 [].
Definition fs : Fs :=
  <[["dev"] := Node_dir 493]> (<[["dev"; "kvm"] := Node_file 432 []]>
  (<[["fc"] := executable]> (<[["jailer"] := executable]> ∅))).
Definition key_io : KeyIo :=
  {| kio_read := Ok tt; kio_write_priv := Write_done; kio_write_pub := Write_done; kio_chmod := Ok tt |}.
Definition io : StartIo := {|
  si_confidential_mode := false; si_allow_software := true; si_allow_public_bind := false; si_linux_x86_64 := true;
  si_getent_sandbox := false; si_fs := fs; si_meminfo := Some ("MemTotal:       16384000 kB");
  si_keys_dir := Ok tt; si_key := key_io; si_umask_mode := 420; si_generated := (7 : SigningKey (Crypto := toy_crypto));
  si_sev_open := Err "no device"; si_tpm := {| tpm2_nvread := Err "none"; tpm2_readpublic := Err "none"; tpm2_quote := fun _ => Err "none" |};
  si_vcek := fun _ _ => Ok []; si_ingress_bind := Ok tt; si_tls := Ok tt; si_ipc_bind := Ok tt;
  si_sigterm := Ok tt; si_sigint := Ok tt |}.
Definition loopback : SocketAddr := {| sa_ip := IpAddr_V4 127 0 0 1; sa_port := 8443 |}.
Definition config : SupervisorConfig := {|
  sc_execution_profile := ExecutionProfile_Standard; sc_socket := ["run"; "s"]; sc_expected_peer_uid := Some 998;
  sc_dev_mode := false; sc_firecracker_binary := ["fc"]; sc_jailer_binary := ["jailer"];
  sc_jailer_chroot_base := ["srv"; "jailer"]; sc_image_store := ["images"]; sc_jailer_uid := 1000; sc_jailer_gid := 1000;
  sc_openshell_sandbox_binary := ["sandbox"]; sc_state_dir := ["state"]; sc_max_workspaces := 0;
  sc_max_workspace_mem_mib := 0; sc_enable_networking := true; sc_upstream_iface := "eth0"; sc_dns_filter_binary := None;
  sc_dns_upstream := "1.1.1.1"; sc_privacy_router_binary := None; sc_privacy_router_policy := None;
  sc_warm_pool_tier := Some "base"; sc_warm_pool_snapshot := Some "snap"; sc_warm_pool_size := 2;
  sc_warm_pool_max_in_flight := 0; sc_ingress_domain := Some "apps.example"; sc_ingress_listen := loopback;
  sc_ingress_max_connections := 64; sc_ingress_tls_cert := None; sc_ingress_tls_key := None |}.
Definition host : Host := {| h_trees := ∅; h_vms := ∅; h_snapshots := ∅; h_unconfirmed := ∅ |}.
Definition empty_keys : KeysDir := {| kd_priv := None; kd_pub := None |}.
Definition boot : Boot := {| bt_keys := empty_keys; bt_log := File_missing; bt_refill := false; bt_ready := false |}.
Definition start := serve io (fun _ => "audit") "keys/audit-signing.ed25519" host config boot.

Lemma start_succeeds : is_ok (fst start) = true.
Proof. vm_compute. reflexivity. Qed.
Lemma started_supervisor_is_closed_witness :
  exists sv b', start = (Ok sv, b') /\ sv_auth sv = PeerAuth_RequireUid 998 /\ 1 <= sv_ceiling sv
    /\ started (sv_config sv) (sv_ceiling sv) (sv_world sv).
Proof.
  generalize start_succeeds. destruct start as [[sv|] b'] eqn:Hs; [intros _|discriminate].
  exists sv, b'. split; [reflexivity|].
  destruct (started_supervisor_is_closed (fun _ => "audit") "keys/audit-signing.ed25519" io host config boot sv b' Hs)
    as (Ha & _ & _ & _ & Hc & Hst); [cbn; lia|reflexivity|reflexivity|].
  destruct (Ha eq_refl) as (uid & [= <-] & Hu). split; [exact Hu|]. split; [lia|exact Hst].
Defined.
Lemma restart_keeps_identity_witness :
  let load := load_or_create_signing_key 420 "p" key_io in
  load 9 (snd (load 7 empty_keys)) = (Ok 7, snd (load 7 empty_keys)).
Proof.
  intros load. exact (proj1 (restart_keeps_identity 420 "p" key_io 7 empty_keys 7 _ key_io 9 eq_refl eq_refl)).
Defined.
Lemma interrupted_first_start_witness :
  let torn := {| kio_read := Ok tt; kio_write_priv := Write_torn 5 "disk full"; kio_write_pub := Write_done; kio_chmod := Ok tt |} in
  exists d', load_or_create_signing_key 420 "p" torn 7 empty_keys = (Err (KeyError_Io "disk full"), d')
    /\ forall io2 gen2, exists err, load_or_create_signing_key 420 "p" io2 gen2 d' = (Err err, d').
Proof.
  intros torn. apply (proj1 (interrupted_first_start (C := toy_crypto) 420 "p" torn 7 empty_keys eq_refl) 5%nat "disk full" eq_refl). lia.
Defined.
Lemma failed_start_leaves_refill_running_witness :
  exists b'', serve (ending (Ok tt) (Err "no signals") (Ok tt) io) (fun _ => "audit") "keys/audit-signing.ed25519" host config boot
              = (Err ["install SIGTERM handler"; "no signals"], b'') /\ bt_refill b'' = true /\ bt_ready b'' = true.
Proof.
  generalize start_succeeds. destruct start as [[sv|] b'] eqn:Hs; [intros _|discriminate].
  exact (failed_start_leaves_refill_running (fun _ => "audit") "keys/audit-signing.ed25519" io host config boot sv b'
    (Ok tt) (Err "no signals") (Ok tt) Hs).
Defined.
End StartupDemo.
